(* ===== verification/_CoqProject ===== *)
-Q . S2P
Prelude.v
Lists.v
Base.v
Canonical.v
Record.v
Payloads.v
State.v
Rules.v
Verdict.v
Plans.v
Activity.v
Evolution.v
Verifier.v
Standing.v
Checkpoint.v
Contexts.v
Replay.v
Storage.v
Writer.v
StorageFacts.v
Taint.v
Fold.v
Log.v
ReplayFacts.v
RecordFacts.v
AcceptFacts.v
Invariants.v
Examples.v
WorkFacts.v
LogTheorems.v
WorkTheorems.v
KeyTheorems.v
PlanFacts.v
PlanTheorems.v
StandingFacts.v
StandingTheorems.v
CheckpointTheorems.v
ContextTheorems.v
DataTheorems.v
WriterFacts.v
ApplyFacts.v
RecoveryFacts.v
WriterExamples.v
WriterTheorems.v
BatchTheorems.v
StorageTheorems.v
Queries.v
QueryTheorems.v
Manifest.v
ManifestTheorems.v
ManifestWalk.v
Receipts.v
Profiles.v
Delivery.v
Validate.v
ReceiptFacts.v
ReceiptTheorems.v
ProfileFacts.v
Delivered.v
ProfileTheorems.v
DeliveryFacts.v
DeliveryTheorems.v
Cli.v
CliTheorems.v
Commands.v
LineageFacts.v
CommandFacts.v
CauseFacts.v
CommandCauses.v
CommandTheorems.v
