(* ===== verification/Prelude.v ===== *)
(** * Bellbook: a verification library

    Bellbook is an append-only log of typed records.  Every proposal becomes
    an immutable, content-addressed subject record followed by a verdict record
    that accepts or rejects it; whoever holds the log can replay it from
    genesis and re-derive every verdict, the state, and what in it no longer
    deserves trust.  This library models the core of the crate [bellbook]
    (src/src/) and proves what it promises.

    ** The program and its model

    The program has four layers; each file of the library models one component
    of a layer, under the names of the source.

    Data.
    - [Base] - base/hash.rs, schema.rs, time.rs: digests, hex, schema ids,
      logical time.  A digest is a list of 32 bytes.
    - [Canonical] - base/canonical.rs: the RFC 8785 writer over
      [serde_json::Value], and the strict map and set decoders.
    - [Record] - record/kind.rs, refs.rs, author.rs, evidence.rs, record.rs,
      sign.rs: the record envelope, its id and its signing bytes.
    - [Payloads] - record/payloads.rs: the payload of every kind.

    Verification.
    - [State] - state/state.rs, incremental.rs, build.rs: the derived state, one
      fold step per record kind, and the unchecked build.  A step is a state and
      error monad ([eff]): the code mutates the state in place and can fail in
      between.
    - [Rules], [Verdict], [Plans], [Activity], [Evolution], [Verifier] -
      verify/rules.rs, verify/verifier/{verdict,plans,activity,lifecycle,
      evolution,record_checks}.rs: the checks, one function per function of the
      source, each returning the reason of the first failing rule.
    - [Standing] - verify/standing.rs: the lineage report.
    - [Checkpoint], [Replay] - checkpoint.rs, verify/verifier/replay.rs and the
      entry points of verify/verifier.rs and state/build.rs.

    Persistence.
    - [Storage] - log/storage.rs: length-prefixed frames on a disk on which
      every operation may fail and a failing write leaves any prefix.
    - [Writer] - log/writer/{core,helpers,intent}.rs: the commit protocol with
      its intent file, recovery, batches.  A machine is the writer in memory,
      the state its caller holds, and the disk.

    Consumers.
    - [Contexts] - context/context.rs; [Queries] - queries.rs; [Manifest] -
      manifest.rs.
    - [Receipts], [Profiles], [Delivery], [Validate] - receipt.rs and
      profiles/{mod,signed_v1,delivery_v1}.rs: exported receipts, their offline
      validation, and the profiles evaluated beside it.
    - [Cli] - bin/bellbook.rs: the commands [validate], [rules init] and
      [key public], from arguments and file contents to exit code and output.
    - [Commands] - bin/bellbook.rs, [persist_cmds], [cmd_evolution] and [main]:
      the flag parser and the log commands, from arguments, files and the disk
      of the log to the disk, the exit code and the value printed.  A recording
      command is a function from its flags, the author and the verified log to a
      proposal ([request_proposal], [candidate_proposal], ...), run by
      [recording]: open the log, build the proposal, commit it, drop the writer.

    ** Specifications and theorems

    [Log.Replays] is the specification of a valid log: an inductive relation
    between a log and the state folded from it, one rule per subject-verdict
    pair.  [ReplayFacts] shows that the replay loop decides it; almost every
    other theorem is about [Replays], by rule induction, and so holds of every
    log [verify_log] accepts.

    - Whole logs (C1-C6, [LogTheorems]): the verifier decides [Replays]; the
      safe build returns the replayed state; taint is exactly reachability from
      the retracted records; ids bind contents; times have no gap; verification
      is incremental.
    - Authority and work (C7-C12, [WorkTheorems]): an accepted action was
      authorised, a pinned identity signs, approvals are spent once, evidence is
      not inflated, open actions are exact, closed requests stay closed.
    - Requirements, plans, standing (C14-C18, [KeyTheorems], [PlanTheorems],
      [StandingTheorems]).
    - The command line (C13, C23 and C25, [CommandTheorems], [CliTheorems]): a
      recording command appends exactly the record it describes, reports its
      verdict and releases the lock; what it records is never rejected for a
      reason it could have known; the exit code of [validate].
    - Checkpoints (C19, C20, [CheckpointTheorems]): a trusted checkpoint neither
      admits nor loses a log.
    - Data formats (C21, C22, C24, C27, [DataTheorems]).
    - Writer and storage (C28-C35, [WriterTheorems], [BatchTheorems],
      [StorageTheorems]): commits are exact, crash safe and idempotent under
      retry; every subject is decidable; appends and scans.
    - Consumers (C36-C40 and C26, [ContextTheorems], [QueryTheorems],
      [ManifestWalk], [ReceiptTheorems], [ProfileTheorems], [DeliveryTheorems]):
      contexts, lineage queries, content commitments, receipt validation, the
      signed tier and delivery receipts, each characterised on the accepted
      records alone.

    The files ending in [Facts], with [Taint], [Fold], [Invariants] and
    [CommandCauses], hold the lemmas these rest on; [Examples], [WriterExamples] and [Delivered] the
    concrete logs and disks at which the theorems are instantiated.

    ** Third-party code

    Code outside src/ is a parameter.  [Base.Primitives]: SHA-256, Ed25519 and
    the ECMAScript float printer.  [Payloads.Serde], [Storage.RecordParser],
    [Receipts.ReceiptParser], [Commands.RulesParser]: the derived [serde_json]
    parsers.
    [Profiles.TextFormat]: the [Debug] escaping of a string.
    [HashOrder]: the iteration order of hash maps, any permutation.
    What theorems assume of them is named: [parses] and [verdicts_roundtrip]
    (a parser reads what the writer wrote), [self_blind] (the checks of a
    record do not resolve the record itself, which takes a hash fixpoint), [ed25519_correct]
    (signing and verifying agree).  Nothing is assumed of SHA-256: where the
    argument needs distinct digests, the conclusion is a disjunction with
    [sha256_collision], which exhibits two inputs with one digest.

    ** Integers, fuel and bounds

    Machine integers are [N] or [Z] with their wrap-around or checked arithmetic
    written out ([u64_max], [checked_add_u64]).  Loops that do not recurse on
    structure run on fuel, and a theorem shows it is enough: the taint cascade
    ([mark_fuel], the dependence edges), Kahn's algorithm ([kahn_fuel], the
    tasks), the post-order walk of standing ([standing_fuel]), the frame reader
    ([read_frames], the bytes), the ancestor walk ([descent_fuel], the refs),
    the worktree walk ([walk_dirs], the directories) and the parents of an
    accepted candidate ([parent_chain], the records).  From a rejected
    candidate that loop follows whatever the record claims; only the hash keeps
    such claims from closing a cycle.

    ** Not modelled

    - The text of errors and reports: [Display] and [Debug] implementations.
      The explanatory details of profile clauses are modelled as strings, the
      problem of a report as one constructor per message.
    - What the commands of bin/bellbook.rs print besides their value, a standard
      output that fails, and the stub of a build without the persist feature.
    - bindings/python (glue over the public functions), examples and fuzz targets.
    - The file system beyond what the storage uses: a walk sees one fixed tree,
      and a disk keeps what a successful write left. *)

From Stdlib Require Export Strings.Byte.
From Stdlib Require Import Lia.
From stdpp Require Export sorting base gmap sets strings pretty numbers list.

(** ** Notations *)

Declare Scope bellbook_scope.
Delimit Scope bellbook_scope with bb.
#[global] Open Scope bellbook_scope.

(** Early return of a verifier rule: [reject_if b with r ;; k] is the Rust
    [if b { return Some(r) } ; k]. *)
Notation "'reject_if' b 'with' r ;; k" := (if b then Some r else k)
  (at level 10, b at level 99, r at level 99, k at level 200) : bellbook_scope.

(** [let? x := e else r ;; k]: [let Some(x) = e else { return r }]. *)
Notation "'let?' x ':=' e 'else' r ;; k" :=
  (match e with Some x => k | None => r end)
  (at level 10, x pattern, e at level 99, r at level 99, k at level 200) : bellbook_scope.

(** Propagating a rejection: [if let Some(reason) = e { return Some(reason) }]
    and [match e { Err(reason) => return Some(reason), Ok(x) => .. }]. *)
Notation "'check?' e ;; k" := (match e with Some r => Some r | None => k end)
  (at level 10, e at level 99, k at level 200) : bellbook_scope.
Notation "'try?' x ':=' e ;; k" :=
  (match e with inl r => Some r | inr x => k end)
  (at level 10, x pattern, e at level 99, k at level 200) : bellbook_scope.

(** Boolean membership in a finite set and boolean key lookup. *)
Notation "x '∈?' X" := (bool_decide (x ∈ X)) (at level 70) : bellbook_scope.
Notation "x '=?' y" := (bool_decide (x = y)) (at level 70) : bellbook_scope.

(** ** Automation *)

Create HintDb bellbook.
Create Rewrite HintDb bellbook.

(** Split a hypothesis or goal over boolean connectives and decisions. *)
Ltac bool_simpl :=
  repeat match goal with
  | H : andb _ _ = true |- _ => apply andb_true_iff in H as [? ?]
  | H : orb _ _ = false |- _ => apply orb_false_iff in H as [? ?]
  | H : negb _ = true |- _ => apply negb_true_iff in H
  | H : negb _ = false |- _ => apply negb_false_iff in H
  | H : bool_decide _ = true |- _ => apply bool_decide_eq_true_1 in H
  | H : bool_decide _ = false |- _ => apply bool_decide_eq_false_1 in H
  | H : Is_true _ |- _ => apply Is_true_true_1 in H
  end.

(** Destruct the scrutinee of the leftmost conditional or match of a
    hypothesis that equates a rule's outcome, recording the equation. *)
Ltac case_rule H :=
  match type of H with
  | context [match ?x with _ => _ end] =>
      lazymatch x with
      | context [match _ with _ => _ end] => fail
      | _ => let E := fresh "E" in destruct x eqn:E; try discriminate H
      end
  end.

(** Step through every guard of an accepting rule. *)
Ltac rule_inv H := repeat (case_rule H); bool_simpl; simplify_eq/=.

(** ** Three-way comparison

    Rust's [Ord]: [cmp] with its laws.  Arrays, strings and tuples compare
    lexicographically, [Option] puts [None] first. *)

Class Cmp (A : Type) := cmp : A → A → comparison.

Class CmpLaws (A : Type) `{Cmp A} := {
  cmp_eq_iff : ∀ x y : A, cmp x y = Eq ↔ x = y;
  cmp_flip : ∀ x y : A, cmp y x = CompOpp (cmp x y);
  cmp_lt_trans : ∀ x y z : A, cmp x y = Lt → cmp y z = Lt → cmp x z = Lt;
}.

Definition ltb `{Cmp A} (x y : A) : bool :=
  match cmp x y with Lt => true | _ => false end.
Definition leb `{Cmp A} (x y : A) : bool :=
  match cmp x y with Gt => false | _ => true end.

Definition cmp_then (c d : comparison) : comparison :=
  match c with Eq => d | _ => c end.

#[export] Instance cmp_N : Cmp N := N.compare.
#[export] Instance cmp_Z : Cmp Z := Z.compare.
#[export] Instance cmp_byte : Cmp byte := λ a b, N.compare (Byte.to_N a) (Byte.to_N b).
#[export] Instance cmp_prod `{Cmp A, Cmp B} : Cmp (A * B) :=
  λ x y, cmp_then (cmp x.1 y.1) (cmp x.2 y.2).
#[export] Instance cmp_option `{Cmp A} : Cmp (option A) := λ x y,
  match x, y with
  | None, None => Eq
  | None, Some _ => Lt
  | Some _, None => Gt
  | Some a, Some b => cmp a b
  end.
#[export] Instance cmp_list `{Cmp A} : Cmp (list A) :=
  fix go l k := match l, k with
  | [], [] => Eq
  | [], _ :: _ => Lt
  | _ :: _, [] => Gt
  | a :: l, b :: k => cmp_then (cmp a b) (go l k)
  end.
#[export] Instance cmp_string : Cmp string :=
  λ s t, cmp (String.list_byte_of_string s) (String.list_byte_of_string t).

#[export] Instance cmp_laws_N : CmpLaws N.
Proof.
  split; unfold cmp, cmp_N.
  - apply N.compare_eq_iff.
  - intros x y. apply N.compare_antisym.
  - intros x y z. rewrite !N.compare_lt_iff. lia.
Qed.

#[export] Instance cmp_laws_Z : CmpLaws Z.
Proof.
  split; unfold cmp, cmp_Z.
  - apply Z.compare_eq_iff.
  - intros x y. apply Z.compare_antisym.
  - intros x y z. rewrite !Z.compare_lt_iff. lia.
Qed.

Lemma byte_to_N_inj (a b : byte) : Byte.to_N a = Byte.to_N b → a = b.
Proof.
  intros H. apply (f_equal Byte.of_N) in H. rewrite !Byte.of_to_N in H. congruence.
Qed.

#[export] Instance cmp_laws_byte : CmpLaws byte.
Proof.
  split; unfold cmp, cmp_byte.
  - intros x y. rewrite N.compare_eq_iff. split; [apply byte_to_N_inj | congruence].
  - intros x y. apply N.compare_antisym.
  - intros x y z. rewrite !N.compare_lt_iff. lia.
Qed.

Section cmp_laws.
Context `{Cmp A, !CmpLaws A}.
Implicit Types x y z : A.

Lemma cmp_refl x : cmp x x = Eq.
Proof. by apply cmp_eq_iff. Qed.

Lemma cmp_gt_lt x y : cmp x y = Gt ↔ cmp y x = Lt.
Proof. rewrite (cmp_flip x y). destruct (cmp x y); naive_solver. Qed.

Lemma ltb_lt x y : ltb x y = true ↔ cmp x y = Lt.
Proof. unfold ltb. destruct (cmp x y); naive_solver. Qed.

Lemma leb_not_gt x y : leb x y = true ↔ cmp x y ≠ Gt.
Proof. unfold leb. destruct (cmp x y); naive_solver. Qed.

Lemma ltb_irrefl x : ltb x x = false.
Proof. unfold ltb. by rewrite cmp_refl. Qed.

Lemma ltb_trans x y z : ltb x y = true → ltb y z = true → ltb x z = true.
Proof. rewrite !ltb_lt. apply cmp_lt_trans. Qed.

Lemma leb_total x y : leb x y = true ∨ leb y x = true.
Proof. unfold leb. rewrite (cmp_flip x y). destruct (cmp x y); auto. Qed.

Lemma leb_antisym x y : leb x y = true → leb y x = true → x = y.
Proof.
  unfold leb. rewrite (cmp_flip x y). destruct (cmp x y) eqn:E; simpl; try done.
  intros _ _. by apply cmp_eq_iff.
Qed.

Lemma leb_trans x y z : leb x y = true → leb y z = true → leb x z = true.
Proof.
  unfold leb. destruct (cmp x y) eqn:E1; try done.
  - apply cmp_eq_iff in E1 as ->. done.
  - destruct (cmp y z) eqn:E2; try done.
    + apply cmp_eq_iff in E2 as ->. by rewrite E1.
    + by rewrite (cmp_lt_trans _ _ _ E1 E2).
Qed.

Lemma leb_ltb x y : leb x y = true ↔ x = y ∨ ltb x y = true.
Proof.
  unfold leb, ltb. destruct (cmp x y) eqn:E.
  - apply cmp_eq_iff in E. naive_solver.
  - naive_solver.
  - split; [done|]. intros [->|?]; [|done]. rewrite cmp_refl in E. done.
Qed.
End cmp_laws.

Lemma cmp_pair `{Cmp A, Cmp B} (a c : A) (b d : B) :
  cmp (a, b) (c, d) = cmp_then (cmp a c) (cmp b d).
Proof. done. Qed.

#[export] Instance cmp_laws_prod `{Cmp A, !CmpLaws A, Cmp B, !CmpLaws B} :
  CmpLaws (A * B).
Proof.
  split.
  - intros [a b] [c d]. rewrite cmp_pair. destruct (cmp a c) eqn:E; simpl.
    + apply cmp_eq_iff in E as ->. rewrite cmp_eq_iff. naive_solver.
    + split; [done|]. intros [= -> ->]. by rewrite cmp_refl in E.
    + split; [done|]. intros [= -> ->]. by rewrite cmp_refl in E.
  - intros [a b] [c d]. rewrite !cmp_pair, (cmp_flip a c).
    destruct (cmp a c); simpl; [apply cmp_flip | done | done].
  - intros [a b] [c d] [e f]. rewrite !cmp_pair.
    destruct (cmp a c) eqn:E1; try done; destruct (cmp c e) eqn:E2; try done; simpl.
    + apply cmp_eq_iff in E1 as ->. apply cmp_eq_iff in E2 as ->.
      rewrite cmp_refl; simpl. apply cmp_lt_trans.
    + apply cmp_eq_iff in E1 as ->. by rewrite E2.
    + apply cmp_eq_iff in E2 as ->. by rewrite E1.
    + by rewrite (cmp_lt_trans _ _ _ E1 E2).
Qed.

#[export] Instance cmp_laws_option `{Cmp A, !CmpLaws A} : CmpLaws (option A).
Proof.
  split.
  - intros [a|] [b|]; try done; cbn. rewrite cmp_eq_iff. naive_solver.
  - intros [a|] [b|]; try done; cbn. apply cmp_flip.
  - intros [a|] [b|] [c|]; try done; cbn. apply cmp_lt_trans.
Qed.

Lemma cmp_cons `{Cmp A} (a b : A) (l k : list A) :
  cmp (a :: l) (b :: k) = cmp_then (cmp a b) (cmp l k).
Proof. done. Qed.

#[export] Instance cmp_laws_list `{Cmp A, !CmpLaws A} : CmpLaws (list A).
Proof.
  split.
  - induction x as [|a l IH]; intros [|b k]; try done. rewrite cmp_cons.
    destruct (cmp a b) eqn:E; simpl.
    + apply cmp_eq_iff in E as ->. rewrite IH. naive_solver.
    + split; [done|]. intros [= -> ->]. by rewrite cmp_refl in E.
    + split; [done|]. intros [= -> ->]. by rewrite cmp_refl in E.
  - induction x as [|a l IH]; intros [|b k]; try done. rewrite !cmp_cons, (cmp_flip a b). destruct (cmp a b); simpl; auto.
  - induction x as [|a l IH]; intros [|b k] [|c m]; try done. rewrite !cmp_cons.
    destruct (cmp a b) eqn:E1; try done; destruct (cmp b c) eqn:E2; try done; simpl.
    + apply cmp_eq_iff in E1 as ->. apply cmp_eq_iff in E2 as ->.
      rewrite cmp_refl; simpl. apply IH.
    + apply cmp_eq_iff in E1 as ->. by rewrite E2.
    + apply cmp_eq_iff in E2 as ->. by rewrite E1.
    + by rewrite (cmp_lt_trans _ _ _ E1 E2).
Qed.

Lemma list_byte_of_string_inj (s t : string) :
  String.list_byte_of_string s = String.list_byte_of_string t → s = t.
Proof.
  intros H. rewrite <- (String.string_of_list_byte_of_string s),
    <- (String.string_of_list_byte_of_string t). congruence.
Qed.

(** A comparison obtained by mapping injectively into an ordered type. *)
Lemma cmp_laws_inj `{Cmp A, !CmpLaws A} `{Cmp B} (f : B → A) :
  (∀ x y, cmp x y = cmp (f x) (f y)) →
  (∀ x y, f x = f y → x = y) → CmpLaws B.
Proof.
  intros Hc Hf. split.
  - intros x y. rewrite Hc, cmp_eq_iff. split; [apply Hf | congruence].
  - intros x y. rewrite !Hc. apply cmp_flip.
  - intros x y z. rewrite !Hc. apply cmp_lt_trans.
Qed.

#[export] Instance cmp_laws_string : CmpLaws string.
Proof.
  apply (cmp_laws_inj String.list_byte_of_string); [done | apply list_byte_of_string_inj].
Qed.

(** ** Sorting

    [slice::sort_by] is a stable comparison sort: insertion keeps the
    elements that compare equal in their original order. *)

Section sort_by.
Context {A : Type} (c : A → A → comparison).

Fixpoint insert_by (x : A) (l : list A) : list A :=
  match l with
  | [] => [x]
  | y :: k => match c x y with Gt => y :: insert_by x k | _ => x :: l end
  end.

Definition sort_by (l : list A) : list A := foldr insert_by [] l.

Lemma sort_by_cons x l : sort_by (x :: l) = insert_by x (sort_by l).
Proof. done. Qed.

Definition le_by (x y : A) : Prop := c x y ≠ Gt.

Lemma insert_by_perm x l : insert_by x l ≡ₚ x :: l.
Proof.
  induction l as [|y l IH]; simpl; [done|].
  destruct (c x y); [done | done |]. rewrite IH. constructor.
Qed.

Lemma sort_by_perm l : sort_by l ≡ₚ l.
Proof. induction l as [|x l IH]; simpl; [done|]. by rewrite insert_by_perm, IH. Qed.

Lemma elem_of_sort_by x l : x ∈ sort_by l ↔ x ∈ l.
Proof. by rewrite sort_by_perm. Qed.

Context (Hflip : ∀ x y, c x y = Gt → c y x ≠ Gt).
Context (Htrans : ∀ x y z, le_by x y → le_by y z → le_by x z).

Lemma insert_by_sorted x l :
  StronglySorted le_by l → StronglySorted le_by (insert_by x l).
Proof.
  induction 1 as [|y l Hl IH Hy]; simpl; [repeat constructor|].
  destruct (c x y) eqn:E.
  - constructor; [by constructor|]. constructor; [unfold le_by; congruence|].
    eapply Forall_impl; [exact Hy|]. intros z. apply Htrans. unfold le_by; congruence.
  - constructor; [by constructor|]. constructor; [unfold le_by; congruence|].
    eapply Forall_impl; [exact Hy|]. intros z. apply Htrans. unfold le_by; congruence.
  - constructor; [done|]. rewrite insert_by_perm. constructor; [by apply Hflip | done].
Qed.

Lemma sort_by_id l : StronglySorted le_by l → sort_by l = l.
Proof.
  induction 1 as [|x l Hl IH Hx]; [done|]. rewrite sort_by_cons, IH.
  destruct Hx as [|y l Hxy _]; [done|]. simpl. unfold le_by in Hxy. by destruct (c x y).
Qed.

Lemma sort_by_sorted l : StronglySorted le_by (sort_by l).
Proof. induction l; simpl; [constructor | by apply insert_by_sorted]. Qed.
End sort_by.

Section sort_cmp.
Context `{Cmp A, !CmpLaws A}.

Lemma le_by_leb (x y : A) : le_by cmp x y ↔ leb x y = true.
Proof. unfold le_by. by rewrite leb_not_gt. Qed.

Lemma sort_cmp_sorted (l : list A) : StronglySorted (le_by cmp) (sort_by cmp l).
Proof.
  apply sort_by_sorted.
  - intros x y E. apply cmp_gt_lt in E. congruence.
  - intros x y z. rewrite !le_by_leb. apply leb_trans.
Qed.

Lemma sort_cmp_unique (l k : list A) : l ≡ₚ k → sort_by cmp l = sort_by cmp k.
Proof.
  intros Hp. apply (StronglySorted_unique_strong (le_by cmp)).
  - intros x y _ _. rewrite !le_by_leb. apply leb_antisym.
  - apply sort_cmp_sorted.
  - apply sort_cmp_sorted.
  - by rewrite !sort_by_perm.
Qed.

Lemma sort_cmp_id (l : list A) : StronglySorted (le_by cmp) l → sort_by cmp l = l.
Proof.
  intros Hl. apply (StronglySorted_unique_strong (le_by cmp)).
  - intros x y _ _. rewrite !le_by_leb. apply leb_antisym.
  - apply sort_cmp_sorted.
  - done.
  - apply sort_by_perm.
Qed.
End sort_cmp.

(** [windows(2)], [Vec::dedup] and strictly increasing lists. *)
Fixpoint windows2 {A} (l : list A) : list (A * A) :=
  match l with
  | a :: (b :: _) as k => (a, b) :: windows2 k
  | _ => []
  end.

Definition strictly_increasing `{Cmp A} (l : list A) : bool :=
  forallb (λ w, ltb w.1 w.2) (windows2 l).

Fixpoint dedup `{EqDecision A} (l : list A) : list A :=
  match l with
  | a :: (b :: _) as k => if decide (a = b) then dedup k else a :: dedup k
  | _ => l
  end.

Section strictly_increasing.
Context `{Cmp A, !CmpLaws A}.

Lemma strictly_increasing_cons (a b : A) l :
  strictly_increasing (a :: b :: l) = ltb a b && strictly_increasing (b :: l).
Proof. done. Qed.

Lemma strictly_increasing_spec (l : list A) :
  strictly_increasing l = true ↔ StronglySorted (λ x y, ltb x y = true) l.
Proof.
  induction l as [|a [|b l] IH].
  - split; [constructor | done].
  - split; [repeat constructor | done].
  - rewrite strictly_increasing_cons, andb_true_iff, IH. split.
    + intros [Hab Hs]. constructor; [done|].
      inversion_clear Hs as [|?? Hs' Hb]. constructor; [done|].
      eapply Forall_impl; [exact Hb|]. intros z. apply ltb_trans. done.
    + inversion_clear 1 as [|?? Hs Ha]. split; [by inversion_clear Ha | done].
Qed.

Lemma strictly_increasing_NoDup (l : list A) :
  strictly_increasing l = true → NoDup l.
Proof.
  rewrite strictly_increasing_spec. induction 1 as [|a l Hl IH Ha]; constructor; [|done].
  intros Hin. rewrite Forall_forall in Ha. specialize (Ha a Hin).
  by rewrite ltb_irrefl in Ha.
Qed.

(** A strictly increasing list is determined by its elements. *)
Lemma strictly_increasing_ext (l k : list A) :
  strictly_increasing l = true → strictly_increasing k = true →
  (∀ x, x ∈ l ↔ x ∈ k) → l = k.
Proof.
  intros Hl Hk Hx.
  apply (StronglySorted_unique_strong (λ x y, ltb x y = true)).
  - intros x y _ _ H1 H2. assert (Hc := ltb_trans _ _ _ H1 H2).
    by rewrite ltb_irrefl in Hc.
  - by apply strictly_increasing_spec.
  - by apply strictly_increasing_spec.
  - apply NoDup_Permutation; [by apply strictly_increasing_NoDup.. | done].
Qed.

Context `{!EqDecision A}.

Lemma elem_of_dedup (x : A) l : x ∈ dedup l ↔ x ∈ l.
Proof.
  induction l as [|a [|b l] IH]; [done | done |].
  change (dedup (a :: b :: l)) with
    (if decide (a = b) then dedup (b :: l) else a :: dedup (b :: l)).
  case_decide as E.
  - subst a. rewrite IH, !elem_of_cons. tauto.
  - rewrite elem_of_cons, IH, !elem_of_cons. tauto.
Qed.

Lemma dedup_head (a : A) l : ∃ k, dedup (a :: l) = a :: k.
Proof.
  revert a. induction l as [|b l IH]; intros a; [by exists []|].
  change (dedup (a :: b :: l)) with
    (if decide (a = b) then dedup (b :: l) else a :: dedup (b :: l)).
  case_decide as E; [subst a; apply IH | eauto].
Qed.

Lemma dedup_sorted (l : list A) :
  StronglySorted (le_by cmp) l → strictly_increasing (dedup l) = true.
Proof.
  induction l as [|a [|b l] IH]; [done | done |]. intros Hs.
  change (dedup (a :: b :: l)) with
    (if decide (a = b) then dedup (b :: l) else a :: dedup (b :: l)).
  inversion_clear Hs as [|?? Hs' Ha]. specialize (IH Hs').
  case_decide as E; [done|].
  destruct (dedup_head b l) as [k Hk]. rewrite Hk in IH |- *.
  rewrite strictly_increasing_cons, IH, andb_true_r.
  inversion_clear Ha as [|?? Hab _]. apply le_by_leb, leb_ltb in Hab as [->|]; done.
Qed.

Lemma dedup_id (l : list A) : strictly_increasing l = true → dedup l = l.
Proof.
  induction l as [|a [|b l] IH]; [done | done |].
  rewrite strictly_increasing_cons, andb_true_iff. intros [Hab Hs].
  change (dedup (a :: b :: l)) with
    (if decide (a = b) then dedup (b :: l) else a :: dedup (b :: l)).
  case_decide as E; [|by rewrite IH]. subst. by rewrite ltb_irrefl in Hab.
Qed.

Lemma strictly_increasing_sorted (l : list A) :
  strictly_increasing l = true → StronglySorted (le_by cmp) l.
Proof.
  rewrite strictly_increasing_spec. induction 1 as [|a l Hl IH Ha]; constructor; [done|].
  eapply Forall_impl; [exact Ha|]. intros x Hx. apply le_by_leb, leb_ltb. by right.
Qed.
End strictly_increasing.

(** The first reason a loop with early return produces. *)
Fixpoint first_some {A B} (f : A → option B) (l : list A) : option B :=
  match l with
  | [] => None
  | a :: l => match f a with Some b => Some b | None => first_some f l end
  end.

Lemma first_some_None {A B} (f : A → option B) l :
  first_some f l = None ↔ Forall (λ a, f a = None) l.
Proof.
  induction l as [|a l IH]; simpl; [by split|]. rewrite Forall_cons, <- IH.
  destruct (f a); naive_solver.
Qed.

(** Iteration over a [HashMap]: some order of its entries. *)
Class HashOrder := {
  hash_iter {K V} `{Countable K} : gmap K V → list (K * V);
  hash_iter_perm {K V} `{Countable K} (m : gmap K V) : hash_iter m ≡ₚ map_to_list m;
}.

(** ** Fixed-width unsigned integers *)

Definition u8_max : N := 255.
Definition u32_max : N := 2 ^ 32 - 1.
Definition u64_max : N := 2 ^ 64 - 1.

(** [u64::checked_add] and [u64::saturating_add]. *)
Definition checked_add_u64 (a b : N) : option N :=
  if N.leb (a + b) u64_max then Some (a + b)%N else None.
Definition saturating_add_u64 (a b : N) : N := N.min (a + b) u64_max.
Definition saturating_add_u32 (a b : N) : N := N.min (a + b) u32_max.

(** [a + b] and [a - b] on [u64] in a release build; where a debug build
    would panic instead, the component proves the operation in range. *)
Definition add_u64 (a b : N) : N := ((a + b) mod 2 ^ 64)%N.
Definition sub_u64 (a b : N) : N := ((a + 2 ^ 64 - b) mod 2 ^ 64)%N.

Lemma add_u64_small a b : (a + b <= u64_max)%N → add_u64 a b = (a + b)%N.
Proof. unfold add_u64, u64_max. intros. rewrite N.mod_small; lia. Qed.

Lemma sub_u64_small a b : (b <= a <= u64_max)%N → sub_u64 a b = (a - b)%N.
Proof.
  unfold sub_u64, u64_max. intros.
  replace (a + 2 ^ 64 - b)%N with (a - b + 1 * 2 ^ 64)%N by lia.
  rewrite N.Div0.mod_add, N.mod_small; lia.
Qed.

Lemma checked_add_u64_Some a b c :
  checked_add_u64 a b = Some c ↔ c = (a + b)%N ∧ (a + b <= u64_max)%N.
Proof.
  unfold checked_add_u64. destruct (N.leb_spec (a + b) u64_max); split; try naive_solver lia.
Qed.

(** ** Results and effects

    [result E A] is Rust's [Result<A, E>]; [eff S E A] threads a state that
    a failing step leaves as it was mutated so far. *)

Abbreviation result E A := (sum E A) (only parsing).
Abbreviation Ok := inr (only parsing).
Abbreviation Err := inl (only parsing).

#[export] Instance result_ret {E} : MRet (sum E) := λ A x, inr x.
#[export] Instance result_bind {E} : MBind (sum E) := λ A B f x,
  match x with inl e => inl e | inr a => f a end.

#[export] Instance result_fmap {E} : FMap (sum E) := λ A B f x,
  match x with inl e => inl e | inr a => inr (f a) end.

Definition ok_or {A E} (o : option A) (e : E) : E + A :=
  match o with Some a => inr a | None => inl e end.
Definition ok {A E} (r : E + A) : option A :=
  match r with inr a => Some a | inl _ => None end.
Definition is_ok {A E} (r : E + A) : bool :=
  match r with inr _ => true | inl _ => false end.

(** [Option::is_some]. *)
Definition is_Some_b {A} (o : option A) : bool :=
  match o with Some _ => true | None => false end.

Definition eff (S E A : Type) : Type := S → S * (E + A).

#[export] Instance eff_ret {S E} : MRet (eff S E) := λ A x s, (s, inr x).
#[export] Instance eff_bind {S E} : MBind (eff S E) := λ A B f m s,
  match m s with
  | (s', inl e) => (s', inl e)
  | (s', inr a) => f a s'
  end.

Definition get {S E} : eff S E S := λ s, (s, inr s).
Definition gets {S E A} (f : S → A) : eff S E A := λ s, (s, inr (f s)).
Definition modify {S E} (f : S → S) : eff S E unit := λ s, (f s, inr tt).
Definition fail {S E A} (e : E) : eff S E A := λ s, (s, inl e).
Definition lift_opt {S E A} (e : E) (o : option A) : eff S E A := λ s, (s, ok_or o e).
Definition lift_res {S E A} (r : E + A) : eff S E A := λ s, (s, r).

(** [preserves P m]: running [m] from a state satisfying [P] ends in one,
    whether it succeeds or fails. *)
Definition preserves {S E A} (P : S → Prop) (m : eff S E A) : Prop := ∀ s, P s → P (m s).1.

Section eff_facts.
Context {S E : Type} (P : S → Prop).

Lemma preserves_ret {A} (x : A) : preserves P (mret x : eff S E A).
Proof. by intros s Hs. Qed.

Lemma preserves_bind {A B} (m : eff S E A) (f : A → eff S E B) :
  preserves P m → (∀ a, preserves P (f a)) → preserves P (m ≫= f).
Proof.
  intros Hm Hf s Hs. specialize (Hm s Hs). unfold mbind, eff_bind.
  destruct (m s) as [s1 [e|a]]; [done | by apply Hf].
Qed.

Lemma preserves_modify (f : S → S) :
  (∀ s, P s → P (f s)) → preserves P (modify f : eff S E unit).
Proof. by intros Hf s Hs; apply Hf. Qed.

Lemma preserves_lift_opt {A} (e : E) (o : option A) : preserves P (lift_opt e o : eff S E A).
Proof. by intros s Hs. Qed.

Lemma preserves_bind_lift {A B} (e : E) (o : option A) (f : A → eff S E B) :
  (∀ a, o = Some a → preserves P (f a)) → preserves P (lift_opt e o ≫= f).
Proof.
  intros Hf s Hs. unfold mbind, eff_bind, lift_opt. destruct o; simpl; [by apply Hf | done].
Qed.

Lemma eff_bind_ok {A B} (m : eff S E A) (f : A → eff S E B) s s' b :
  (m ≫= f) s = (s', inr b) → ∃ s1 a, m s = (s1, inr a) ∧ f a s1 = (s', inr b).
Proof. unfold mbind, eff_bind. destruct (m s) as [s1 [e|a]]; [done|eauto]. Qed.

Lemma lift_opt_ok {A} (e : E) (o : option A) s s' a :
  (lift_opt e o : eff S E A) s = (s', inr a) → s' = s ∧ o = Some a.
Proof. unfold lift_opt. destruct o; simpl; by intros [= -> ->]. Qed.
End eff_facts.

#[export] Hint Resolve preserves_ret preserves_modify preserves_lift_opt : bellbook.

(** Invert a successful run into its steps. *)
Ltac eff_inv H :=
  repeat match type of H with
  | (_ ≫= _) _ = (_, inr _) =>
      let s1 := fresh "s" in let a := fresh "a" in let H1 := fresh "Hrun" in
      apply eff_bind_ok in H as (s1 & a & H1 & H);
      first [ apply lift_opt_ok in H1 as [-> H1]
            | unfold modify in H1; injection H1 as <- <- | idtac ]
  end;
  first [ unfold modify in H; injection H as <-
        | unfold mret, eff_ret in H; injection H as <- | idtac ].
