(* ===== verification/Lists.v ===== *)
(** * Lists

    Lemmas about lists and options that several components share: emptiness of
    filtered, mapped and sorted lists, membership in concatenations, lookups in
    sorted lists. *)

From S2P Require Export Prelude.

(** Injective images of permuted lists. *)
Lemma fmap_Permutation_inj {A B} (f : A → B) `{!Inj (=) (=) f} (l k : list A) :
  f <$> l ≡ₚ f <$> k → l ≡ₚ k.
Proof.
  intros (k' & E & Hk)%Permutation_map_inv. apply list_fmap_eq_inj in E as ->; [|done]. by symmetry.
Qed.

Lemma forallb_Forall {A} (f : A → bool) (P : A → Prop) l :
  (∀ x, f x = true ↔ P x) → forallb f l = true ↔ Forall P l.
Proof.
  intros Hf. rewrite forallb_forall, Forall_forall. setoid_rewrite list_elem_of_In. by setoid_rewrite Hf.
Qed.

Lemma dedup_nil_iff `{EqDecision A} (l : list A) : dedup l = [] ↔ l = [].
Proof.
  split; [|by intros ->]. destruct l as [|a l]; [done|]. by destruct (dedup_head a l) as [k ->].
Qed.

Lemma sort_by_nil_iff {A} (c : A → A → comparison) l : sort_by c l = [] ↔ l = [].
Proof.
  split; [|by intros ->]. intros E. pose proof (sort_by_perm c l) as Hp. rewrite E in Hp.
  by apply Permutation_nil in Hp.
Qed.

Lemma filter_nil_iff {A} (f : A → bool) l :
  filter (λ x, f x = true) l = [] ↔ ∀ x, x ∈ l → f x = false.
Proof.
  rewrite <- Forall_forall. induction l as [|x l IH]; [done|].
  rewrite filter_cons, Forall_cons, <- IH. case_decide as E; [rewrite E | apply not_true_iff_false in E; rewrite E];
    naive_solver.
Qed.

Lemma map_nil_iff {A B} (f : A → B) (l : list A) : f <$> l = [] ↔ l = [].
Proof. by destruct l. Qed.

Lemma list_elem_of_concat {A} (x : A) ls : x ∈ concat ls ↔ ∃ l, x ∈ l ∧ l ∈ ls.
Proof. rewrite list_elem_of_In, in_concat. setoid_rewrite list_elem_of_In. naive_solver. Qed.

Lemma is_Some_b_true {A} (o : option A) : is_Some_b o = true ↔ is_Some o.
Proof. destruct o; simpl; split; done. Qed.

Lemma omap_step {A B} (f : A → option B) x l :
  omap f (x :: l) = match f x with Some y => y :: omap f l | None => omap f l end.
Proof. done. Qed.

Lemma length_omap_le {A B} (f : A → option B) l : (length (omap f l) <= length l)%nat.
Proof.
  induction l as [|x l IH]; [done|]. rewrite omap_step. destruct (f x); cbn [length]; lia.
Qed.

Lemma length_omap {A B} (f : A → option B) l :
  length (omap f l) = length l ↔ ∀ x, x ∈ l → is_Some (f x).
Proof.
  rewrite <- Forall_forall. induction l as [|x l IH]; [done|]. rewrite Forall_cons, <- IH, omap_step.
  pose proof (length_omap_le f l). destruct (f x); cbn [length].
  - split; [intros E; split; [by eexists | lia] | intros [_ E]; lia].
  - split; [lia | by intros [[? [=]] _]].
Qed.

Lemma sorted_lookup {A} (R : A → A → Prop) l i j x y :
  StronglySorted R l → i < j → l !! i = Some x → l !! j = Some y → R x y.
Proof.
  intros Hl. revert i j. induction Hl as [|z l Hl IH Hz]; intros i j Hij Hi Hj; [done|].
  destruct j as [|j]; [lia|]. simpl in Hj. destruct i as [|i]; simpl in Hi.
  - injection Hi as ->. rewrite Forall_forall in Hz. eapply Hz, list_elem_of_lookup_2, Hj.
  - eapply IH; [|done..]. lia.
Qed.

Lemma omap_nil_iff {A B} (f : A → option B) l : omap f l = [] ↔ ∀ x, x ∈ l → f x = None.
Proof.
  rewrite <- Forall_forall. induction l as [|x l IH]; [done|]. rewrite Forall_cons, <- IH, omap_step.
  destruct (f x); naive_solver.
Qed.

Lemma concat_nil_iff {A} (l : list (list A)) : concat l = [] ↔ ∀ x, x ∈ l → x = [].
Proof. rewrite concat_nil_Forall. apply Forall_forall. Qed.
