(* ===== verification/Base.v ===== *)
(** * Foundations: digests, hex, schema ids and logical time

    Models src/src/base/hash.rs, src/src/base/schema.rs and
    src/src/base/time.rs.  The third-party primitives the crate calls
    (SHA-256, the ECMAScript float printer, Ed25519) are the operations of
    the class [Primitives]; nothing is assumed of them here. *)

From S2P Require Export Prelude.
From Stdlib Require Export Floats.SpecFloat.

(** ** 32-byte arrays *)

Abbreviation bytes := (list byte).

#[export] Instance byte_eq_dec : EqDecision byte := Byte.byte_eq_dec.
#[export] Program Instance byte_countable : Countable byte :=
  inj_countable Byte.to_N Byte.of_N _.
Next Obligation. intros b. apply Byte.of_to_N. Qed.

(** [pub type Hash256 = [u8; 32]]: the length is part of the type. *)
Record Hash256 := mk_hash {
  hash_bytes : bytes;
  hash_len : Is_true (length hash_bytes =? 32)
}.

Lemma hash_eq (h k : Hash256) : hash_bytes h = hash_bytes k → h = k.
Proof.
  destruct h as [a Ha], k as [b Hb]; simpl. intros ->. f_equal. apply proof_irrel.
Qed.

Lemma hash_length (h : Hash256) : length (hash_bytes h) = 32.
Proof. destruct h as [a Ha]; simpl. by apply bool_decide_unpack in Ha. Qed.

#[export] Instance hash_eq_dec : EqDecision Hash256.
Proof.
  refine (λ h k, cast_if (decide (hash_bytes h = hash_bytes k))); [by apply hash_eq | congruence].
Defined.

(** [<[u8; 32]>::try_from(slice)]. *)
Definition hash_of_bytes (b : bytes) : option Hash256 :=
  match decide (Is_true (length b =? 32)) with
  | left H => Some (mk_hash b H)
  | right _ => None
  end.

Lemma hash_of_to_bytes (h : Hash256) : hash_of_bytes (hash_bytes h) = Some h.
Proof.
  unfold hash_of_bytes. case_decide as E.
  - f_equal. by apply hash_eq.
  - destruct E. apply bool_decide_pack, hash_length.
Qed.

Lemma hash_of_bytes_Some b h : hash_of_bytes b = Some h ↔ hash_bytes h = b.
Proof.
  split.
  - unfold hash_of_bytes. case_decide; [|done]. by intros [= <-].
  - intros <-. apply hash_of_to_bytes.
Qed.

#[export] Instance hash_countable : Countable Hash256 :=
  inj_countable hash_bytes hash_of_bytes hash_of_to_bytes.

#[export] Instance cmp_hash : Cmp Hash256 := λ h k, cmp (hash_bytes h) (hash_bytes k).
#[export] Instance cmp_laws_hash : CmpLaws Hash256.
Proof. apply (cmp_laws_inj hash_bytes); [done | apply hash_eq]. Qed.

(** [[b; 32]]. *)
Definition hash_fill (b : byte) : Hash256 := mk_hash (replicate 32 b) I.
Definition zero_hash : Hash256 := hash_fill x00.

(** ** Third-party primitives *)

Class Primitives := {
  (** [sha2::Sha256]: the digest of a byte sequence. *)
  sha256 : bytes → Hash256;
  (** [ryu_js::Buffer::format_finite]. *)
  ryu_format_finite : spec_float → bytes;
  (** [ed25519_dalek::VerifyingKey::from_bytes] succeeds. *)
  ed25519_key_valid : Hash256 → bool;
  (** [VerifyingKey::verify_strict] accepts (key, message, signature). *)
  ed25519_verify_strict : Hash256 → bytes → bytes → bool;
  (** [SigningKey::verifying_key] of the 32 secret bytes. *)
  ed25519_public : Hash256 → Hash256;
  (** [SigningKey::sign]: secret bytes, message, 64 signature bytes. *)
  ed25519_sign : Hash256 → bytes → bytes;
}.

(** ** base/hash.rs *)

Section hash.
Context `{Primitives}.

(** [sha256_utf8]. *)
Definition sha256_utf8 (s : string) : Hash256 := sha256 (String.list_byte_of_string s).

(** [sha256_concat_ids]: the digest of the concatenated ids. *)
Definition sha256_concat_ids (ids : list Hash256) : Hash256 :=
  sha256 (concat (hash_bytes <$> ids)).
End hash.

(** One lowercase hex digit of [{:02x}]. *)
Definition hex_digit (n : N) : byte :=
  default x00 (Byte.of_N (if (n <? 10)%N then 48 + n else 87 + n)%N).

Definition hex_byte (b : byte) : bytes :=
  [hex_digit (Byte.to_N b / 16); hex_digit (Byte.to_N b `mod` 16)].

(** [hex_encode]. *)
Definition hex_encode (h : Hash256) : string :=
  String.string_of_list_byte (concat (hex_byte <$> hash_bytes h)).

(** The [nibble] helper of [hex_decode]. *)
Definition nibble (b : byte) : option N :=
  let n := Byte.to_N b in
  if (48 <=? n)%N && (n <=? 57)%N then Some (n - 48)%N
  else if (97 <=? n)%N && (n <=? 102)%N then Some (n - 97 + 10)%N
  else None.

(** The decoding loop: two nibbles per output byte. *)
Fixpoint hex_pairs (l : bytes) : option bytes :=
  match l with
  | [] => Some []
  | a :: b :: k =>
      hi ← nibble a; lo ← nibble b;
      out ← Byte.of_N (N.lor (N.shiftl hi 4) lo);
      (out ::.) <$> hex_pairs k
  | _ => None
  end.

(** [hex_decode]: exactly 64 lowercase hex characters. *)
Definition hex_decode (s : string) : option Hash256 :=
  let l := String.list_byte_of_string s in
  if negb (length l =? 64) then None else hex_pairs l ≫= hash_of_bytes.

(** ** base/schema.rs *)

Definition SchemaId := Hash256.

Definition schema_id `{Primitives} (name : string) : SchemaId := sha256_utf8 name.

Definition SPEC_VERSION : string := "0.4".
Definition SUPPORTED_SPEC_VERSIONS : list string := ["0.3"; "0.4"].
Definition DEFAULT_SPACE_NAME : string := "bellbook.default_space.v1".
Definition default_space `{Primitives} : Hash256 := sha256_utf8 DEFAULT_SPACE_NAME.

Definition SCHEMA_REQUEST : string := "bellbook.request.v1".
Definition SCHEMA_ACTION : string := "bellbook.action.v1".
Definition SCHEMA_RESPONSE : string := "bellbook.response.v1".
Definition SCHEMA_RESULT : string := "bellbook.result.v1".
Definition SCHEMA_RESULT_EXTERNAL : string := "bellbook.result.external_receipt.v1".
Definition SCHEMA_RESULT_EFFECT_CONFIRMATION : string :=
  "bellbook.result.effect_confirmation.v1".
Definition SCHEMA_CAPABILITY : string := "bellbook.capability.v1".
Definition SCHEMA_APPROVAL : string := "bellbook.approval.v1".
Definition SCHEMA_SUMMARY : string := "bellbook.summary.v1".
Definition SCHEMA_REFUSAL : string := "bellbook.refusal.v1".
Definition SCHEMA_USAGE : string := "bellbook.usage.v1".
Definition SCHEMA_VERDICT : string := "bellbook.verdict.v1".
Definition SCHEMA_PLAN : string := "bellbook.plan.v1".
Definition SCHEMA_RETRACTION : string := "bellbook.retraction.v1".
Definition SCHEMA_CANDIDATE : string := "bellbook.candidate.v1".
Definition SCHEMA_EVALUATION : string := "bellbook.evaluation.v1".
Definition SCHEMA_SELECTION : string := "bellbook.selection.v1".
Definition SCHEMA_REQUIREMENT : string := "bellbook.requirement.v1".
Definition SCHEMA_EVALUATION_V2 : string := "bellbook.evaluation.v2".
Definition SCHEMA_EVALUATION_ATTESTED : string := "bellbook.evaluation.attested.v1".

(** The schema set of epoch 0.3. *)
Definition SCHEMAS_V03 : list string :=
  [SCHEMA_REQUEST; SCHEMA_ACTION; SCHEMA_RESPONSE; SCHEMA_RESULT;
   SCHEMA_RESULT_EXTERNAL; SCHEMA_RESULT_EFFECT_CONFIRMATION;
   SCHEMA_CAPABILITY; SCHEMA_APPROVAL; SCHEMA_SUMMARY; SCHEMA_REFUSAL;
   SCHEMA_USAGE; SCHEMA_VERDICT; SCHEMA_PLAN; SCHEMA_RETRACTION;
   SCHEMA_CANDIDATE; SCHEMA_EVALUATION; SCHEMA_SELECTION].

(** Every frozen schema name of the current epoch. *)
Definition ALL_SCHEMAS : list string :=
  [SCHEMA_REQUEST; SCHEMA_ACTION; SCHEMA_RESPONSE; SCHEMA_RESULT;
   SCHEMA_RESULT_EXTERNAL; SCHEMA_RESULT_EFFECT_CONFIRMATION;
   SCHEMA_CAPABILITY; SCHEMA_APPROVAL; SCHEMA_SUMMARY; SCHEMA_REFUSAL;
   SCHEMA_USAGE; SCHEMA_VERDICT; SCHEMA_PLAN; SCHEMA_RETRACTION;
   SCHEMA_CANDIDATE; SCHEMA_EVALUATION; SCHEMA_SELECTION;
   SCHEMA_REQUIREMENT; SCHEMA_EVALUATION_V2; SCHEMA_EVALUATION_ATTESTED].

Definition schemas_for_epoch (spec_version : string) : option (list string) :=
  if spec_version =? "0.3" then Some SCHEMAS_V03
  else if spec_version =? "0.4" then Some ALL_SCHEMAS
  else None.

Definition schema_name_for_id `{Primitives} (id : SchemaId) : option string :=
  snd <$> list_find (λ n, schema_id n = id) ALL_SCHEMAS.

(** ** base/time.rs *)

(** [Time = u64]: the logical commit counter. *)
Definition Time := N.

Record TimeSource := { ts_next : N }.

Definition from_last_time (last_time : option Time) : TimeSource :=
  {| ts_next := saturating_add_u64 (default 0%N last_time) 1 |}.

(** [next_time]: the time handed out and the advanced counter. *)
Definition next_time (ts : TimeSource) : Time * TimeSource :=
  (ts_next ts, {| ts_next := saturating_add_u64 (ts_next ts) 1 |}).

Definition exhausted (ts : TimeSource) : bool := (u64_max - 1 <=? ts_next ts)%N.

Definition peek (ts : TimeSource) : Time := ts_next ts.

(** ** Hex identifiers have exactly one spelling *)

Lemma hex_pairs_byte b l : hex_pairs (hex_byte b ++ l) = (b ::.) <$> hex_pairs l.
Proof. destruct b; reflexivity. Qed.

Lemma nibble_Some a n : nibble a = Some n → a = hex_digit n ∧ (n < 16)%N.
Proof. destruct a; intros [= <-]; by split. Qed.

Lemma lt_16_cases (n : N) :
  (n < 16)%N → n ∈ [0; 1; 2; 3; 4; 5; 6; 7; 8; 9; 10; 11; 12; 13; 14; 15]%N.
Proof. intros. rewrite !elem_of_cons. lia. Qed.

Lemma nibbles_byte hi lo b :
  (hi < 16)%N → (lo < 16)%N → Byte.of_N (N.lor (N.shiftl hi 4) lo) = Some b →
  hex_byte b = [hex_digit hi; hex_digit lo].
Proof.
  intros Hhi%lt_16_cases Hlo%lt_16_cases.
  assert (Hall : Forall (λ h, Forall (λ l,
    match Byte.of_N (N.lor (N.shiftl h 4) l) with
    | Some b => hex_byte b = [hex_digit h; hex_digit l]
    | None => True
    end) [0; 1; 2; 3; 4; 5; 6; 7; 8; 9; 10; 11; 12; 13; 14; 15]%N)
    [0; 1; 2; 3; 4; 5; 6; 7; 8; 9; 10; 11; 12; 13; 14; 15]%N).
  { repeat constructor. }
  rewrite Forall_forall in Hall. specialize (Hall hi Hhi).
  rewrite Forall_forall in Hall. specialize (Hall lo Hlo). intros E. by rewrite E in Hall.
Qed.

Lemma hex_pairs_encode l : hex_pairs (concat (hex_byte <$> l)) = Some l.
Proof.
  induction l as [|b l IH]; [done|].
  change (hex_pairs (hex_byte b ++ concat (hex_byte <$> l)) = Some (b :: l)).
  by rewrite hex_pairs_byte, IH.
Qed.

Lemma hex_pairs_decode l b : hex_pairs l = Some b → concat (hex_byte <$> b) = l.
Proof.
  revert b. induction l as [l IH] using (induction_ltof1 _ length). unfold ltof in IH.
  destruct l as [|a [|c k]]; intros b Hb; [by injection Hb as <- | done |].
  simpl in Hb. destruct (nibble a) as [hi|] eqn:Ea; [|done].
  destruct (nibble c) as [lo|] eqn:Ec; [|done]. simpl in Hb.
  destruct (Byte.of_N _) as [o|] eqn:Eo; [|done]. simpl in Hb.
  destruct (hex_pairs k) as [out|] eqn:Ek; [|done]. simpl in Hb. injection Hb as <-.
  apply nibble_Some in Ea as [-> Hhi]. apply nibble_Some in Ec as [-> Hlo].
  change (hex_byte o ++ concat (hex_byte <$> out) = hex_digit hi :: hex_digit lo :: k).
  rewrite (nibbles_byte _ _ _ Hhi Hlo Eo). simpl. do 2 f_equal. apply IH; [simpl; lia | done].
Qed.

Lemma length_hex_bytes l : length (concat (hex_byte <$> l)) = 2 * length l.
Proof.
  induction l as [|b l IH]; [done|].
  change (length (hex_byte b ++ concat (hex_byte <$> l)) = 2 * S (length l)).
  rewrite length_app, IH. simpl. lia.
Qed.

(** Decoding inverts encoding. *)
Lemma hex_decode_encode h : hex_decode (hex_encode h) = Some h.
Proof.
  unfold hex_decode, hex_encode.
  rewrite String.list_byte_of_string_of_list_byte, length_hex_bytes, hash_length.
  simpl. rewrite hex_pairs_encode. simpl. apply hash_of_to_bytes.
Qed.

Lemma hex_encode_decode s h : hex_decode s = Some h → hex_encode h = s.
Proof.
  unfold hex_decode, hex_encode. case_match; [done|].
  destruct (hex_pairs _) as [b|] eqn:Eb; [|done]. simpl.
  rewrite hash_of_bytes_Some. intros ->.
  rewrite (hex_pairs_decode _ _ Eb). apply String.string_of_list_byte_of_string.
Qed.

(** ** Logical time *)

Lemma exhausted_false ts :
  exhausted ts = false → (ts_next ts + 1 < u64_max)%N.
Proof. unfold exhausted. rewrite N.leb_gt. unfold u64_max. lia. Qed.

Lemma next_time_fresh ts :
  exhausted ts = false →
  ts_next (next_time ts).2 = (ts_next ts + 1)%N ∧
  checked_add_u64 (peek ts) 1 = Some (ts_next ts + 1)%N.
Proof.
  intros He%exhausted_false. unfold next_time, checked_add_u64, saturating_add_u64, peek; simpl.
  rewrite N.min_l by lia. destruct (N.leb_spec (ts_next ts + 1) u64_max); [done | lia].
Qed.

(** ** Sequences of ids under one digest *)

Lemma concat_hashes_inj (l k : list Hash256) :
  concat (hash_bytes <$> l) = concat (hash_bytes <$> k) → l = k.
Proof.
  revert k. induction l as [|h l IH]; intros [|h' k]; rewrite ?fmap_cons; simpl; intros Heq.
  - done.
  - apply (f_equal length) in Heq. rewrite length_app, hash_length in Heq. simpl in Heq. lia.
  - apply (f_equal length) in Heq. rewrite length_app, hash_length in Heq. simpl in Heq. lia.
  - apply app_inj_1 in Heq as [Hh Hk]; [|by rewrite !hash_length].
    apply hash_eq in Hh as ->. f_equal. by apply IH.
Qed.

(** Two different byte strings with one digest. *)
Definition sha256_collision `{Primitives} : Prop :=
  ∃ a b : bytes, a ≠ b ∧ sha256 a = sha256 b.

Lemma sha256_eq_or_collision `{Primitives} a b :
  sha256 a = sha256 b → a = b ∨ sha256_collision.
Proof. intros Hs. destruct (decide (a = b)); [by left|]. right. by exists a, b. Qed.

Lemma sha256_concat_ids_binds `{Primitives} l k :
  sha256_concat_ids l = sha256_concat_ids k → l = k ∨ sha256_collision.
Proof.
  intros [Hc|]%sha256_eq_or_collision; [left; by apply concat_hashes_inj | by right].
Qed.
