(* ===== verification/Canonical.v ===== *)
(** * RFC 8785 canonical JSON

    Models src/src/base/canonical.rs: the JCS writer over [serde_json::Value]
    and the strict map and set decoders.  The output of a writer step is the
    byte string it appends; a refusal is [None]. *)

From S2P Require Export Base.

(** ** Text: [str::chars], UTF-8 and UTF-16 *)

Definition byte_of (n : N) : byte := default x00 (Byte.of_N n).
Abbreviation code := Byte.to_N.
Definition lit (s : string) : bytes := String.list_byte_of_string s.

(** [char::encode_utf8]. *)
Definition encode_utf8 (c : N) : bytes :=
  (if c <? 128 then [byte_of c]
   else if c <? 2048 then [byte_of (192 + c / 64); byte_of (128 + c mod 64)]
   else if c <? 65536 then
     [byte_of (224 + c / 4096); byte_of (128 + c / 64 mod 64); byte_of (128 + c mod 64)]
   else
     [byte_of (240 + c / 262144); byte_of (128 + c / 4096 mod 64);
      byte_of (128 + c / 64 mod 64); byte_of (128 + c mod 64)])%N.

(** [char::encode_utf16]. *)
Definition encode_utf16 (c : N) : list N :=
  (if c <? 65536 then [c]
   else [55296 + (c - 65536) / 1024; 56320 + (c - 65536) mod 1024])%N.

(** [str::chars]: the scalar values of a UTF-8 byte string. *)
Fixpoint utf8_chars (l : bytes) : list N :=
  match l with
  | [] => []
  | a :: l1 =>
    if (code a <? 128)%N then code a :: utf8_chars l1 else
    match l1 with
    | [] => []
    | b :: l2 =>
      if (code a <? 224)%N then
        ((code a mod 32) * 64 + code b mod 64)%N :: utf8_chars l2 else
      match l2 with
      | [] => []
      | c :: l3 =>
        if (code a <? 240)%N then
          ((code a mod 16) * 4096 + (code b mod 64) * 64 + code c mod 64)%N :: utf8_chars l3 else
        match l3 with
        | [] => []
        | d :: l4 =>
          ((code a mod 8) * 262144 + (code b mod 64) * 4096
             + (code c mod 64) * 64 + code d mod 64)%N :: utf8_chars l4
        end
      end
    end
  end.

Definition chars (s : string) : list N := utf8_chars (lit s).
Definition utf16 (s : string) : list N := concat (encode_utf16 <$> chars s).

(** Every Rust [String] is UTF-8: it is the encoding of its characters, and
    each is a Unicode scalar value. *)
Definition is_scalar (c : N) : bool :=
  (c <? 55296)%N || (57344 <=? c)%N && (c <? 1114112)%N.
Definition str_wf (s : string) : bool :=
  forallb is_scalar (chars s) && (concat (encode_utf8 <$> chars s) =? lit s).

(** ** [serde_json::Value] *)

Inductive Number :=
  | PosInt (u : N)         (* u64 *)
  | NegInt (i : Z)         (* i64, negative *)
  | Float (f : spec_float) (* f64 *).

Inductive Value :=
  | VNull
  | VBool (b : bool)
  | VNumber (n : Number)
  | VString (s : string)
  | VArray (items : list Value)
  | VObject (map : list (string * Value)).

Definition as_u64 (n : Number) : option N :=
  match n with PosInt u => Some u | _ => None end.
Definition as_i64 (n : Number) : option Z :=
  match n with
  | PosInt u => if (u <? 2 ^ 63)%N then Some (Z.of_N u) else None
  | NegInt i => Some i
  | Float _ => None
  end.
Definition as_f64 (n : Number) : option spec_float :=
  match n with Float f => Some f | _ => None end.

(** ** The writer *)

Definition MAX_SAFE_INTEGER : N := 9007199254740991.

(** [MAX_SAFE_INTEGER as f64] and [INTEGER_LITERAL_LIMIT = 1e21], both
    exactly representable. *)
Definition MAX_SAFE_F64 : spec_float := S754_finite false 9007199254740991 0.
Definition INTEGER_LITERAL_LIMIT : spec_float := S754_finite false 7629394531250000 17.

Definition is_finite_SF (f : spec_float) : bool :=
  match f with S754_zero _ | S754_finite _ _ _ => true | _ => false end.

(** The escape of one character inside a string literal. *)
Definition escape (c : N) : bytes :=
  (if c =? 34 then lit "\" ++ [byte_of 34]
   else if c =? 92 then lit "\\"
   else if c =? 8 then lit "\b"
   else if c =? 12 then lit "\f"
   else if c =? 10 then lit "\n"
   else if c =? 13 then lit "\r"
   else if c =? 9 then lit "\t"
   else if c <? 32 then
     lit "\u" ++ [hex_digit 0; hex_digit 0; hex_digit (c / 16); hex_digit (c mod 16)]
   else encode_utf8 c)%N.

Definition quote : byte := byte_of 34.

Definition write_string (s : string) : bytes :=
  quote :: concat (escape <$> chars s) ++ [quote].

#[global] Arguments write_string : simpl never.

Section writer.
Context `{Primitives}.

(** [to_string] of an integer is its decimal form. *)
Definition write_number (n : Number) : option bytes :=
  match as_u64 n with
  | Some u => if (MAX_SAFE_INTEGER <? u)%N then None else Some (lit (pretty u))
  | None =>
    match as_i64 n with
    | Some i => if (i <? - Z.of_N MAX_SAFE_INTEGER)%Z then None else Some (lit (pretty i))
    | None =>
      match as_f64 n with
      | Some f =>
          if negb (is_finite_SF f) then None
          else if SFltb MAX_SAFE_F64 (SFabs f) && SFltb (SFabs f) INTEGER_LITERAL_LIMIT
          then None
          else Some (ryu_format_finite f)
      | None => None
      end
    end
  end.

(** Elements separated by commas. *)
Definition comma_join (parts : list bytes) : bytes :=
  match parts with
  | [] => []
  | p :: ps => p ++ concat ((λ q, lit "," ++ q) <$> ps)
  end.

(** [map.get(key)]. *)
Definition map_get {A} (key : string) (m : list (string * A)) : option A :=
  snd ∘ snd <$> list_find (λ e, e.1 = key) m.

(** [write_object]: members in the order of their names' UTF-16 code
    units; each value is looked up again under its key. *)
Definition write_object (m : list (string * option bytes)) : option bytes :=
  let keys := sort_by (λ a b, cmp (utf16 a) (utf16 b)) (fst <$> m) in
  parts ← mapM (λ key,
    value ← map_get key m;
    out ← value;
    Some (write_string key ++ lit ":" ++ out)) keys;
  Some (lit "{" ++ comma_join parts ++ lit "}").

Fixpoint write_jcs (value : Value) : option bytes :=
  match value with
  | VNull => Some (lit "null")
  | VBool true => Some (lit "true")
  | VBool false => Some (lit "false")
  | VNumber n => write_number n
  | VString s => Some (write_string s)
  | VArray items =>
      parts ← mapM id (map write_jcs items);
      Some (lit "[" ++ comma_join parts ++ lit "]")
  | VObject m => write_object (map (λ e, (e.1, write_jcs e.2)) m)
  end.
End writer.

(** ** Serialization

    [Serialize A]: the [serde_json::Value] a type's [#[derive(Serialize)]]
    (with its field attributes) produces. *)

Class Serialize (A : Type) := to_value : A → Value.

#[export] Instance ser_value : Serialize Value := id.
#[export] Instance ser_bool : Serialize bool := VBool.
#[export] Instance ser_string : Serialize string := VString.
#[export] Instance ser_u64 : Serialize N := λ n, VNumber (PosInt n).
#[export] Instance ser_i64 : Serialize Z := λ z,
  VNumber (if (z <? 0)%Z then NegInt z else PosInt (Z.to_N z)).
#[export] Instance ser_byte : Serialize byte := λ b, VNumber (PosInt (code b)).
#[export] Instance ser_list `{Serialize A} : Serialize (list A) := λ l, VArray (to_value <$> l).
#[export] Instance ser_option `{Serialize A} : Serialize (option A) := λ o,
  match o with Some a => to_value a | None => VNull end.
#[export] Instance ser_pair `{Serialize A, Serialize B} : Serialize (A * B) := λ p,
  VArray [to_value p.1; to_value p.2].
#[export] Instance ser_hash : Serialize Hash256 := λ h, to_value (hash_bytes h).

Definition canonical_json `{Primitives, Serialize A} (value : A) : option bytes :=
  write_jcs (to_value value).

Definition sha256_canonical `{Primitives, Serialize A} (value : A) : option Hash256 :=
  sha256 <$> canonical_json value.

(** ** Strict decoding of maps and sets

    The visitors of [map_as_pairs], [strict_map] and [strict_set] over the
    already parsed entries: a repeated key or member is an error. *)

Section strict.
Context {K V : Type} `{Countable K}.

Fixpoint visit_pairs (m : gmap K V) (entries : list (K * V)) : option (gmap K V) :=
  match entries with
  | [] => Some m
  | (key, value) :: rest =>
      match m !! key with
      | Some _ => None
      | None => visit_pairs (<[key := value]> m) rest
      end
  end.

Fixpoint visit_members (s : gset K) (members : list K) : option (gset K) :=
  match members with
  | [] => Some s
  | x :: rest => if x ∈? s then None else visit_members ({[x]} ∪ s) rest
  end.

Definition strict_map_de (entries : list (K * V)) : option (gmap K V) := visit_pairs ∅ entries.
Definition strict_set_de (members : list K) : option (gset K) := visit_members ∅ members.

Context `{Cmp K}.

(** [BTreeMap] and [BTreeSet] iterate in key order. *)
Definition btree_entries (m : gmap K V) : list (K * V) :=
  sort_by (λ a b, cmp a.1 b.1) (map_to_list m).
Definition btree_members (s : gset K) : list K := sort_by cmp (elements s).

(** [map_as_pairs::serialize]: a sequence of [[key, value]] pairs. *)
Definition map_as_pairs_ser `{Serialize K, Serialize V} (m : gmap K V) : Value :=
  to_value (btree_entries m).
Definition strict_set_ser `{Serialize K} (s : gset K) : Value := to_value (btree_members s).
End strict.

(** ** Facts about text *)

#[local] Ltac Zify.zify_post_hook ::= Z.to_euclidean_division_equations.

Lemma code_byte_of n : (n < 256)%N → code (byte_of n) = n.
Proof.
  intros Hn. unfold byte_of. destruct (Byte.of_N n) as [b|] eqn:E; simpl.
  - by apply Byte.to_of_N.
  - apply Byte.of_N_None_iff in E. lia.
Qed.

(** One character of UTF-8, and one character of a string literal. *)
Definition utf8_next (l : bytes) : option (N * bytes) :=
  match l with
  | [] => None
  | a :: l1 =>
    if (code a <? 128)%N then Some (code a, l1) else
    match l1 with
    | [] => None
    | b :: l2 =>
      if (code a <? 224)%N then Some ((code a mod 32) * 64 + code b mod 64, l2)%N else
      match l2 with
      | [] => None
      | c :: l3 =>
        if (code a <? 240)%N then
          Some ((code a mod 16) * 4096 + (code b mod 64) * 64 + code c mod 64, l3)%N else
        match l3 with
        | [] => None
        | d :: l4 =>
          Some ((code a mod 8) * 262144 + (code b mod 64) * 4096
             + (code c mod 64) * 64 + code d mod 64, l4)%N
        end
      end
    end
  end.

Lemma utf8_next_encode c r : (c < 2097152)%N → utf8_next (encode_utf8 c ++ r) = Some (c, r).
Proof.
  intros Hc. unfold encode_utf8.
  destruct (N.ltb_spec c 128); [|destruct (N.ltb_spec c 2048); [|destruct (N.ltb_spec c 65536)]];
    simpl; rewrite !code_byte_of by lia.
  - destruct (N.ltb_spec c 128); [done | lia].
  - destruct (N.ltb_spec (192 + c / 64) 128); [lia|].
    destruct (N.ltb_spec (192 + c / 64) 224); [do 2 f_equal; lia | lia].
  - destruct (N.ltb_spec (224 + c / 4096) 128); [lia|].
    destruct (N.ltb_spec (224 + c / 4096) 224); [lia|].
    destruct (N.ltb_spec (224 + c / 4096) 240); [do 2 f_equal; lia | lia].
  - destruct (N.ltb_spec (240 + c / 262144) 128); [lia|].
    destruct (N.ltb_spec (240 + c / 262144) 224); [lia|].
    destruct (N.ltb_spec (240 + c / 262144) 240); [lia|]. do 2 f_equal; lia.
Qed.

Lemma code_lt a : (code a < 256)%N.
Proof. destruct a; vm_compute; reflexivity. Qed.

Lemma utf8_chars_bound l : Forall (λ c, (c < 2097152)%N) (utf8_chars l).
Proof.
  induction l as [l IH] using (induction_ltof1 _ length). unfold ltof in IH.
  destruct l as [|a l1]; [constructor|]. cbn [utf8_chars]. pose proof (code_lt a).
  destruct (N.ltb_spec (code a) 128); [constructor; [lia | apply IH; simpl; lia]|].
  destruct l1 as [|b l2]; [constructor|]. pose proof (code_lt b).
  destruct (code a <? 224)%N; [constructor; [lia | apply IH; simpl; lia]|].
  destruct l2 as [|c l3]; [constructor|]. pose proof (code_lt c).
  destruct (code a <? 240)%N; [constructor; [lia | apply IH; simpl; lia]|].
  destruct l3 as [|d l4]; [constructor|]. pose proof (code_lt d).
  constructor; [lia | apply IH; simpl; lia].
Qed.

Lemma encode_utf8_head c :
  (c < 2097152)%N → ∃ a l, encode_utf8 c = a :: l ∧
    (code a = c ∧ l = [] ∧ (c < 128)%N ∨ (128 <= code a ∧ 128 <= c)%N).
Proof.
  intros Hc. unfold encode_utf8.
  destruct (N.ltb_spec c 128); [|destruct (N.ltb_spec c 2048); [|destruct (N.ltb_spec c 65536)]];
    eexists _, _; (split; [reflexivity|]);
    rewrite !code_byte_of by lia; [left; auto | right; lia..].
Qed.

(** Reading back one character of a string literal; [None] at its end. *)
Definition unescape (l : bytes) : option (N * bytes) :=
  match l with
  | [] => None
  | a :: k =>
    if (code a =? 34)%N then None
    else if (code a =? 92)%N then
      match k with
      | b :: r =>
        (if code b =? 34 then Some (34, r)
         else if code b =? 92 then Some (92, r)
         else if code b =? 98 then Some (8, r)
         else if code b =? 102 then Some (12, r)
         else if code b =? 110 then Some (10, r)
         else if code b =? 114 then Some (13, r)
         else if code b =? 116 then Some (9, r)
         else match r with
              | _ :: _ :: h :: l :: r' =>
                  match nibble h, nibble l with
                  | Some h, Some l => Some (h * 16 + l, r')
                  | _, _ => None
                  end
              | _ => None
              end)%N
      | [] => None
      end
    else utf8_next l
  end.

Lemma small_codes (P : N → Prop) :
  Forall P (N.of_nat <$> seq 0 128) → ∀ c, (c < 128)%N → P c.
Proof.
  intros HP c Hc. rewrite Forall_forall in HP. apply HP.
  apply list_elem_of_fmap. exists (N.to_nat c). split; [lia|]. apply elem_of_seq. lia.
Qed.

Lemma unescape_escape c r : (c < 2097152)%N → unescape (escape c ++ r) = Some (c, r).
Proof.
  intros Hc. destruct (N.lt_ge_cases c 128) as [Hs|Hl].
  - revert c Hs Hc. apply (small_codes (λ c, (c < 2097152)%N → _)). simpl.
    repeat constructor.
  - unfold escape.
    repeat match goal with |- context [(?x =? ?y)%N] => destruct (N.eqb_spec x y); [lia|] end.
    destruct (N.ltb_spec c 32); [lia|].
    pose proof (utf8_next_encode c r Hc) as Hn.
    destruct (encode_utf8_head c Hc) as (a & l & Ea & [(?&?&?)|[Ha _]]); [lia|].
    rewrite Ea in Hn |- *. simpl.
    destruct (N.eqb_spec (code a) 34); [lia|]. destruct (N.eqb_spec (code a) 92); [lia|]. done.
Qed.

(** A string literal is read back uniquely. *)
Lemma write_chars_inj cs ds r1 r2 :
  Forall (λ c, (c < 2097152)%N) cs → Forall (λ c, (c < 2097152)%N) ds →
  concat (escape <$> cs) ++ quote :: r1 = concat (escape <$> ds) ++ quote :: r2 →
  cs = ds ∧ r1 = r2.
Proof.
  intros Hcs. revert ds. induction Hcs as [|c cs Hc Hcs IH]; intros ds Hds.
  - destruct Hds as [|d ds Hd Hds]; [by intros [= ->]|]. intros Heq.
    apply (f_equal unescape) in Heq. change (concat (escape <$> d :: ds))
      with (escape d ++ concat (escape <$> ds)) in Heq.
    rewrite <- app_assoc, unescape_escape in Heq by done. done.
  - destruct Hds as [|d ds Hd Hds]; intros Heq.
    + apply (f_equal unescape) in Heq. change (concat (escape <$> c :: cs))
        with (escape c ++ concat (escape <$> cs)) in Heq.
      rewrite <- app_assoc, unescape_escape in Heq by done. done.
    + change (concat (escape <$> c :: cs)) with (escape c ++ concat (escape <$> cs)) in Heq.
      change (concat (escape <$> d :: ds)) with (escape d ++ concat (escape <$> ds)) in Heq.
      rewrite <- !app_assoc in Heq. apply (f_equal unescape) in Heq.
      rewrite !unescape_escape in Heq by done. injection Heq as -> Heq.
      destruct (IH ds Hds Heq) as [-> ->]. done.
Qed.

Lemma chars_inj s t : str_wf s → str_wf t → chars s = chars t → s = t.
Proof.
  unfold str_wf. rewrite !andb_True, !bool_decide_spec. intros [_ Hs] [_ Ht] E.
  apply list_byte_of_string_inj. change (lit s = lit t). by rewrite <- Hs, <- Ht, E.
Qed.

Lemma write_string_inj s t r1 r2 :
  str_wf s → str_wf t → write_string s ++ r1 = write_string t ++ r2 → s = t ∧ r1 = r2.
Proof.
  intros Hs Ht Heq. unfold write_string in Heq. simpl in Heq. injection Heq as Heq.
  rewrite <- !app_assoc in Heq. simpl in Heq.
  apply write_chars_inj in Heq as [E ->]; [|apply utf8_chars_bound..].
  split; [by apply chars_inj | done].
Qed.

(** UTF-16 order is a total order on Rust strings. *)
Lemma encode_utf16_inj c d l k :
  is_scalar c = true → is_scalar d = true →
  encode_utf16 c ++ l = encode_utf16 d ++ k → c = d ∧ l = k.
Proof.
  unfold is_scalar. rewrite !orb_true_iff, !andb_true_iff, !N.ltb_lt, !N.leb_le. intros Hc Hd.
  unfold encode_utf16.
  destruct (N.ltb_spec c 65536), (N.ltb_spec d 65536); simpl; intros Heq.
  - by injection Heq.
  - injection Heq as Heq _. lia.
  - injection Heq as Heq _. lia.
  - injection Heq as H1 H2 ->. split; [lia | done].
Qed.

(** Decimal integers end at the first byte that is not a digit. *)
Definition is_digit (b : byte) : bool := (48 <=? code b)%N && (code b <=? 57)%N.
Definition ends_number (r : bytes) : Prop :=
  match r with [] => True | b :: _ => is_digit b = false end.

Lemma pretty_digits_go x s :
  Forall (λ b, is_digit b = true) (lit s) →
  Forall (λ b, is_digit b = true) (lit (pretty_N_go x s)).
Proof.
  revert s. induction (N.lt_wf_0 x) as [x _ IH]; intros s Hs.
  destruct (decide (x = 0)%N) as [->|Hx]; [by rewrite pretty_N_go_0|].
  rewrite pretty_N_go_step by lia. apply IH; [apply N.div_lt; lia|].
  constructor; [|done]. unfold pretty_N_char.
  destruct (x mod 10)%N as [|p]; [done|]. by repeat (destruct p as [p|p|]; try done).
Qed.

Lemma pretty_N_digits (x : N) : Forall (λ b, is_digit b = true) (lit (pretty x)).
Proof.
  unfold pretty, pretty_N. case_decide; [by repeat constructor|]. by apply pretty_digits_go.
Qed.

Lemma pretty_go_length x s : length (lit s) ≤ length (lit (pretty_N_go x s)).
Proof.
  revert s. induction (N.lt_wf_0 x) as [x _ IH]; intros s.
  destruct (decide (x = 0)%N) as [->|Hx]; [by rewrite pretty_N_go_0|].
  rewrite pretty_N_go_step by lia. etrans; [|apply IH, N.div_lt; lia]. unfold lit, String.list_byte_of_string; simpl. lia.
Qed.

Lemma pretty_N_nonempty (x : N) : lit (pretty x) ≠ [].
Proof.
  unfold pretty, pretty_N. case_decide; [done|]. rewrite pretty_N_go_step by lia.
  intros E. pose proof (pretty_go_length (x / 10) (String (pretty_N_char (x mod 10)) "")) as Hl.
  rewrite E in Hl. unfold lit, String.list_byte_of_string in Hl; simpl in Hl. lia.
Qed.

Lemma digits_split l k r1 r2 :
  Forall (λ b, is_digit b = true) l → Forall (λ b, is_digit b = true) k →
  ends_number r1 → ends_number r2 → l ++ r1 = k ++ r2 → l = k ∧ r1 = r2.
Proof.
  intros Hl. revert k. induction Hl as [|a l Ha Hl IH]; intros k Hk Hr1 Hr2 Heq.
  - destruct Hk as [|b k Hb Hk]; [done|]. simpl in Heq. subst r1. simpl in Hr1. congruence.
  - destruct Hk as [|b k Hb Hk]; simpl in Heq.
    + subst r2. simpl in Hr2. congruence.
    + injection Heq as -> Heq. destruct (IH k Hk Hr1 Hr2 Heq) as [-> ->]. done.
Qed.

Lemma lit_inj s t : lit s = lit t → s = t.
Proof. apply list_byte_of_string_inj. Qed.

Lemma pretty_N_prefix (x y : N) r1 r2 :
  ends_number r1 → ends_number r2 → lit (pretty x) ++ r1 = lit (pretty y) ++ r2 →
  x = y ∧ r1 = r2.
Proof.
  intros H1 H2 Heq.
  destruct (digits_split _ _ _ _ (pretty_N_digits x) (pretty_N_digits y) H1 H2 Heq) as [E ->].
  split; [|done]. apply lit_inj in E. by apply (inj pretty) in E.
Qed.

Lemma utf16_inj s t : str_wf s → str_wf t → utf16 s = utf16 t → s = t.
Proof.
  intros Hs Ht E. apply chars_inj; [done | done |].
  unfold str_wf in Hs, Ht. rewrite andb_True in Hs, Ht.
  destruct Hs as [Hs%Is_true_true_1 _], Ht as [Ht%Is_true_true_1 _].
  rewrite forallb_forall in Hs, Ht. unfold utf16 in E.
  revert Hs Ht E. generalize (chars s) (chars t). clear.
  induction l as [|c l IH]; intros [|d k] Hs Ht E; [done|..].
  - unfold encode_utf16 in E. simpl in E. by destruct (d <? 65536)%N.
  - unfold encode_utf16 in E. simpl in E. by destruct (c <? 65536)%N.
  - apply (encode_utf16_inj c d) in E as [-> E]; [|apply Hs | apply Ht]; [|by left..].
    f_equal. apply IH; [intros; apply Hs; by right | intros; apply Ht; by right | done].
Qed.

(** ** Values: normal form and well-formedness *)

Section value_ind.
Context (P : Value → Prop).
Context (Hnull : P VNull) (Hbool : ∀ b, P (VBool b)) (Hnum : ∀ n, P (VNumber n))
  (Hstr : ∀ s, P (VString s)) (Harr : ∀ l, Forall P l → P (VArray l))
  (Hobj : ∀ m, Forall (λ e, P e.2) m → P (VObject m)).

Fixpoint Value_rect' (v : Value) : P v :=
  match v with
  | VNull => Hnull
  | VBool b => Hbool b
  | VNumber n => Hnum n
  | VString s => Hstr s
  | VArray l => Harr l ((fix go l : Forall P l :=
      match l with
      | [] => Forall_nil_2 _
      | x :: k => Forall_cons_2 _ _ _ (Value_rect' x) (go k)
      end) l)
  | VObject m => Hobj m ((fix go m : Forall (λ e, P e.2) m :=
      match m with
      | [] => Forall_nil_2 _
      | e :: k => Forall_cons_2 _ _ _ (Value_rect' e.2) (go k)
      end) m)
  end.
End value_ind.

Definition key_cmp {A} (a b : string * A) : comparison := cmp (utf16 a.1) (utf16 b.1).

(** Members of every object in canonical order. *)
Fixpoint jcs_norm (v : Value) : Value :=
  match v with
  | VArray l => VArray (map jcs_norm l)
  | VObject m => VObject (sort_by key_cmp (map (λ e, (e.1, jcs_norm e.2)) m))
  | _ => v
  end.

(** Values Rust can hold, without floats: UTF-8 strings, unique member
    names, integers in their own variant. *)
Fixpoint plain_value (v : Value) : bool :=
  match v with
  | VNumber (Float _) => false
  | VNumber (NegInt i) => (i <? 0)%Z
  | VString s => str_wf s
  | VArray l => forallb plain_value l
  | VObject m => forallb (λ e, str_wf e.1 && plain_value e.2) m && bool_decide (NoDup (fst <$> m))
  | _ => true
  end.

(** The first byte of a literal tells the variant. *)
Definition tag_of (v : Value) : N :=
  match v with
  | VNull => 0 | VBool true => 1 | VBool false => 2 | VNumber (NegInt _) => 3
  | VNumber _ => 4 | VString _ => 5 | VArray _ => 6 | VObject _ => 7
  end.
Definition tag_of_byte (b : byte) : N :=
  (if code b =? 110 then 0 else if code b =? 116 then 1 else if code b =? 102 then 2
   else if code b =? 45 then 3 else if is_digit b then 4 else if code b =? 34 then 5
   else if code b =? 91 then 6 else if code b =? 123 then 7 else 8)%N.

Lemma sort_by_fmap {A B} (c : A → A → comparison) (f : B → A) (l : list B) :
  f <$> sort_by (λ x y, c (f x) (f y)) l = sort_by c (f <$> l).
Proof.
  assert (Hins : ∀ x k, f <$> insert_by (λ x y, c (f x) (f y)) x k = insert_by c (f x) (f <$> k)).
  { intros x k. induction k as [|y k IH]; [done|]. simpl.
    destruct (c (f x) (f y)); [done | done |]. rewrite fmap_cons, IH. done. }
  induction l as [|x l IH]; [done|]. rewrite sort_by_cons, Hins, IH. done.
Qed.

Lemma map_get_NoDup {A} key (v : A) m :
  NoDup (fst <$> m) → (key, v) ∈ m → map_get key m = Some v.
Proof.
  unfold map_get. induction m as [|[k w] m IH]; simpl; [by intros _ ?%elem_of_nil|].
  intros [Hk Hnd]%NoDup_cons [[= -> ->]|Hin]%elem_of_cons.
  - by rewrite decide_True.
  - rewrite decide_False.
    + specialize (IH Hnd Hin). destruct (list_find _ m) as [[i e]|]; simpl in *; [done | done].
    + simpl. intros ->. apply Hk. apply list_elem_of_fmap. by exists (key, v).
Qed.

Section write_facts.
Context `{Primitives}.

Definition write_member (e : string * Value) : option bytes :=
  out ← write_jcs e.2; Some (write_string e.1 ++ lit ":" ++ out).

Lemma mapM_ext_in {A B} (f g : A → option B) l :
  (∀ x, x ∈ l → f x = g x) → mapM f l = mapM g l.
Proof.
  induction l as [|x l IH]; intros Hfg; [done|]. simpl.
  rewrite Hfg by left. rewrite IH; [done|]. intros; apply Hfg; by right.
Qed.

Lemma mapM_fmap {A B C} (f : B → option C) (g : A → B) l :
  mapM f (g <$> l) = mapM (f ∘ g) l.
Proof. induction l as [|x l IH]; [done|]. rewrite fmap_cons. cbn [mapM]. by rewrite IH. Qed.

(** The object writer, with every lookup resolved. *)
Lemma write_object_eq m :
  NoDup (fst <$> m) →
  write_jcs (VObject m) =
    (parts ← mapM write_member (sort_by key_cmp m);
     Some (lit "{" ++ comma_join parts ++ lit "}")).
Proof.
  intros Hnd. cbn [write_jcs]. unfold write_object. f_equal.
  assert (Hkeys : fst <$> map (λ e : string * Value, (e.1, write_jcs e.2)) m = fst <$> m).
  { clear. induction m; simpl; f_equal; auto. }
  rewrite Hkeys, <- (sort_by_fmap _ fst m), mapM_fmap.
  apply mapM_ext_in. intros [k v] Hin%elem_of_sort_by. unfold write_member. simpl.
  erewrite map_get_NoDup; [done | by rewrite Hkeys |].
  apply list_elem_of_fmap. by exists (k, v).
Qed.

Lemma write_array_eq l :
  write_jcs (VArray l) =
    (parts ← mapM write_jcs l; Some (lit "[" ++ comma_join parts ++ lit "]")).
Proof. cbn [write_jcs]. f_equal. apply (mapM_fmap id write_jcs). Qed.

Lemma write_jcs_tag v b :
  plain_value v → write_jcs v = Some b → ∃ a k, b = a :: k ∧ tag_of_byte a = tag_of v.
Proof.
  intros Hv Hw. destruct v as [|[]|n|s|l|m].
  - injection Hw as <-. by eexists _, _.
  - injection Hw as <-. by eexists _, _.
  - injection Hw as <-. by eexists _, _.
  - cbn [write_jcs] in Hw. unfold write_number in Hw. destruct n as [u|i|f]; simpl in Hw, Hv.
    + destruct (_ <? u)%N; [done|]. injection Hw as <-.
      pose proof (pretty_N_digits u) as Hd. destruct (lit (pretty u)) as [|a k] eqn:E.
      { by destruct (pretty_N_nonempty u). }
      exists a, k. split; [done|]. inversion_clear Hd as [|?? Ha _].
      revert Ha. clear. destruct a; vm_compute; congruence.
    + destruct (i <? - _)%Z; [done|]. injection Hw as <-. destruct i; [by cbv in Hv | by cbv in Hv |].
      by eexists _, _.
    + done.
  - injection Hw as <-. by eexists _, _.
  - rewrite write_array_eq in Hw. destruct (mapM _ _); [|done]. injection Hw as <-.
    by eexists _, _.
  - cbn [write_jcs] in Hw. unfold write_object in Hw.
    destruct (mapM _ _); [|done]. injection Hw as <-. by eexists _, _.
Qed.

Definition delim (r : bytes) : Prop :=
  match r with [] => True | b :: _ => tag_of_byte b = 8%N end.

Lemma delim_ends_number r : delim r → ends_number r.
Proof. destruct r as [|b r]; [done|]. simpl. destruct b; vm_compute; congruence. Qed.

(** The writer is prefix-free on [P]-values up to [g]. *)
Definition prefix_free {A B} (P : A → Prop) (f : A → option bytes) (g : A → B) (x : A) : Prop :=
  ∀ y b1 b2 r1 r2, P y → f x = Some b1 → f y = Some b2 → delim r1 → delim r2 →
    b1 ++ r1 = b2 ++ r2 → g x = g y ∧ r1 = r2.

Definition comma_tail (ps : list bytes) : bytes := concat ((λ q, lit "," ++ q) <$> ps).

Lemma comma_tail_delim ps c r : tag_of_byte c = 8%N → delim (comma_tail ps ++ c :: r).
Proof. by destruct ps. Qed.

Lemma comma_tail_inj {A B} P (f : A → option bytes) (g : A → B) l1 l2 p1 p2 c r1 r2 :
  tag_of_byte c = 8%N → c ≠ byte_of 44 →
  Forall (prefix_free P f g) l1 → Forall P l2 →
  mapM f l1 = Some p1 → mapM f l2 = Some p2 →
  comma_tail p1 ++ c :: r1 = comma_tail p2 ++ c :: r2 → g <$> l1 = g <$> l2 ∧ r1 = r2.
Proof.
  intros Hc Hne Hf. revert l2 p1 p2. induction Hf as [|x l1 Hx Hf IH];
    intros l2 p1 p2 HP Hp1 Hp2 Heq; destruct HP as [|y l2 Hy HP]; cbn [mapM] in Hp1, Hp2.
  - injection Hp1 as <-. injection Hp2 as <-. by injection Heq.
  - injection Hp1 as <-. destruct (f y); [|done]. simpl in Hp2.
    destruct (mapM f l2); [|done]. injection Hp2 as <-. by injection Heq.
  - injection Hp2 as <-. destruct (f x); [|done]. simpl in Hp1.
    destruct (mapM f l1); [|done]. injection Hp1 as <-. by injection Heq.
  - destruct (f x) as [bx|] eqn:Ex; [|done]. destruct (f y) as [by_|] eqn:Ey; [|done].
    simpl in Hp1, Hp2. destruct (mapM f l1) as [q1|] eqn:E1; [|done].
    destruct (mapM f l2) as [q2|] eqn:E2; [|done]. injection Hp1 as <-. injection Hp2 as <-.
    unfold comma_tail in Heq. rewrite !fmap_cons in Heq. simpl in Heq. injection Heq as Heq.
    rewrite <- !app_assoc in Heq. fold (comma_tail q1) (comma_tail q2) in Heq.
    destruct (Hx y bx by_ _ _ Hy Ex Ey (comma_tail_delim q1 c r1 Hc)
      (comma_tail_delim q2 c r2 Hc) Heq) as [Hg Ht].
    destruct (IH l2 q1 q2 HP eq_refl E2 Ht) as [Hl ->]. rewrite !fmap_cons. split; congruence.
Qed.

Lemma comma_join_inj {A B} P (f : A → option bytes) (g : A → B) l1 l2 p1 p2 c r1 r2 :
  tag_of_byte c = 8%N → c ≠ byte_of 44 →
  (∀ x b, P x → f x = Some b → ∃ a k, b = a :: k ∧ tag_of_byte a ≠ 8%N) →
  Forall (prefix_free P f g) l1 → Forall P l1 → Forall P l2 →
  mapM f l1 = Some p1 → mapM f l2 = Some p2 →
  comma_join p1 ++ c :: r1 = comma_join p2 ++ c :: r2 → g <$> l1 = g <$> l2 ∧ r1 = r2.
Proof.
  intros Hc Hne Hhead Hf HP1 HP2 Hp1 Hp2 Heq.
  destruct Hf as [|x l1 Hx Hf]; destruct HP2 as [|y l2 Hy HP2]; cbn [mapM] in Hp1, Hp2.
  - injection Hp1 as <-. injection Hp2 as <-. by injection Heq.
  - injection Hp1 as <-. destruct (f y) as [b|] eqn:Ey; [|done]. simpl in Hp2.
    destruct (mapM f l2); [|done]. injection Hp2 as <-.
    destruct (Hhead y b Hy Ey) as (a & k & -> & Ha). simpl in Heq. by injection Heq as -> _.
  - injection Hp2 as <-. destruct (f x) as [b|] eqn:Ex; [|done]. simpl in Hp1.
    destruct (mapM f l1); [|done]. injection Hp1 as <-. inversion_clear HP1 as [|?? Hpx _].
    destruct (Hhead x b Hpx Ex) as (a & k & -> & Ha). simpl in Heq. by injection Heq as -> _.
  - destruct (f x) as [bx|] eqn:Ex; [|done]. destruct (f y) as [by_|] eqn:Ey; [|done].
    simpl in Hp1, Hp2. destruct (mapM f l1) as [q1|] eqn:E1; [|done].
    destruct (mapM f l2) as [q2|] eqn:E2; [|done]. injection Hp1 as <-. injection Hp2 as <-.
    simpl in Heq. rewrite <- !app_assoc in Heq. fold (comma_tail q1) (comma_tail q2) in Heq.
    destruct (Hx y bx by_ _ _ Hy Ex Ey (comma_tail_delim q1 c r1 Hc)
      (comma_tail_delim q2 c r2 Hc) Heq) as [Hg Ht].
    destruct (comma_tail_inj P f g l1 l2 q1 q2 c r1 r2) as [Hl ->]; [done..|].
    rewrite !fmap_cons. split; congruence.
Qed.

Definition plain_member (e : string * Value) : bool := str_wf e.1 && plain_value e.2.
Definition norm_member (e : string * Value) : string * Value := (e.1, jcs_norm e.2).

Lemma write_member_prefix_free e :
  plain_member e → prefix_free plain_value write_jcs jcs_norm e.2 →
  prefix_free plain_member write_member norm_member e.
Proof.
  destruct e as [k v]. unfold plain_member; simpl. rewrite andb_True. intros [Hk _] Hv.
  intros [k' v'] b1 b2 r1 r2. unfold plain_member, write_member, norm_member; cbn [fst snd].
  rewrite andb_True. intros [Hk' Hv'] E1 E2 Hr1 Hr2 Heq.
  destruct (write_jcs v) as [o1|] eqn:W1; [|done].
  destruct (write_jcs v') as [o2|] eqn:W2; [|done].
  cbn [mbind option_bind] in E1, E2.
  assert (b1 = write_string k ++ lit ":" ++ o1) as -> by congruence.
  assert (b2 = write_string k' ++ lit ":" ++ o2) as -> by congruence.
  rewrite <- !(app_assoc (write_string _)) in Heq.
  apply write_string_inj in Heq as [-> Heq]; [|done..]. injection Heq as Heq.
  destruct (Hv v' o1 o2 r1 r2) as [-> ->]; done.
Qed.

Lemma norm_members_sorted m :
  sort_by key_cmp (map (λ e, (e.1, jcs_norm e.2)) m) = norm_member <$> sort_by key_cmp m.
Proof.
  change (map (λ e : string * Value, (e.1, jcs_norm e.2)) m) with (norm_member <$> m).
  by rewrite <- (sort_by_fmap key_cmp norm_member m).
Qed.

Lemma write_jcs_prefix_free v :
  plain_value v → prefix_free plain_value write_jcs jcs_norm v.
Proof.
  induction v as [|b|n|s|l IH|m IH] using Value_rect'; intros Hp v' b1 b2 r1 r2 Hp' W1 W2 D1 D2 Heq;
    pose proof (write_jcs_tag _ _ Hp W1) as (a1 & k1 & -> & T1);
    pose proof (write_jcs_tag _ _ Hp' W2) as (a2 & k2 & -> & T2);
    injection Heq as -> Heq; rewrite T1 in T2; clear T1.
  - destruct v' as [|[]|[]| | | ]; try done. injection W1 as _ <-. injection W2 as _ <-.
    by simplify_list_eq.
  - destruct b, v' as [|[]|[]| | | ]; try done; injection W1 as _ <-; injection W2 as _ <-;
      by simplify_list_eq.
  - apply delim_ends_number in D1. apply delim_ends_number in D2.
    destruct n as [u|i|f], v' as [|[]|[u'|i'|f']| | | ]; try done; cbn [write_jcs] in W1, W2;
      unfold write_number in W1, W2; simpl in W1, W2; repeat case_match; try done;
      injection W1 as E1; injection W2 as E2.
    + assert (He : lit (pretty u) ++ r1 = lit (pretty u') ++ r2) by (rewrite E1, E2; simpl; congruence).
      apply pretty_N_prefix in He as [-> ->]; done.
    + destruct i as [| |i]; [by cbv in Hp | by cbv in Hp |].
      destruct i' as [| |i']; [by cbv in Hp' | by cbv in Hp' |].
      assert (He : lit (pretty (Npos i)) ++ r1 = lit (pretty (Npos i')) ++ r2).
      { change (lit (pretty (Zneg i))) with (byte_of 45 :: lit (pretty (Npos i))) in E1.
        change (lit (pretty (Zneg i'))) with (byte_of 45 :: lit (pretty (Npos i'))) in E2.
        injection E1 as _ ->. injection E2 as _ ->. done. }
      apply pretty_N_prefix in He as [[= ->] ->]; done.
  - destruct v' as [|[]|[]|s'| | ]; try done. cbn [write_jcs] in W1, W2.
    assert (write_string s = a2 :: k1) as S1 by congruence.
    assert (write_string s' = a2 :: k2) as S2 by congruence.
    assert (He : write_string s ++ r1 = write_string s' ++ r2).
    { rewrite S1, S2. simpl. by rewrite Heq. }
    apply write_string_inj in He as [-> ->]; done.
  - destruct v' as [|[]|[]| |l'| ]; try done. rewrite write_array_eq in W1, W2.
    destruct (mapM write_jcs l) as [p1|] eqn:M1; [|done].
    destruct (mapM write_jcs l') as [p2|] eqn:M2; [|done].
    simpl in W1, W2. injection W1 as _ E1. injection W2 as _ E2.
    rewrite <- E1, <- E2, <- !app_assoc in Heq. simpl in Hp, Hp'. apply forallb_True in Hp, Hp'.
    assert (Hf : Forall (prefix_free plain_value write_jcs jcs_norm) l).
    { rewrite Forall_forall in IH, Hp |- *. auto. }
    destruct (comma_join_inj plain_value write_jcs jcs_norm l l' p1 p2 (byte_of 93) r1 r2)
      as [Hl ->]; try done.
    { intros x b Hx W. destruct (write_jcs_tag x b Hx W) as (a & k & -> & T).
      exists a, k. split; [done|]. rewrite T. by destruct x as [|[]|[]| | | ]. }
    split; [|done]. simpl. f_equal. done.
  - destruct v' as [|[]|[]| | |m']; try done.
    simpl in Hp, Hp'. apply andb_True in Hp as [Hp Hn%bool_decide_unpack].
    apply andb_True in Hp' as [Hp' Hn'%bool_decide_unpack].
    rewrite write_object_eq in W1, W2 by done.
    destruct (mapM write_member (sort_by _ m)) as [p1|] eqn:M1; [|done].
    destruct (mapM write_member (sort_by _ m')) as [p2|] eqn:M2; [|done].
    simpl in W1, W2. injection W1 as _ E1. injection W2 as _ E2.
    rewrite <- E1, <- E2, <- !app_assoc in Heq. apply forallb_True in Hp, Hp'.
    assert (Hs : ∀ k, Forall (λ e, Is_true (str_wf e.1 && plain_value e.2)) k →
      Forall plain_member (sort_by key_cmp k)).
    { intros k Hk. rewrite Forall_forall in Hk |- *. intros e He%elem_of_sort_by. by apply Hk. }
    assert (Hf : Forall (prefix_free plain_member write_member norm_member) (sort_by key_cmp m)).
    { specialize (Hs m Hp). rewrite Forall_forall in Hs |- *. intros e He.
      pose proof (Hs e He) as Hpe. apply write_member_prefix_free; [done|].
      rewrite Forall_forall in IH. apply IH; [by apply elem_of_sort_by in He|].
      unfold plain_member in Hpe. by apply andb_True in Hpe as [_ ?]. }
    destruct (comma_join_inj plain_member write_member norm_member (sort_by key_cmp m)
      (sort_by key_cmp m') p1 p2 (byte_of 125) r1 r2) as [Hl ->]; auto; try done.
    { intros [k v] b Hx W. unfold write_member in W. simpl in W.
      destruct (write_jcs v); [|done]. injection W as <-. by eexists _, _. }
    split; [|done]. simpl. f_equal. by rewrite !norm_members_sorted.
Qed.
End write_facts.

(** ** The canonical form *)

Section canonical_form.
Context `{Primitives}.

Lemma key_cmp_sorted {A} (m : list (string * A)) :
  StronglySorted (le_by key_cmp) (sort_by key_cmp m).
Proof.
  apply sort_by_sorted; unfold le_by, key_cmp.
  - intros x y E. apply cmp_gt_lt in E. congruence.
  - intros x y z. rewrite <- !leb_not_gt. apply leb_trans.
Qed.

Lemma sort_norm_sorted m :
  sort_by key_cmp (norm_member <$> sort_by key_cmp m) = norm_member <$> sort_by key_cmp m.
Proof.
  rewrite <- (sort_by_fmap key_cmp norm_member). f_equal. apply sort_by_id.
  apply (key_cmp_sorted m).
Qed.

Lemma write_jcs_norm v : plain_value v → write_jcs (jcs_norm v) = write_jcs v.
Proof.
  induction v as [|b|n|s|l IH|m IH] using Value_rect'; intros Hp; try done.
  - simpl in Hp. apply forallb_True in Hp. cbn [jcs_norm]. rewrite !write_array_eq.
    change (map jcs_norm l) with (jcs_norm <$> l). rewrite mapM_fmap.
    rewrite (mapM_ext_in _ write_jcs l); [done|]. intros x Hx. simpl.
    rewrite Forall_forall in IH, Hp. auto.
  - simpl in Hp. apply andb_True in Hp as [Hp Hn%bool_decide_unpack]. apply forallb_True in Hp.
    cbn [jcs_norm]. rewrite norm_members_sorted.
    rewrite (write_object_eq m) by done. rewrite write_object_eq.
    + rewrite sort_norm_sorted, mapM_fmap.
      rewrite (mapM_ext_in _ write_member); [done|].
      intros e He%elem_of_sort_by. unfold write_member. simpl.
      rewrite Forall_forall in IH, Hp. rewrite IH; [done | done |].
      specialize (Hp e He). by apply andb_True in Hp as [_ ?].
    + rewrite <- list_fmap_compose. change (fst ∘ norm_member) with (@fst string Value).
      by rewrite sort_by_perm.
Qed.

Lemma jcs_equal v1 v2 b :
  plain_value v1 → plain_value v2 → write_jcs v1 = Some b →
  (write_jcs v2 = Some b ↔ jcs_norm v1 = jcs_norm v2).
Proof.
  intros H1 H2 W1. split.
  - intros W2. by apply (write_jcs_prefix_free v1 H1 v2 b b [] []).
  - intros E. rewrite <- W1, <- (write_jcs_norm v1), <- (write_jcs_norm v2), E; done.
Qed.

Lemma sha256_canonical_binds `{Serialize A, Serialize B} (x : A) (y : B) h :
  plain_value (to_value x) → plain_value (to_value y) →
  sha256_canonical x = Some h → sha256_canonical y = Some h →
  jcs_norm (to_value x) = jcs_norm (to_value y) ∨ sha256_collision.
Proof.
  unfold sha256_canonical, canonical_json. intros Hx Hy.
  destruct (write_jcs (to_value x)) as [bx|] eqn:Ex; [|done].
  destruct (write_jcs (to_value y)) as [by_|] eqn:Ey; [|done].
  intros [= <-] [= E]. apply sha256_eq_or_collision in E as [->|]; [left | by right].
  by apply (jcs_equal _ _ bx).
Qed.
End canonical_form.

(** ** Strict decoders *)

Section strict_facts.
Context {K V : Type} `{Countable K}.

Lemma visit_pairs_spec (m : gmap K V) l m' :
  visit_pairs m l = Some m' ↔
    NoDup l.*1 ∧ (∀ k, k ∈ l.*1 → m !! k = None) ∧ m' = list_to_map l ∪ m.
Proof.
  revert m. induction l as [|[k v] l IH]; intros m; simpl.
  - split; [intros [= <-] | intros (_ & _ & ->)].
    + split; [constructor|]. split; [by intros k ?%elem_of_nil|].
      by rewrite (left_id_L ∅ (∪) m).
    + by rewrite (left_id_L ∅ (∪) m).
  - destruct (m !! k) as [w|] eqn:Ek.
    { split; [done|]. intros (_ & Hm & _). rewrite (Hm k) in Ek; [done | by left]. }
    rewrite IH, NoDup_cons. split.
    + intros (Hnd & Hm & ->). assert (Hk : k ∉ l.*1).
      { intros Hin. specialize (Hm k Hin). by rewrite lookup_insert_eq in Hm. }
      split; [done|]. split.
      * intros k' [->|Hin]%elem_of_cons; [done|]. specialize (Hm k' Hin).
        rewrite lookup_insert_ne in Hm; [done|]. by intros ->.
      * rewrite <- insert_union_l, insert_union_r; [done|].
        by apply not_elem_of_list_to_map_1.
    + intros ([Hk Hnd] & Hm & ->). split; [done|]. split.
      * intros k' Hin. rewrite lookup_insert_ne; [apply Hm; by right|]. by intros ->.
      * rewrite <- insert_union_l, insert_union_r; [done|].
        by apply not_elem_of_list_to_map_1.
Qed.

(** A decoded map is exactly its entries, and no entry was repeated. *)
Lemma strict_map_de_spec (l : list (K * V)) m :
  strict_map_de l = Some m ↔ NoDup l.*1 ∧ m = list_to_map l.
Proof.
  unfold strict_map_de. rewrite visit_pairs_spec, (right_id_L ∅ (∪)).
  split; [naive_solver|]. intros [? ->]. repeat split; auto.
Qed.

Lemma visit_members_spec (s : gset K) l s' :
  visit_members s l = Some s' ↔ NoDup l ∧ (∀ x, x ∈ l → x ∉ s) ∧ s' = list_to_set l ∪ s.
Proof.
  revert s. induction l as [|x l IH]; intros s; simpl.
  - split; [intros [= <-] | intros (_ & _ & ->)].
    + split; [constructor|]. split; [by intros k ?%elem_of_nil | set_solver].
    + f_equal. set_solver.
  - case_bool_decide as Ex.
    { split; [done|]. intros (_ & Hs & _). exfalso. apply (Hs x); [by left | done]. }
    rewrite IH, NoDup_cons. split.
    + intros (Hnd & Hs & ->). split; [|split; [|set_solver]].
      * split; [|done]. intros Hin. specialize (Hs x Hin). set_solver.
      * intros y [->|Hin]%elem_of_cons; [done|]. specialize (Hs y Hin). set_solver.
    + intros ([Hx Hnd] & Hs & ->). split; [done|]. split; [|set_solver].
      intros y Hin. specialize (Hs y). set_solver.
Qed.

Lemma strict_set_de_spec (l : list K) s :
  strict_set_de l = Some s ↔ NoDup l ∧ s = list_to_set l.
Proof.
  unfold strict_set_de. rewrite visit_members_spec, (right_id_L ∅ (∪)).
  split; [naive_solver|]. intros [? ->]. repeat split; auto; set_solver.
Qed.

Context `{Cmp K}.

Lemma btree_entries_perm (m : gmap K V) : btree_entries m ≡ₚ map_to_list m.
Proof. apply sort_by_perm. Qed.

Lemma strict_map_roundtrip (m : gmap K V) : strict_map_de (btree_entries m) = Some m.
Proof.
  apply strict_map_de_spec. split.
  - rewrite btree_entries_perm. apply NoDup_fst_map_to_list.
  - rewrite (list_to_map_proper (btree_entries m) (map_to_list m)).
    + symmetry. apply list_to_map_to_list.
    + rewrite btree_entries_perm. apply NoDup_fst_map_to_list.
    + apply btree_entries_perm.
Qed.

Lemma strict_set_roundtrip (s : gset K) : strict_set_de (btree_members s) = Some s.
Proof.
  apply strict_set_de_spec. unfold btree_members. split.
  - rewrite sort_by_perm. apply NoDup_elements.
  - apply set_eq. intros x. by rewrite elem_of_list_to_set, elem_of_sort_by, elem_of_elements.
Qed.
End strict_facts.
