(* ===== verification/Record.v ===== *)
(** * Records: kinds, refs, authors, evidence and the envelope

    Models src/src/record/kind.rs, refs.rs, author.rs, evidence.rs,
    record.rs and sign.rs.  The [serde] derives are [Serialize] instances
    written from the struct declarations and their attributes. *)

From S2P Require Export Canonical.

(** ** record/kind.rs *)

Module Kind.
Inductive t :=
  | Request | Action | Response | Result | Summary | Approval | Capability
  | Usage | Refusal | Verdict | Plan | Retraction | Candidate | Evaluation
  | Selection | Requirement.

Definition all : list t :=
  [Request; Action; Response; Result; Summary; Approval; Capability; Usage;
   Refusal; Verdict; Plan; Retraction; Candidate; Evaluation; Selection; Requirement].

Definition name (k : t) : string :=
  match k with
  | Request => "Request" | Action => "Action" | Response => "Response"
  | Result => "Result" | Summary => "Summary" | Approval => "Approval"
  | Capability => "Capability" | Usage => "Usage" | Refusal => "Refusal"
  | Verdict => "Verdict" | Plan => "Plan" | Retraction => "Retraction"
  | Candidate => "Candidate" | Evaluation => "Evaluation"
  | Selection => "Selection" | Requirement => "Requirement"
  end.

(** The declaration order, which [derive(PartialOrd, Ord)] compares. *)
Definition ordinal (k : t) : N :=
  match k with
  | Request => 0 | Action => 1 | Response => 2 | Result => 3 | Summary => 4
  | Approval => 5 | Capability => 6 | Usage => 7 | Refusal => 8 | Verdict => 9
  | Plan => 10 | Retraction => 11 | Candidate => 12 | Evaluation => 13
  | Selection => 14 | Requirement => 15
  end.

#[export] Instance eq_dec : EqDecision t.
Proof. solve_decision. Defined.
#[export] Program Instance countable : Countable t :=
  inj_countable ordinal (λ n, all !! N.to_nat n) _.
Next Obligation. by intros []. Qed.
#[export] Instance ser : Serialize t := λ k, VString (name k).
#[export] Instance cmp_kind : Cmp t := λ a b, cmp (ordinal a) (ordinal b).
#[export] Instance cmp_laws_kind : CmpLaws t.
Proof. apply (cmp_laws_inj ordinal); [done|]. by intros [] []. Qed.
End Kind.
Export (hints) Kind.

Module RefType.
Inductive t := Cause | Use | Require_ | Replace.

Definition name (k : t) : string :=
  match k with
  | Cause => "Cause" | Use => "Use" | Require_ => "Require" | Replace => "Replace"
  end.

(** [type_ as u8]. *)
Definition ordinal (k : t) : N :=
  match k with Cause => 0 | Use => 1 | Require_ => 2 | Replace => 3 end.

#[export] Instance eq_dec : EqDecision t.
Proof. solve_decision. Defined.
#[export] Instance ser : Serialize t := λ k, VString (name k).
End RefType.
Export (hints) RefType.

Module AuthorType.
Inductive t := User | Provider | System | Executor | Verifier.

Definition name (k : t) : string :=
  match k with
  | User => "User" | Provider => "Provider" | System => "System"
  | Executor => "Executor" | Verifier => "Verifier"
  end.

#[export] Instance eq_dec : EqDecision t.
Proof. solve_decision. Defined.
#[export] Instance ser : Serialize t := λ k, VString (name k).
End AuthorType.
Export (hints) AuthorType.

(** The normative kind-to-author-type table. *)
Definition allowed_author_types (kind : Kind.t) : list AuthorType.t :=
  match kind with
  | Kind.Request => [AuthorType.User]
  | Kind.Action => [AuthorType.Provider]
  | Kind.Response => [AuthorType.Provider]
  | Kind.Result => [AuthorType.Executor]
  | Kind.Summary => [AuthorType.Provider]
  | Kind.Approval => [AuthorType.User]
  | Kind.Capability => [AuthorType.User; AuthorType.System]
  | Kind.Usage => [AuthorType.Provider; AuthorType.System]
  | Kind.Refusal => [AuthorType.User; AuthorType.System]
  | Kind.Verdict => [AuthorType.Verifier]
  | Kind.Plan => [AuthorType.Provider]
  | Kind.Retraction => [AuthorType.User; AuthorType.Provider; AuthorType.System]
  | Kind.Candidate =>
      [AuthorType.User; AuthorType.Provider; AuthorType.Executor; AuthorType.System]
  | Kind.Evaluation =>
      [AuthorType.User; AuthorType.Provider; AuthorType.Executor; AuthorType.System]
  | Kind.Selection => [AuthorType.User; AuthorType.Provider; AuthorType.System]
  | Kind.Requirement => [AuthorType.User; AuthorType.Provider; AuthorType.System]
  end.

Definition requires_registered_author (kind : Kind.t) : bool :=
  match kind with
  | Kind.Request | Kind.Action | Kind.Approval | Kind.Capability | Kind.Response
  | Kind.Result | Kind.Plan | Kind.Summary | Kind.Usage | Kind.Refusal
  | Kind.Retraction | Kind.Candidate | Kind.Evaluation | Kind.Selection
  | Kind.Requirement => true
  | Kind.Verdict => false
  end.

Module VerdictResult.
Inductive t := Accept | Reject.

Definition name (k : t) : string :=
  match k with Accept => "Accept" | Reject => "Reject" end.

#[export] Instance eq_dec : EqDecision t.
Proof. solve_decision. Defined.
#[export] Instance ser : Serialize t := λ k, VString (name k).
End VerdictResult.
Export (hints) VerdictResult.

Module ReasonCode.
Inductive t :=
  | UnknownSchema | KindSchemaMismatch | SignatureMissing | SignatureInvalid
  | RefUnresolved | RefCrossSpace | RequestMissing | CapabilityMissing
  | CapabilityDenied | ApprovalMissing | ApprovalExpired | ActionClosed
  | ReplacementInvalid | ExternalReceiptRequired | EvidenceBelowThreshold
  | Refused | InvalidPayload | InvalidCheckpoint | AuthorRoleInvalid
  | AuthorityRefMissing | SourceBindingInvalid | LineageInvalid
  | PayloadRefUnresolved | EvaluationInvalid | SelectionInvalid
  | ReaffirmationInvalid | ArtifactRefInvalid | RequirementInvalid.

Definition name (k : t) : string :=
  match k with
  | UnknownSchema => "UnknownSchema" | KindSchemaMismatch => "KindSchemaMismatch"
  | SignatureMissing => "SignatureMissing" | SignatureInvalid => "SignatureInvalid"
  | RefUnresolved => "RefUnresolved" | RefCrossSpace => "RefCrossSpace"
  | RequestMissing => "RequestMissing" | CapabilityMissing => "CapabilityMissing"
  | CapabilityDenied => "CapabilityDenied" | ApprovalMissing => "ApprovalMissing"
  | ApprovalExpired => "ApprovalExpired" | ActionClosed => "ActionClosed"
  | ReplacementInvalid => "ReplacementInvalid"
  | ExternalReceiptRequired => "ExternalReceiptRequired"
  | EvidenceBelowThreshold => "EvidenceBelowThreshold" | Refused => "Refused"
  | InvalidPayload => "InvalidPayload" | InvalidCheckpoint => "InvalidCheckpoint"
  | AuthorRoleInvalid => "AuthorRoleInvalid"
  | AuthorityRefMissing => "AuthorityRefMissing"
  | SourceBindingInvalid => "SourceBindingInvalid" | LineageInvalid => "LineageInvalid"
  | PayloadRefUnresolved => "PayloadRefUnresolved"
  | EvaluationInvalid => "EvaluationInvalid" | SelectionInvalid => "SelectionInvalid"
  | ReaffirmationInvalid => "ReaffirmationInvalid"
  | ArtifactRefInvalid => "ArtifactRefInvalid"
  | RequirementInvalid => "RequirementInvalid"
  end.

#[export] Instance eq_dec : EqDecision t.
Proof. solve_decision. Defined.
#[export] Instance ser : Serialize t := λ k, VString (name k).
End ReasonCode.
Export (hints) ReasonCode.

Module CapabilityMode.
Inductive t := Auto | Ask | Deny.
Definition name (k : t) : string :=
  match k with Auto => "Auto" | Ask => "Ask" | Deny => "Deny" end.
#[export] Instance eq_dec : EqDecision t.
Proof. solve_decision. Defined.
#[export] Instance ser : Serialize t := λ k, VString (name k).
End CapabilityMode.
Export (hints) CapabilityMode.

Module ExecMode.
Inductive t := Internal | External.
Definition name (k : t) : string :=
  match k with Internal => "Internal" | External => "External" end.
#[export] Instance eq_dec : EqDecision t.
Proof. solve_decision. Defined.
#[export] Instance ser : Serialize t := λ k, VString (name k).
End ExecMode.
Export (hints) ExecMode.

Module ResultStatus.
Inductive t := Success | Failure.
Definition name (k : t) : string :=
  match k with Success => "Success" | Failure => "Failure" end.
#[export] Instance eq_dec : EqDecision t.
Proof. solve_decision. Defined.
#[export] Instance ser : Serialize t := λ k, VString (name k).
End ResultStatus.
Export (hints) ResultStatus.

Module SummaryType.
Inductive t := Procedure | Pattern | Lesson | StateSnapshot.
Definition all : list t := [Procedure; Pattern; Lesson; StateSnapshot].
Definition name (k : t) : string :=
  match k with
  | Procedure => "Procedure" | Pattern => "Pattern" | Lesson => "Lesson"
  | StateSnapshot => "StateSnapshot"
  end.
Definition ordinal (k : t) : N :=
  match k with Procedure => 0 | Pattern => 1 | Lesson => 2 | StateSnapshot => 3 end.
#[export] Instance eq_dec : EqDecision t.
Proof. solve_decision. Defined.
#[export] Program Instance countable : Countable t :=
  inj_countable ordinal (λ n, all !! N.to_nat n) _.
Next Obligation. by intros []. Qed.
#[export] Instance cmp_summary_type : Cmp t := λ a b, cmp (ordinal a) (ordinal b).
#[export] Instance cmp_laws_summary_type : CmpLaws t.
Proof. apply (cmp_laws_inj ordinal); [done|]. by intros [] []. Qed.
#[export] Instance ser : Serialize t := λ k, VString (name k).
End SummaryType.
Export (hints) SummaryType.

Module UsageOutcome.
Inductive t := Done | NotDone | NoChange.
Definition name (k : t) : string :=
  match k with Done => "Done" | NotDone => "NotDone" | NoChange => "NoChange" end.
#[export] Instance eq_dec : EqDecision t.
Proof. solve_decision. Defined.
#[export] Instance ser : Serialize t := λ k, VString (name k).
End UsageOutcome.
Export (hints) UsageOutcome.

Module RefusalTarget.
Inductive t := Action | Request | VerifiedEffect.
Definition name (k : t) : string :=
  match k with
  | Action => "Action" | Request => "Request" | VerifiedEffect => "VerifiedEffect"
  end.
#[export] Instance eq_dec : EqDecision t.
Proof. solve_decision. Defined.
#[export] Instance ser : Serialize t := λ k, VString (name k).
End RefusalTarget.
Export (hints) RefusalTarget.

(** ** record/refs.rs *)

Definition RecordId := Hash256.

Record Ref := mk_ref {
  ref_type : RefType.t;
  ref_target : RecordId;
}.

#[export] Instance Ref_eq_dec : EqDecision Ref.
Proof. solve_decision. Defined.

#[export] Instance ser_Ref : Serialize Ref := λ r,
  VObject [("type", to_value (ref_type r)); ("target", to_value (ref_target r))].

(** The sort key (type ordinal, target bytes). *)
Definition ref_key (r : Ref) : N * Hash256 := (RefType.ordinal (ref_type r), ref_target r).

#[export] Instance cmp_Ref : Cmp Ref := λ a b, cmp (ref_key a) (ref_key b).

Definition sort_and_dedup_refs (refs : list Ref) : list Ref := dedup (sort_by cmp refs).

(** ** record/author.rs *)

Definition ActorId := string.

Record Signature := mk_signature {
  key_id : string;
  sig : bytes;
}.

#[export] Instance Signature_eq_dec : EqDecision Signature.
Proof. solve_decision. Defined.
#[export] Instance ser_Signature : Serialize Signature := λ s,
  VObject [("key_id", to_value (key_id s)); ("sig", to_value (sig s))].

Record Author := mk_author {
  author_id : ActorId;
  author_type : AuthorType.t;
  author_signature : option Signature;
}.

#[export] Instance Author_eq_dec : EqDecision Author.
Proof. solve_decision. Defined.
#[export] Instance ser_Author : Serialize Author := λ a,
  VObject [("id", to_value (author_id a)); ("type", to_value (author_type a));
           ("signature", to_value (author_signature a))].

(** ** record/evidence.rs *)

Module Evidence.
Inductive t := Deterministic | Verified | Reported | Inferred | Assumed.
Definition name (k : t) : string :=
  match k with
  | Deterministic => "Deterministic" | Verified => "Verified" | Reported => "Reported"
  | Inferred => "Inferred" | Assumed => "Assumed"
  end.
(** Strongest to weakest. *)
Definition ordinal (k : t) : N :=
  match k with
  | Deterministic => 0 | Verified => 1 | Reported => 2 | Inferred => 3 | Assumed => 4
  end.
#[export] Instance eq_dec : EqDecision t.
Proof. solve_decision. Defined.
#[export] Instance cmp_evidence : Cmp t := λ a b, cmp (ordinal a) (ordinal b).
#[export] Instance cmp_laws_evidence : CmpLaws t.
Proof. apply (cmp_laws_inj ordinal); [done|]. by intros [] []. Qed.
#[export] Instance ser : Serialize t := λ k, VString (name k).

(** [Ord::max]. *)
Definition max (a b : t) : t := if leb a b then b else a.
End Evidence.
Export (hints) Evidence.

Section evidence.
Context `{Primitives}.

Definition base_evidence (schema : SchemaId) : Evidence.t :=
  match schema_name_for_id schema with
  | None => Evidence.Assumed
  | Some n =>
      if n =? SCHEMA_VERDICT then Evidence.Deterministic
      else if n =? SCHEMA_RESULT_EXTERNAL then Evidence.Verified
      else if n =? SCHEMA_REQUEST then Evidence.Reported
      else if n =? SCHEMA_ACTION then Evidence.Reported
      else if n =? SCHEMA_RESPONSE then Evidence.Reported
      else if n =? SCHEMA_RESULT then Evidence.Reported
      else if n =? SCHEMA_RESULT_EFFECT_CONFIRMATION then Evidence.Reported
      else if n =? SCHEMA_CAPABILITY then Evidence.Reported
      else if n =? SCHEMA_APPROVAL then Evidence.Reported
      else if n =? SCHEMA_REFUSAL then Evidence.Reported
      else if n =? SCHEMA_USAGE then Evidence.Reported
      else if n =? SCHEMA_RETRACTION then Evidence.Reported
      else if n =? SCHEMA_CANDIDATE then Evidence.Reported
      else if n =? SCHEMA_EVALUATION then Evidence.Reported
      else if n =? SCHEMA_REQUIREMENT then Evidence.Reported
      else if n =? SCHEMA_EVALUATION_V2 then Evidence.Reported
      else if n =? SCHEMA_EVALUATION_ATTESTED then Evidence.Verified
      else if n =? SCHEMA_SUMMARY then Evidence.Inferred
      else if n =? SCHEMA_PLAN then Evidence.Inferred
      else if n =? SCHEMA_SELECTION then Evidence.Inferred
      else Evidence.Assumed
  end.

(** [iter().max().unwrap_or(Deterministic)]. *)
Definition weakest (evidences : list Evidence.t) : Evidence.t :=
  match evidences with
  | [] => Evidence.Deterministic
  | e :: es => fold_left Evidence.max es e
  end.

Definition derive_evidence (schema : SchemaId) (ref_evidences : list Evidence.t) : Evidence.t :=
  let base := base_evidence schema in
  match ref_evidences with
  | [] => base
  | _ => weakest (base :: ref_evidences)
  end.
End evidence.

(** ** record/record.rs *)

Definition SpaceId := Hash256.
Definition ThreadId := Hash256.
Definition ScopeId := Hash256.

Definition RECORD_SIGNATURE_DOMAIN : string := "bellbook.record-signature.v0.3".
Definition SELECTION_APPROVAL_DOMAIN : string := "bellbook.selection-approval.v0.3".

Record record := mk_record {
  rec_id : RecordId;
  rec_space : SpaceId;
  rec_thread : ThreadId;
  rec_time : Time;
  rec_author : Author;
  rec_kind : Kind.t;
  rec_schema : Hash256;
  rec_data : bytes;
  rec_refs : list Ref;
  rec_evidence : Evidence.t;
}.

#[export] Instance record_eq_dec : EqDecision record.
Proof. solve_decision. Defined.

#[export] Instance ser_record : Serialize record := λ r,
  VObject [("id", to_value (rec_id r)); ("space", to_value (rec_space r));
           ("thread", to_value (rec_thread r)); ("time", to_value (rec_time r));
           ("author", to_value (rec_author r)); ("kind", to_value (rec_kind r));
           ("schema", to_value (rec_schema r)); ("data", to_value (rec_data r));
           ("refs", to_value (rec_refs r)); ("evidence", to_value (rec_evidence r))].

Record Proposal := mk_proposal {
  prop_space : SpaceId;
  prop_thread : ThreadId;
  prop_author : Author;
  prop_kind : Kind.t;
  prop_schema : Hash256;
  prop_data : bytes;
  prop_refs : list Ref;
}.

(** [CanonicalIdAuthor]: a missing signature is skipped. *)
Definition CanonicalIdAuthor (a : Author) : Value :=
  VObject ([("id", to_value (author_id a)); ("type", to_value (author_type a))] ++
           match author_signature a with
           | Some s => [("signature", to_value s)]
           | None => []
           end).

Definition CanonicalIdForm (r : record) : Value :=
  VObject [("space", to_value (rec_space r)); ("thread", to_value (rec_thread r));
           ("time", to_value (rec_time r)); ("author", CanonicalIdAuthor (rec_author r));
           ("kind", to_value (rec_kind r)); ("schema", to_value (rec_schema r));
           ("data", to_value (rec_data r)); ("refs", to_value (rec_refs r));
           ("evidence", to_value (rec_evidence r))].

Definition CanonicalAuthor (a : Author) : Value :=
  VObject [("id", to_value (author_id a)); ("type", to_value (author_type a))].

Definition CanonicalSigningForm (r : record) : Value :=
  VObject [("space", to_value (rec_space r)); ("thread", to_value (rec_thread r));
           ("time", to_value (rec_time r)); ("author", CanonicalAuthor (rec_author r));
           ("kind", to_value (rec_kind r)); ("schema", to_value (rec_schema r));
           ("data", to_value (rec_data r)); ("refs", to_value (rec_refs r));
           ("evidence", to_value (rec_evidence r))].

Definition DomainSeparatedSigningForm (r : record) : Value :=
  VObject [("domain", to_value RECORD_SIGNATURE_DOMAIN); ("record", CanonicalSigningForm r)].

Definition set_id (id : RecordId) (r : record) : record :=
  mk_record id (rec_space r) (rec_thread r) (rec_time r) (rec_author r) (rec_kind r)
    (rec_schema r) (rec_data r) (rec_refs r) (rec_evidence r).

Section envelope.
Context `{Primitives}.

Definition canonical_id_form (r : record) : option bytes := canonical_json (CanonicalIdForm r).

Definition compute_id (r : record) : option RecordId := sha256 <$> canonical_id_form r.

Definition with_computed_id (r : record) : option record :=
  id ← compute_id r; Some (set_id id r).

Definition signing_bytes (r : record) : option bytes :=
  canonical_json (DomainSeparatedSigningForm r).

(** [encode]. *)
Definition encode `{Serialize A} (value : A) : option bytes := canonical_json value.

(** ** record/sign.rs *)

Definition public_key_hex (secret : Hash256) : string := hex_encode (ed25519_public secret).

(** [Ed25519Signer::sign]; the signer is its 32 secret bytes. *)
Definition sign (secret : Hash256) (r : record) : option Signature :=
  canonical ← signing_bytes r;
  Some (mk_signature (public_key_hex secret) (ed25519_sign secret canonical)).

(** The public key a record's signature verifies against. *)
Definition verified_key (r : record) : option Hash256 :=
  s ← author_signature (rec_author r);
  key_bytes ← hex_decode (key_id s);
  if negb (ed25519_key_valid key_bytes) then None else
  if negb (length (sig s) =? 64) then None else
  canonical ← signing_bytes r;
  if ed25519_verify_strict key_bytes canonical (sig s) then Some key_bytes else None.

Definition signature_verifies (r : record) : bool :=
  match verified_key r with Some _ => true | None => false end.
End envelope.
