(* ===== verification/Payloads.v ===== *)
(** * Record payloads

    Models src/src/record/payloads.rs.  [serde_json::from_slice] is the class
    [Serde]: for each payload type, the parser of its derived shape.  The
    [TryFrom] conversions that reject out-of-range values are definitions. *)

From S2P Require Export Record.

(** ** Requests, actions, responses, results *)

Record Attachment := { at_path : string; at_content : string }.

#[export] Instance Attachment_eq_dec : EqDecision Attachment.
Proof. solve_decision. Defined.
#[export] Instance ser_Attachment : Serialize Attachment := λ a,
  VObject [("path", to_value (at_path a)); ("content", to_value (at_content a))].

Record RequestData := mk_RequestData {
  rq_objective : string;
  rq_scope : Hash256;
  rq_attachments : list Attachment;
  rq_parent_request_id : option RecordId;
}.

#[export] Instance ser_RequestData : Serialize RequestData := λ d,
  VObject [("objective", to_value (rq_objective d)); ("scope", to_value (rq_scope d));
           ("attachments", to_value (rq_attachments d));
           ("parent_request_id", to_value (rq_parent_request_id d))].

Record ActionData := mk_ActionData {
  ac_request_id : RecordId;
  ac_action_class : string;
  ac_scope : Hash256;
  ac_exec_mode : ExecMode.t;
  ac_params : Value;
}.

#[export] Instance ser_ActionData : Serialize ActionData := λ d,
  VObject [("request_id", to_value (ac_request_id d));
           ("action_class", to_value (ac_action_class d)); ("scope", to_value (ac_scope d));
           ("exec_mode", to_value (ac_exec_mode d)); ("params", to_value (ac_params d))].

Record ResponseData := mk_ResponseData {
  rs_request_id : RecordId;
  rs_content : string;
  rs_turn_index : N;
  rs_closes_request : bool;
}.

#[export] Instance ser_ResponseData : Serialize ResponseData := λ d,
  VObject [("request_id", to_value (rs_request_id d)); ("content", to_value (rs_content d));
           ("turn_index", to_value (rs_turn_index d));
           ("closes_request", to_value (rs_closes_request d))].

(** ** Artifact identity *)

Record ArtifactRef := mk_ArtifactRef {
  ar_scheme : string;
  ar_digest : string;
  ar_name : option string;
}.

#[export] Instance ArtifactRef_eq_dec : EqDecision ArtifactRef.
Proof. solve_decision. Defined.
#[export] Instance ser_ArtifactRef : Serialize ArtifactRef := λ a,
  VObject [("scheme", to_value (ar_scheme a)); ("digest", to_value (ar_digest a));
           ("name", to_value (ar_name a))].

Definition ar_key (a : ArtifactRef) : string * (string * option string) :=
  (ar_scheme a, (ar_digest a, ar_name a)).
#[export] Instance cmp_ArtifactRef : Cmp ArtifactRef := λ a b, cmp (ar_key a) (ar_key b).
#[export] Instance cmp_laws_ArtifactRef : CmpLaws ArtifactRef.
Proof. apply (cmp_laws_inj ar_key); [done|]. intros [] []. unfold ar_key; naive_solver. Qed.

Definition ARTIFACT_SCHEMES : list (string * N) :=
  [("git-tree-sha1", 20); ("git-tree-sha256", 32); ("manifest-v1", 32);
   ("git-archive-tar-v1", 32); ("oci-image-manifest", 32); ("sha256-bytes", 32)]%N.
Definition ARTIFACT_DIGEST_MIN_BYTES : N := 20.
Definition ARTIFACT_DIGEST_MAX_BYTES : N := 64.

(** Byte classes of the [matches!] patterns. *)
Definition in_range (lo hi : N) (b : byte) : bool := (lo <=? code b)%N && (code b <=? hi)%N.
Definition is_lower (b : byte) : bool := in_range 97 122 b.
Definition is_digit (b : byte) : bool := in_range 48 57 b.
Definition is_hex (b : byte) : bool := in_range 48 57 b || in_range 97 102 b.

Definition artifact_ref_well_formed (a : ArtifactRef) : bool :=
  let bytes := lit (ar_scheme a) in
  let head_ok := match bytes with b :: _ => is_lower b || is_digit b | [] => false end in
  if negb head_ok
     || negb (forallb (λ b, is_lower b || is_digit b || (code b =? 46)%N || (code b =? 45)%N)
                (tail bytes))
  then false else
  let digest := lit (ar_digest a) in
  let len := N.of_nat (length digest) in
  if negb (len mod 2 =? 0)%N || negb (forallb is_hex digest) then false else
  let digest_bytes := (len / 2)%N in
  match snd ∘ snd <$> list_find (λ e, e.1 = ar_scheme a) ARTIFACT_SCHEMES with
  | Some n => (digest_bytes =? n)%N
  | None =>
      (ARTIFACT_DIGEST_MIN_BYTES <=? digest_bytes)%N
      && (digest_bytes <=? ARTIFACT_DIGEST_MAX_BYTES)%N
  end.

Definition artifact_refs_well_formed (l : list ArtifactRef) : bool :=
  forallb artifact_ref_well_formed l && strictly_increasing l.

Record ResultData := mk_ResultData {
  rt_action_id : RecordId;
  rt_status : ResultStatus.t;
  rt_output : string;
  rt_artifacts : option (list ArtifactRef);
}.

(** [skip_serializing_if = "Option::is_none"] on [artifacts]. *)
Definition skip_none `{Serialize A} (name : string) (o : option A) : list (string * Value) :=
  match o with Some a => [(name, to_value a)] | None => [] end.

#[export] Instance ser_ResultData : Serialize ResultData := λ d,
  VObject ([("action_id", to_value (rt_action_id d)); ("status", to_value (rt_status d));
            ("output", to_value (rt_output d))] ++ skip_none "artifacts" (rt_artifacts d)).

(** ** Requirements *)

Module Provenance.
Inductive t := UserAuthored | Derived.
Definition name (k : t) : string :=
  match k with UserAuthored => "user_authored" | Derived => "derived" end.
#[export] Instance ser : Serialize t := λ k, VString (name k).
End Provenance.
Export (hints) Provenance.

Record RequirementData := mk_RequirementData {
  rm_key : string;
  rm_description : string;
  rm_required : bool;
  rm_expected_evidence : option string;
  rm_provenance : Provenance.t;
}.

#[export] Instance ser_RequirementData : Serialize RequirementData := λ d,
  VObject [("key", to_value (rm_key d)); ("description", to_value (rm_description d));
           ("required", to_value (rm_required d));
           ("expected_evidence", to_value (rm_expected_evidence d));
           ("provenance", to_value (rm_provenance d))].

(** ** Governance payloads *)

Record CapabilityData := mk_CapabilityData {
  cp_actor_id : ActorId;
  cp_action_class : string;
  cp_scope : Hash256;
  cp_mode : CapabilityMode.t;
  cp_expiry : option Time;
}.

#[export] Instance ser_CapabilityData : Serialize CapabilityData := λ d,
  VObject [("actor_id", to_value (cp_actor_id d));
           ("action_class", to_value (cp_action_class d)); ("scope", to_value (cp_scope d));
           ("mode", to_value (cp_mode d)); ("expiry", to_value (cp_expiry d))].

Record ApprovalData := mk_ApprovalData {
  ap_target_action : option Hash256;
  ap_action_class : option string;
  ap_scope : Hash256;
  ap_actor_id : option ActorId;
  ap_expiry : option Time;
}.

#[export] Instance ser_ApprovalData : Serialize ApprovalData := λ d,
  VObject [("target_action", to_value (ap_target_action d));
           ("action_class", to_value (ap_action_class d)); ("scope", to_value (ap_scope d));
           ("actor_id", to_value (ap_actor_id d)); ("expiry", to_value (ap_expiry d))].

Record SummaryData := mk_SummaryData {
  sm_summary_type : SummaryType.t;
  sm_subject : Hash256;
  sm_scope : Hash256;
  sm_claim_payload : bytes;
}.

#[export] Instance ser_SummaryData : Serialize SummaryData := λ d,
  VObject [("summary_type", to_value (sm_summary_type d)); ("subject", to_value (sm_subject d));
           ("scope", to_value (sm_scope d)); ("claim_payload", to_value (sm_claim_payload d))].

Record RefusalData := mk_RefusalData {
  rf_target_id : RecordId;
  rf_target_kind : RefusalTarget.t;
  rf_reason_code : option ReasonCode.t;
}.

#[export] Instance ser_RefusalData : Serialize RefusalData := λ d,
  VObject [("target_id", to_value (rf_target_id d));
           ("target_kind", to_value (rf_target_kind d));
           ("reason_code", to_value (rf_reason_code d))].

Record RetractionData := mk_RetractionData {
  rx_target_id : RecordId;
  rx_reason : string;
}.

#[export] Instance ser_RetractionData : Serialize RetractionData := λ d,
  VObject [("target_id", to_value (rx_target_id d)); ("reason", to_value (rx_reason d))].

Record UsageData := mk_UsageData {
  us_actor : ActorId;
  us_used_record : RecordId;
  us_consuming_record : RecordId;
  us_role : string;
  us_outcome : UsageOutcome.t;
}.

#[export] Instance ser_UsageData : Serialize UsageData := λ d,
  VObject [("actor", to_value (us_actor d)); ("used_record", to_value (us_used_record d));
           ("consuming_record", to_value (us_consuming_record d));
           ("role", to_value (us_role d)); ("outcome", to_value (us_outcome d))].

Record VerdictData := mk_VerdictData {
  vd_result : VerdictResult.t;
  vd_reason : option ReasonCode.t;
}.

#[export] Instance VerdictData_eq_dec : EqDecision VerdictData.
Proof. solve_decision. Defined.
#[export] Instance ser_VerdictData : Serialize VerdictData := λ d,
  VObject [("result", to_value (vd_result d)); ("reason", to_value (vd_reason d))].

Record UsageOutcomeCounts := mk_UsageOutcomeCounts {
  uc_done : N;
  uc_not_done : N;
  uc_no_change : N;
}.

#[export] Instance ser_UsageOutcomeCounts : Serialize UsageOutcomeCounts := λ d,
  VObject [("done", to_value (uc_done d)); ("not_done", to_value (uc_not_done d));
           ("no_change", to_value (uc_no_change d))].

(** ** Plans *)

Module PlanStatus.
Inductive t := Running | Completed | Abandoned.
Definition name (k : t) : string :=
  match k with Running => "running" | Completed => "completed" | Abandoned => "abandoned" end.
#[export] Instance eq_dec : EqDecision t.
Proof. solve_decision. Defined.
#[export] Instance ser : Serialize t := λ k, VString (name k).
End PlanStatus.
Export (hints) PlanStatus.

Module TaskStatus.
Inductive t := Pending | Running | Done | Failed | Skipped.
Definition name (k : t) : string :=
  match k with
  | Pending => "pending" | Running => "running" | Done => "done" | Failed => "failed"
  | Skipped => "skipped"
  end.
#[export] Instance eq_dec : EqDecision t.
Proof. solve_decision. Defined.
#[export] Instance ser : Serialize t := λ k, VString (name k).
End TaskStatus.
Export (hints) TaskStatus.

Module FailurePolicy.
Inductive t := Continue | AskUser | Abort_.
Definition name (k : t) : string :=
  match k with Continue => "continue" | AskUser => "ask_user" | Abort_ => "abort" end.
#[export] Instance ser : Serialize t := λ k, VString (name k).
End FailurePolicy.
Export (hints) FailurePolicy.

Module PlanTaskKind.
Inductive t := Generic | Inspect_ | Search_ | Extract_ | Verify | Write_ | Summarize.
Definition name (k : t) : string :=
  match k with
  | Generic => "generic" | Inspect_ => "inspect" | Search_ => "search"
  | Extract_ => "extract" | Verify => "verify" | Write_ => "write"
  | Summarize => "summarize"
  end.
#[export] Instance ser : Serialize t := λ k, VString (name k).
End PlanTaskKind.
Export (hints) PlanTaskKind.

Module TaskDoneWhen.
Inductive t := ToolSuccess | NonEmptyResult | ContentRetrieved | FinalResponse.
Definition name (k : t) : string :=
  match k with
  | ToolSuccess => "tool_success" | NonEmptyResult => "non_empty_result"
  | ContentRetrieved => "content_retrieved" | FinalResponse => "final_response"
  end.
#[export] Instance ser : Serialize t := λ k, VString (name k).
End TaskDoneWhen.
Export (hints) TaskDoneWhen.

Record PlanTask := mk_PlanTask {
  tk_id : string;
  tk_description : string;
  tk_kind : PlanTaskKind.t;
  tk_tool_hint : option string;
  tk_inputs_from : list string;
  tk_produces : option string;
  tk_done_when : TaskDoneWhen.t;
  tk_status : TaskStatus.t;
  tk_result_record_id : option RecordId;
  tk_depends_on : list string;
  tk_on_failure : FailurePolicy.t;
}.

#[export] Instance ser_PlanTask : Serialize PlanTask := λ t,
  VObject [("id", to_value (tk_id t)); ("description", to_value (tk_description t));
           ("kind", to_value (tk_kind t)); ("tool_hint", to_value (tk_tool_hint t));
           ("inputs_from", to_value (tk_inputs_from t));
           ("produces", to_value (tk_produces t)); ("done_when", to_value (tk_done_when t));
           ("status", to_value (tk_status t));
           ("result_record_id", to_value (tk_result_record_id t));
           ("depends_on", to_value (tk_depends_on t));
           ("on_failure", to_value (tk_on_failure t))].

Record PlanData := mk_PlanData {
  pl_request_id : RecordId;
  pl_tasks : list PlanTask;
  pl_status : PlanStatus.t;
}.

#[export] Instance ser_PlanData : Serialize PlanData := λ d,
  VObject [("request_id", to_value (pl_request_id d)); ("tasks", to_value (pl_tasks d));
           ("status", to_value (pl_status d))].

(** ** Evolution payloads *)

Definition MAX_SAFE_INTEGER_I64 : Z := 9007199254740991.
Definition MAX_SCORE_SCALE : N := 12.

Module SourceAlgo.
Inductive t := Sha1 | Sha256.
Definition name (k : t) : string := match k with Sha1 => "sha1" | Sha256 => "sha256" end.
#[export] Instance ser : Serialize t := λ k, VString (name k).
End SourceAlgo.
Export (hints) SourceAlgo.

Module BindingMode.
Inductive t := Reported | Manifest.
Definition name (k : t) : string :=
  match k with Reported => "reported" | Manifest => "manifest" end.
#[export] Instance eq_dec : EqDecision t.
Proof. solve_decision. Defined.
#[export] Instance ser : Serialize t := λ k, VString (name k).
End BindingMode.
Export (hints) BindingMode.

Record GitSource := mk_GitSource {
  gs_algo : SourceAlgo.t;
  gs_tree : string;
  gs_commit : option string;
}.

#[export] Instance ser_GitSource : Serialize GitSource := λ d,
  VObject [("algo", to_value (gs_algo d)); ("tree", to_value (gs_tree d));
           ("commit", to_value (gs_commit d))].

Record SourceBinding := mk_SourceBinding {
  sb_git : GitSource;
  sb_manifest_hash : option Hash256;
  sb_binding : BindingMode.t;
}.

#[export] Instance ser_SourceBinding : Serialize SourceBinding := λ d,
  VObject [("git", to_value (sb_git d)); ("manifest_hash", to_value (sb_manifest_hash d));
           ("binding", to_value (sb_binding d))].

Module CandidateBasis.
Inductive t := Root | Continuation | Derivation.
Definition name (k : t) : string :=
  match k with
  | Root => "root" | Continuation => "continuation" | Derivation => "derivation"
  end.
#[export] Instance eq_dec : EqDecision t.
Proof. solve_decision. Defined.
#[export] Instance ser : Serialize t := λ k, VString (name k).
End CandidateBasis.
Export (hints) CandidateBasis.

Record CandidateData := mk_CandidateData {
  cd_source : SourceBinding;
  cd_basis : CandidateBasis.t;
  cd_parent : option RecordId;
  cd_note : option string;
  cd_artifacts : option (list ArtifactRef);
}.

#[export] Instance ser_CandidateData : Serialize CandidateData := λ d,
  VObject ([("source", to_value (cd_source d)); ("basis", to_value (cd_basis d));
            ("parent", to_value (cd_parent d)); ("note", to_value (cd_note d))]
           ++ skip_none "artifacts" (cd_artifacts d)).

Record ScoredValue := mk_ScoredValue { sv_value : Z; sv_scale : N }.
Record ScoredValueRaw := mk_ScoredValueRaw { svr_value : Z; svr_scale : N }.

#[export] Instance ser_ScoredValue : Serialize ScoredValue := λ d,
  VObject [("value", to_value (sv_value d)); ("scale", to_value (sv_scale d))].

(** [ScoredValue::try_from]. *)
Definition scored_try_from (raw : ScoredValueRaw) : option ScoredValue :=
  if negb ((- MAX_SAFE_INTEGER_I64 <=? svr_value raw)%Z
           && (svr_value raw <=? MAX_SAFE_INTEGER_I64)%Z) then None
  else if (MAX_SCORE_SCALE <? svr_scale raw)%N then None
  else Some (mk_ScoredValue (svr_value raw) (svr_scale raw)).

(** The outcome enums, over the scored payload: [ScoredValueRaw] as parsed,
    [ScoredValue] once converted. *)
Module EvaluationOutcome.
Inductive t (S : Type) := Passed | Failed | Scored (s : S).
#[global] Arguments Passed {S}.
#[global] Arguments Failed {S}.
#[global] Arguments Scored {S} _.
Definition convert (o : t ScoredValueRaw) : option (t ScoredValue) :=
  match o with
  | Passed => Some Passed
  | Failed => Some Failed
  | Scored s => Scored <$> scored_try_from s
  end.
#[export] Instance ser : Serialize (t ScoredValue) := λ o,
  match o with
  | Passed => VString "passed"
  | Failed => VString "failed"
  | Scored s => VObject [("scored", to_value s)]
  end.
End EvaluationOutcome.
Export (hints) EvaluationOutcome.

Record EvaluationData_ (S : Type) := mk_EvaluationData {
  ev_candidate : RecordId;
  ev_criterion : string;
  ev_procedure : option string;
  ev_outcome : EvaluationOutcome.t S;
}.
#[global] Arguments mk_EvaluationData {S} _ _ _ _.
#[global] Arguments ev_candidate {S} _.
#[global] Arguments ev_criterion {S} _.
#[global] Arguments ev_procedure {S} _.
#[global] Arguments ev_outcome {S} _.

Definition EvaluationData := EvaluationData_ ScoredValue.
Definition EvaluationDataRaw := EvaluationData_ ScoredValueRaw.

#[export] Instance ser_EvaluationData : Serialize EvaluationData := λ d,
  VObject [("candidate", to_value (ev_candidate d)); ("criterion", to_value (ev_criterion d));
           ("procedure", to_value (ev_procedure d)); ("outcome", to_value (ev_outcome d))].

(** [EvaluationData::try_from], after the nested conversions. *)
Definition evaluation_try_from (raw : EvaluationDataRaw) : option EvaluationData :=
  outcome ← EvaluationOutcome.convert (ev_outcome raw);
  if ev_criterion raw =? "" then None else
  Some (mk_EvaluationData (ev_candidate raw) (ev_criterion raw) (ev_procedure raw) outcome).

Module Basis.
Inductive t := Recomputed | Declared.
Definition name (k : t) : string :=
  match k with Recomputed => "recomputed" | Declared => "declared" end.
#[export] Instance eq_dec : EqDecision t.
Proof. solve_decision. Defined.
#[export] Instance ser : Serialize t := λ k, VString (name k).
End Basis.
Export (hints) Basis.

Record DeciderBinding := mk_DeciderBinding {
  db_id : string;
  db_version : option string;
  db_procedure_hash : option Hash256;
  db_input_hash : option Hash256;
}.

#[export] Instance ser_DeciderBinding : Serialize DeciderBinding := λ d,
  VObject [("id", to_value (db_id d)); ("version", to_value (db_version d));
           ("procedure_hash", to_value (db_procedure_hash d));
           ("input_hash", to_value (db_input_hash d))].

Module EvaluationOutcomeV2.
Inductive t (S : Type) :=
  | Passed | Failed | Scored (s : S) | Blocked | Insufficient | Stale | NotRun.
#[global] Arguments Passed {S}.
#[global] Arguments Failed {S}.
#[global] Arguments Scored {S} _.
#[global] Arguments Blocked {S}.
#[global] Arguments Insufficient {S}.
#[global] Arguments Stale {S}.
#[global] Arguments NotRun {S}.
Definition convert (o : t ScoredValueRaw) : option (t ScoredValue) :=
  match o with
  | Passed => Some Passed
  | Failed => Some Failed
  | Scored s => Scored <$> scored_try_from s
  | Blocked => Some Blocked
  | Insufficient => Some Insufficient
  | Stale => Some Stale
  | NotRun => Some NotRun
  end.
#[export] Instance ser : Serialize (t ScoredValue) := λ o,
  match o with
  | Passed => VString "passed"
  | Failed => VString "failed"
  | Scored s => VObject [("scored", to_value s)]
  | Blocked => VString "blocked"
  | Insufficient => VString "insufficient"
  | Stale => VString "stale"
  | NotRun => VString "not_run"
  end.
End EvaluationOutcomeV2.
Export (hints) EvaluationOutcomeV2.

(** [format!("scored {}e-{}", value, scale)]. *)
Definition scored_label (s : ScoredValue) : string :=
  "scored " +:+ pretty (sv_value s) +:+ "e-" +:+ pretty (sv_scale s).

Definition label (o : EvaluationOutcomeV2.t ScoredValue) : string :=
  match o with
  | EvaluationOutcomeV2.Passed => "passed"
  | EvaluationOutcomeV2.Failed => "failed"
  | EvaluationOutcomeV2.Scored s => scored_label s
  | EvaluationOutcomeV2.Blocked => "blocked"
  | EvaluationOutcomeV2.Insufficient => "insufficient"
  | EvaluationOutcomeV2.Stale => "stale"
  | EvaluationOutcomeV2.NotRun => "not_run"
  end.

Record EvaluationDataV2_ (S : Type) := mk_EvaluationDataV2 {
  e2_candidate : RecordId;
  e2_criterion : string;
  e2_procedure : option string;
  e2_outcome : EvaluationOutcomeV2.t S;
  e2_evaluator : DeciderBinding;
  e2_basis : Basis.t;
  e2_evidence : list ArtifactRef;
  e2_requirements : list RecordId;
}.
#[global] Arguments mk_EvaluationDataV2 {S} _ _ _ _ _ _ _ _.
#[global] Arguments e2_candidate {S} _.
#[global] Arguments e2_criterion {S} _.
#[global] Arguments e2_procedure {S} _.
#[global] Arguments e2_outcome {S} _.
#[global] Arguments e2_evaluator {S} _.
#[global] Arguments e2_basis {S} _.
#[global] Arguments e2_evidence {S} _.
#[global] Arguments e2_requirements {S} _.

Definition EvaluationDataV2 := EvaluationDataV2_ ScoredValue.
Definition EvaluationDataV2Raw := EvaluationDataV2_ ScoredValueRaw.

#[export] Instance ser_EvaluationDataV2 : Serialize EvaluationDataV2 := λ d,
  VObject [("candidate", to_value (e2_candidate d)); ("criterion", to_value (e2_criterion d));
           ("procedure", to_value (e2_procedure d)); ("outcome", to_value (e2_outcome d));
           ("evaluator", to_value (e2_evaluator d)); ("basis", to_value (e2_basis d));
           ("evidence", to_value (e2_evidence d));
           ("requirements", to_value (e2_requirements d))].

(** [EvaluationDataV2::try_from]. *)
Definition evaluation_v2_try_from (raw : EvaluationDataV2Raw) : option EvaluationDataV2 :=
  outcome ← EvaluationOutcomeV2.convert (e2_outcome raw);
  if e2_criterion raw =? "" then None else
  Some (mk_EvaluationDataV2 (e2_candidate raw) (e2_criterion raw) (e2_procedure raw) outcome
          (e2_evaluator raw) (e2_basis raw) (e2_evidence raw) (e2_requirements raw)).

Module SelectionOutcome.
Inductive t := Selected (candidates : list RecordId) | None_.
#[export] Instance ser : Serialize t := λ o,
  match o with
  | Selected c => VObject [("selected", VObject [("candidates", to_value c)])]
  | None_ => VString "none"
  end.
End SelectionOutcome.
Export (hints) SelectionOutcome.

Record SelectionData := mk_SelectionData {
  sl_objective : string;
  sl_considered : list RecordId;
  sl_outcome : SelectionOutcome.t;
  sl_rationale : option string;
}.

#[export] Instance ser_SelectionData : Serialize SelectionData := λ d,
  VObject [("objective", to_value (sl_objective d)); ("considered", to_value (sl_considered d));
           ("outcome", to_value (sl_outcome d)); ("rationale", to_value (sl_rationale d))].

(** [SelectionData::try_from] over the same fields as parsed. *)
Definition selection_try_from (raw : SelectionData) : option SelectionData :=
  if sl_objective raw =? "" then None else
  Some (mk_SelectionData (sl_objective raw) (sl_considered raw) (sl_outcome raw)
          (sl_rationale raw)).

(** ** Decoding *)

(** [serde_json::from_slice] for the derived shape of each payload type. *)
Class Serde := {
  from_slice_request : bytes → option RequestData;
  from_slice_action : bytes → option ActionData;
  from_slice_response : bytes → option ResponseData;
  from_slice_result : bytes → option ResultData;
  from_slice_requirement : bytes → option RequirementData;
  from_slice_capability : bytes → option CapabilityData;
  from_slice_approval : bytes → option ApprovalData;
  from_slice_summary : bytes → option SummaryData;
  from_slice_refusal : bytes → option RefusalData;
  from_slice_retraction : bytes → option RetractionData;
  from_slice_usage : bytes → option UsageData;
  from_slice_verdict : bytes → option VerdictData;
  from_slice_plan : bytes → option PlanData;
  from_slice_candidate : bytes → option CandidateData;
  from_slice_evaluation : bytes → option EvaluationDataRaw;
  from_slice_evaluation_v2 : bytes → option EvaluationDataV2Raw;
  from_slice_selection : bytes → option SelectionData;
}.

(** [record::decode::<A>]. *)
Class Decode (A : Type) := decode : bytes → option A.
#[global] Arguments decode {A _} _.

Section decode.
Context `{Serde}.

#[export] Instance decode_request : Decode RequestData := from_slice_request.
#[export] Instance decode_action : Decode ActionData := from_slice_action.
#[export] Instance decode_response : Decode ResponseData := from_slice_response.
#[export] Instance decode_result : Decode ResultData := from_slice_result.
#[export] Instance decode_requirement : Decode RequirementData := from_slice_requirement.
#[export] Instance decode_capability : Decode CapabilityData := from_slice_capability.
#[export] Instance decode_approval : Decode ApprovalData := from_slice_approval.
#[export] Instance decode_summary : Decode SummaryData := from_slice_summary.
#[export] Instance decode_refusal : Decode RefusalData := from_slice_refusal.
#[export] Instance decode_retraction : Decode RetractionData := from_slice_retraction.
#[export] Instance decode_usage : Decode UsageData := from_slice_usage.
#[export] Instance decode_verdict : Decode VerdictData := from_slice_verdict.
#[export] Instance decode_plan : Decode PlanData := from_slice_plan.
#[export] Instance decode_candidate : Decode CandidateData := from_slice_candidate.
#[export] Instance decode_evaluation : Decode EvaluationData := λ b,
  from_slice_evaluation b ≫= evaluation_try_from.
#[export] Instance decode_evaluation_v2 : Decode EvaluationDataV2 := λ b,
  from_slice_evaluation_v2 b ≫= evaluation_v2_try_from.
#[export] Instance decode_selection : Decode SelectionData := λ b,
  from_slice_selection b ≫= selection_try_from.
End decode.

Section payloads.
Context `{Primitives, Serde}.

(** [decodes_canonically::<A>] (verifier/record_checks.rs). *)
Definition decodes_canonically (A : Type) `{Decode A, Serialize A} (data : bytes) : bool :=
  match (decode data : option A) with
  | Some value =>
      match canonical_json value with
      | Some reencoded => reencoded =? data
      | None => false
      end
  | None => false
  end.

(** [evaluation_summary]: candidate, criterion and outcome label. *)
Definition evaluation_summary (schema : SchemaId) (data : bytes)
    : option (RecordId * string * string) :=
  if schema =? schema_id SCHEMA_EVALUATION then
    d ← (decode data : option EvaluationData);
    Some (ev_candidate d, ev_criterion d,
      match ev_outcome d with
      | EvaluationOutcome.Passed => "passed"
      | EvaluationOutcome.Failed => "failed"
      | EvaluationOutcome.Scored s => scored_label s
      end)
  else if (schema =? schema_id SCHEMA_EVALUATION_V2)
          || (schema =? schema_id SCHEMA_EVALUATION_ATTESTED) then
    d ← (decode data : option EvaluationDataV2);
    Some (e2_candidate d, e2_criterion d, label (e2_outcome d))
  else None.

(** The subject hash of an exact action approval:
    [sha256_canonical(&(&record.author.id, data))]. *)
Definition action_approval_hash (author : ActorId) (data : ActionData) : option Hash256 :=
  sha256_canonical (author, data).

Definition selection_approval_subject_hash (selection_author_id : ActorId)
    (replace_target : option RecordId) (data : SelectionData) : option Hash256 :=
  sha256_canonical (VArray [to_value SELECTION_APPROVAL_DOMAIN; to_value selection_author_id;
                            to_value replace_target; to_value data]).
End payloads.
