(* ===== verification/State.v ===== *)
(** * Derived state

    Models src/src/state/state.rs, build.rs and incremental.rs: the state
    record, the fold of one accepted record and the full build.  A fold step
    is an [eff] action, because [apply_record] mutates in place and can stop
    with a decoding error half-way. *)

From S2P Require Export Payloads.

(** ** state/state.rs *)

Record State := mk_State {
  accepted_records : gset RecordId;
  active_requests : gset RecordId;
  active_capabilities : gmap (ActorId * string * ScopeId) RecordId;
  valid_approvals : gmap Hash256 RecordId;
  class_approvals : gmap (string * ScopeId * option ActorId) RecordId;
  open_actions : gset RecordId;
  action_to_request : gmap RecordId RecordId;
  active_summaries : gmap Hash256 RecordId;
  replaced_records : gset RecordId;
  request_open_action_count : gmap RecordId N;
  usage_counts : gmap (RecordId * string) UsageOutcomeCounts;
  active_plans : gmap RecordId RecordId;
  response_turns : gmap RecordId N;
  capability_index : gmap RecordId (ActorId * string * ScopeId);
  exact_approval_index : gmap RecordId Hash256;
  class_approval_index : gmap RecordId (string * ScopeId * option ActorId);
  retracted_records : gset RecordId;
  tainted_records : gset RecordId;
  epistemic_dependents : gmap RecordId (gset RecordId);
  requirement_keys : gmap RecordId (gset string);
  requirement_index : gmap RecordId (RecordId * string);
  applied_up_to : Time;
}.

(** [State::default()]. *)
Definition empty_state : State :=
  mk_State ∅ ∅ ∅ ∅ ∅ ∅ ∅ ∅ ∅ ∅ ∅ ∅ ∅ ∅ ∅ ∅ ∅ ∅ ∅ ∅ ∅ 0%N.

(** Field updates. *)
Definition set_accepted_records (v : gset RecordId) (s : State) : State :=
  mk_State v s.(active_requests) s.(active_capabilities) s.(valid_approvals) s.(class_approvals)
    s.(open_actions) s.(action_to_request) s.(active_summaries) s.(replaced_records)
    s.(request_open_action_count) s.(usage_counts) s.(active_plans) s.(response_turns)
    s.(capability_index) s.(exact_approval_index) s.(class_approval_index) s.(retracted_records)
    s.(tainted_records) s.(epistemic_dependents) s.(requirement_keys) s.(requirement_index)
    s.(applied_up_to).
Definition set_active_requests (v : gset RecordId) (s : State) : State :=
  mk_State s.(accepted_records) v s.(active_capabilities) s.(valid_approvals)
    s.(class_approvals) s.(open_actions) s.(action_to_request) s.(active_summaries)
    s.(replaced_records) s.(request_open_action_count) s.(usage_counts) s.(active_plans)
    s.(response_turns) s.(capability_index) s.(exact_approval_index) s.(class_approval_index)
    s.(retracted_records) s.(tainted_records) s.(epistemic_dependents) s.(requirement_keys)
    s.(requirement_index) s.(applied_up_to).
Definition set_active_capabilities (v : gmap (ActorId * string * ScopeId) RecordId) (s : State) : State :=
  mk_State s.(accepted_records) s.(active_requests) v s.(valid_approvals) s.(class_approvals)
    s.(open_actions) s.(action_to_request) s.(active_summaries) s.(replaced_records)
    s.(request_open_action_count) s.(usage_counts) s.(active_plans) s.(response_turns)
    s.(capability_index) s.(exact_approval_index) s.(class_approval_index) s.(retracted_records)
    s.(tainted_records) s.(epistemic_dependents) s.(requirement_keys) s.(requirement_index)
    s.(applied_up_to).
Definition set_valid_approvals (v : gmap Hash256 RecordId) (s : State) : State :=
  mk_State s.(accepted_records) s.(active_requests) s.(active_capabilities) v
    s.(class_approvals) s.(open_actions) s.(action_to_request) s.(active_summaries)
    s.(replaced_records) s.(request_open_action_count) s.(usage_counts) s.(active_plans)
    s.(response_turns) s.(capability_index) s.(exact_approval_index) s.(class_approval_index)
    s.(retracted_records) s.(tainted_records) s.(epistemic_dependents) s.(requirement_keys)
    s.(requirement_index) s.(applied_up_to).
Definition set_class_approvals (v : gmap (string * ScopeId * option ActorId) RecordId) (s : State) : State :=
  mk_State s.(accepted_records) s.(active_requests) s.(active_capabilities) s.(valid_approvals)
    v s.(open_actions) s.(action_to_request) s.(active_summaries) s.(replaced_records)
    s.(request_open_action_count) s.(usage_counts) s.(active_plans) s.(response_turns)
    s.(capability_index) s.(exact_approval_index) s.(class_approval_index) s.(retracted_records)
    s.(tainted_records) s.(epistemic_dependents) s.(requirement_keys) s.(requirement_index)
    s.(applied_up_to).
Definition set_open_actions (v : gset RecordId) (s : State) : State :=
  mk_State s.(accepted_records) s.(active_requests) s.(active_capabilities) s.(valid_approvals)
    s.(class_approvals) v s.(action_to_request) s.(active_summaries) s.(replaced_records)
    s.(request_open_action_count) s.(usage_counts) s.(active_plans) s.(response_turns)
    s.(capability_index) s.(exact_approval_index) s.(class_approval_index) s.(retracted_records)
    s.(tainted_records) s.(epistemic_dependents) s.(requirement_keys) s.(requirement_index)
    s.(applied_up_to).
Definition set_action_to_request (v : gmap RecordId RecordId) (s : State) : State :=
  mk_State s.(accepted_records) s.(active_requests) s.(active_capabilities) s.(valid_approvals)
    s.(class_approvals) s.(open_actions) v s.(active_summaries) s.(replaced_records)
    s.(request_open_action_count) s.(usage_counts) s.(active_plans) s.(response_turns)
    s.(capability_index) s.(exact_approval_index) s.(class_approval_index) s.(retracted_records)
    s.(tainted_records) s.(epistemic_dependents) s.(requirement_keys) s.(requirement_index)
    s.(applied_up_to).
Definition set_active_summaries (v : gmap Hash256 RecordId) (s : State) : State :=
  mk_State s.(accepted_records) s.(active_requests) s.(active_capabilities) s.(valid_approvals)
    s.(class_approvals) s.(open_actions) s.(action_to_request) v s.(replaced_records)
    s.(request_open_action_count) s.(usage_counts) s.(active_plans) s.(response_turns)
    s.(capability_index) s.(exact_approval_index) s.(class_approval_index) s.(retracted_records)
    s.(tainted_records) s.(epistemic_dependents) s.(requirement_keys) s.(requirement_index)
    s.(applied_up_to).
Definition set_replaced_records (v : gset RecordId) (s : State) : State :=
  mk_State s.(accepted_records) s.(active_requests) s.(active_capabilities) s.(valid_approvals)
    s.(class_approvals) s.(open_actions) s.(action_to_request) s.(active_summaries) v
    s.(request_open_action_count) s.(usage_counts) s.(active_plans) s.(response_turns)
    s.(capability_index) s.(exact_approval_index) s.(class_approval_index) s.(retracted_records)
    s.(tainted_records) s.(epistemic_dependents) s.(requirement_keys) s.(requirement_index)
    s.(applied_up_to).
Definition set_request_open_action_count (v : gmap RecordId N) (s : State) : State :=
  mk_State s.(accepted_records) s.(active_requests) s.(active_capabilities) s.(valid_approvals)
    s.(class_approvals) s.(open_actions) s.(action_to_request) s.(active_summaries)
    s.(replaced_records) v s.(usage_counts) s.(active_plans) s.(response_turns)
    s.(capability_index) s.(exact_approval_index) s.(class_approval_index) s.(retracted_records)
    s.(tainted_records) s.(epistemic_dependents) s.(requirement_keys) s.(requirement_index)
    s.(applied_up_to).
Definition set_usage_counts (v : gmap (RecordId * string) UsageOutcomeCounts) (s : State) : State :=
  mk_State s.(accepted_records) s.(active_requests) s.(active_capabilities) s.(valid_approvals)
    s.(class_approvals) s.(open_actions) s.(action_to_request) s.(active_summaries)
    s.(replaced_records) s.(request_open_action_count) v s.(active_plans) s.(response_turns)
    s.(capability_index) s.(exact_approval_index) s.(class_approval_index) s.(retracted_records)
    s.(tainted_records) s.(epistemic_dependents) s.(requirement_keys) s.(requirement_index)
    s.(applied_up_to).
Definition set_active_plans (v : gmap RecordId RecordId) (s : State) : State :=
  mk_State s.(accepted_records) s.(active_requests) s.(active_capabilities) s.(valid_approvals)
    s.(class_approvals) s.(open_actions) s.(action_to_request) s.(active_summaries)
    s.(replaced_records) s.(request_open_action_count) s.(usage_counts) v s.(response_turns)
    s.(capability_index) s.(exact_approval_index) s.(class_approval_index) s.(retracted_records)
    s.(tainted_records) s.(epistemic_dependents) s.(requirement_keys) s.(requirement_index)
    s.(applied_up_to).
Definition set_response_turns (v : gmap RecordId N) (s : State) : State :=
  mk_State s.(accepted_records) s.(active_requests) s.(active_capabilities) s.(valid_approvals)
    s.(class_approvals) s.(open_actions) s.(action_to_request) s.(active_summaries)
    s.(replaced_records) s.(request_open_action_count) s.(usage_counts) s.(active_plans) v
    s.(capability_index) s.(exact_approval_index) s.(class_approval_index) s.(retracted_records)
    s.(tainted_records) s.(epistemic_dependents) s.(requirement_keys) s.(requirement_index)
    s.(applied_up_to).
Definition set_capability_index (v : gmap RecordId (ActorId * string * ScopeId)) (s : State) : State :=
  mk_State s.(accepted_records) s.(active_requests) s.(active_capabilities) s.(valid_approvals)
    s.(class_approvals) s.(open_actions) s.(action_to_request) s.(active_summaries)
    s.(replaced_records) s.(request_open_action_count) s.(usage_counts) s.(active_plans)
    s.(response_turns) v s.(exact_approval_index) s.(class_approval_index) s.(retracted_records)
    s.(tainted_records) s.(epistemic_dependents) s.(requirement_keys) s.(requirement_index)
    s.(applied_up_to).
Definition set_exact_approval_index (v : gmap RecordId Hash256) (s : State) : State :=
  mk_State s.(accepted_records) s.(active_requests) s.(active_capabilities) s.(valid_approvals)
    s.(class_approvals) s.(open_actions) s.(action_to_request) s.(active_summaries)
    s.(replaced_records) s.(request_open_action_count) s.(usage_counts) s.(active_plans)
    s.(response_turns) s.(capability_index) v s.(class_approval_index) s.(retracted_records)
    s.(tainted_records) s.(epistemic_dependents) s.(requirement_keys) s.(requirement_index)
    s.(applied_up_to).
Definition set_class_approval_index (v : gmap RecordId (string * ScopeId * option ActorId)) (s : State) : State :=
  mk_State s.(accepted_records) s.(active_requests) s.(active_capabilities) s.(valid_approvals)
    s.(class_approvals) s.(open_actions) s.(action_to_request) s.(active_summaries)
    s.(replaced_records) s.(request_open_action_count) s.(usage_counts) s.(active_plans)
    s.(response_turns) s.(capability_index) s.(exact_approval_index) v s.(retracted_records)
    s.(tainted_records) s.(epistemic_dependents) s.(requirement_keys) s.(requirement_index)
    s.(applied_up_to).
Definition set_retracted_records (v : gset RecordId) (s : State) : State :=
  mk_State s.(accepted_records) s.(active_requests) s.(active_capabilities) s.(valid_approvals)
    s.(class_approvals) s.(open_actions) s.(action_to_request) s.(active_summaries)
    s.(replaced_records) s.(request_open_action_count) s.(usage_counts) s.(active_plans)
    s.(response_turns) s.(capability_index) s.(exact_approval_index) s.(class_approval_index) v
    s.(tainted_records) s.(epistemic_dependents) s.(requirement_keys) s.(requirement_index)
    s.(applied_up_to).
Definition set_tainted_records (v : gset RecordId) (s : State) : State :=
  mk_State s.(accepted_records) s.(active_requests) s.(active_capabilities) s.(valid_approvals)
    s.(class_approvals) s.(open_actions) s.(action_to_request) s.(active_summaries)
    s.(replaced_records) s.(request_open_action_count) s.(usage_counts) s.(active_plans)
    s.(response_turns) s.(capability_index) s.(exact_approval_index) s.(class_approval_index)
    s.(retracted_records) v s.(epistemic_dependents) s.(requirement_keys) s.(requirement_index)
    s.(applied_up_to).
Definition set_epistemic_dependents (v : gmap RecordId (gset RecordId)) (s : State) : State :=
  mk_State s.(accepted_records) s.(active_requests) s.(active_capabilities) s.(valid_approvals)
    s.(class_approvals) s.(open_actions) s.(action_to_request) s.(active_summaries)
    s.(replaced_records) s.(request_open_action_count) s.(usage_counts) s.(active_plans)
    s.(response_turns) s.(capability_index) s.(exact_approval_index) s.(class_approval_index)
    s.(retracted_records) s.(tainted_records) v s.(requirement_keys) s.(requirement_index)
    s.(applied_up_to).
Definition set_requirement_keys (v : gmap RecordId (gset string)) (s : State) : State :=
  mk_State s.(accepted_records) s.(active_requests) s.(active_capabilities) s.(valid_approvals)
    s.(class_approvals) s.(open_actions) s.(action_to_request) s.(active_summaries)
    s.(replaced_records) s.(request_open_action_count) s.(usage_counts) s.(active_plans)
    s.(response_turns) s.(capability_index) s.(exact_approval_index) s.(class_approval_index)
    s.(retracted_records) s.(tainted_records) s.(epistemic_dependents) v s.(requirement_index)
    s.(applied_up_to).
Definition set_requirement_index (v : gmap RecordId (RecordId * string)) (s : State) : State :=
  mk_State s.(accepted_records) s.(active_requests) s.(active_capabilities) s.(valid_approvals)
    s.(class_approvals) s.(open_actions) s.(action_to_request) s.(active_summaries)
    s.(replaced_records) s.(request_open_action_count) s.(usage_counts) s.(active_plans)
    s.(response_turns) s.(capability_index) s.(exact_approval_index) s.(class_approval_index)
    s.(retracted_records) s.(tainted_records) s.(epistemic_dependents) s.(requirement_keys) v
    s.(applied_up_to).
Definition set_applied_up_to (v : Time) (s : State) : State :=
  mk_State s.(accepted_records) s.(active_requests) s.(active_capabilities) s.(valid_approvals)
    s.(class_approvals) s.(open_actions) s.(action_to_request) s.(active_summaries)
    s.(replaced_records) s.(request_open_action_count) s.(usage_counts) s.(active_plans)
    s.(response_turns) s.(capability_index) s.(exact_approval_index) s.(class_approval_index)
    s.(retracted_records) s.(tainted_records) s.(epistemic_dependents) s.(requirement_keys)
    s.(requirement_index) v.

(** [State::ref_evidence]. *)
Definition ref_evidence (s : State) (r : Ref) (target : record) : option Evidence.t :=
  match ref_type r with
  | RefType.Use | RefType.Require_ =>
      if negb (rec_id target ∈? accepted_records s)
         || (rec_id target ∈? retracted_records s)
         || (rec_id target ∈? tainted_records s)
      then Some Evidence.Assumed
      else Some (rec_evidence target)
  | RefType.Cause | RefType.Replace => None
  end.

(** ** state/incremental.rs *)

(** [matches!(r.type_, RefType::Use | RefType::Require)]. *)
Definition is_epistemic (r : Ref) : bool :=
  match ref_type r with RefType.Use | RefType.Require_ => true | _ => false end.

Definition is_type (t : RefType.t) (r : Ref) : bool := ref_type r =? t.

(** [refs.iter().find(|r| r.type_ == t).map(|r| r.target)]. *)
Definition find_ref (t : RefType.t) (refs : list Ref) : option RecordId :=
  ref_target ∘ snd <$> list_find (λ r, ref_type r = t) refs.

Definition find_replace_ref (refs : list Ref) : option RecordId := find_ref RefType.Replace refs.

(** Some [Require] ref names [target]. *)
Definition requires_target (refs : list Ref) (target : RecordId) : bool :=
  existsb (λ r, is_type RefType.Require_ r && (ref_target r =? target)) refs.

(** [epistemic_dependents.get(id)], empty when absent. *)
Definition dependents (s : State) (id : RecordId) : gset RecordId :=
  default ∅ (epistemic_dependents s !! id).

(** The loop of [mark_tainted]; the stack's top is the list's head. *)
Fixpoint mark_tainted_loop (fuel : nat) (stack : list RecordId) (s : State) : option State :=
  match stack, fuel with
  | [], _ => Some s
  | _ :: _, O => None
  | current :: stack, S fuel =>
      if current ∈? tainted_records s then mark_tainted_loop fuel stack s
      else
        let s := set_tainted_records ({[current]} ∪ tainted_records s) s in
        mark_tainted_loop fuel (reverse (btree_members (dependents s current)) ++ stack) s
  end.

(** One iteration per stack entry: the first entry, and each dependence
    edge pushed at most once. *)
Definition dependence_edges (s : State) : nat :=
  map_fold (λ _ (d : gset RecordId) n, size d + n) 0 (epistemic_dependents s).
Definition mark_fuel (s : State) : nat := S (dependence_edges s).

Definition mark_tainted (id : RecordId) (s : State) : State :=
  default s (mark_tainted_loop (mark_fuel s) [id] s).

(** The loop over the record's refs: index each epistemic ref and notice a
    bad target. *)
Definition index_ref (id : RecordId) (acc : State * bool) (r : Ref) : State * bool :=
  let '(s, inherits_taint) := acc in
  if is_epistemic r then
    let s' := set_epistemic_dependents
      (<[ref_target r := {[id]} ∪ dependents s (ref_target r)]> (epistemic_dependents s)) s in
    (s', inherits_taint || (ref_target r ∈? retracted_records s')
         || (ref_target r ∈? tainted_records s'))
  else acc.

Definition index_refs (r : record) (s : State) : State :=
  let '(s, inherits_taint) := fold_left (index_ref (rec_id r)) (rec_refs r) (s, false) in
  if inherits_taint : bool then mark_tainted (rec_id r) s else s.

(** [close_action_for_request]. *)
Definition close_action_for_request (action_id : RecordId) (s : State) : State :=
  match action_to_request s !! action_id with
  | Some request_id =>
      match request_open_action_count s !! request_id with
      | Some count =>
          let count := sub_u64 count 1 in
          let counts := <[request_id := count]> (request_open_action_count s) in
          set_request_open_action_count
            (if (count =? 0)%N then delete request_id counts else counts) s
      | None => s
      end
  | None => s
  end.

Definition insert_replaced (refs : list Ref) (s : State) : State :=
  match find_replace_ref refs with
  | Some replaced_id => set_replaced_records ({[replaced_id]} ∪ replaced_records s) s
  | None => s
  end.

(** Consume the exact approval that [hash] resolves to, if the record
    requires it. *)
Definition consume_approval (hash : Hash256) (refs : list Ref) (s : State) : State :=
  match valid_approvals s !! hash with
  | Some approval_id =>
      if requires_target refs approval_id then
        set_exact_approval_index (delete approval_id (exact_approval_index s))
          (set_valid_approvals (delete hash (valid_approvals s)) s)
      else s
  | None => s
  end.

Section incremental.
Context `{Primitives, Serde}.

(** A fold step; every error is a serialization error. *)
Abbreviation step := (eff State unit unit).

(** [decode(&record.data)?]. *)
Definition decode_data (A : Type) `{Decode A} (r : record) : eff State unit A :=
  lift_opt tt (decode (rec_data r)).

Definition apply_request (r : record) : step :=
  modify (λ s, set_active_requests ({[rec_id r]} ∪ active_requests s) s).

Definition apply_action (r : record) : step :=
  data ← decode_data ActionData r;
  exact_hash ← lift_opt tt (action_approval_hash (author_id (rec_author r)) data);
  modify (λ s,
    let s := consume_approval exact_hash (rec_refs r) s in
    let s := set_open_actions ({[rec_id r]} ∪ open_actions s) s in
    let s := set_action_to_request
      (<[rec_id r := ac_request_id data]> (action_to_request s)) s in
    set_request_open_action_count
      (<[ac_request_id data :=
          add_u64 (default 0%N (request_open_action_count s !! ac_request_id data)) 1]>
        (request_open_action_count s)) s).

Definition apply_result (r : record) : step :=
  data ← decode_data ResultData r;
  modify (λ s, close_action_for_request (rt_action_id data)
    (set_open_actions (open_actions s ∖ {[rt_action_id data]}) s)).

Definition apply_refusal (r : record) : step :=
  data ← decode_data RefusalData r;
  modify (λ s,
    match rf_target_kind data with
    | RefusalTarget.Action =>
        close_action_for_request (rf_target_id data)
          (set_open_actions (open_actions s ∖ {[rf_target_id data]}) s)
    | RefusalTarget.Request =>
        set_active_plans (delete (rf_target_id data) (active_plans s))
          (set_active_requests (active_requests s ∖ {[rf_target_id data]}) s)
    | RefusalTarget.VerifiedEffect => s
    end).

Definition apply_capability (r : record) : step :=
  data ← decode_data CapabilityData r;
  let key := (cp_actor_id data, cp_action_class data, cp_scope data) in
  modify (λ s,
    let s := insert_replaced (rec_refs r) s in
    let s := set_capability_index (<[rec_id r := key]> (capability_index s)) s in
    set_active_capabilities (<[key := rec_id r]> (active_capabilities s)) s).

Definition apply_approval (r : record) : step :=
  data ← decode_data ApprovalData r;
  modify (λ s,
    let s := insert_replaced (rec_refs r) s in
    let s :=
      match ap_target_action data with
      | Some target =>
          set_valid_approvals (<[target := rec_id r]> (valid_approvals s))
            (set_exact_approval_index (<[rec_id r := target]> (exact_approval_index s)) s)
      | None => s
      end in
    match ap_action_class data with
    | Some action_class =>
        let key := (action_class, ap_scope data, ap_actor_id data) in
        set_class_approvals (<[key := rec_id r]> (class_approvals s))
          (set_class_approval_index (<[rec_id r := key]> (class_approval_index s)) s)
    | None => s
    end).

(** [sha256_canonical(&(&summary_type, &subject, &scope))]. *)
Definition summary_key (data : SummaryData) : option Hash256 :=
  sha256_canonical (VArray [to_value (sm_summary_type data); to_value (sm_subject data);
                            to_value (sm_scope data)]).

Definition apply_summary (r : record) : step :=
  data ← decode_data SummaryData r;
  key ← lift_opt tt (summary_key data);
  modify (λ s,
    let s := insert_replaced (rec_refs r) s in
    set_active_summaries (<[key := rec_id r]> (active_summaries s)) s).

Definition count_outcome (o : UsageOutcome.t) (c : UsageOutcomeCounts) : UsageOutcomeCounts :=
  match o with
  | UsageOutcome.Done =>
      mk_UsageOutcomeCounts (add_u64 (uc_done c) 1) (uc_not_done c) (uc_no_change c)
  | UsageOutcome.NotDone =>
      mk_UsageOutcomeCounts (uc_done c) (add_u64 (uc_not_done c) 1) (uc_no_change c)
  | UsageOutcome.NoChange =>
      mk_UsageOutcomeCounts (uc_done c) (uc_not_done c) (add_u64 (uc_no_change c) 1)
  end.

Definition apply_usage (r : record) : step :=
  data ← decode_data UsageData r;
  let key := (us_used_record data, us_role data) in
  modify (λ s,
    let c := default (mk_UsageOutcomeCounts 0 0 0) (usage_counts s !! key) in
    set_usage_counts (<[key := count_outcome (us_outcome data) c]> (usage_counts s)) s).

Definition apply_plan (r : record) : step :=
  data ← decode_data PlanData r;
  modify (λ s,
    let s := insert_replaced (rec_refs r) s in
    let s := set_active_plans (<[pl_request_id data := rec_id r]> (active_plans s)) s in
    match pl_status data with
    | PlanStatus.Completed | PlanStatus.Abandoned =>
        set_active_plans (delete (pl_request_id data) (active_plans s)) s
    | PlanStatus.Running => s
    end).

(** The authority slots a retraction of [target] empties: only those that
    still point at it. *)
Definition deactivate_capability (target : RecordId) (s : State) : State :=
  match capability_index s !! target with
  | Some key =>
      if active_capabilities s !! key =? Some target
      then set_active_capabilities (delete key (active_capabilities s)) s else s
  | None => s
  end.

Definition deactivate_exact_approval (target : RecordId) (s : State) : State :=
  match exact_approval_index s !! target with
  | Some hash =>
      if valid_approvals s !! hash =? Some target
      then set_valid_approvals (delete hash (valid_approvals s)) s else s
  | None => s
  end.

Definition deactivate_class_approval (target : RecordId) (s : State) : State :=
  match class_approval_index s !! target with
  | Some key =>
      if class_approvals s !! key =? Some target
      then set_class_approvals (delete key (class_approvals s)) s else s
  | None => s
  end.

Definition release_requirement_key (target : RecordId) (s : State) : State :=
  match requirement_index s !! target with
  | Some (request_id, key) =>
      match requirement_keys s !! request_id with
      | Some keys =>
          let keys := keys ∖ {[key]} in
          set_requirement_keys
            (if keys =? ∅ then delete request_id (requirement_keys s)
             else <[request_id := keys]> (requirement_keys s)) s
      | None => s
      end
  | None => s
  end.

Definition apply_retraction (r : record) : step :=
  data ← decode_data RetractionData r;
  let target := rx_target_id data in
  modify (λ s,
    let s := set_retracted_records ({[target]} ∪ retracted_records s) s in
    let s := fold_left (λ s id, mark_tainted id s) (btree_members (dependents s target)) s in
    release_requirement_key target (deactivate_class_approval target
      (deactivate_exact_approval target (deactivate_capability target s)))).

Definition apply_response (r : record) : step :=
  data ← decode_data ResponseData r;
  modify (λ s,
    let turns := default 0%N (response_turns s !! rs_request_id data) in
    let s := set_response_turns
      (<[rs_request_id data := saturating_add_u32 turns 1]> (response_turns s)) s in
    if rs_closes_request data then
      set_active_plans (delete (rs_request_id data) (active_plans s))
        (set_active_requests (active_requests s ∖ {[rs_request_id data]}) s)
    else s).

Definition apply_requirement (r : record) : step :=
  data ← decode_data RequirementData r;
  modify (λ s,
    match find_ref RefType.Cause (rec_refs r) with
    | Some request_id =>
        set_requirement_index (<[rec_id r := (request_id, rm_key data)]> (requirement_index s))
          (set_requirement_keys
            (<[request_id := {[rm_key data]} ∪ default ∅ (requirement_keys s !! request_id)]>
              (requirement_keys s)) s)
    | None => s
    end).

Definition apply_selection (r : record) : step :=
  data ← decode_data SelectionData r;
  let replace_target := find_replace_ref (rec_refs r) in
  _ ← modify (insert_replaced (rec_refs r));
  subject_hash ← lift_opt tt
    (selection_approval_subject_hash (author_id (rec_author r)) replace_target data);
  modify (consume_approval subject_hash (rec_refs r)).

(** The kind-specific part of the fold. *)
Definition apply_kind (r : record) : step :=
  match rec_kind r with
  | Kind.Request => apply_request r
  | Kind.Action => apply_action r
  | Kind.Result => apply_result r
  | Kind.Refusal => apply_refusal r
  | Kind.Capability => apply_capability r
  | Kind.Approval => apply_approval r
  | Kind.Summary => apply_summary r
  | Kind.Usage => apply_usage r
  | Kind.Plan => apply_plan r
  | Kind.Retraction => apply_retraction r
  | Kind.Response => apply_response r
  | Kind.Verdict => mret tt
  | Kind.Candidate | Kind.Evaluation => mret tt
  | Kind.Requirement => apply_requirement r
  | Kind.Selection => apply_selection r
  end.

(** [apply_accepted]. *)
Definition apply_accepted (r : record) : step :=
  _ ← modify (λ s, set_accepted_records ({[rec_id r]} ∪ accepted_records s) s);
  _ ← modify (index_refs r);
  apply_kind r.

Definition apply_record (r : record) (verdict : VerdictData) : step :=
  match vd_result verdict with
  | VerdictResult.Accept => apply_accepted r
  | VerdictResult.Reject => mret tt
  end.

(** ** state/build.rs *)

(** Step 1: verdicts by subject; a later verdict for a subject wins. *)
Fixpoint verdict_map_from (m : gmap RecordId VerdictData) (records : list record)
    : option (gmap RecordId VerdictData) :=
  match records with
  | [] => Some m
  | r :: records =>
      if rec_kind r =? Kind.Verdict then
        match find_ref RefType.Cause (rec_refs r) with
        | Some subject_id =>
            data ← (decode (rec_data r) : option VerdictData);
            verdict_map_from (<[subject_id := data]> m) records
        | None => verdict_map_from m records
        end
      else verdict_map_from m records
  end.

(** Step 2: the fold over non-verdict records. *)
Fixpoint apply_all (m : gmap RecordId VerdictData) (records : list record) : step :=
  match records with
  | [] => mret tt
  | r :: records =>
      if rec_kind r =? Kind.Verdict then apply_all m records
      else
        _ ← match m !! rec_id r with
            | Some verdict => apply_record r verdict
            | None => mret tt
            end;
        apply_all m records
  end.

Definition last_time (records : list record) : Time := default 0%N (rec_time <$> last records).

Definition build_state_unchecked (records : list record) : option State :=
  if bool_decide (records = []) then Some empty_state else
  verdict_map ← verdict_map_from ∅ records;
  match apply_all verdict_map records empty_state with
  | (s, inr _) => Some (set_applied_up_to (last_time records) s)
  | (_, inl _) => None
  end.
End incremental.
