(* ===== verification/Rules.v ===== *)
(** * Verifier configuration

    Models src/src/verify/rules.rs: the rule record, its builders, the frozen
    kind-schema map and its strict decoding. *)

From S2P Require Export State.

Record VerifierRules := mk_VerifierRules {
  rules_space : SpaceId;
  kind_schema_map : gmap Hash256 Kind.t;
  signature_required_kinds : gset Kind.t;
  author_keys : gmap ActorId (gset Hash256);
  author_roles : gmap ActorId AuthorType.t;
  admin_retraction_actors : gset ActorId;
  allowed_summary_types : gset SummaryType.t;
  evidence_thresholds : gmap Kind.t Evidence.t;
  max_context_records : N;
  min_binding : BindingMode.t;
  selection_requires_evaluation : bool;
  reaffirmation_actors : gset ActorId;
  max_considered : N;
  selection_requires_approval : bool;
  reject_compromised_continuation : bool;
}.

Definition default_min_binding : BindingMode.t := BindingMode.Reported.
Definition default_true : bool := true.
Definition default_max_considered : N := 4096.

Definition all_summary_types : gset SummaryType.t :=
  {[SummaryType.Procedure; SummaryType.Pattern; SummaryType.Lesson; SummaryType.StateSnapshot]}.

(** The strict visitor of [author_keys]: a repeated key of an actor or a
    repeated actor is an error. *)
Fixpoint visit_author_keys (m : gmap ActorId (gset Hash256))
    (entries : list (ActorId * list Hash256)) : option (gmap ActorId (gset Hash256)) :=
  match entries with
  | [] => Some m
  | (actor, keys) :: rest =>
      unique ← strict_set_de keys;
      match m !! actor with
      | Some _ => None
      | None => visit_author_keys (<[actor := unique]> m) rest
      end
  end.

Definition author_keys_de (entries : list (ActorId * list Hash256)) :=
  visit_author_keys ∅ entries.

Section rules.
Context `{Primitives}.

Definition frozen_kind_schema_map : gmap Hash256 Kind.t :=
  fold_left (λ m e, <[schema_id e.1 := e.2]> m)
    [(SCHEMA_REQUEST, Kind.Request); (SCHEMA_ACTION, Kind.Action);
     (SCHEMA_RESPONSE, Kind.Response); (SCHEMA_RESULT, Kind.Result);
     (SCHEMA_RESULT_EXTERNAL, Kind.Result);
     (SCHEMA_RESULT_EFFECT_CONFIRMATION, Kind.Result);
     (SCHEMA_CAPABILITY, Kind.Capability); (SCHEMA_APPROVAL, Kind.Approval);
     (SCHEMA_SUMMARY, Kind.Summary); (SCHEMA_REFUSAL, Kind.Refusal);
     (SCHEMA_USAGE, Kind.Usage); (SCHEMA_VERDICT, Kind.Verdict);
     (SCHEMA_PLAN, Kind.Plan); (SCHEMA_RETRACTION, Kind.Retraction);
     (SCHEMA_CANDIDATE, Kind.Candidate); (SCHEMA_EVALUATION, Kind.Evaluation);
     (SCHEMA_SELECTION, Kind.Selection); (SCHEMA_REQUIREMENT, Kind.Requirement);
     (SCHEMA_EVALUATION_V2, Kind.Evaluation);
     (SCHEMA_EVALUATION_ATTESTED, Kind.Evaluation)] ∅.

(** [VerifierRules::new]. *)
Definition new_rules (space : SpaceId) (max_context_records : N) : VerifierRules := {|
  rules_space := space;
  kind_schema_map := frozen_kind_schema_map;
  signature_required_kinds := ∅;
  author_keys := ∅;
  author_roles := ∅;
  admin_retraction_actors := ∅;
  allowed_summary_types := all_summary_types;
  evidence_thresholds := ∅;
  max_context_records := max_context_records;
  min_binding := default_min_binding;
  selection_requires_evaluation := default_true;
  reaffirmation_actors := ∅;
  max_considered := default_max_considered;
  selection_requires_approval := false;
  reject_compromised_continuation := false;
|}.
End rules.

(** ** Builders *)

Definition with_author_role (actor : ActorId) (role : AuthorType.t) (r : VerifierRules)
    : VerifierRules :=
  mk_VerifierRules (rules_space r) (kind_schema_map r) (signature_required_kinds r)
    (author_keys r) (<[actor := role]> (author_roles r)) (admin_retraction_actors r)
    (allowed_summary_types r) (evidence_thresholds r) (max_context_records r) (min_binding r)
    (selection_requires_evaluation r) (reaffirmation_actors r) (max_considered r)
    (selection_requires_approval r) (reject_compromised_continuation r).

Definition with_admin_retraction_actor (actor : ActorId) (r : VerifierRules) : VerifierRules :=
  mk_VerifierRules (rules_space r) (kind_schema_map r) (signature_required_kinds r)
    (author_keys r) (author_roles r) ({[actor]} ∪ admin_retraction_actors r)
    (allowed_summary_types r) (evidence_thresholds r) (max_context_records r) (min_binding r)
    (selection_requires_evaluation r) (reaffirmation_actors r) (max_considered r)
    (selection_requires_approval r) (reject_compromised_continuation r).

Definition with_evidence_threshold (kind : Kind.t) (threshold : Evidence.t) (r : VerifierRules)
    : VerifierRules :=
  mk_VerifierRules (rules_space r) (kind_schema_map r) (signature_required_kinds r)
    (author_keys r) (author_roles r) (admin_retraction_actors r) (allowed_summary_types r)
    (<[kind := threshold]> (evidence_thresholds r)) (max_context_records r) (min_binding r)
    (selection_requires_evaluation r) (reaffirmation_actors r) (max_considered r)
    (selection_requires_approval r) (reject_compromised_continuation r).

Definition with_baseline_thresholds (r : VerifierRules) : VerifierRules :=
  with_evidence_threshold Kind.Selection Evidence.Inferred
    (with_evidence_threshold Kind.Evaluation Evidence.Reported
      (with_evidence_threshold Kind.Candidate Evidence.Reported r)).

Definition with_reaffirmation_actor (actor : ActorId) (r : VerifierRules) : VerifierRules :=
  mk_VerifierRules (rules_space r) (kind_schema_map r) (signature_required_kinds r)
    (author_keys r) (author_roles r) (admin_retraction_actors r) (allowed_summary_types r)
    (evidence_thresholds r) (max_context_records r) (min_binding r)
    (selection_requires_evaluation r) ({[actor]} ∪ reaffirmation_actors r) (max_considered r)
    (selection_requires_approval r) (reject_compromised_continuation r).

(** ** Serialization, for the hash a trusted checkpoint binds *)

(** [strict_map::serialize]: an object keyed by the serialized key. *)
Definition object_of `{Countable K, Cmp K, Serialize V} (name : K → string) (m : gmap K V) : Value :=
  VObject ((λ e, (name e.1, to_value e.2)) <$> btree_entries m).

#[export] Instance ser_VerifierRules : Serialize VerifierRules := λ r,
  VObject
    [("space", to_value (rules_space r));
     ("kind_schema_map", map_as_pairs_ser (kind_schema_map r));
     ("signature_required_kinds", strict_set_ser (signature_required_kinds r));
     ("author_keys",
       object_of (V := list Hash256) id (btree_members <$> author_keys r));
     ("author_roles", object_of id (author_roles r));
     ("admin_retraction_actors", strict_set_ser (admin_retraction_actors r));
     ("allowed_summary_types", strict_set_ser (allowed_summary_types r));
     ("evidence_thresholds", object_of Kind.name (evidence_thresholds r));
     ("max_context_records", to_value (max_context_records r));
     ("min_binding", to_value (min_binding r));
     ("selection_requires_evaluation", to_value (selection_requires_evaluation r));
     ("reaffirmation_actors", strict_set_ser (reaffirmation_actors r));
     ("max_considered", to_value (max_considered r));
     ("selection_requires_approval", to_value (selection_requires_approval r));
     ("reject_compromised_continuation", to_value (reject_compromised_continuation r))].
