(* ===== verification/Verdict.v ===== *)
(** * The prior index and verdict records

    Models src/src/verify/verifier/verdict.rs: the id-indexed view of the
    records before the one under verification, and the rules of verdict
    records. *)

From S2P Require Export Rules.

(** ** The index *)

Record PriorIndex := mk_PriorIndex {
  by_id : gmap RecordId nat;
  verdicted_subjects : gset RecordId;
}.

Definition empty_index : PriorIndex := mk_PriorIndex ∅ ∅.

(** [PriorIndex::insert]: the first occurrence of an id wins. *)
Definition index_insert (pos : nat) (r : record) (index : PriorIndex) : PriorIndex :=
  mk_PriorIndex
    (match by_id index !! rec_id r with
     | Some _ => by_id index
     | None => <[rec_id r := pos]> (by_id index)
     end)
    (if rec_kind r =? Kind.Verdict then
       fold_left (λ s ref, if is_type RefType.Cause ref then {[ref_target ref]} ∪ s else s)
         (rec_refs r) (verdicted_subjects index)
     else verdicted_subjects index).

(** Inserting a run of records from position [pos] on. *)
Fixpoint index_insert_all (pos : nat) (records : list record) (index : PriorIndex) : PriorIndex :=
  match records with
  | [] => index
  | r :: records => index_insert_all (S pos) records (index_insert pos r index)
  end.

(** [PriorIndex::of]. *)
Definition index_of (records : list record) : PriorIndex := index_insert_all 0 records empty_index.

(** The borrowed view [Prior]. *)
Record Prior := mk_Prior {
  prior_records : list record;
  prior_index : PriorIndex;
}.

Definition view (index : PriorIndex) (records : list record) : Prior := mk_Prior records index.

Definition prior_find (p : Prior) (id : RecordId) : option record :=
  by_id (prior_index p) !! id ≫= λ pos, prior_records p !! pos.

Definition has_verdict_for (p : Prior) (subject : RecordId) : bool :=
  subject ∈? verdicted_subjects (prior_index p).

(** ** Verdict records *)

Section verdict.
Context `{Primitives, Serde}.

Definition check_verdict_record (r : record) (prior : Prior) (rules : VerifierRules)
    : option ReasonCode.t :=
  reject_if negb (compute_id r =? Some (rec_id r)) with ReasonCode.InvalidPayload;;
  reject_if negb (rec_schema r =? schema_id SCHEMA_VERDICT) with ReasonCode.KindSchemaMismatch;;
  reject_if negb (author_type (rec_author r) =? AuthorType.Verifier)
    with ReasonCode.InvalidPayload;;
  reject_if is_Some_b (author_signature (rec_author r)) with ReasonCode.InvalidPayload;;
  reject_if negb (rec_space r =? rules_space rules) with ReasonCode.InvalidPayload;;
  reject_if negb (rec_evidence r =? Evidence.Deterministic) with ReasonCode.InvalidPayload;;
  reject_if negb (decodes_canonically VerdictData (rec_data r)) with ReasonCode.InvalidPayload;;
  match rec_refs r with
  | [subject_ref] =>
      reject_if negb (is_type RefType.Cause subject_ref) with ReasonCode.InvalidPayload;;
      let subject_id := ref_target subject_ref in
      let? subject := prior_find prior subject_id else Some ReasonCode.RefUnresolved;;
      reject_if rec_kind subject =? Kind.Verdict with ReasonCode.InvalidPayload;;
      reject_if negb (rec_space subject =? rec_space r)
                || negb (rec_thread subject =? rec_thread r) with ReasonCode.InvalidPayload;;
      reject_if has_verdict_for prior subject_id with ReasonCode.InvalidPayload;;
      None
  | _ => Some ReasonCode.InvalidPayload
  end.
End verdict.
