(* ===== verification/Plans.v ===== *)
(** * Plan, retraction and approval rules

    Models src/src/verify/verifier/plans.rs.  Cycle detection is Kahn's
    algorithm over hash maps: the initial queue comes in an arbitrary
    iteration order, [hash_iter]. *)

From S2P Require Export Verdict.

(** ** Cycle detection *)

(** The graph built from the task list: in-degrees and adjacency lists. *)
Definition add_dep (id : string) (g : gmap string N * gmap string (list string)) (dep : string) :=
  (<[id := (default 0 (g.1 !! id) + 1)%N]> g.1,
   <[dep := default [] (g.2 !! dep) ++ [id]]> g.2).

Definition add_task (g : gmap string N * gmap string (list string)) (task : PlanTask) :=
  let id := tk_id task in
  fold_left (add_dep id) (tk_depends_on task)
    (<[id := default 0%N (g.1 !! id)]> g.1, <[id := default [] (g.2 !! id)]> g.2).

Definition build_graph (tasks : list PlanTask) : gmap string N * gmap string (list string) :=
  fold_left add_task tasks (∅, ∅).

(** The inner loop: decrement each neighbour, queue those that reach zero.
    [*d -= 1] is [usize] arithmetic. *)
Definition visit_neighbor (acc : gmap string N * list string) (nb : string) :=
  match acc.1 !! nb with
  | Some d =>
      let d := sub_u64 d 1 in
      (<[nb := d]> acc.1, if (d =? 0)%N then acc.2 ++ [nb] else acc.2)
  | None => acc
  end.

(** The main loop; [None] only without fuel. *)
Fixpoint kahn (fuel : nat) (adj : gmap string (list string)) (in_degree : gmap string N)
    (queue : list string) (visited : nat) : option nat :=
  match queue, fuel with
  | [], _ => Some visited
  | _, O => None
  | id :: queue, S fuel =>
      let '(in_degree, queue) :=
        fold_left visit_neighbor (default [] (adj !! id)) (in_degree, queue) in
      kahn fuel adj in_degree queue (S visited)
  end.

(** Each node is queued at most once. *)
Definition kahn_fuel (tasks : list PlanTask) : nat := S (length tasks).

Definition has_cycle `{HashOrder} (tasks : list PlanTask) : bool :=
  let '(in_degree, adj) := build_graph tasks in
  let queue := fst <$> filter (λ e, e.2 = 0%N) (hash_iter in_degree) in
  match kahn (kahn_fuel tasks) adj in_degree queue 0 with
  | Some visited => negb (visited =? length tasks)
  | None => true
  end.

(** ** Plans *)

(** Inserting every id into [seen_ids]: [None] on a repeated one. *)
Fixpoint collect_ids (seen : gset string) (tasks : list PlanTask) : option (gset string) :=
  match tasks with
  | [] => Some seen
  | t :: tasks =>
      if tk_id t ∈? seen then None else collect_ids ({[tk_id t]} ∪ seen) tasks
  end.

Definition is_executed (s : TaskStatus.t) : bool :=
  match s with TaskStatus.Done | TaskStatus.Failed => true | _ => false end.
Definition is_pending_or_running (s : TaskStatus.t) : bool :=
  match s with TaskStatus.Pending | TaskStatus.Running => true | _ => false end.
Definition is_terminal (s : TaskStatus.t) : bool :=
  match s with TaskStatus.Done | TaskStatus.Failed | TaskStatus.Skipped => true | _ => false end.
Definition is_failed_or_skipped (s : TaskStatus.t) : bool :=
  match s with TaskStatus.Failed | TaskStatus.Skipped => true | _ => false end.

Definition cause_refs (r : record) : list Ref := filter (λ x, ref_type x = RefType.Cause) (rec_refs r).

(** [cause_refs.len() != 1 || cause_refs[0].target != id]. *)
Definition single_cause_to (r : record) (id : RecordId) : bool :=
  match cause_refs r with [c] => ref_target c =? id | _ => false end.

Section plans.
Context `{Primitives, Serde, HashOrder}.

(** The proof-binding rule of one task. *)
Definition check_task_result (r : record) (prior : Prior) (s : State) (data : PlanData)
    (task : PlanTask) : option ReasonCode.t :=
  let? result_id := tk_result_record_id task else None;;
  reject_if negb (is_executed (tk_status task)) with ReasonCode.InvalidPayload;;
  let? result_record := prior_find prior result_id else Some ReasonCode.InvalidPayload;;
  reject_if negb (rec_kind result_record =? Kind.Result)
            || negb (result_id ∈? accepted_records s)
            || negb (rec_thread result_record =? rec_thread r)
            || negb (rec_space result_record =? rec_space r) with ReasonCode.InvalidPayload;;
  let? result_data := (decode (rec_data result_record) : option ResultData)
    else Some ReasonCode.InvalidPayload;;
  let? action_record := prior_find prior (rt_action_id result_data)
    else Some ReasonCode.InvalidPayload;;
  let? action_data := (decode (rec_data action_record) : option ActionData)
    else Some ReasonCode.InvalidPayload;;
  reject_if negb (ac_request_id action_data =? pl_request_id data)
    with ReasonCode.InvalidPayload;;
  None.

(** The final status-consistency match. *)
Definition status_consistent (data : PlanData) : bool :=
  let statuses := tk_status <$> pl_tasks data in
  match pl_status data with
  | PlanStatus.Running => existsb is_pending_or_running statuses
  | PlanStatus.Completed => forallb (λ t, t =? TaskStatus.Done) statuses
  | PlanStatus.Abandoned =>
      forallb is_terminal statuses && existsb is_failed_or_skipped statuses
  end.

Definition check_plan (r : record) (prior : Prior) (s : State) : option ReasonCode.t :=
  let? data := (decode (rec_data r) : option PlanData) else Some ReasonCode.InvalidPayload;;
  reject_if negb (single_cause_to r (pl_request_id data)) with ReasonCode.RequestMissing;;
  reject_if negb (pl_request_id data ∈? active_requests s) with ReasonCode.RequestMissing;;
  let? request := prior_find prior (pl_request_id data)
    else Some ReasonCode.RequestMissing;;
  reject_if negb (rec_thread request =? rec_thread r)
            || negb (rec_space request =? rec_space r) with ReasonCode.RequestMissing;;
  reject_if bool_decide (pl_tasks data = []) with ReasonCode.InvalidPayload;;
  let? seen_ids := collect_ids ∅ (pl_tasks data) else Some ReasonCode.InvalidPayload;;
  reject_if negb (forallb (λ t,
    forallb (λ d, d ∈? seen_ids) (tk_depends_on t)
    && forallb (λ d, d ∈? seen_ids) (tk_inputs_from t)) (pl_tasks data))
    with ReasonCode.InvalidPayload;;
  check? first_some (check_task_result r prior s data) (pl_tasks data);;
  reject_if has_cycle (pl_tasks data) with ReasonCode.InvalidPayload;;
  reject_if negb (status_consistent data) with ReasonCode.InvalidPayload;;
  None.

(** ** Retractions *)

Definition check_retraction (r : record) (prior : Prior) (rules : VerifierRules) (s : State)
    : option ReasonCode.t :=
  let? data := (decode (rec_data r) : option RetractionData)
    else Some ReasonCode.InvalidPayload;;
  reject_if negb (single_cause_to r (rx_target_id data)) with ReasonCode.InvalidPayload;;
  let? target := prior_find prior (rx_target_id data) else Some ReasonCode.RefUnresolved;;
  reject_if negb (rx_target_id data ∈? accepted_records s) with ReasonCode.InvalidPayload;;
  reject_if (rec_kind target =? Kind.Verdict) || (rec_kind target =? Kind.Retraction)
    with ReasonCode.InvalidPayload;;
  reject_if negb (author_id (rec_author r) =? author_id (rec_author target))
            && negb (author_id (rec_author r) ∈? admin_retraction_actors rules)
    with ReasonCode.AuthorRoleInvalid;;
  None.

(** ** Approvals *)

Definition check_approval (r : record) : option ReasonCode.t :=
  let? data := (decode (rec_data r) : option ApprovalData) else Some ReasonCode.InvalidPayload;;
  reject_if eqb (is_Some_b (ap_target_action data)) (is_Some_b (ap_action_class data))
    with ReasonCode.InvalidPayload;;
  reject_if is_Some_b (ap_target_action data) && negb (is_Some_b (ap_actor_id data))
    with ReasonCode.InvalidPayload;;
  None.
End plans.
