(* ===== verification/Activity.v ===== *)
(** * Work and governance rules

    Models src/src/verify/verifier/activity.rs (requests, actions and their
    authority chain) and src/src/verify/verifier/lifecycle.rs (results,
    refusals, usage, summaries and responses). *)

From S2P Require Export Plans.

(** Neither retracted nor tainted. *)
Definition unreliable (s : State) (id : RecordId) : bool :=
  (id ∈? retracted_records s) || (id ∈? tainted_records s).

(** [record.time >= expiry] for a present expiry. *)
Definition expired (time : Time) (expiry : option Time) : bool :=
  match expiry with Some e => (e <=? time)%N | None => false end.

(** The [usable] closure of [check_approval_for_action]. *)
Definition usable (s : State) (approval_id : RecordId) : bool :=
  (approval_id ∈? accepted_records s) && negb (unreliable s approval_id).

(** Early exit of the approval search: the search ends with a result, or
    falls through to the next priority. *)
Definition outcome : Type := option (ReasonCode.t + RecordId).
Definition or_else (a : outcome) (b : ReasonCode.t + RecordId) : ReasonCode.t + RecordId :=
  default b a.

Section activity.
Context `{Primitives, Serde, HashOrder}.

Definition check_request (r : record) (prior : Prior) (s : State) : option ReasonCode.t :=
  let? data := (decode (rec_data r) : option RequestData) else Some ReasonCode.InvalidPayload;;
  let cause_targets := ref_target <$> cause_refs r in
  check? first_some (λ target_id,
    let? parent := prior_find prior target_id else Some ReasonCode.RefUnresolved;;
    reject_if negb (rec_kind parent =? Kind.Request) with ReasonCode.InvalidPayload;;
    reject_if negb (rec_thread parent =? rec_thread r) with ReasonCode.InvalidPayload;;
    reject_if negb (target_id ∈? accepted_records s) with ReasonCode.RequestMissing;;
    None) cause_targets;;
  match rq_parent_request_id data with
  | None => reject_if negb (bool_decide (cause_targets = [])) with ReasonCode.InvalidPayload;; None
  | Some pid =>
      reject_if negb (bool_decide (cause_targets = [pid])) with ReasonCode.InvalidPayload;; None
  end.

Definition has_require_ref (r : record) (target : RecordId) : bool :=
  requires_target (rec_refs r) target.

(** Priority 1: the exact approval; an unusable, mismatched or expired one
    falls through. *)
Definition exact_approval (r : record) (data : ActionData) (action_hash : Hash256)
    (prior : Prior) (s : State) : outcome :=
  let? approval_id := valid_approvals s !! action_hash else None;;
  let? approval_record := prior_find prior approval_id else None;;
  if usable s approval_id then
    match (decode (rec_data approval_record) : option ApprovalData) with
    | None => Some (Err ReasonCode.InvalidPayload)
    | Some approval_data =>
        if (ap_actor_id approval_data =? Some (author_id (rec_author r)))
           && (ap_scope approval_data =? ac_scope data)
        then if expired (rec_time r) (ap_expiry approval_data) then None
             else Some (Ok approval_id)
        else None
    end
  else None.

(** Priorities 2 and 3: a class approval for the actor, then for anyone. *)
Definition class_approval (r : record) (data : ActionData) (actor : option ActorId)
    (prior : Prior) (s : State) : outcome :=
  let? approval_id := class_approvals s !! (ac_action_class data, ac_scope data, actor)
    else None;;
  let? approval_record := prior_find prior approval_id else None;;
  if usable s approval_id then
    match (decode (rec_data approval_record) : option ApprovalData) with
    | None => Some (Err ReasonCode.InvalidPayload)
    | Some approval_data =>
        if expired (rec_time r) (ap_expiry approval_data)
        then Some (Err ReasonCode.ApprovalExpired)
        else Some (Ok approval_id)
    end
  else None.

Definition check_approval_for_action (r : record) (data : ActionData) (prior : Prior)
    (s : State) : ReasonCode.t + RecordId :=
  match action_approval_hash (author_id (rec_author r)) data with
  | None => Err ReasonCode.InvalidPayload
  | Some action_hash =>
      or_else (exact_approval r data action_hash prior s)
        (or_else (class_approval r data (Some (author_id (rec_author r))) prior s)
          (or_else (class_approval r data None prior s) (Err ReasonCode.ApprovalMissing)))
  end.

Definition check_action (r : record) (prior : Prior) (s : State) : option ReasonCode.t :=
  let? data := (decode (rec_data r) : option ActionData) else Some ReasonCode.InvalidPayload;;
  reject_if negb (ac_request_id data ∈? active_requests s) with ReasonCode.RequestMissing;;
  let? request := prior_find prior (ac_request_id data)
    else Some ReasonCode.RequestMissing;;
  reject_if negb (rec_thread request =? rec_thread r)
            || negb (rec_space request =? rec_space r) with ReasonCode.RequestMissing;;
  let? request_data := (decode (rec_data request) : option RequestData)
    else Some ReasonCode.InvalidPayload;;
  reject_if negb (ac_scope data =? rq_scope request_data) with ReasonCode.InvalidPayload;;
  let? cap_id := active_capabilities s !!
      (author_id (rec_author r), ac_action_class data, ac_scope data)
    else Some ReasonCode.CapabilityMissing;;
  let? cap_record := prior_find prior cap_id else Some ReasonCode.CapabilityMissing;;
  reject_if unreliable s cap_id with ReasonCode.CapabilityMissing;;
  let? cap_data := (decode (rec_data cap_record) : option CapabilityData)
    else Some ReasonCode.InvalidPayload;;
  reject_if expired (rec_time r) (cp_expiry cap_data) with ReasonCode.CapabilityMissing;;
  try? approval_id :=
    match cp_mode cap_data with
    | CapabilityMode.Deny => Err ReasonCode.CapabilityDenied
    | CapabilityMode.Auto => Ok None
    | CapabilityMode.Ask => Some <$> check_approval_for_action r data prior s
    end;;
  reject_if negb (has_require_ref r cap_id) with ReasonCode.AuthorityRefMissing;;
  match approval_id with
  | Some approval_id =>
      reject_if negb (has_require_ref r approval_id) with ReasonCode.AuthorityRefMissing;; None
  | None => None
  end.

(** ** lifecycle.rs *)

Definition check_result (r : record) (prior : Prior) (rules : VerifierRules) (s : State)
    : option ReasonCode.t :=
  let? data := (decode (rec_data r) : option ResultData) else Some ReasonCode.InvalidPayload;;
  reject_if match rt_artifacts data with
            | Some artifacts => negb (artifact_refs_well_formed artifacts)
            | None => false
            end with ReasonCode.ArtifactRefInvalid;;
  reject_if negb (rt_action_id data ∈? open_actions s) with ReasonCode.ActionClosed;;
  let? action := prior_find prior (rt_action_id data) else Some ReasonCode.ActionClosed;;
  reject_if negb (rec_thread action =? rec_thread r)
            || negb (rec_space action =? rec_space r) with ReasonCode.ActionClosed;;
  let? action_data := (decode (rec_data action) : option ActionData)
    else Some ReasonCode.InvalidPayload;;
  let external_schema := schema_id SCHEMA_RESULT_EXTERNAL in
  check? match ac_exec_mode action_data with
    | ExecMode.External =>
        reject_if negb (rec_schema r =? external_schema)
          with ReasonCode.ExternalReceiptRequired;;
        reject_if negb (is_Some_b (author_signature (rec_author r)))
          with ReasonCode.SignatureMissing;;
        reject_if negb (is_Some_b (author_keys rules !! author_id (rec_author r)))
          with ReasonCode.SignatureInvalid;;
        None
    | ExecMode.Internal =>
        reject_if rec_schema r =? external_schema with ReasonCode.InvalidPayload;; None
    end;;
  reject_if negb (single_cause_to r (rt_action_id data)) with ReasonCode.InvalidPayload;;
  None.

Definition check_refusal (r : record) (prior : Prior) (s : State) : option ReasonCode.t :=
  let? data := (decode (rec_data r) : option RefusalData) else Some ReasonCode.InvalidPayload;;
  let? t := prior_find prior (rf_target_id data) else Some ReasonCode.RequestMissing;;
  let elsewhere := negb (rec_thread t =? rec_thread r) || negb (rec_space t =? rec_space r) in
  check? match rf_target_kind data with
    | RefusalTarget.Action =>
        reject_if negb (rec_kind t =? Kind.Action) with ReasonCode.InvalidPayload;;
        reject_if negb (rf_target_id data ∈? open_actions s) with ReasonCode.ActionClosed;;
        reject_if elsewhere with ReasonCode.ActionClosed;;
        None
    | RefusalTarget.Request =>
        reject_if negb (rec_kind t =? Kind.Request) with ReasonCode.InvalidPayload;;
        reject_if negb (rf_target_id data ∈? active_requests s)
          with ReasonCode.RequestMissing;;
        reject_if elsewhere with ReasonCode.RequestMissing;;
        None
    | RefusalTarget.VerifiedEffect =>
        reject_if negb (rec_kind t =? Kind.Result)
                  || negb (rec_schema t =? schema_id SCHEMA_RESULT_EFFECT_CONFIRMATION)
          with ReasonCode.InvalidPayload;;
        reject_if negb (rf_target_id data ∈? accepted_records s)
          with ReasonCode.InvalidPayload;;
        reject_if elsewhere with ReasonCode.InvalidPayload;;
        None
    end;;
  reject_if negb (single_cause_to r (rf_target_id data)) with ReasonCode.InvalidPayload;;
  None.

Definition use_refs (r : record) : list Ref :=
  filter (λ x, ref_type x = RefType.Use) (rec_refs r).

Definition check_usage (r : record) (prior : Prior) (s : State) : option ReasonCode.t :=
  let? data := (decode (rec_data r) : option UsageData) else Some ReasonCode.InvalidPayload;;
  reject_if negb (us_actor data =? author_id (rec_author r)) with ReasonCode.InvalidPayload;;
  reject_if negb (is_Some_b (prior_find prior (us_used_record data)))
    with ReasonCode.InvalidPayload;;
  let? consuming := prior_find prior (us_consuming_record data)
    else Some ReasonCode.InvalidPayload;;
  reject_if negb (us_consuming_record data ∈? accepted_records s)
    with ReasonCode.InvalidPayload;;
  reject_if negb (rec_kind consuming =? Kind.Result) && negb (rec_kind consuming =? Kind.Refusal)
    with ReasonCode.InvalidPayload;;
  reject_if negb (rec_thread consuming =? rec_thread r) with ReasonCode.InvalidPayload;;
  reject_if negb (match use_refs r with
                  | [u] => ref_target u =? us_used_record data
                  | _ => false
                  end) with ReasonCode.InvalidPayload;;
  None.

Definition check_summary (r : record) (rules : VerifierRules) : option ReasonCode.t :=
  let? data := (decode (rec_data r) : option SummaryData) else Some ReasonCode.InvalidPayload;;
  reject_if negb (sm_summary_type data ∈? allowed_summary_types rules)
    with ReasonCode.InvalidPayload;;
  reject_if length (use_refs r) =? 0 with ReasonCode.InvalidPayload;;
  None.

Definition check_response (r : record) (prior : Prior) (s : State) : option ReasonCode.t :=
  let? data := (decode (rec_data r) : option ResponseData) else Some ReasonCode.InvalidPayload;;
  reject_if negb (rs_request_id data ∈? active_requests s) with ReasonCode.RequestMissing;;
  let? request := prior_find prior (rs_request_id data)
    else Some ReasonCode.RequestMissing;;
  reject_if negb (rec_thread request =? rec_thread r)
            || negb (rec_space request =? rec_space r) with ReasonCode.RequestMissing;;
  let expected_turn := default 0%N (response_turns s !! rs_request_id data) in
  reject_if (expected_turn =? u32_max) || negb (rs_turn_index data =? expected_turn)
    with ReasonCode.InvalidPayload;;
  reject_if rs_closes_request data
            && (0 <? default 0 (request_open_action_count s !! rs_request_id data))%N
    with ReasonCode.InvalidPayload;;
  reject_if rs_closes_request data && is_Some_b (active_plans s !! rs_request_id data)
    with ReasonCode.InvalidPayload;;
  None.
End activity.
