(* ===== verification/Evolution.v ===== *)
(** * Candidate, evaluation, selection and requirement rules

    Models src/src/verify/verifier/evolution.rs. *)

From S2P Require Export Activity.

Definition oid_hex_len (algo : SourceAlgo.t) : nat :=
  match algo with SourceAlgo.Sha1 => 40 | SourceAlgo.Sha256 => 64 end.

Definition is_lower_hex (s : string) (len : nat) : bool :=
  (length (lit s) =? len) && forallb is_hex (lit s).

Definition source_binding_well_formed (sb : SourceBinding) : bool :=
  let len := oid_hex_len (gs_algo (sb_git sb)) in
  if negb (is_lower_hex (gs_tree (sb_git sb)) len) then false else
  if match gs_commit (sb_git sb) with
     | Some commit => negb (is_lower_hex commit len)
     | None => false
     end then false else
  eqb (is_Some_b (sb_manifest_hash sb)) (sb_binding sb =? BindingMode.Manifest).

Section evolution.
Context `{Primitives, Serde}.

Definition resolve_candidate (id : RecordId) (r : record) (prior : Prior) (s : State)
    : ReasonCode.t + record :=
  match prior_find prior id with
  | Some t =>
      if (rec_space t =? rec_space r) && (rec_kind t =? Kind.Candidate)
         && (rec_id t ∈? accepted_records s)
      then Ok t else Err ReasonCode.PayloadRefUnresolved
  | None => Err ReasonCode.PayloadRefUnresolved
  end.

Definition check_candidate (r : record) (prior : Prior) (rules : VerifierRules) (s : State)
    : option ReasonCode.t :=
  let? data := (decode (rec_data r) : option CandidateData)
    else Some ReasonCode.InvalidPayload;;
  reject_if negb (source_binding_well_formed (cd_source data))
    with ReasonCode.SourceBindingInvalid;;
  reject_if match cd_artifacts data with
            | Some artifacts => negb (artifact_refs_well_formed artifacts)
            | None => false
            end with ReasonCode.ArtifactRefInvalid;;
  check? match cd_parent data with
    | Some parent => try? _ := resolve_candidate parent r prior s;; None
    | None => None
    end;;
  let? causes := mapM (λ x, prior_find prior (ref_target x)) (cause_refs r)
    else Some ReasonCode.RefUnresolved;;
  match cd_basis data with
  | CandidateBasis.Root =>
      reject_if is_Some_b (cd_parent data) || (1 <? length causes)%nat
        with ReasonCode.LineageInvalid;;
      match causes with
      | c :: _ =>
          reject_if negb (rec_kind c =? Kind.Request) || negb (rec_id c ∈? accepted_records s)
            with ReasonCode.LineageInvalid;; None
      | [] => None
      end
  | CandidateBasis.Continuation =>
      match causes with
      | [anchor] =>
          reject_if negb (rec_kind anchor =? Kind.Selection)
                    || negb (rec_id anchor ∈? accepted_records s)
            with ReasonCode.LineageInvalid;;
          reject_if reject_compromised_continuation rules && unreliable s (rec_id anchor)
            with ReasonCode.LineageInvalid;;
          let? parent := cd_parent data else Some ReasonCode.LineageInvalid;;
          let? anchor_data := (decode (rec_data anchor) : option SelectionData)
            else Some ReasonCode.InvalidPayload;;
          match sl_outcome anchor_data with
          | SelectionOutcome.Selected candidates =>
              reject_if negb (bool_decide (parent ∈ candidates))
                with ReasonCode.LineageInvalid;; None
          | SelectionOutcome.None_ => Some ReasonCode.LineageInvalid
          end
      | _ => Some ReasonCode.LineageInvalid
      end
  | CandidateBasis.Derivation =>
      reject_if is_Some_b (cd_parent data) || bool_decide (causes = [])
        with ReasonCode.LineageInvalid;;
      reject_if negb (forallb (λ c,
          (rec_id c ∈? accepted_records s)
          && ((rec_kind c =? Kind.Candidate) || (rec_kind c =? Kind.Evaluation))) causes)
        with ReasonCode.LineageInvalid;;
      None
  end.

(** [uses]. *)
Definition uses (r : record) (target : RecordId) : bool :=
  existsb (λ x, is_type RefType.Use x && (ref_target x =? target)) (rec_refs r).

Definition check_evaluation_v2 (r : record) (prior : Prior) (rules : VerifierRules) (s : State)
    : option ReasonCode.t :=
  let? data := (decode (rec_data r) : option EvaluationDataV2)
    else Some ReasonCode.InvalidPayload;;
  check? (if rec_schema r =? schema_id SCHEMA_EVALUATION_ATTESTED then
      reject_if negb (is_Some_b (author_signature (rec_author r)))
        with ReasonCode.SignatureMissing;;
      reject_if negb (is_Some_b (author_keys rules !! author_id (rec_author r)))
        with ReasonCode.SignatureInvalid;;
      None
    else None);;
  try? _ := resolve_candidate (e2_candidate data) r prior s;;
  reject_if negb (uses r (e2_candidate data)) with ReasonCode.EvaluationInvalid;;
  reject_if db_id (e2_evaluator data) =? "" with ReasonCode.EvaluationInvalid;;
  reject_if negb (artifact_refs_well_formed (e2_evidence data))
    with ReasonCode.ArtifactRefInvalid;;
  reject_if negb (strictly_increasing (e2_requirements data)) with ReasonCode.EvaluationInvalid;;
  first_some (λ rid,
    let? t := prior_find prior rid else Some ReasonCode.EvaluationInvalid;;
    reject_if negb ((rec_kind t =? Kind.Requirement) && (rec_space t =? rec_space r)
                    && (rec_id t ∈? accepted_records s)) with ReasonCode.EvaluationInvalid;;
    reject_if negb (uses r rid) with ReasonCode.EvaluationInvalid;;
    None) (e2_requirements data).

Definition check_evaluation (r : record) (prior : Prior) (rules : VerifierRules) (s : State)
    : option ReasonCode.t :=
  if (rec_schema r =? schema_id SCHEMA_EVALUATION_V2)
     || (rec_schema r =? schema_id SCHEMA_EVALUATION_ATTESTED)
  then check_evaluation_v2 r prior rules s
  else
    let? data := (decode (rec_data r) : option EvaluationData)
      else Some ReasonCode.InvalidPayload;;
    try? _ := resolve_candidate (ev_candidate data) r prior s;;
    reject_if negb (uses r (ev_candidate data)) with ReasonCode.EvaluationInvalid;;
    None.

(** [resolve_selection_approval]. *)
Definition resolve_selection_approval (r : record) (data : SelectionData) (prior : Prior)
    (rules : VerifierRules) (s : State) : ReasonCode.t + option RecordId :=
  if negb (selection_requires_approval rules) then Ok None else
  match selection_approval_subject_hash (author_id (rec_author r))
          (find_ref RefType.Replace (rec_refs r)) data with
  | None => Err ReasonCode.InvalidPayload
  | Some subject_hash =>
      match valid_approvals s !! subject_hash with
      | None => Err ReasonCode.ApprovalMissing
      | Some approval_id =>
          if negb (requires_target (rec_refs r) approval_id) then Err ReasonCode.ApprovalMissing
          else if negb (usable s approval_id) then Err ReasonCode.ApprovalMissing
          else
          match prior_find prior approval_id with
          | None => Err ReasonCode.ApprovalMissing
          | Some approval_record =>
              match (decode (rec_data approval_record) : option ApprovalData) with
              | None => Err ReasonCode.InvalidPayload
              | Some approval_data =>
                  if negb (ap_actor_id approval_data =? Some (author_id (rec_author r)))
                  then Err ReasonCode.ApprovalMissing
                  else if expired (rec_time r) (ap_expiry approval_data)
                  then Err ReasonCode.ApprovalExpired
                  else Ok (Some approval_id)
              end
          end
      end
  end.

(** The subject of each accepted evaluation the selection uses; [None]
    when a ref is not one. *)
Definition used_evaluation (prior : Prior) (s : State) (x : Ref)
    : option (option RecordId) :=
  if is_type RefType.Use x then
    match prior_find prior (ref_target x) with
    | Some t =>
        if (rec_kind t =? Kind.Evaluation) && (rec_id t ∈? accepted_records s) then
          Some (fst ∘ fst <$> evaluation_summary (rec_schema t) (rec_data t))
        else None
    | None => None
    end
  else None.

(** The winner set of an outcome, with the per-outcome rules. *)
Definition selection_winners (data : SelectionData) (used_evaluations : nat) (prior : Prior)
    (rules : VerifierRules) : ReasonCode.t + gset RecordId :=
  let considered : gset RecordId := list_to_set (sl_considered data) in
  match sl_outcome data with
  | SelectionOutcome.Selected candidates =>
      let selected : gset RecordId := list_to_set candidates in
      if bool_decide (selected = ∅) || negb (size selected =? length candidates)
         || negb (bool_decide (selected ⊆ considered))
      then Err ReasonCode.SelectionInvalid else
      match
        (if min_binding rules =? BindingMode.Manifest then
           first_some (λ c,
             let? t := prior_find prior c else Some ReasonCode.SelectionInvalid;;
             let? cd := (decode (rec_data t) : option CandidateData)
               else Some ReasonCode.InvalidPayload;;
             reject_if negb (sb_binding (cd_source cd) =? BindingMode.Manifest)
               with ReasonCode.SelectionInvalid;;
             None) (btree_members selected)
         else None)
      with
      | Some reason => Err reason
      | None =>
          if selection_requires_evaluation rules && (used_evaluations =? 0)
          then Err ReasonCode.SelectionInvalid else Ok selected
      end
  | SelectionOutcome.None_ => Ok ∅
  end.

Definition check_selection (r : record) (prior : Prior) (rules : VerifierRules) (s : State)
    : option ReasonCode.t :=
  let? data := (decode (rec_data r) : option SelectionData)
    else Some ReasonCode.InvalidPayload;;
  reject_if bool_decide (sl_considered data = [])
            || (max_considered rules <? N.of_nat (length (sl_considered data)))%N
    with ReasonCode.SelectionInvalid;;
  let considered : gset RecordId := list_to_set (sl_considered data) in
  reject_if negb (size considered =? length (sl_considered data))
    with ReasonCode.SelectionInvalid;;
  check? first_some (λ cid, try? _ := resolve_candidate cid r prior s;; None)
    (sl_considered data);;
  let evaluations := omap (used_evaluation prior s) (rec_refs r) in
  check? first_some (λ e,
    let? subject := e else Some ReasonCode.InvalidPayload;;
    reject_if negb (subject ∈? considered) with ReasonCode.SelectionInvalid;;
    None) evaluations;;
  let require_targets : gset RecordId :=
    list_to_set (ref_target <$> filter (λ x, ref_type x = RefType.Require_) (rec_refs r)) in
  try? winners := selection_winners data (length evaluations) prior rules;;
  try? approval_require := resolve_selection_approval r data prior rules s;;
  let allowed :=
    match approval_require with Some a => {[a]} ∪ winners | None => winners end in
  reject_if negb (require_targets =? allowed) with ReasonCode.SelectionInvalid;;
  match find_ref RefType.Replace (rec_refs r) with
  | Some replace =>
      check? match prior_find prior replace with
        | Some target =>
            let? target_data := (decode (rec_data target) : option SelectionData)
              else Some ReasonCode.InvalidPayload;;
            reject_if negb (sl_objective target_data =? sl_objective data)
              with ReasonCode.ReaffirmationInvalid;;
            None
        | None => None
        end;;
      reject_if negb (bool_decide (reaffirmation_actors rules = ∅))
                && negb (author_id (rec_author r) ∈? reaffirmation_actors rules)
        with ReasonCode.ReaffirmationInvalid;;
      None
  | None => None
  end.

Definition check_requirement (r : record) (prior : Prior) (s : State) : option ReasonCode.t :=
  let? data := (decode (rec_data r) : option RequirementData)
    else Some ReasonCode.InvalidPayload;;
  reject_if (rm_key data =? "") || (rm_description data =? "")
    with ReasonCode.RequirementInvalid;;
  let author := author_type (rec_author r) in
  let provenance_ok :=
    match rm_provenance data with
    | Provenance.UserAuthored => author =? AuthorType.User
    | Provenance.Derived => (author =? AuthorType.Provider) || (author =? AuthorType.System)
    end in
  reject_if negb provenance_ok with ReasonCode.AuthorRoleInvalid;;
  match cause_refs r with
  | [cause] =>
      let request_id := ref_target cause in
      let? request := prior_find prior request_id else Some ReasonCode.RequirementInvalid;;
      reject_if negb (rec_kind request =? Kind.Request)
                || negb (request_id ∈? accepted_records s)
                || negb (rec_thread request =? rec_thread r)
                || negb (rec_space request =? rec_space r) with ReasonCode.RequirementInvalid;;
      reject_if rm_key data ∈? default ∅ (requirement_keys s !! request_id)
        with ReasonCode.RequirementInvalid;;
      None
  | _ => Some ReasonCode.RequirementInvalid
  end.
End evolution.
