(* ===== verification/Verifier.v ===== *)
(** * Verification of one record

    Models src/src/verify/verifier/record_checks.rs and the dispatch of
    activity.rs: the generic checks every non-verdict record passes, in the
    order of the source, then the rules of its kind. *)

From S2P Require Export Evolution.

Section verifier.
Context `{Primitives, Serde, HashOrder}.

(** [check_kind_specific]. *)
Definition check_kind_specific (r : record) (prior : Prior) (rules : VerifierRules) (s : State)
    : option ReasonCode.t :=
  match rec_kind r with
  | Kind.Request => check_request r prior s
  | Kind.Action => check_action r prior s
  | Kind.Result => check_result r prior rules s
  | Kind.Refusal => check_refusal r prior s
  | Kind.Usage => check_usage r prior s
  | Kind.Summary => check_summary r rules
  | Kind.Response => check_response r prior s
  | Kind.Approval => check_approval r
  | Kind.Plan => check_plan r prior s
  | Kind.Retraction => check_retraction r prior rules s
  | Kind.Capability => None
  | Kind.Verdict => None
  | Kind.Candidate => check_candidate r prior rules s
  | Kind.Evaluation => check_evaluation r prior rules s
  | Kind.Selection => check_selection r prior rules s
  | Kind.Requirement => check_requirement r prior s
  end.

(** [check_payload_decode]. *)
Definition check_payload_decode (r : record) : option ReasonCode.t :=
  let has name := rec_schema r =? schema_id name in
  let finish (ok : bool) : option ReasonCode.t :=
    if ok then None else Some ReasonCode.InvalidPayload in
  let data := rec_data r in
  if has SCHEMA_REQUEST then finish (decodes_canonically RequestData data)
  else if has SCHEMA_ACTION then finish (decodes_canonically ActionData data)
  else if has SCHEMA_RESPONSE then finish (decodes_canonically ResponseData data)
  else if has SCHEMA_RESULT || has SCHEMA_RESULT_EXTERNAL
          || has SCHEMA_RESULT_EFFECT_CONFIRMATION
  then finish (decodes_canonically ResultData data)
  else if has SCHEMA_CAPABILITY then finish (decodes_canonically CapabilityData data)
  else if has SCHEMA_APPROVAL then finish (decodes_canonically ApprovalData data)
  else if has SCHEMA_SUMMARY then finish (decodes_canonically SummaryData data)
  else if has SCHEMA_REFUSAL then finish (decodes_canonically RefusalData data)
  else if has SCHEMA_USAGE then finish (decodes_canonically UsageData data)
  else if has SCHEMA_VERDICT then finish (decodes_canonically VerdictData data)
  else if has SCHEMA_PLAN then finish (decodes_canonically PlanData data)
  else if has SCHEMA_RETRACTION then finish (decodes_canonically RetractionData data)
  else if has SCHEMA_CANDIDATE then finish (decodes_canonically CandidateData data)
  else if has SCHEMA_EVALUATION then finish (decodes_canonically EvaluationData data)
  else if has SCHEMA_SELECTION then finish (decodes_canonically SelectionData data)
  else if has SCHEMA_REQUIREMENT then finish (decodes_canonically RequirementData data)
  else if has SCHEMA_EVALUATION_V2 || has SCHEMA_EVALUATION_ATTESTED
  then finish (decodes_canonically EvaluationDataV2 data)
  else Some ReasonCode.UnknownSchema.

(** [check_replacement_compatibility]. *)
Definition check_replacement_compatibility (r target : record) : option ReasonCode.t :=
  match rec_kind r with
  | Kind.Capability =>
      let? new_data := (decode (rec_data r) : option CapabilityData)
        else Some ReasonCode.InvalidPayload;;
      let? old_data := (decode (rec_data target) : option CapabilityData)
        else Some ReasonCode.InvalidPayload;;
      reject_if negb (cp_actor_id new_data =? cp_actor_id old_data)
                || negb (cp_action_class new_data =? cp_action_class old_data)
                || negb (cp_scope new_data =? cp_scope old_data)
        with ReasonCode.ReplacementInvalid;;
      None
  | Kind.Approval =>
      let? new_data := (decode (rec_data r) : option ApprovalData)
        else Some ReasonCode.InvalidPayload;;
      let? old_data := (decode (rec_data target) : option ApprovalData)
        else Some ReasonCode.InvalidPayload;;
      if is_Some_b (ap_target_action new_data) && is_Some_b (ap_target_action old_data) then
        reject_if negb (ap_scope new_data =? ap_scope old_data)
                  || negb (ap_target_action new_data =? ap_target_action old_data)
          with ReasonCode.ReplacementInvalid;;
        None
      else if is_Some_b (ap_action_class new_data) && is_Some_b (ap_action_class old_data) then
        reject_if negb (ap_action_class new_data =? ap_action_class old_data)
                  || negb (ap_scope new_data =? ap_scope old_data)
                  || negb (ap_actor_id new_data =? ap_actor_id old_data)
          with ReasonCode.ReplacementInvalid;;
        None
      else Some ReasonCode.ReplacementInvalid
  | Kind.Summary =>
      let? new_data := (decode (rec_data r) : option SummaryData)
        else Some ReasonCode.InvalidPayload;;
      let? old_data := (decode (rec_data target) : option SummaryData)
        else Some ReasonCode.InvalidPayload;;
      reject_if negb (sm_summary_type new_data =? sm_summary_type old_data)
                || negb (sm_subject new_data =? sm_subject old_data)
                || negb (sm_scope new_data =? sm_scope old_data)
        with ReasonCode.ReplacementInvalid;;
      None
  | Kind.Plan =>
      let? new_data := (decode (rec_data r) : option PlanData)
        else Some ReasonCode.InvalidPayload;;
      let? old_data := (decode (rec_data target) : option PlanData)
        else Some ReasonCode.InvalidPayload;;
      reject_if negb (pl_request_id new_data =? pl_request_id old_data)
        with ReasonCode.ReplacementInvalid;;
      None
  | Kind.Selection => None
  | _ => None
  end.

(** The author-role and identity-to-role block. *)
Definition check_author (r : record) (rules : VerifierRules) : option ReasonCode.t :=
  reject_if negb (bool_decide (author_type (rec_author r) ∈ allowed_author_types (rec_kind r)))
    with ReasonCode.AuthorRoleInvalid;;
  match author_roles rules !! author_id (rec_author r) with
  | Some role =>
      reject_if negb (author_type (rec_author r) =? role) with ReasonCode.AuthorRoleInvalid;;
      None
  | None =>
      reject_if requires_registered_author (rec_kind r) with ReasonCode.AuthorRoleInvalid;;
      None
  end.

(** The signature block. *)
Definition check_signature (r : record) (rules : VerifierRules) : option ReasonCode.t :=
  let sig_required := (rec_kind r ∈? signature_required_kinds rules)
    || is_Some_b (author_keys rules !! author_id (rec_author r)) in
  reject_if sig_required && negb (is_Some_b (author_signature (rec_author r)))
    with ReasonCode.SignatureMissing;;
  if is_Some_b (author_signature (rec_author r)) then
    let? key := verified_key r else Some ReasonCode.SignatureInvalid;;
    match author_keys rules !! author_id (rec_author r) with
    | Some allowed =>
        reject_if negb (key ∈? allowed) with ReasonCode.SignatureInvalid;; None
    | None => None
    end
  else None.

(** The ref-resolution loop. *)
Definition check_ref (r : record) (prior : Prior) (s : State) (x : Ref) : option ReasonCode.t :=
  let? t := prior_find prior (ref_target x) else Some ReasonCode.RefUnresolved;;
  reject_if negb (rec_space t =? rec_space r) with ReasonCode.RefCrossSpace;;
  reject_if is_type RefType.Require_ x
            && (negb (rec_id t ∈? accepted_records s) || unreliable s (rec_id t))
    with ReasonCode.RefUnresolved;;
  None.

Definition is_replaceable (k : Kind.t) : bool :=
  match k with
  | Kind.Summary | Kind.Capability | Kind.Approval | Kind.Plan | Kind.Selection => true
  | _ => false
  end.

(** The replacement block. *)
Definition check_replacement (r : record) (prior : Prior) (s : State) : option ReasonCode.t :=
  match filter (λ x, ref_type x = RefType.Replace) (rec_refs r) with
  | [] => None
  | [replace_ref] =>
      reject_if negb (is_replaceable (rec_kind r)) with ReasonCode.ReplacementInvalid;;
      let? t := prior_find prior (ref_target replace_ref)
        else Some ReasonCode.ReplacementInvalid;;
      reject_if negb (rec_id t ∈? accepted_records s) with ReasonCode.ReplacementInvalid;;
      reject_if negb (rec_kind t =? rec_kind r) with ReasonCode.ReplacementInvalid;;
      check_replacement_compatibility r t
  | _ => Some ReasonCode.InvalidPayload
  end.

(** [record.refs.iter().filter_map(..)]: the evidence the refs contribute. *)
Definition ref_evidences (r : record) (prior : Prior) (s : State) : list Evidence.t :=
  omap (λ x, prior_find prior (ref_target x) ≫= ref_evidence s x) (rec_refs r).

(** The evidence block. *)
Definition check_evidence (r : record) (prior : Prior) (rules : VerifierRules) (s : State)
    : option ReasonCode.t :=
  let expected_evidence := derive_evidence (rec_schema r) (ref_evidences r prior s) in
  reject_if negb (rec_evidence r =? expected_evidence) with ReasonCode.InvalidPayload;;
  match evidence_thresholds rules !! rec_kind r with
  | Some threshold =>
      reject_if ltb threshold expected_evidence with ReasonCode.EvidenceBelowThreshold;; None
  | None => None
  end.

(** [check_record]. *)
Definition check_record (r : record) (prior : Prior) (rules : VerifierRules) (s : State)
    : option ReasonCode.t :=
  if rec_kind r =? Kind.Verdict then check_verdict_record r prior rules else
  let? computed_id := compute_id r else Some ReasonCode.InvalidPayload;;
  reject_if negb (rec_id r =? computed_id) with ReasonCode.InvalidPayload;;
  reject_if negb (strictly_increasing (rec_refs r)) with ReasonCode.InvalidPayload;;
  reject_if negb (rec_space r =? rules_space rules) with ReasonCode.InvalidPayload;;
  let? expected_kind := kind_schema_map rules !! rec_schema r
    else Some ReasonCode.UnknownSchema;;
  reject_if negb (rec_kind r =? expected_kind) with ReasonCode.KindSchemaMismatch;;
  check? check_author r rules;;
  check? check_signature r rules;;
  check? first_some (check_ref r prior s) (rec_refs r);;
  check? check_replacement r prior s;;
  check? check_evidence r prior rules s;;
  check? check_payload_decode r;;
  check_kind_specific r prior rules s.

(** The verdict a check outcome stands for. *)
Definition verdict_of (reason : option ReasonCode.t) : VerdictData :=
  match reason with
  | Some reason => mk_VerdictData VerdictResult.Reject (Some reason)
  | None => mk_VerdictData VerdictResult.Accept None
  end.

(** [verify_record]. *)
Definition verify_record (r : record) (prior : list record) (rules : VerifierRules) (s : State)
    : VerdictData :=
  verdict_of (check_record r (view (index_of prior) prior) rules s).
End verifier.
