(* ===== verification/Standing.v ===== *)
(** * Standing

    Models src/src/verify/standing.rs: the lineage report derived at the end
    of replay.  Hash maps are iterated in the arbitrary order [hash_iter];
    the iterative post-order walk runs on fuel. *)

From S2P Require Export Verifier.

Record StandingSection := mk_StandingSection {
  compromised : gset RecordId;
  unsound : gset RecordId;
  restorations : gmap RecordId (gset RecordId);
}.

(** [StandingSection::default] and [is_empty]. *)
Definition empty_standing : StandingSection := mk_StandingSection ∅ ∅ ∅.
Definition standing_is_empty (s : StandingSection) : bool :=
  bool_decide (compromised s = ∅) && bool_decide (unsound s = ∅)
  && bool_decide (restorations s = ∅).

Record CandInfo := mk_CandInfo {
  ci_basis : CandidateBasis.t;
  ci_parent : option RecordId;
  ci_causes : list RecordId;
}.

Record SelInfo := mk_SelInfo {
  si_selected : gset RecordId;
  si_replace_target : option RecordId;
}.

(** [is_unsound]. *)
Definition is_unsound (s : State) (id : RecordId) : bool := unreliable s id.

Section standing.
Context `{Primitives, Serde, HashOrder}.

Definition cand_info (r : record) (data : CandidateData) : CandInfo :=
  mk_CandInfo (cd_basis data) (cd_parent data) (ref_target <$> cause_refs r).

Definition sel_info (r : record) (data : SelectionData) : SelInfo :=
  mk_SelInfo
    (match sl_outcome data with
     | SelectionOutcome.Selected candidates => list_to_set candidates
     | SelectionOutcome.None_ => ∅
     end)
    (find_ref RefType.Replace (rec_refs r)).

(** The scan over the accepted records. *)
Definition scan_record (s : State)
    (acc : gmap RecordId CandInfo * gmap RecordId SelInfo) (r : record) :=
  if negb (rec_id r ∈? accepted_records s) then acc else
  match rec_kind r with
  | Kind.Candidate =>
      match (decode (rec_data r) : option CandidateData) with
      | Some data => (<[rec_id r := cand_info r data]> acc.1, acc.2)
      | None => acc
      end
  | Kind.Selection =>
      match (decode (rec_data r) : option SelectionData) with
      | Some data => (acc.1, <[rec_id r := sel_info r data]> acc.2)
      | None => acc
      end
  | _ => acc
  end.

Definition scan (records : list record) (s : State) :=
  fold_left (scan_record s) records (∅, ∅).

(** Walking one replacement chain; [guard] bounds the hops. *)
Fixpoint add_replacers (guard : nat) (selections : gmap RecordId SelInfo) (s2 : RecordId)
    (hop : option RecordId) (replacers : gmap RecordId (gset RecordId))
    : gmap RecordId (gset RecordId) :=
  match hop, guard with
  | None, _ => replacers
  | Some _, O => replacers
  | Some ancestor, S guard =>
      add_replacers guard selections s2
        (selections !! ancestor ≫= si_replace_target)
        (<[ancestor := {[s2]} ∪ default ∅ (replacers !! ancestor)]> replacers)
  end.

(** The loop breaks once [guard > selections.len()], after that many + 1
    hops. *)
Definition replacers_of (selections : gmap RecordId SelInfo) (s : State)
    : gmap RecordId (gset RecordId) :=
  fold_left (λ replacers e,
      if is_unsound s e.1 then replacers
      else add_replacers (S (size selections)) selections e.1 (si_replace_target e.2) replacers)
    (hash_iter selections) ∅.

Definition restorations_of (unsound : gset RecordId) (replacers : gmap RecordId (gset RecordId))
    : gmap RecordId (gset RecordId) :=
  fold_left (λ m id,
      match replacers !! id with
      | Some set => if bool_decide (set = ∅) then m else <[id := set]> m
      | None => m
      end)
    (btree_members unsound) ∅.

Definition anchor_sound (selections : gmap RecordId SelInfo)
    (replacers : gmap RecordId (gset RecordId)) (s : State) (anchor parent : RecordId) : bool :=
  if negb (is_unsound s anchor) then true else
  match replacers !! anchor with
  | Some set =>
      existsb (λ s2, match selections !! s2 with
                     | Some i => parent ∈? si_selected i
                     | None => false
                     end) (btree_members set)
  | None => false
  end.

(** Candidate-standing dependencies. *)
Definition standing_deps (candidates : gmap RecordId CandInfo) (info : CandInfo)
    : list RecordId :=
  match ci_basis info with
  | CandidateBasis.Root => []
  | CandidateBasis.Continuation => match ci_parent info with Some p => [p] | None => [] end
  | CandidateBasis.Derivation => filter (λ t, is_Some (candidates !! t)) (ci_causes info)
  end.

(** The value of a candidate whose dependencies are decided. *)
Definition standing_value (candidates : gmap RecordId CandInfo)
    (anchor_ok : RecordId → RecordId → bool) (sound : gmap RecordId bool) (info : CandInfo)
    : bool :=
  let dep_sound d := default false (sound !! d) in
  match ci_basis info with
  | CandidateBasis.Root => true
  | CandidateBasis.Continuation =>
      match head (ci_causes info), ci_parent info with
      | Some anchor, Some parent => anchor_ok anchor parent && dep_sound parent
      | _, _ => false
      end
  | CandidateBasis.Derivation => forallb dep_sound (standing_deps candidates info)
  end.

(** The post-order loop; the stack's top is the list's head. *)
Fixpoint standing_loop (fuel : nat) (candidates : gmap RecordId CandInfo)
    (anchor_ok : RecordId → RecordId → bool) (s : State) (stack : list (RecordId * bool))
    (sound : gmap RecordId bool) : option (gmap RecordId bool) :=
  match stack, fuel with
  | [], _ => Some sound
  | _, O => None
  | (id, deps_done) :: stack, S fuel =>
      let continue := standing_loop fuel candidates anchor_ok s in
      if is_Some_b (sound !! id) then continue stack sound else
      match candidates !! id with
      | None => continue stack sound
      | Some info =>
          if id ∈? retracted_records s then continue stack (<[id := false]> sound) else
          let unresolved := filter (λ d, sound !! d = None ∧ is_Some (candidates !! d))
            (standing_deps candidates info) in
          if negb deps_done && negb (bool_decide (unresolved = [])) then
            continue (reverse ((λ d, (d, false)) <$> unresolved) ++ (id, true) :: stack) sound
          else
            continue stack (<[id := standing_value candidates anchor_ok sound info]> sound)
      end
  end.

(** One pop per stack entry: the start, and per expansion the entry itself
    and its dependencies. *)
Definition standing_fuel (candidates : gmap RecordId CandInfo) : nat :=
  S (map_fold (λ _ info n, S (length (standing_deps candidates info)) + n) 0 candidates).

Definition standing_all (candidates : gmap RecordId CandInfo)
    (anchor_ok : RecordId → RecordId → bool) (s : State) : gmap RecordId bool :=
  fold_left (λ sound e,
      if is_Some_b (sound !! e.1) then sound
      else default sound
        (standing_loop (standing_fuel candidates) candidates anchor_ok s [(e.1, false)] sound))
    (hash_iter candidates) ∅.

(** [derive_standing]. *)
Definition derive_standing (records : list record) (s : State) : StandingSection :=
  let '(candidates, selections) := scan records s in
  let unsound : gset RecordId := list_to_set
    (filter (λ id, is_unsound s id = true) (fst <$> hash_iter selections)) in
  let replacers := replacers_of selections s in
  let sound := standing_all candidates (anchor_sound selections replacers s) s in
  mk_StandingSection
    (list_to_set
      (filter (λ id, default false (sound !! id) = false) (fst <$> hash_iter candidates)))
    unsound
    (restorations_of unsound replacers).
End standing.
