(* ===== verification/Checkpoint.v ===== *)
(** * Checkpoints and head attestations

    Models src/src/checkpoint.rs, with the serialization of the state that a
    checkpoint hashes.  [TrustedCheckpoint::from_verified_log] runs the
    replay and is in Replay.v. *)

From S2P Require Export Standing.

#[export] Instance ser_State : Serialize State := λ s,
  VObject
    [("accepted_records", strict_set_ser (accepted_records s));
     ("active_requests", strict_set_ser (active_requests s));
     ("active_capabilities",
       to_value ((λ e, (VArray [to_value e.1.1.1; to_value e.1.1.2; to_value e.1.2],
                        to_value e.2)) <$> btree_entries (active_capabilities s)));
     ("valid_approvals", map_as_pairs_ser (valid_approvals s));
     ("class_approvals",
       to_value ((λ e, (VArray [to_value e.1.1.1; to_value e.1.1.2; to_value e.1.2],
                        to_value e.2)) <$> btree_entries (class_approvals s)));
     ("open_actions", strict_set_ser (open_actions s));
     ("action_to_request", map_as_pairs_ser (action_to_request s));
     ("active_summaries", map_as_pairs_ser (active_summaries s));
     ("replaced_records", strict_set_ser (replaced_records s));
     ("request_open_action_count", map_as_pairs_ser (request_open_action_count s));
     ("usage_counts", map_as_pairs_ser (usage_counts s));
     ("active_plans", map_as_pairs_ser (active_plans s));
     ("response_turns", map_as_pairs_ser (response_turns s));
     ("capability_index",
       map_as_pairs_ser
         ((λ k, VArray [to_value k.1.1; to_value k.1.2; to_value k.2]) <$> capability_index s));
     ("exact_approval_index", map_as_pairs_ser (exact_approval_index s));
     ("class_approval_index",
       map_as_pairs_ser
         ((λ k, VArray [to_value k.1.1; to_value k.1.2; to_value k.2])
            <$> class_approval_index s));
     ("retracted_records", strict_set_ser (retracted_records s));
     ("tainted_records", strict_set_ser (tainted_records s));
     ("epistemic_dependents",
       map_as_pairs_ser (V := list RecordId) (btree_members <$> epistemic_dependents s));
     ("requirement_keys",
       map_as_pairs_ser (V := list string) (btree_members <$> requirement_keys s));
     ("requirement_index", map_as_pairs_ser (requirement_index s));
     ("applied_up_to", to_value (applied_up_to s))].

Record Checkpoint := mk_Checkpoint {
  cp_log_length : N;
  cp_last_time : Time;
  cp_last_record_id : RecordId;
  cp_state_hash : Hash256;
  cp_log_hash : Hash256;
}.

(** Created only by a verified log or an explicit assumption. *)
Record TrustedCheckpoint := mk_TrustedCheckpoint {
  tc_checkpoint : Checkpoint;
  tc_rules_hash : Hash256;
}.

Definition last_record_id (records : list record) : RecordId :=
  default zero_hash (rec_id <$> last records).

Section checkpoint.
Context `{Primitives}.

Definition log_hash (records : list record) : Hash256 :=
  sha256_concat_ids (rec_id <$> records).

Definition create_checkpoint (records : list record) (s : State) : option Checkpoint :=
  state_hash ← sha256_canonical s;
  Some (mk_Checkpoint (N.of_nat (length records)) (last_time records)
          (last_record_id records) state_hash (log_hash records)).

(** [TrustedCheckpoint::assume_verified]. *)
Definition assume_verified (checkpoint : Checkpoint) (rules : VerifierRules)
    : option TrustedCheckpoint :=
  mk_TrustedCheckpoint checkpoint <$> sha256_canonical rules.
End checkpoint.

(** ** Timestamps *)

Definition digits_value (l : bytes) : N := foldl (λ acc b, acc * 10 + (code b - 48))%N 0%N l.

Definition days_in_month (year month : N) : N :=
  let leap := ((year mod 4 =? 0) && negb (year mod 100 =? 0) || (year mod 400 =? 0))%N in
  if existsb (N.eqb month) [1; 3; 5; 7; 8; 10; 12]%N then 31
  else if existsb (N.eqb month) [4; 6; 9; 11]%N then 30
  else if (month =? 2)%N then (if leap then 29 else 28)
  else 0%N.

(** [is_canonical_rfc3339_utc]: exactly [YYYY-MM-DDTHH:MM:SSZ]. *)
Definition is_canonical_rfc3339_utc (s : string) : bool :=
  let b := lit s in
  let at_ i := nth i b x00 in
  let num from to := digits_value (take (to - from) (drop from b)) in
  if negb (length b =? 20) || negb (at_ 4%nat =? x2d) || negb (at_ 7%nat =? x2d)
     || negb (at_ 10%nat =? x54) then false else
  if negb (at_ 13%nat =? x3a) || negb (at_ 16%nat =? x3a) || negb (at_ 19%nat =? x5a)
  then false else
  if negb (forallb (λ i, is_digit (at_ i)) [0; 1; 2; 3; 5; 6; 8; 9; 11; 12; 14; 15; 17; 18]%nat)
  then false else
  let year := num 0%nat 4%nat in
  let month := num 5%nat 7%nat in
  let day := num 8%nat 10%nat in
  let hour := num 11%nat 13%nat in
  let minute := num 14%nat 16%nat in
  let second := num 17%nat 19%nat in
  if negb ((1 <=? month) && (month <=? 12))%N || (23 <? hour)%N || (59 <? minute)%N
     || (59 <? second)%N then false else
  ((1 <=? day) && (day <=? days_in_month year month))%N.

(** [CanonicalUtcTimestamp]: a string that passed the check. *)
Record CanonicalUtcTimestamp := mk_timestamp {
  timestamp_str : string;
  timestamp_ok : Is_true (is_canonical_rfc3339_utc timestamp_str);
}.

Definition timestamp_try_from (value : string) : option CanonicalUtcTimestamp :=
  match decide (Is_true (is_canonical_rfc3339_utc value)) with
  | left h => Some (mk_timestamp value h)
  | right _ => None
  end.

Record HeadAttestation := mk_HeadAttestation {
  ha_head_hash : Hash256;
  ha_record_count : N;
  ha_spec_version : string;
  ha_timestamp : CanonicalUtcTimestamp;
}.

#[export] Instance ser_HeadAttestation : Serialize HeadAttestation := λ a,
  VObject [("head_hash", to_value (ha_head_hash a)); ("record_count", to_value (ha_record_count a));
           ("spec_version", to_value (ha_spec_version a));
           ("timestamp", to_value (timestamp_str (ha_timestamp a)))].

Definition head_attestation `{Primitives} (records : list record) (timestamp : string)
    : option HeadAttestation :=
  timestamp ← timestamp_try_from timestamp;
  Some (mk_HeadAttestation (log_hash records) (N.of_nat (length records)) SPEC_VERSION timestamp).

Definition attestation_bytes `{Primitives} (a : HeadAttestation) : option bytes :=
  canonical_json a.
