(* ===== verification/Contexts.v ===== *)
(** * The context builder

    Models src/src/context/context.rs: the working set of accepted records a
    proposer is shown. *)

From S2P Require Export State Rules.

Module ContextPolicy.
Inductive t := ExcludeTainted | IncludeTainted.
#[export] Instance eq_dec : EqDecision t.
Proof. solve_decision. Defined.
End ContextPolicy.
Export (hints) ContextPolicy.

Record ContextSet := mk_ContextSet {
  cx_records : list record;
  cx_usage_feedback : gmap (RecordId * string) UsageOutcomeCounts;
  cx_tainted_records : gset RecordId;
}.

(** The selection of step 1. *)
Definition eligible (s : State) (thread : ThreadId) (policy : ContextPolicy.t) (r : record) : bool :=
  let include_tainted := policy =? ContextPolicy.IncludeTainted in
  (rec_thread r =? thread) && negb (rec_kind r =? Kind.Verdict)
  && (rec_id r ∈? accepted_records s) && negb (rec_id r ∈? replaced_records s)
  && negb (rec_id r ∈? retracted_records s)
  && (include_tainted || negb (rec_id r ∈? tainted_records s)).

(** Newest first, ties by id. *)
Definition newest_first (a b : record) : comparison :=
  cmp_then (cmp (rec_time b) (rec_time a)) (cmp (rec_id a) (rec_id b)).

(** [build_context_with]. *)
Definition build_context_with (records : list record) (s : State) (rules : VerifierRules)
    (thread : ThreadId) (policy : ContextPolicy.t) : ContextSet :=
  let selected := filter (λ r, eligible s thread policy r = true) records in
  let selected := sort_by newest_first selected in
  let context_records := take (N.to_nat (max_context_records rules)) selected in
  let context_ids : gset RecordId := list_to_set (rec_id <$> context_records) in
  mk_ContextSet context_records
    (filter (λ e, e.1.1 ∈ context_ids) (usage_counts s))
    (list_to_set (rec_id <$> filter (λ r, rec_id r ∈ tainted_records s) context_records)).

(** [build_context]: tainted records are excluded. *)
Definition build_context (records : list record) (s : State) (rules : VerifierRules)
    (thread : ThreadId) : ContextSet :=
  build_context_with records s rules thread ContextPolicy.ExcludeTainted.
