(* ===== verification/Replay.v ===== *)
(** * Whole-log verification

    Models src/src/verify/verifier.rs, verify/verifier/replay.rs, the safe
    state build of state/build.rs and [TrustedCheckpoint::from_verified_log]. *)

From S2P Require Export Checkpoint.

Record LogVerdict := mk_LogVerdict {
  lv_result : VerdictResult.t;
  lv_reason : option ReasonCode.t;
  lv_checked_records : N;
  lv_last_time : Time;
  lv_retracted_records : gset RecordId;
  lv_tainted_records : gset RecordId;
  lv_standing : StandingSection;
}.

Definition reject (reason : ReasonCode.t) (checked_records : N) (records : list record)
    : LogVerdict :=
  mk_LogVerdict VerdictResult.Reject (Some reason) checked_records (last_time records) ∅ ∅
    empty_standing.

(** The time-sequence loop. *)
Definition times_consecutive (records : list record) : bool :=
  forallb (λ w, checked_add_u64 (rec_time w.1) 1 =? Some (rec_time w.2)) (windows2 records).

Definition genesis_ok (records : list record) : bool :=
  match records with [] => true | r :: _ => (rec_time r =? 1)%N end.

Section replay.
Context `{Primitives, Serde, HashOrder}.

Definition ids_ok (records : list record) : bool :=
  forallb (λ r, compute_id r =? Some (rec_id r)) records.

(** One iteration over a verdict in subject position. *)
Definition replay_verdict (records : list record) (rules : VerifierRules) (index : PriorIndex)
    (s : State) (r : record) : ReasonCode.t + State :=
  let prior := view index records in
  match check_verdict_record r prior rules with
  | Some reason => Err reason
  | None =>
    match (decode (rec_data r) : option VerdictData), find_ref RefType.Cause (rec_refs r) with
    | Some stored_verdict, Some subject_id =>
        match prior_find prior subject_id with
        | Some subject =>
            match apply_record subject stored_verdict s with
            | (s, inr _) => Ok (set_applied_up_to (rec_time r) s)
            | (_, inl _) => Err ReasonCode.InvalidPayload
            end
        | None => Ok (set_applied_up_to (rec_time r) s)
        end
    | _, _ => Err ReasonCode.InvalidPayload
    end
  end.

(** One iteration over a subject and the verdict after it; the index
    already holds the subject. *)
Definition replay_pair (records : list record) (rules : VerifierRules) (index : PriorIndex)
    (s : State) (r next : record) : ReasonCode.t + State :=
  let prior := view index records in
  match check_verdict_record next prior rules with
  | Some reason => Err reason
  | None =>
    if negb (match rec_refs next with c :: _ => ref_target c =? rec_id r | [] => false end)
    then Err ReasonCode.InvalidPayload else
    let recomputed := verdict_of (check_record r prior rules s) in
    match (decode (rec_data next) : option VerdictData) with
    | None => Err ReasonCode.InvalidPayload
    | Some stored_verdict =>
        if negb (vd_result recomputed =? vd_result stored_verdict)
           || negb (vd_reason recomputed =? vd_reason stored_verdict)
        then Err (default ReasonCode.InvalidPayload (vd_reason recomputed))
        else
        match apply_record r stored_verdict s with
        | (s, inr _) => Ok (set_applied_up_to (rec_time next) s)
        | (_, inl _) => Err ReasonCode.InvalidPayload
        end
    end
  end.

(** The main loop over the records from position [i] on; a rejection
    carries the count of records checked before it. *)
Fixpoint replay_loop (records : list record) (rules : VerifierRules) (i : nat)
    (rest : list record) (index : PriorIndex) (s : State) (checked : N)
    : (ReasonCode.t * N) + (State * N) :=
  match rest with
  | [] => Ok (s, checked)
  | r :: rest =>
      if rec_kind r =? Kind.Verdict then
        match replay_verdict records rules index s r with
        | inl reason => Err (reason, checked)
        | inr s =>
            replay_loop records rules (S i) rest (index_insert i r index) s (checked + 1)
        end
      else
        match rest with
        | [] => Err (ReasonCode.InvalidPayload, checked)
        | next :: rest =>
            if negb (rec_kind next =? Kind.Verdict)
            then Err (ReasonCode.InvalidPayload, checked) else
            let index := index_insert i r index in
            match replay_pair records rules index s r next with
            | inl reason => Err (reason, checked)
            | inr s =>
                replay_loop records rules (S (S i)) rest (index_insert (S i) next index) s
                  (checked + 2)
            end
        end
  end.

(** The checkpoint block: the start index, state and index it grants. *)
Definition open_checkpoint (records : list record) (rules : VerifierRules)
    (trusted : TrustedCheckpoint) : ReasonCode.t + (nat * State * PriorIndex) :=
  if negb (sha256_canonical rules =? Some (tc_rules_hash trusted))
  then Err ReasonCode.InvalidCheckpoint else
  let cp := tc_checkpoint trusted in
  if (N.of_nat (length records) <? cp_log_length cp)%N then Err ReasonCode.InvalidCheckpoint else
  let start_index := N.to_nat (cp_log_length cp) in
  let prefix := take start_index records in
  if negb (log_hash prefix =? cp_log_hash cp) then Err ReasonCode.InvalidCheckpoint else
  if match records !! start_index with
     | Some r => rec_kind r =? Kind.Verdict
     | None => false
     end then Err ReasonCode.InvalidCheckpoint else
  match build_state_unchecked prefix with
  | None => Err ReasonCode.InvalidPayload
  | Some state =>
      match sha256_canonical state with
      | None => Err ReasonCode.InvalidPayload
      | Some state_hash =>
          if negb (cp_last_time cp =? last_time prefix)
             || negb (cp_last_record_id cp =? last_record_id prefix)
             || negb (cp_state_hash cp =? state_hash)
          then Err ReasonCode.InvalidCheckpoint
          else Ok (start_index, state, index_of prefix)
      end
  end.

(** [verify_log]. *)
Definition verify_log (records : list record) (rules : VerifierRules)
    (checkpoint : option TrustedCheckpoint) : LogVerdict :=
  match
    match checkpoint with
    | Some trusted => open_checkpoint records rules trusted
    | None => Ok (0, empty_state, empty_index)
    end
  with
  | inl reason => reject reason 0 records
  | inr (start_index, state, index) =>
      if negb (times_consecutive records) then reject ReasonCode.InvalidPayload 0 records else
      if negb (genesis_ok records) then reject ReasonCode.InvalidPayload 0 records else
      if negb (ids_ok records) then reject ReasonCode.InvalidPayload 0 records else
      match replay_loop records rules start_index (drop start_index records) index state 0 with
      | inl (reason, checked) => reject reason checked records
      | inr (state, checked) =>
          mk_LogVerdict VerdictResult.Accept None checked (last_time records)
            (retracted_records state) (tainted_records state) (derive_standing records state)
      end
  end.

Definition accepted (v : LogVerdict) : bool := lv_result v =? VerdictResult.Accept.

(** [verify_and_build_state]. *)
Definition verify_and_build_state (records : list record) (rules : VerifierRules)
    : LogVerdict + State :=
  let verdict := verify_log records rules None in
  if negb (accepted verdict) then Err verdict else
  match build_state_unchecked records with
  | Some state => Ok state
  | None =>
      Err (mk_LogVerdict VerdictResult.Reject (Some ReasonCode.InvalidPayload)
             (lv_checked_records verdict) (lv_last_time verdict)
             (lv_retracted_records verdict) (lv_tainted_records verdict) (lv_standing verdict))
  end.

(** [TrustedCheckpoint::from_verified_log]. *)
Definition from_verified_log (records : list record) (rules : VerifierRules)
    : option TrustedCheckpoint :=
  let verdict := verify_log records rules None in
  if negb (accepted verdict) then None else
  state ← build_state_unchecked records;
  checkpoint ← create_checkpoint records state;
  rules_hash ← sha256_canonical rules;
  Some (mk_TrustedCheckpoint checkpoint rules_hash).
End replay.
