(* ===== verification/Storage.v ===== *)
(** * The file-backed log

    Models src/src/log/storage.rs and the error type of src/src/lib.rs.  The
    disk is the contents of the files of one log directory; every file
    operation may fail, and a failing write leaves a prefix of its bytes
    behind.  A failure is an I/O error the caller sees, or a crash: what
    follows is the same disk. *)

From S2P Require Export Replay.

(** ** Errors *)

Module LogError.
Inductive t :=
  | AlreadyLocked
  | Io
  | CorruptedRecovery
  | RecoveryRequired
  | TimeExhausted
  | HeadConflict (expected actual : RecordId)
  | RecordTooLarge (bytes : N)
  | LogSizeLimitExceeded (bytes max_bytes : N)
  | InvalidExistingLog (reason : option ReasonCode.t)
  | StateMismatch
  | RulesMismatch
  | SerdeJson.
End LogError.

(** ** The disk *)

(** [budget] counts the operations and written bytes left before a failure;
    [None] is a disk that does not fail. *)
Record Disk := mk_Disk {
  records_log : bytes;
  intent_file : option bytes;
  intent_tmp : option bytes;
  lock_held : bool;
  budget : option nat;
}.

Definition set_records_log (b : bytes) (d : Disk) : Disk :=
  mk_Disk b (intent_file d) (intent_tmp d) (lock_held d) (budget d).
Definition set_intent_file (b : option bytes) (d : Disk) : Disk :=
  mk_Disk (records_log d) b (intent_tmp d) (lock_held d) (budget d).
Definition set_intent_tmp (b : option bytes) (d : Disk) : Disk :=
  mk_Disk (records_log d) (intent_file d) b (lock_held d) (budget d).
Definition set_lock_held (b : bool) (d : Disk) : Disk :=
  mk_Disk (records_log d) (intent_file d) (intent_tmp d) b (budget d).
Definition set_budget (n : option nat) (d : Disk) : Disk :=
  mk_Disk (records_log d) (intent_file d) (intent_tmp d) (lock_held d) n.

(** Effects on the disk. *)
Abbreviation io A := (eff Disk LogError.t A).

(** One file operation: all of [f] or a failure. *)
Definition io_op (f : Disk → Disk) : io unit := λ d,
  match budget d with
  | Some 0 => (d, inl LogError.Io)
  | Some (S n) => (set_budget (Some n) (f d), inr tt)
  | None => (f d, inr tt)
  end.

Definition io_read {A} (f : Disk → A) : io A := _ ← io_op id; gets f.

(** [write_all]: a failure may leave any prefix of the bytes. *)
Definition io_write (get_file : Disk → bytes) (set_file : bytes → Disk → Disk) (b : bytes)
    : io unit := λ d,
  match budget d with
  | Some n =>
      if n <? length b
      then (set_budget (Some 0) (set_file (get_file d ++ take n b) d), inl LogError.Io)
      else (set_budget (Some (n - length b)) (set_file (get_file d ++ b) d), inr tt)
  | None => (set_file (get_file d ++ b) d, inr tt)
  end.

Definition write_all : bytes → io unit := io_write records_log set_records_log.

(** ** Frames *)

(** [serde_json::from_slice::<Record>]. *)
Class RecordParser := from_slice_record : bytes → option record.

(** [u32::to_be_bytes] and [u32::from_be_bytes]. *)
Definition to_be_bytes (n : N) : bytes :=
  [byte_of (n / 16777216); byte_of (n / 65536 mod 256); byte_of (n / 256 mod 256);
   byte_of (n mod 256)]%N.
Definition from_be_bytes (l : bytes) : N :=
  match l with
  | [a; b; c; d] => (code a * 16777216 + code b * 65536 + code c * 256 + code d)%N
  | _ => 0%N
  end.

Section storage.
Context `{Primitives, RecordParser}.

Definition encode_record (r : record) : LogError.t + (bytes * N) :=
  bytes ← ok_or (canonical_json r) LogError.Io;
  let len := N.of_nat (length bytes) in
  if (u32_max <? len)%N then Err (LogError.RecordTooLarge len) else Ok (bytes, len).

(** [usize] is 64 bits wide. *)
Definition complete_frame_end (body_start body_len total_len : N) : option N :=
  frame_end ← checked_add_u64 body_start body_len;
  if (frame_end <=? total_len)%N then Some frame_end else None.

(** The frame loop: the records, and the end of the last complete frame. *)
Fixpoint read_frames (fuel : nat) (data : bytes) (cursor : nat)
    : LogError.t + (list record * nat) :=
  match fuel with
  | O => Ok ([], cursor)
  | S fuel =>
      if length data - cursor <? 4 then Ok ([], cursor) else
      let body_start := cursor + 4 in
      let len := from_be_bytes (take 4 (drop cursor data)) in
      match complete_frame_end (N.of_nat body_start) len (N.of_nat (length data)) with
      | None => Ok ([], cursor)
      | Some frame_end =>
          let frame_end := N.to_nat frame_end in
          match from_slice_record (take (frame_end - body_start) (drop body_start data)) with
          | None => Err LogError.Io
          | Some r =>
              rest ← read_frames fuel data frame_end;
              Ok (r :: rest.1, rest.2)
          end
      end
  end.

(** [FileLog::read_all_records]: at most [max + 1] bytes are read. *)
Definition read_all_records (max_file_bytes : N)
    : io (list record * nat * N) :=
  let read_limit := saturating_add_u64 max_file_bytes 1 in
  data ← io_read (λ d, take (N.to_nat (N.min read_limit (N.of_nat (length (records_log d)))))
                         (records_log d));
  let bytes_read := N.of_nat (length data) in
  if (max_file_bytes <? bytes_read)%N
  then fail (LogError.LogSizeLimitExceeded bytes_read max_file_bytes) else
  '(records, valid_len) ← lift_res (read_frames (S (length data)) data 0);
  mret (records, valid_len, bytes_read).

(** ** FileLog *)

Record FileLog := mk_FileLog {
  fl_records : list record;
  fl_index : gmap RecordId nat;
  fl_max_file_bytes : N;
}.

Definition index_from (pos : nat) (records : list record) (index : gmap RecordId nat)
    : gmap RecordId nat :=
  (fold_left (λ acc r, (S acc.1, <[rec_id r := acc.1]> acc.2)) records (pos, index)).2.

(** [FileLog::open]: a torn trailing frame is cut off the file. *)
Definition FileLog_open (max_file_bytes : N) : io FileLog :=
  _ ← io_op id;
  metadata_len ← io_read (λ d, N.of_nat (length (records_log d)));
  if (max_file_bytes <? metadata_len)%N
  then fail (LogError.LogSizeLimitExceeded metadata_len max_file_bytes) else
  '(records, valid_len, bytes_read) ← read_all_records max_file_bytes;
  _ ← (if (N.of_nat valid_len <? bytes_read)%N then
         _ ← io_op (λ d, set_records_log (take valid_len (records_log d)) d);
         io_op id
       else mret tt);
  _ ← io_op id;
  mret (mk_FileLog records (index_from 0 records ∅) max_file_bytes).

(** The fold of [ensure_capacity_for] over the frames. *)
Fixpoint projected_size (max_file_bytes : N) (projected_bytes : N) (records : list record)
    : LogError.t + N :=
  match records with
  | [] => Ok projected_bytes
  | r :: records =>
      encoded ← encode_record r;
      projected_bytes ← ok_or (checked_add_u64 projected_bytes (4 + encoded.2))
        (LogError.LogSizeLimitExceeded u64_max max_file_bytes);
      projected_size max_file_bytes projected_bytes records
  end.

Definition ensure_capacity_for (log : FileLog) (records : list record) : io unit :=
  metadata_len ← io_read (λ d, N.of_nat (length (records_log d)));
  projected_bytes ← lift_res (projected_size (fl_max_file_bytes log) metadata_len records);
  if (fl_max_file_bytes log <? projected_bytes)%N
  then fail (LogError.LogSizeLimitExceeded projected_bytes (fl_max_file_bytes log))
  else mret tt.

(** [FileLog::append]: the grown log; the caller's log is untouched by an
    error. *)
Definition append (log : FileLog) (r : record) : io FileLog :=
  '(bytes, len) ← lift_res (encode_record r);
  _ ← ensure_capacity_for log [r];
  _ ← io_op id;
  _ ← write_all (to_be_bytes len);
  _ ← write_all bytes;
  _ ← io_op id;
  mret (mk_FileLog (fl_records log ++ [r])
          (<[rec_id r := length (fl_records log)]> (fl_index log)) (fl_max_file_bytes log)).

(** [FileLog::get]. *)
Definition fl_get (log : FileLog) (id : RecordId) : option record :=
  fl_index log !! id ≫= (fl_records log !!.).

(** [slice::partition_point]. *)
Definition partition_point (p : record → bool) (l : list record) : nat :=
  match list_find (λ r, p r = false) l with Some (i, _) => i | None => length l end.

(** [FileLog::scan]; [None] is the panic of a slice whose start exceeds its
    end. *)
Definition scan_records (log : FileLog) (from to : Time) : option (list record) :=
  let start := partition_point (λ r, rec_time r <? from)%N (fl_records log) in
  let end_ := partition_point (λ r, rec_time r <=? to)%N (fl_records log) in
  if end_ <? start then None else Some (take (end_ - start) (drop start (fl_records log))).

(** [FileLog::last_time]. *)
Definition fl_last_time (log : FileLog) : option Time := rec_time <$> last (fl_records log).
End storage.
