(* ===== verification/Writer.v ===== *)
(** * The log writer: the commit protocol and crash recovery

    Models src/src/log/writer/{core,helpers,intent}.rs.  A commit threads the
    writer, the caller's derived state and the disk; whatever an error leaves
    changed stays changed. *)

From S2P Require Export Storage.

#[export] Instance UsageOutcomeCounts_eq_dec : EqDecision UsageOutcomeCounts.
Proof. solve_decision. Defined.
#[export] Instance State_eq_dec : EqDecision State.
Proof. solve_decision. Defined.

(** ** writer/intent.rs *)

Record CommitIntent := mk_CommitIntent {
  subject_id : RecordId;
  written : bool;
}.

#[export] Instance ser_CommitIntent : Serialize CommitIntent := λ i,
  VObject [("subject_id", to_value (subject_id i)); ("written", to_value (written i))].

(** [sync_parent_dir]. *)
Definition sync_parent_dir : io unit := io_op id.

(** [CommitIntent::write_to_file]: a temporary file, then a rename. *)
Definition write_to_file `{Primitives} (i : CommitIntent) : io unit :=
  bytes ← lift_opt LogError.Io (canonical_json i);
  _ ← io_op (set_intent_tmp (Some []));
  _ ← io_write (λ d, default [] (intent_tmp d)) (λ b, set_intent_tmp (Some b)) bytes;
  _ ← io_op id;
  _ ← io_op (λ d, set_intent_tmp None (set_intent_file (intent_tmp d) d));
  sync_parent_dir.

(** [CommitIntent::clear_file]. *)
Definition clear_file : io unit :=
  present ← gets (λ d, is_Some_b (intent_file d));
  if present : bool then
    _ ← io_op (set_intent_file None);
    sync_parent_dir
  else mret tt.

(** ** writer/helpers.rs *)

#[export] Instance ser_Proposal : Serialize Proposal := λ p,
  VObject [("space", to_value (prop_space p)); ("thread", to_value (prop_thread p));
           ("author", to_value (prop_author p)); ("kind", to_value (prop_kind p));
           ("schema", to_value (prop_schema p)); ("data", to_value (prop_data p));
           ("refs", to_value (prop_refs p))].

Section helpers.
Context `{Primitives}.

Definition batch_key (p : Proposal) : Hash256 :=
  default (hash_fill xff) (sha256_canonical p).

(** [sort_batch]: an unstable sort by key. *)
Definition sort_batch (proposals : list Proposal) : list Proposal :=
  sort_by (λ a b, cmp (batch_key a) (batch_key b)) proposals.

Definition proposal_matches_record (p : Proposal) (r : record) : bool :=
  (rec_space r =? prop_space p) && (rec_thread r =? prop_thread p)
  && (rec_author r =? prop_author p) && (rec_kind r =? prop_kind p)
  && (rec_schema r =? prop_schema p) && (rec_data r =? prop_data p)
  && (rec_refs r =? sort_and_dedup_refs (prop_refs p)).

(** [materialize_verdict]. *)
Definition materialize_verdict (subject : record) (verdict_time : Time)
    (verdict_data : VerdictData) : option record :=
  data ← encode verdict_data;
  with_computed_id
    (mk_record zero_hash (rec_space subject) (rec_thread subject) verdict_time
       (mk_author "verifier" AuthorType.Verifier None) Kind.Verdict (schema_id SCHEMA_VERDICT)
       data [mk_ref RefType.Cause (rec_id subject)] Evidence.Deterministic).
End helpers.

(** ** writer/core.rs *)

Record LogWriter := mk_LogWriter {
  lw_log : FileLog;
  lw_time_source : TimeSource;
  lw_rules_hash : Hash256;
  lw_recovery_required : bool;
}.

Definition DEFAULT_MAX_LOG_BYTES : N := N.shiftl 64 20.
Definition EMPTY_HEAD : RecordId := hash_fill x00.

(** What a writing method works on. *)
Record Machine := mk_Machine {
  mc_writer : LogWriter;
  mc_state : State;
  mc_disk : Disk;
}.

Abbreviation mach A := (eff Machine LogError.t A).

Section writer.
Context `{Primitives, Serde, HashOrder, RecordParser}.

(** [require_valid_log]. *)
Definition require_valid_log (records : list record) (rules : VerifierRules)
    : LogError.t + unit :=
  let verdict := verify_log records rules None in
  if lv_result verdict =? VerdictResult.Accept then Ok tt
  else Err (LogError.InvalidExistingLog (lv_reason verdict)).

(** [recover]: the log tail decides; the intent is only cleared. *)
Definition recover (log : FileLog) (rules : VerifierRules) : io FileLog :=
  let unverdicted_tail :=
    match last (fl_records log) with
    | Some r => if rec_kind r =? Kind.Verdict then None else Some r
    | None => None
    end in
  log ← match unverdicted_tail with
    | Some subject =>
        let prior_records := take (length (fl_records log) - 1) (fl_records log) in
        state ← lift_opt LogError.SerdeJson (build_state_unchecked prior_records);
        let verdict_data := verify_record subject prior_records rules state in
        verdict_time ← lift_opt LogError.TimeExhausted (checked_add_u64 (rec_time subject) 1);
        verdict_record ← lift_opt LogError.SerdeJson
          (materialize_verdict subject verdict_time verdict_data);
        append log verdict_record
    | None => mret log
    end;
  _ ← clear_file;
  mret log.

(** The part of [open_with_max_bytes] under the lock. *)
Definition open_locked (rules : VerifierRules) (max_file_bytes : N) : io LogWriter :=
  log ← FileLog_open max_file_bytes;
  let complete_prefix_len :=
    match last (fl_records log) with
    | Some r => if rec_kind r =? Kind.Verdict then length (fl_records log)
                else length (fl_records log) - 1
    | None => length (fl_records log)
    end in
  _ ← lift_res (require_valid_log (take complete_prefix_len (fl_records log)) rules);
  log ← recover log rules;
  _ ← lift_res (require_valid_log (fl_records log) rules);
  rules_hash ← lift_opt LogError.SerdeJson (sha256_canonical rules);
  mret (mk_LogWriter log (from_last_time (fl_last_time log)) rules_hash false).

(** An early return drops the lock file and with it the lock. *)
Definition release_on_error {A} (m : io A) : io A := λ d,
  match m d with
  | (d, inl e) => (set_lock_held false d, inl e)
  | done => done
  end.

(** [open_with_max_bytes]: the directory, the lock file and the lock itself may
    fail; any later error drops the lock file with its lock. *)
Definition open_with_max_bytes (rules : VerifierRules) (max_file_bytes : N) : io LogWriter :=
  _ ← io_op id;
  _ ← io_op id;
  _ ← io_op id;
  held ← gets lock_held;
  if held : bool then fail LogError.AlreadyLocked else
  _ ← modify (set_lock_held true);
  release_on_error (open_locked rules max_file_bytes).

Definition open (rules : VerifierRules) : io LogWriter :=
  open_with_max_bytes rules DEFAULT_MAX_LOG_BYTES.

Definition drop_writer (d : Disk) : Disk := set_lock_held false d.

Definition on_disk {A} (m : io A) : mach A := λ c,
  match m (mc_disk c) with (d, r) => (mk_Machine (mc_writer c) (mc_state c) d, r) end.
Definition on_state (m : eff State unit unit) : mach unit := λ c,
  match m (mc_state c) with
  | (s, inr u) => (mk_Machine (mc_writer c) s (mc_disk c), inr u)
  | (s, inl _) => (mk_Machine (mc_writer c) s (mc_disk c), inl LogError.SerdeJson)
  end.
Definition modify_writer (f : LogWriter → LogWriter) : mach unit :=
  modify (λ c, mk_Machine (f (mc_writer c)) (mc_state c) (mc_disk c)).
Definition modify_state (f : State → State) : mach unit :=
  modify (λ c, mk_Machine (mc_writer c) (f (mc_state c)) (mc_disk c)).

Definition set_log (log : FileLog) (w : LogWriter) : LogWriter :=
  mk_LogWriter log (lw_time_source w) (lw_rules_hash w) (lw_recovery_required w).
Definition set_recovery_required (b : bool) (w : LogWriter) : LogWriter :=
  mk_LogWriter (lw_log w) (lw_time_source w) (lw_rules_hash w) b.
Definition set_time_source (ts : TimeSource) (w : LogWriter) : LogWriter :=
  mk_LogWriter (lw_log w) ts (lw_rules_hash w) (lw_recovery_required w).

Definition records_of (c : Machine) : list record := fl_records (lw_log (mc_writer c)).

(** [self.log.append]. *)
Definition append_log (r : record) : mach unit :=
  log ← gets (λ c, lw_log (mc_writer c));
  log ← on_disk (append log r);
  modify_writer (set_log log).

Definition ensure_writable (w : LogWriter) : LogError.t + unit :=
  if lw_recovery_required w then Err LogError.RecoveryRequired else Ok tt.

Definition ensure_rules_match (w : LogWriter) (rules : VerifierRules) : LogError.t + unit :=
  h ← ok_or (sha256_canonical rules) LogError.SerdeJson;
  if h =? lw_rules_hash w then Ok tt else Err LogError.RulesMismatch.

Definition ensure_state_matches (w : LogWriter) (s : State) : LogError.t + unit :=
  expected ← ok_or (build_state_unchecked (fl_records (lw_log w))) LogError.SerdeJson;
  if expected =? s then Ok tt else Err LogError.StateMismatch.

(** The three guards every writing method starts with. *)
Definition ensure_ready (rules : VerifierRules) (c : Machine) : LogError.t + unit :=
  _ ← ensure_writable (mc_writer c);
  _ ← ensure_rules_match (mc_writer c) rules;
  ensure_state_matches (mc_writer c) (mc_state c).

(** Steps 1 and 2 of [commit_inner]: the complete pair, and its verdict. *)
Definition materialize (p : Proposal) (rules : VerifierRules) (signer : option Hash256)
    (c : Machine) : LogError.t + (record * record * VerdictData) :=
  let w := mc_writer c in
  let ref_evidences := omap (λ x, fl_get (lw_log w) (ref_target x)
                                    ≫= ref_evidence (mc_state c) x) (prop_refs p) in
  let evidence := derive_evidence (prop_schema p) ref_evidences in
  let time := peek (lw_time_source w) in
  verdict_time ← ok_or (checked_add_u64 time 1) LogError.TimeExhausted;
  let r := mk_record zero_hash (prop_space p) (prop_thread p) time (prop_author p) (prop_kind p)
    (prop_schema p) (prop_data p) (sort_and_dedup_refs (prop_refs p)) evidence in
  r ← match signer with
      | Some secret =>
          s ← ok_or (sign secret r) LogError.SerdeJson;
          Ok (mk_record (rec_id r) (rec_space r) (rec_thread r) (rec_time r)
                (mk_author (author_id (rec_author r)) (author_type (rec_author r)) (Some s))
                (rec_kind r) (rec_schema r) (rec_data r) (rec_refs r) (rec_evidence r))
      | None => Ok r
      end;
  r ← ok_or (with_computed_id r) LogError.SerdeJson;
  let verdict_data := verify_record r (fl_records (lw_log w)) rules (mc_state c) in
  verdict_record ← ok_or (materialize_verdict r verdict_time verdict_data) LogError.SerdeJson;
  Ok (r, verdict_record, verdict_data).

(** [commit_inner]. *)
Definition commit_inner (p : Proposal) (rules : VerifierRules) (signer : option Hash256)
    : mach (RecordId * VerdictData) :=
  c ← get;
  _ ← lift_res (ensure_ready rules c);
  if exhausted (lw_time_source (mc_writer c)) then fail LogError.TimeExhausted else
  '(r, verdict_record, verdict_data) ← lift_res (materialize p rules signer c);
  let subject := rec_id r in
  _ ← on_disk (ensure_capacity_for (lw_log (mc_writer c)) [r; verdict_record]);
  _ ← on_disk (write_to_file (mk_CommitIntent subject false));
  _ ← modify_writer (set_recovery_required true);
  _ ← append_log r;
  _ ← on_disk (write_to_file (mk_CommitIntent subject true));
  _ ← append_log verdict_record;
  _ ← on_disk clear_file;
  log ← gets (λ c, lw_log (mc_writer c));
  found ← lift_opt LogError.CorruptedRecovery (fl_get log subject);
  _ ← on_state (apply_record found verdict_data);
  _ ← modify_state (set_applied_up_to (rec_time verdict_record));
  _ ← modify_writer (λ w, set_time_source (next_time (next_time (lw_time_source w)).2).2 w);
  _ ← modify_writer (set_recovery_required false);
  mret (subject, verdict_data).

Definition commit (p : Proposal) (rules : VerifierRules) : mach (RecordId * VerdictData) :=
  commit_inner p rules None.
Definition commit_signed (p : Proposal) (rules : VerifierRules) (signer : Hash256)
    : mach (RecordId * VerdictData) := commit_inner p rules (Some signer).

(** The loop of [batch_commit] and of [checked_batch_commit]. *)
Fixpoint commit_all (proposals : list Proposal) (rules : VerifierRules)
    (results : list (RecordId * VerdictData)) : mach (list (RecordId * VerdictData)) :=
  match proposals with
  | [] => mret results
  | p :: proposals =>
      result ← commit p rules;
      commit_all proposals rules (results ++ [result])
  end.

Definition batch_commit (proposals : list Proposal) (rules : VerifierRules)
    : mach (list (RecordId * VerdictData)) :=
  commit_all (sort_batch proposals) rules [].

Definition writer_head (w : LogWriter) : RecordId := default EMPTY_HEAD (rec_id <$> last (fl_records (lw_log w))).

Record BatchAppend := mk_BatchAppend {
  ba_head : RecordId;
  ba_results : list (RecordId * VerdictData);
  ba_replayed : nat;
}.

(** The matching loop: the proposals already landed from [pos] on, the
    position after them, and the proposals left. *)
Fixpoint match_landed (proposals : list Proposal) (records : list record) (landed pos : nat)
    (results : list (RecordId * VerdictData))
    : LogError.t + (nat * nat * list (RecordId * VerdictData) * list Proposal) :=
  match proposals with
  | [] => Ok (landed, pos, results, [])
  | p :: rest =>
      match records !! pos with
      | None => Ok (landed, pos, results, p :: rest)
      | Some subject =>
          if negb (proposal_matches_record p subject) then Ok (landed, pos, results, p :: rest)
          else
          match records !! (pos + 1) with
          | None => Err LogError.CorruptedRecovery
          | Some verdict =>
              verdict_data ← ok_or (decode (rec_data verdict) : option VerdictData)
                LogError.SerdeJson;
              match_landed rest records (S landed) (pos + 2)
                (results ++ [(rec_id subject, verdict_data)])
          end
      end
  end.

(** [checked_batch_commit]. *)
Definition checked_batch_commit (expected_head : RecordId) (proposals : list Proposal)
    (rules : VerifierRules) : mach BatchAppend :=
  c ← get;
  _ ← lift_res (ensure_ready rules c);
  let proposals := sort_batch proposals in
  let records := records_of c in
  start ← lift_res
    (if expected_head =? EMPTY_HEAD then Ok 0 else
     match list_find (λ r, rec_id r = expected_head) records with
     | Some (pos, _) => Ok (pos + 1)
     | None => Err (LogError.HeadConflict expected_head (writer_head (mc_writer c)))
     end);
  '(landed, pos, results, remainder) ← lift_res (match_landed proposals records 0 start []);
  if remainder is [] then
    mret (mk_BatchAppend
      (if pos =? 0 then EMPTY_HEAD else default zero_hash (rec_id <$> records !! (pos - 1)))
      results landed)
  else
  if negb (pos =? length records)
  then fail (LogError.HeadConflict expected_head (writer_head (mc_writer c))) else
  results ← commit_all remainder rules results;
  w ← gets mc_writer;
  mret (mk_BatchAppend (writer_head w) results landed).
End writer.
