(* ===== verification/StorageFacts.v ===== *)
(** * Facts about the file-backed log

    Frames are read back as written, a torn last frame is cut off, and an
    append extends the file by the bytes of one frame or a prefix of them. *)

From S2P Require Export Writer.

(** ** Running a sequence of effects *)

Lemma eff_bind_run {S E A B} (m : eff S E A) (f : A → eff S E B) s s1 a :
  m s = (s1, inr a) → (m ≫= f) s = f a s1.
Proof. unfold mbind, eff_bind. by intros ->. Qed.

Lemma eff_bind_err {S E A B} (m : eff S E A) (f : A → eff S E B) s s1 e :
  m s = (s1, inl e) → (m ≫= f) s = (s1, inl e).
Proof. unfold mbind, eff_bind. by intros ->. Qed.

(** Run the first effect by the given equation. *)
Ltac run H := erewrite (eff_bind_run _ _ _ _ _ H); cbv beta iota.

(** ** Length prefixes *)

Lemma from_to_be_bytes n : (n <= u32_max)%N → from_be_bytes (to_be_bytes n) = n.
Proof.
  unfold u32_max. intros Hn. unfold to_be_bytes, from_be_bytes.
  pose proof (N.div_lt_upper_bound n 16777216 256) as H1.
  rewrite !code_byte_of; [|apply N.mod_lt; lia..|lia].
  pose proof (N.div_mod n 256 ltac:(lia)) as E0.
  pose proof (N.div_mod (n / 256) 256 ltac:(lia)) as E1.
  pose proof (N.div_mod (n / 65536) 256 ltac:(lia)) as E2.
  rewrite N.Div0.div_div in E1, E2. change (256 * 256)%N with 65536%N in E1.
  change (65536 * 256)%N with 16777216%N in E2. lia.
Qed.

Lemma length_to_be_bytes n : length (to_be_bytes n) = 4.
Proof. done. Qed.

Section frames.
Context `{Primitives, RecordParser}.

(** ** Frames *)

Definition record_frame (r : record) : option bytes :=
  match encode_record r with
  | inr (bytes, len) => Some (to_be_bytes len ++ bytes)
  | inl _ => None
  end.

Definition frames (l : list record) : option bytes := @concat byte <$> mapM record_frame l.

(** The parser reads back the canonical form of these records. *)
Definition parses (l : list record) : Prop :=
  ∀ r b, r ∈ l → canonical_json r = Some b → from_slice_record b = Some r.

Lemma parses_app l k : parses (l ++ k) ↔ parses l ∧ parses k.
Proof.
  unfold parses. split.
  - intros Hp. split; intros r b Hr; apply Hp, elem_of_app; auto.
  - intros [Hl Hk] r b [?|?]%elem_of_app; auto.
Qed.

Lemma encode_record_ok r bytes len :
  encode_record r = inr (bytes, len) →
  canonical_json r = Some bytes ∧ len = N.of_nat (length bytes) ∧ (len <= u32_max)%N.
Proof.
  unfold encode_record. destruct (canonical_json r) as [b|]; [|done]. simpl.
  destruct (N.ltb_spec u32_max (N.of_nat (length b))); [done|]. by intros [= <- <-].
Qed.

Lemma frame_ok r f :
  record_frame r = Some f → ∃ bytes, canonical_json r = Some bytes ∧
    (N.of_nat (length bytes) <= u32_max)%N ∧
    f = to_be_bytes (N.of_nat (length bytes)) ++ bytes ∧
    encode_record r = inr (bytes, N.of_nat (length bytes)).
Proof.
  unfold record_frame. destruct (encode_record r) as [|[b len]] eqn:E; [done|].
  apply encode_record_ok in E as (Hc & -> & Hlen). intros [= <-]. eauto.
Qed.

Lemma frame_length r f : record_frame r = Some f → 4 ≤ length f.
Proof. intros (b & _ & _ & -> & _)%frame_ok. rewrite length_app, length_to_be_bytes. lia. Qed.

Lemma frames_nil : frames [] = Some [].
Proof. done. Qed.

Lemma frames_cons r l b :
  frames (r :: l) = Some b ↔ ∃ f k, record_frame r = Some f ∧ frames l = Some k ∧ b = f ++ k.
Proof.
  unfold frames. cbn [mapM]. destruct (record_frame r) as [f|]; simpl.
  - destruct (mapM record_frame l) as [k|]; simpl; split.
    + intros [= <-]. eauto.
    + by intros (? & ? & [= <-] & [= <-] & ->).
    + done.
    + by intros (? & ? & ? & ? & ?).
  - split; [done|]. by intros (? & ? & ? & ?).
Qed.

Lemma frames_app l k b :
  frames (l ++ k) = Some b ↔ ∃ x y, frames l = Some x ∧ frames k = Some y ∧ b = x ++ y.
Proof.
  revert b. induction l as [|r l IH]; intros b.
  - simpl. rewrite frames_nil. split; [eauto 6|]. by intros (? & ? & [= <-] & ? & ->).
  - simpl. rewrite frames_cons. setoid_rewrite frames_cons. setoid_rewrite IH. split.
    + intros (f & z & Hf & (x & y & Hx & Hy & ->) & ->). exists (f ++ x), y.
      rewrite app_assoc. eauto 10.
    + intros (x & y & (f & z & Hf & Hz & ->) & Hy & ->). exists f, (z ++ y).
      rewrite app_assoc. eauto 10.
Qed.

Lemma frames_snoc l r b f :
  frames l = Some b → record_frame r = Some f → frames (l ++ [r]) = Some (b ++ f).
Proof.
  intros Hl Hr. apply frames_app. exists b, f. split_and!; [done| |done].
  apply frames_cons. exists f, []. by rewrite app_nil_r.
Qed.

(** ** Reading *)

(** No complete frame starts here. *)
Definition torn (t : bytes) : Prop :=
  length t < 4 ∨ (N.of_nat (length t) < 4 + from_be_bytes (take 4 t))%N.

Lemma torn_nil : torn [].
Proof. left. simpl. lia. Qed.

Lemma torn_prefix r f n : record_frame r = Some f → n < length f → torn (take n f).
Proof.
  intros (b & _ & Hlen & -> & _)%frame_ok Hn. rewrite length_app, length_to_be_bytes in Hn.
  destruct (decide (n < 4)) as [|Hn4].
  - left. rewrite length_take. lia.
  - right. rewrite take_take, Nat.min_l by lia.
    rewrite (take_app_le (to_be_bytes _) b 4) by (rewrite length_to_be_bytes; lia).
    rewrite (take_ge (to_be_bytes _)) by (rewrite length_to_be_bytes; lia).
    rewrite from_to_be_bytes by done. rewrite length_take, length_app, length_to_be_bytes. lia.
Qed.

Lemma read_frames_spec l pre b t fuel :
  frames l = Some b → parses l → torn t → length l < fuel →
  (N.of_nat (length (pre ++ b ++ t)) <= u64_max)%N →
  read_frames fuel (pre ++ b ++ t) (length pre) = inr (l, length pre + length b).
Proof.
  revert pre b fuel. induction l as [|r l IH]; intros pre b fuel Hb Hp Ht Hf Hmax.
  - injection Hb as <-. destruct fuel as [|fuel]; [simpl in Hf; lia|]. cbn [read_frames].
    rewrite app_nil_l, length_app, drop_app_length.
    replace (length pre + length t - length pre) with (length t) by lia.
    destruct (Nat.ltb_spec (length t) 4); [by rewrite Nat.add_0_r|].
    destruct Ht as [|Ht]; [lia|].
    unfold complete_frame_end. destruct (checked_add_u64 _ _) as [e|] eqn:Ee; simpl;
      [|by rewrite Nat.add_0_r].
    apply checked_add_u64_Some in Ee as [-> _].
    destruct (N.leb_spec (N.of_nat (length pre + 4) + from_be_bytes (take 4 t))
      (N.of_nat (length pre + length t))); [lia | by rewrite Nat.add_0_r].
  - apply frames_cons in Hb as (f & k & Hf' & Hk & ->).
    destruct fuel as [|fuel]; [simpl in Hf; lia|]. simpl in Hf.
    pose proof Hf' as (body & Hc & Hlen & Ef & _)%frame_ok. cbn [read_frames].
    assert (Hlf : length f = 4 + length body) by (rewrite Ef, length_app, length_to_be_bytes; lia).
    rewrite drop_app_length.
    destruct (Nat.ltb_spec (length (pre ++ (f ++ k) ++ t) - length pre) 4) as [Hs|_].
    { rewrite !length_app in Hs. lia. }
    assert (E4 : take 4 ((f ++ k) ++ t) = to_be_bytes (N.of_nat (length body))).
    { rewrite Ef, <- !app_assoc. by rewrite take_app_length'. }
    rewrite E4, from_to_be_bytes by done. unfold complete_frame_end.
    assert (Eadd : checked_add_u64 (N.of_nat (length pre + 4)) (N.of_nat (length body)) =
      Some (N.of_nat (length pre + length f))).
    { apply checked_add_u64_Some. rewrite !length_app in Hmax. lia. }
    rewrite Eadd. cbn [mbind option_bind].
    destruct (N.leb_spec (N.of_nat (length pre + length f)) (N.of_nat (length (pre ++ (f ++ k) ++ t))))
      as [_|Hs]; [|rewrite !length_app in Hs; lia].
    rewrite Nat2N.id.
    assert (Ebody : take (length pre + length f - (length pre + 4))
      (drop (length pre + 4) (pre ++ (f ++ k) ++ t)) = body).
    { rewrite <- drop_drop, drop_app_length, Ef, <- !app_assoc.
      rewrite drop_app_length' by done. rewrite <- Ef.
      replace (length pre + length f - (length pre + 4)) with (length body) by lia.
      by rewrite take_app_length. }
    rewrite Ebody, (Hp r body) by (done || by left).
    rewrite <- (length_app pre f).
    replace (pre ++ (f ++ k) ++ t) with ((pre ++ f) ++ k ++ t) by (by rewrite !app_assoc).
    rewrite (IH (pre ++ f) k fuel Hk); [| |done|lia|].
    + simpl. rewrite !length_app. do 2 f_equal. lia.
    + intros x bx Hx. apply Hp. by right.
    + rewrite !length_app in *. lia.
Qed.
(** ** Opening *)

Lemma io_op_ok f d : budget d = None → io_op f d = (f d, inr tt).
Proof. unfold io_op. by intros ->. Qed.

Lemma io_read_ok {A} (f : Disk → A) d : budget d = None → io_read f d = (d, inr (f d)).
Proof. intros Hb. unfold io_read, mbind, eff_bind. by rewrite io_op_ok. Qed.

Lemma length_frames l b : frames l = Some b → length l ≤ length b.
Proof.
  revert b. induction l as [|r l IH]; intros b; simpl; [lia|].
  intros (f & k & Hf & Hk & ->)%frames_cons. rewrite length_app.
  apply frame_length in Hf. specialize (IH k Hk). lia.
Qed.

Lemma read_all_records_ok l b t max d :
  budget d = None → records_log d = b ++ t → frames l = Some b → parses l → torn t →
  (N.of_nat (length (b ++ t)) <= max <= u64_max)%N →
  read_all_records max d = (d, inr (l, length b, N.of_nat (length (b ++ t)))).
Proof.
  intros Hd Hlog Hb Hp Ht Hmax. unfold read_all_records, mbind, eff_bind.
  rewrite io_read_ok by done. rewrite Hlog.
  assert (Htake : take (N.to_nat (N.min (saturating_add_u64 max 1) (N.of_nat (length (b ++ t)))))
    (b ++ t) = b ++ t).
  { apply take_ge. unfold saturating_add_u64. lia. }
  rewrite Htake. destruct (N.ltb_spec max (N.of_nat (length (b ++ t)))); [lia|].
  unfold lift_res.
  assert (Hr : read_frames (S (length (b ++ t))) (b ++ t) 0 = inr (l, length b)).
  { apply (read_frames_spec l [] b t); [done..| |simpl; lia].
    apply length_frames in Hb. rewrite length_app. lia. }
  by rewrite Hr.
Qed.

(** Opening recovers the complete frames and cuts off a torn one. *)
Lemma FileLog_open_ok l b t max d :
  budget d = None → records_log d = b ++ t → frames l = Some b → parses l → torn t →
  (N.of_nat (length (b ++ t)) <= max <= u64_max)%N →
  FileLog_open max d =
    (set_records_log b d, inr (mk_FileLog l (index_from 0 l ∅) max)).
Proof.
  intros Hd Hlog Hb Hp Ht Hmax. unfold FileLog_open, mbind, eff_bind.
  rewrite io_op_ok, io_read_ok by done. unfold id. rewrite Hlog.
  destruct (N.ltb_spec max (N.of_nat (length (b ++ t)))); [lia|].
  rewrite (read_all_records_ok l b t) by done.
  destruct (N.ltb_spec (N.of_nat (length b)) (N.of_nat (length (b ++ t)))) as [Hlt|Hge].
  - rewrite io_op_ok by done. rewrite !io_op_ok by (by destruct d).
    unfold mret, eff_ret, id. rewrite Hlog, take_app_length. done.
  - assert (t = []) as ->.
    { apply length_zero_iff_nil. rewrite length_app in Hge. lia. }
    unfold mret at 1, eff_ret at 1. rewrite io_op_ok by done. unfold mret, eff_ret, id.
    rewrite app_nil_r in Hlog. rewrite <- Hlog. by destruct d.
Qed.

(** ** Appending *)

Definition grow (log : FileLog) (r : record) : FileLog :=
  mk_FileLog (fl_records log ++ [r]) (<[rec_id r := length (fl_records log)]> (fl_index log))
    (fl_max_file_bytes log).

(** The bytes of the frames, when they all fit under the limit. *)
Lemma projected_size_ok max n l b :
  frames l = Some b → (n + N.of_nat (length b) <= u64_max)%N →
  projected_size max n l = inr (n + N.of_nat (length b))%N.
Proof.
  revert n b. induction l as [|r l IH]; intros n b Hb Hmax.
  - injection Hb as <-. simpl. f_equal. lia.
  - apply frames_cons in Hb as (f & k & Hf & Hk & ->). cbn [projected_size].
    pose proof Hf as (body & _ & _ & -> & ->)%frame_ok. cbn [mbind result_bind snd].
    rewrite !length_app, length_to_be_bytes in *.
    assert (Ea : checked_add_u64 n (4 + N.of_nat (length body)) =
      Some (n + (4 + N.of_nat (length body)))%N) by (apply checked_add_u64_Some; lia).
    rewrite Ea. cbn [ok_or mbind result_bind]. rewrite (IH _ k) by (done || lia). f_equal. lia.
Qed.

Lemma projected_size_inv max n l m :
  projected_size max n l = inr m → ∃ b, frames l = Some b ∧ m = (n + N.of_nat (length b))%N.
Proof.
  revert n. induction l as [|r l IH]; intros n; cbn [projected_size].
  - intros [= <-]. exists []. split; [done|]. simpl. lia.
  - destruct (encode_record r) as [|[body len]] eqn:Ee; [done|].
    pose proof Ee as (_ & -> & _)%encode_record_ok. cbn [mbind result_bind snd].
    destruct (checked_add_u64 _ _) as [m'|] eqn:Ea; [|done]. cbn [ok_or mbind result_bind].
    apply checked_add_u64_Some in Ea as [-> _]. intros (k & Hk & ->)%IH.
    exists ((to_be_bytes (N.of_nat (length body)) ++ body) ++ k). split.
    + apply frames_cons. unfold record_frame. rewrite Ee. eauto.
    + rewrite !length_app, length_to_be_bytes. lia.
Qed.

Lemma ensure_capacity_ok log l b d :
  budget d = None → frames l = Some b →
  (N.of_nat (length (records_log d) + length b) <= fl_max_file_bytes log <= u64_max)%N →
  ensure_capacity_for log l d = (d, inr tt).
Proof.
  intros Hd Hb Hmax. unfold ensure_capacity_for, mbind, eff_bind.
  rewrite io_read_ok by done. unfold lift_res. rewrite (projected_size_ok _ _ _ b) by (done || lia).
  destruct (N.ltb_spec (fl_max_file_bytes log)
    (N.of_nat (length (records_log d)) + N.of_nat (length b))); [lia | done].
Qed.

Lemma write_all_ok b d : budget d = None → write_all b d = (set_records_log (records_log d ++ b) d, inr tt).
Proof. unfold write_all, io_write. by intros ->. Qed.

Lemma append_ok log r f d :
  budget d = None → record_frame r = Some f →
  (N.of_nat (length (records_log d) + length f) <= fl_max_file_bytes log <= u64_max)%N →
  append log r d = (set_records_log (records_log d ++ f) d, inr (grow log r)).
Proof.
  intros Hd Hf Hmax. pose proof Hf as (body & _ & _ & -> & Ee)%frame_ok.
  unfold append, mbind, eff_bind, lift_res. rewrite Ee.
  rewrite (ensure_capacity_ok log [r] (to_be_bytes (N.of_nat (length body)) ++ body)); [|done| |done].
  2: { apply frames_cons. exists (to_be_bytes (N.of_nat (length body)) ++ body), []. by rewrite app_nil_r. }
  rewrite io_op_ok, write_all_ok by done. rewrite write_all_ok by (by destruct d).
  rewrite io_op_ok by (by destruct d). unfold mret, eff_ret, id, set_records_log.
  cbn [records_log intent_file intent_tmp lock_held budget]. by rewrite <- app_assoc.
Qed.
End frames.

(** ** What an operation may leave behind *)

(** [m] changes the file, or another list it keeps, only by adding a prefix of
    [f] to it, all of [f] when it succeeds. *)
Definition writes {S X A : Type} (file : S → list X) (f : list X) (m : eff S LogError.t A) : Prop :=
  ∀ d, (∃ n, file (m d).1 = file d ++ take n f) ∧
    (∀ a, (m d).2 = inr a → file (m d).1 = file d ++ f).

Section writes_facts.
Context {S X : Type} (file : S → list X).

(** Steps that leave the file alone. *)
Lemma writes_quiet {A} (m : eff S LogError.t A) :
  (∀ d, file (m d).1 = file d) → writes file [] m.
Proof. intros Hm d. rewrite Hm, app_nil_r. split; [by exists 0; rewrite app_nil_r | done]. Qed.

Lemma writes_fail {A} f e : writes file f (fail e : eff S LogError.t A).
Proof. intros d. split; [exists 0 | done]. simpl. by rewrite take_0, app_nil_r. Qed.

Lemma writes_bind {A B} f g (m : eff S LogError.t A) (k : A → eff S LogError.t B) :
  writes file f m → (∀ a d, (m d).2 = inr a → writes file g (k a)) → writes file (f ++ g) (m ≫= k).
Proof.
  intros Hm Hk d. destruct (Hm d) as [[n Hn] Hok]. specialize (Hk). unfold mbind, eff_bind.
  destruct (m d) as [d1 [e|a]] eqn:Em; simpl in *.
  - split; [|done]. exists (min n (length f)). rewrite Hn. f_equal.
    rewrite take_app_le by lia. destruct (decide (n ≤ length f)) as [|Hgt];
      [by rewrite Nat.min_l by lia|]. by rewrite !take_ge by lia.
  - specialize (Hok a eq_refl). specialize (Hk a d). rewrite Em in Hk.
    destruct (Hk eq_refl d1) as [[m' Hm'] Hok']. split.
    + exists (length f + m'). rewrite Hm', Hok, <- app_assoc. f_equal. by rewrite take_app_add.
    + intros b Hb. by rewrite (Hok' b Hb), Hok, <- app_assoc.
Qed.

Lemma writes_bind_nil {A B} f (m : eff S LogError.t A) (k : A → eff S LogError.t B) :
  writes file [] m → (∀ a d, (m d).2 = inr a → writes file f (k a)) → writes file f (m ≫= k).
Proof. apply (writes_bind [] f). Qed.

Lemma writes_last {A B} f (m : eff S LogError.t A) (k : A → eff S LogError.t B) :
  writes file f m → (∀ a d, (m d).2 = inr a → writes file [] (k a)) → writes file f (m ≫= k).
Proof. intros Hm Hk. rewrite <- (app_nil_r f). by apply writes_bind. Qed.

Lemma writes_if {A} (b : bool) f (m k : eff S LogError.t A) :
  writes file f m → writes file f k → writes file f (if b then m else k).
Proof. by destruct b. Qed.
End writes_facts.

Lemma writes_io_op f : (∀ d, records_log (f d) = records_log d) → writes records_log [] (io_op f).
Proof.
  intros Hf. apply writes_quiet. intros d. unfold io_op.
  destruct (budget d) as [[|n]|]; simpl; rewrite ?Hf; done.
Qed.

Lemma writes_write_all b : writes records_log b (write_all b).
Proof.
  intros d. unfold write_all, io_write. destruct (budget d) as [n|]; simpl.
  - destruct (Nat.ltb_spec n (length b)); simpl.
    + split; [by exists n | done].
    + split; [exists (length b); by rewrite firstn_all | done].
  - split; [exists (length b); by rewrite firstn_all | done].
Qed.

Lemma writes_io_write_tmp b :
  writes records_log [] (io_write (λ d, default [] (intent_tmp d)) (λ b, set_intent_tmp (Some b)) b).
Proof. apply writes_quiet. intros d. unfold io_write. repeat case_match; done. Qed.

Lemma writes_io_read {A} (f : Disk → A) : writes records_log [] (io_read f).
Proof.
  apply writes_bind_nil; [by apply writes_io_op|]. intros. by apply writes_quiet.
Qed.

#[export] Hint Resolve writes_fail writes_io_write_tmp writes_io_read writes_write_all : writes.
#[export] Hint Extern 1 (writes _ [] (io_op _)) => by apply writes_io_op : writes.
#[export] Hint Extern 2 (writes _ [] _) => by apply writes_quiet : writes.

(** Steps that write nothing, one after the other. *)
Ltac writes_nil :=
  repeat first
    [ apply writes_bind_nil; [|intros]
    | apply writes_if
    | solve [auto with writes]
    | case_match ].

Section writes.
Context `{Primitives, RecordParser}.

Lemma writes_ensure_capacity log l : writes records_log [] (ensure_capacity_for log l).
Proof. unfold ensure_capacity_for. writes_nil. Qed.

Lemma writes_append log r : writes records_log (default [] (record_frame r)) (append log r).
Proof.
  unfold append, record_frame. destruct (encode_record r) as [e|[body len]] eqn:Ee.
  - intros d. unfold mbind, eff_bind, lift_res. simpl. split; [exists 0; by rewrite app_nil_r | done].
  - change (writes records_log (to_be_bytes len ++ body)
      (_ ← ensure_capacity_for log [r]; _ ← io_op id; _ ← write_all (to_be_bytes len);
       _ ← write_all body; _ ← io_op id; mret (grow log r))).
    apply writes_bind_nil; [apply writes_ensure_capacity|intros _ _ _].
    apply writes_bind_nil; [auto with writes|intros _ _ _].
    apply writes_bind; [apply writes_write_all|intros _ _ _].
    apply writes_last; [apply writes_write_all|intros _ _ _]. writes_nil.
Qed.

Lemma append_result log r d d' log' :
  append log r d = (d', inr log') → log' = grow log r ∧ ∃ f, record_frame r = Some f.
Proof.
  unfold append, record_frame. destruct (encode_record r) as [e|[body len]]; [done|]. intros Hrun.
  eff_inv Hrun. split; [done|]. eauto.
Qed.
End writes.
