(* ===== verification/Taint.v ===== *)
(** * Taint propagation

    Facts about [mark_tainted] and the fold of State.v: the cascade
    terminates, and the tainted set is exactly what is reachable from the
    retracted set through epistemic dependence. *)

From S2P Require Export Replay.

(** [b] epistemically depends on [a]. *)
Definition depends (s : State) (a b : RecordId) : Prop := b ∈ dependents s a.

(** ** The cascade on sets *)

Section cascade.
Context (deps : gmap RecordId (gset RecordId)).

Definition deps_of (a : RecordId) : gset RecordId := default ∅ (deps !! a).
Definition edge (a b : RecordId) : Prop := b ∈ deps_of a.

Fixpoint cascade (fuel : nat) (stack : list RecordId) (T : gset RecordId)
    : option (gset RecordId) :=
  match stack, fuel with
  | [], _ => Some T
  | _ :: _, O => None
  | c :: stack, S fuel =>
      if c ∈? T then cascade fuel stack T
      else cascade fuel (reverse (btree_members (deps_of c)) ++ stack) ({[c]} ∪ T)
  end.

Lemma elem_of_pushed x c stack :
  x ∈ reverse (btree_members (deps_of c)) ++ stack ↔ edge c x ∨ x ∈ stack.
Proof.
  rewrite elem_of_app, elem_of_reverse. unfold btree_members.
  by rewrite elem_of_sort_by, elem_of_elements.
Qed.

Lemma cascade_spec fuel stack T T' :
  cascade fuel stack T = Some T' →
  T ⊆ T' ∧ (∀ x, x ∈ stack → x ∈ T') ∧
  (∀ x y, x ∈ T' → x ∉ T → edge x y → y ∈ T') ∧
  (∀ x, x ∈ T' → x ∈ T ∨ ∃ y, y ∈ stack ∧ rtc edge y x).
Proof.
  revert stack T. induction fuel as [|fuel IH]; intros [|c stack] T; simpl; try done.
  1, 2: intros [= <-]; split_and!; [done | by intros x ?%elem_of_nil | done | auto].
  case_bool_decide as Hc.
  - intros (Hsub & Hst & Hcl & Hrt)%IH. repeat split; auto.
    + intros x [->|?]%elem_of_cons; auto.
    + intros x Hx. destruct (Hrt x Hx) as [|(y & ? & ?)]; [by left|].
      right. exists y. split; [by right | done].
  - intros (Hsub & Hst & Hcl & Hrt)%IH. repeat split.
    + set_solver.
    + intros x [->|Hx]%elem_of_cons; [set_solver|]. apply Hst, elem_of_pushed. by right.
    + intros x y Hx HxT Hxy. destruct (decide (x = c)) as [->|Hne].
      * apply Hst, elem_of_pushed. by left.
      * apply (Hcl x); [done | set_solver | done].
    + intros x Hx. destruct (Hrt x Hx) as [[->%elem_of_singleton|]%elem_of_union|(y & Hy & Hyx)].
      * right. exists c. split; [by left | apply rtc_refl].
      * by left.
      * right. apply elem_of_pushed in Hy as [Hcy|Hy].
        -- exists c. split; [by left | by eapply rtc_l].
        -- exists y. split; [by right | done].
Qed.

(** The pops left: the stack, and the edges out of untainted nodes. *)
Definition edges_left (T : gset RecordId) : nat :=
  sum_list_with (λ e, if e.1 ∈? T then 0 else size e.2) (map_to_list deps).

Lemma edges_left_step c T :
  c ∉ T → edges_left ({[c]} ∪ T) + size (deps_of c) ≤ edges_left T.
Proof.
  intros Hc. unfold edges_left, deps_of.
  assert (Hmono : ∀ l : list (RecordId * gset RecordId),
    sum_list_with (λ e, if e.1 ∈? {[c]} ∪ T then 0 else size e.2) l ≤
    sum_list_with (λ e, if e.1 ∈? T then 0 else size e.2) l).
  { induction l as [|[k d] l IHl]; simpl; [done|].
    case_bool_decide as H1; case_bool_decide as H2; try lia. set_solver. }
  destruct (deps !! c) as [d|] eqn:Ed; cbn [from_option id].
  2: { rewrite size_empty. specialize (Hmono (map_to_list deps)). lia. }
  rewrite <- (insert_delete_id deps c d Ed), map_to_list_insert by apply lookup_delete_eq.
  cbn [sum_list_with fst snd].
  rewrite (bool_decide_true (c ∈ _)), (bool_decide_false (c ∈ T)) by set_solver.
  specialize (Hmono (map_to_list (delete c deps))). lia.
Qed.

Lemma length_btree_members (X : gset RecordId) : length (btree_members X) = size X.
Proof. unfold btree_members. by rewrite sort_by_perm. Qed.

Lemma cascade_terminates fuel stack T :
  length stack + edges_left T ≤ fuel → ∃ T', cascade fuel stack T = Some T'.
Proof.
  revert stack T. induction fuel as [|fuel IH]; intros [|c stack] T; simpl; try by eauto.
  - lia.
  - intros Hf. case_bool_decide as Hc; [apply IH; lia|]. apply IH.
    rewrite length_app, length_reverse, length_btree_members.
    pose proof (edges_left_step c T Hc). lia.
Qed.

Lemma edges_left_total T :
  edges_left T ≤ map_fold (λ _ (d : gset RecordId) n, size d + n) 0 deps.
Proof.
  rewrite map_fold_foldr. unfold edges_left.
  induction (map_to_list deps) as [|[k d] l IHl]; simpl; [done|]. case_match; lia.
Qed.
End cascade.

(** ** [mark_tainted] *)

Lemma mark_tainted_loop_cascade fuel stack s :
  mark_tainted_loop fuel stack s =
  (λ T, set_tainted_records T s) <$>
    cascade (epistemic_dependents s) fuel stack (tainted_records s).
Proof.
  revert stack s. induction fuel as [|fuel IH]; intros [|c stack] s; simpl; try by destruct s.
  case_bool_decide; [apply IH|]. rewrite IH. by destruct (cascade _ _ _ _).
Qed.

(** The cascade never runs out of fuel, and any larger fuel is as good. *)
Lemma mark_tainted_cascade id s :
  ∃ T', mark_tainted id s = set_tainted_records T' s ∧
    ∀ fuel, mark_fuel s ≤ fuel →
      mark_tainted_loop fuel [id] s = Some (set_tainted_records T' s).
Proof.
  set (n := S (edges_left (epistemic_dependents s) (tainted_records s))).
  destruct (cascade_terminates (epistemic_dependents s) n [id] (tainted_records s))
    as [T' HT]; [simpl; lia|].
  assert (Hmono : ∀ k m st T R, k ≤ m →
    cascade (epistemic_dependents s) k st T = Some R →
    cascade (epistemic_dependents s) m st T = Some R).
  { clear. induction k as [|k IH]; intros [|m] [|c st] T R Hle; simpl; try done; [lia|].
    case_bool_decide; apply IH; lia. }
  assert (Hn : n ≤ mark_fuel s).
  { unfold n, mark_fuel, dependence_edges.
    pose proof (edges_left_total (epistemic_dependents s) (tainted_records s)). lia. }
  assert (Hall : ∀ fuel, mark_fuel s ≤ fuel →
    mark_tainted_loop fuel [id] s = Some (set_tainted_records T' s)).
  { intros fuel Hf. rewrite mark_tainted_loop_cascade, (Hmono n fuel _ _ T') by (done || lia).
    done. }
  exists T'. split; [|done]. unfold mark_tainted. by rewrite Hall.
Qed.

(** The tainted set of a marked state. *)
Lemma mark_tainted_spec id s :
  ∃ T', mark_tainted id s = set_tainted_records T' s ∧
    tainted_records s ⊆ T' ∧ id ∈ T' ∧
    (∀ x y, x ∈ T' → x ∉ tainted_records s → depends s x y → y ∈ T') ∧
    (∀ x, x ∈ T' → x ∈ tainted_records s ∨ rtc (depends s) id x).
Proof.
  destruct (mark_tainted_cascade id s) as (T' & Hm & Hf). exists T'. split; [done|].
  specialize (Hf (mark_fuel s) (le_n _)). rewrite mark_tainted_loop_cascade in Hf.
  destruct (cascade _ _ _ _) as [T|] eqn:HT; [|done]. simpl in Hf.
  assert (T = T') as -> by (apply (f_equal (fmap tainted_records)) in Hf; by injection Hf).
  apply cascade_spec in HT as (H1 & H2 & H3 & H4). repeat split; auto.
  - apply H2. by left.
  - intros x Hx. destruct (H4 x Hx) as [|(y & ->%list_elem_of_singleton & ?)]; auto.
Qed.

(** ** The taint invariant *)

Definition taint_closed (s : State) : Prop :=
  (∀ t x, t ∈ retracted_records s → depends s t x → x ∈ tainted_records s) ∧
  (∀ x y, x ∈ tainted_records s → depends s x y → y ∈ tainted_records s) ∧
  (∀ x, x ∈ tainted_records s → ∃ t, t ∈ retracted_records s ∧ tc (depends s) t x).

Lemma taint_closed_iff s x :
  taint_closed s →
  (x ∈ tainted_records s ↔ ∃ t, t ∈ retracted_records s ∧ tc (depends s) t x).
Proof.
  intros (Hb & Hc & Hs). split; [apply Hs|]. intros (t & Ht & Htx).
  assert (Hreach : ∀ a b, tc (depends s) a b → a ∈ tainted_records s → b ∈ tainted_records s).
  { clear t x Ht Htx. induction 1; eauto. }
  inversion Htx; subst; eauto.
Qed.

(** What the taint invariant looks at. *)
Definition same_taint (s s' : State) : Prop :=
  retracted_records s' = retracted_records s ∧
  tainted_records s' = tainted_records s ∧
  epistemic_dependents s' = epistemic_dependents s.

Lemma depends_same s s' :
  epistemic_dependents s' = epistemic_dependents s → depends s' = depends s.
Proof. unfold depends, dependents. by intros ->. Qed.

Lemma taint_closed_same s s' : same_taint s s' → taint_closed s → taint_closed s'.
Proof.
  intros (Hr & Ht & Hd%depends_same). unfold taint_closed. by rewrite Hr, Ht, Hd.
Qed.

Lemma same_taint_refl s : same_taint s s.
Proof. by repeat split. Qed.
Lemma same_taint_trans s1 s2 s3 : same_taint s1 s2 → same_taint s2 s3 → same_taint s1 s3.
Proof. unfold same_taint. intuition congruence. Qed.

(** ** Indexing the refs *)

Definition epistemic_targets (refs : list Ref) : list RecordId :=
  ref_target <$> filter (λ x, is_epistemic x = true) refs.

Lemma fold_index_ref id refs s b :
  ∃ s', fold_left (index_ref id) refs (s, b) =
      (s', b || existsb (unreliable s) (epistemic_targets refs)) ∧
    s' = set_epistemic_dependents (epistemic_dependents s') s ∧
    ∀ a y, depends s' a y ↔ depends s a y ∨ y = id ∧ a ∈ epistemic_targets refs.
Proof.
  revert s b. induction refs as [|r refs IH]; intros s b.
  - exists s. simpl. rewrite orb_false_r. repeat split; [by destruct s | by left |].
    intros [|[_ ?%elem_of_nil]]; done.
  - cbn [fold_left]. unfold index_ref at 2, epistemic_targets. rewrite filter_cons.
    destruct (is_epistemic r) eqn:Er.
    2: { destruct (decide (false = true)); [done|]. apply IH. }
    destruct (decide (true = true)); [|done]. rewrite fmap_cons. cbn [existsb].
    edestruct IH as (s' & -> & Hs' & Hd). exists s'. split; [|split].
    + f_equal. unfold unreliable. simpl.
      change (ref_target <$> filter (λ x, is_epistemic x = true) refs)
        with (epistemic_targets refs). by rewrite !orb_assoc.
    + rewrite Hs'. by destruct s.
    + intros a y. rewrite Hd, elem_of_cons.
      change (ref_target <$> filter (λ x, is_epistemic x = true) refs)
        with (epistemic_targets refs).
      unfold depends, dependents at 1. simpl.
      destruct (decide (a = ref_target r)) as [->|Hne].
      * rewrite lookup_insert_eq. simpl. set_solver.
      * rewrite lookup_insert_ne by done. fold (dependents s a). naive_solver.
Qed.

Lemma index_refs_spec r s :
  ∃ T' D', index_refs r s = set_tainted_records T' (set_epistemic_dependents D' s) ∧
    (∀ a y, depends (index_refs r s) a y ↔
       depends s a y ∨ y = rec_id r ∧ a ∈ epistemic_targets (rec_refs r)).
Proof.
  unfold index_refs. destruct (fold_index_ref (rec_id r) (rec_refs r) s false)
    as (s1 & -> & Hs1 & Hd). simpl. case_match.
  - destruct (mark_tainted_spec (rec_id r) s1) as (T' & -> & _).
    exists T', (epistemic_dependents s1). split; [by rewrite Hs1|].
    intros a y. rewrite <- Hd. done.
  - exists (tainted_records s), (epistemic_dependents s1). split; [|done].
    rewrite Hs1. by destruct s.
Qed.

Lemma index_refs_taint r s : taint_closed s → taint_closed (index_refs r s).
Proof.
  intros (Hb & Hc & Hs). unfold index_refs.
  destruct (fold_index_ref (rec_id r) (rec_refs r) s false) as (s1 & -> & Hs1 & Hd). simpl.
  assert (Hr : retracted_records s1 = retracted_records s) by (by rewrite Hs1).
  assert (Ht : tainted_records s1 = tainted_records s) by (by rewrite Hs1).
  assert (Hsub : ∀ a y, tc (depends s) a y → tc (depends s1) a y).
  { intros a y. apply (tc_congruence id). intros ???. apply Hd. by left. }
  destruct (existsb _ _) eqn:Ein.
  - destruct (mark_tainted_spec (rec_id r) s1) as (T' & -> & H1 & H2 & H3 & H4).
    rewrite Ht in H1, H3, H4. unfold taint_closed. simpl.
    change (depends (set_tainted_records T' s1)) with (depends s1). rewrite Hr.
    split; [|split].
    + intros t x Hin [?|[-> _]]%Hd; eauto.
    + intros x y Hx Hxy. destruct (decide (x ∈ tainted_records s)) as [Hx'|]; [|by eapply H3].
      apply Hd in Hxy as [?|[-> _]]; eauto.
    + intros x [Hx|Hx]%H4.
      * destruct (Hs x Hx) as (t & ? & ?). eauto.
      * apply existsb_exists in Ein as (a & Ha%list_elem_of_In & Hbad).
        assert (He : depends s1 a (rec_id r)) by (apply Hd; auto).
        unfold unreliable in Hbad. apply orb_true_iff in Hbad as [Hbad|Hbad]; bool_simpl.
        -- exists a. split; [done|]. eapply tc_rtc_r; [by apply tc_once | done].
        -- destruct (Hs a Hbad) as (t & ? & ?). exists t. split; [done|].
           eapply tc_rtc_r; [|done]. eapply tc_r; eauto.
  - assert (Hno : ∀ a, a ∈ epistemic_targets (rec_refs r) →
      a ∉ retracted_records s ∧ a ∉ tainted_records s).
    { intros a Ha. assert (Hu : unreliable s a = false).
      { destruct (unreliable s a) eqn:E; [|done]. exfalso.
        assert (existsb (unreliable s) (epistemic_targets (rec_refs r)) = true); [|congruence].
        apply existsb_exists. exists a. split; [by apply list_elem_of_In | done]. }
      unfold unreliable in Hu. by bool_simpl. }
    unfold taint_closed. rewrite Hr, Ht. split; [|split].
    + intros t x Hin [?|[-> Ha]]%Hd; [eauto|]. by destruct (Hno _ Ha).
    + intros x y Hx [?|[-> Ha]]%Hd; [eauto|]. by destruct (Hno _ Ha).
    + intros x Hx. destruct (Hs x Hx) as (t & ? & ?). eauto.
Qed.
