(* ===== verification/Fold.v ===== *)
(** * The fold of accepted records

    What one step of [apply_record] does to each part of the state, the taint
    invariant of the whole fold, and the commutation with [applied_up_to]
    that lets replay and the full build be compared. *)

From S2P Require Export Taint.

(** ** Marking several records *)

Lemma fold_mark_frame ids s :
  ∃ T', fold_left (λ s id, mark_tainted id s) ids s = set_tainted_records T' s.
Proof.
  revert s. induction ids as [|id ids IH]; intros s; cbn [fold_left].
  - exists (tainted_records s). by destruct s.
  - destruct (mark_tainted_cascade id s) as (T & -> & _).
    destruct (IH (set_tainted_records T s)) as (T' & ->). by exists T'.
Qed.

(** Marking what a new retraction reaches restores the invariant. *)
Lemma fold_mark_taint t0 ids s :
  (∀ t x, t ∈ retracted_records s → depends s t x →
     x ∈ tainted_records s ∨ t = t0 ∧ x ∈ ids) →
  (∀ x y, x ∈ tainted_records s → depends s x y → y ∈ tainted_records s) →
  (∀ x, x ∈ tainted_records s → ∃ t, t ∈ retracted_records s ∧ tc (depends s) t x) →
  (∀ x, x ∈ ids → depends s t0 x) → t0 ∈ retracted_records s →
  taint_closed (fold_left (λ s id, mark_tainted id s) ids s).
Proof.
  revert s. induction ids as [|id ids IH]; intros s Hb Hc Hs Hids Ht0; cbn [fold_left].
  - split; [|by split]. intros t x Ht Hd.
    destruct (Hb t x Ht Hd) as [|[_ ?%elem_of_nil]]; done.
  - destruct (mark_tainted_spec id s) as (T & -> & H1 & H2 & H3 & H4).
    apply IH; simpl; change (depends (set_tainted_records T s)) with (depends s); auto.
    + intros t x Ht Hd. destruct (Hb t x Ht Hd) as [|[-> [->|]%elem_of_cons]]; auto.
    + intros x y Hx Hxy. destruct (decide (x ∈ tainted_records s)); [|by eapply H3].
      apply H1. by eapply Hc.
    + intros x [Hx|Hx]%H4; [by apply Hs|]. exists t0. split; [done|].
      eapply tc_rtc_r; [|done]. apply tc_once, Hids. by left.
    + intros x Hx. apply Hids. by right.
Qed.

(** ** Frames of the small updates *)

(** The fields a kind-specific step leaves alone. *)
Definition frame (s s' : State) : Prop :=
  accepted_records s' = accepted_records s ∧
  epistemic_dependents s' = epistemic_dependents s ∧
  applied_up_to s' = applied_up_to s.

(** ... and, except for retractions, the taint view. *)
Definition quiet (s s' : State) : Prop := frame s s' ∧ same_taint s s'.

Lemma quiet_refl s : quiet s s.
Proof. by repeat split. Qed.

Lemma quiet_trans s1 s2 s3 : quiet s1 s2 → quiet s2 s3 → quiet s1 s3.
Proof. unfold quiet, frame, same_taint. intuition congruence. Qed.

Lemma close_action_quiet a s : quiet s (close_action_for_request a s).
Proof. unfold close_action_for_request. repeat case_match; by repeat split. Qed.

Lemma insert_replaced_quiet refs s : quiet s (insert_replaced refs s).
Proof. unfold insert_replaced. case_match; by repeat split. Qed.

Lemma consume_approval_quiet h refs s : quiet s (consume_approval h refs s).
Proof. unfold consume_approval. repeat case_match; by repeat split. Qed.

Lemma deactivate_quiet t s :
  quiet s (release_requirement_key t (deactivate_class_approval t
    (deactivate_exact_approval t (deactivate_capability t s)))).
Proof.
  assert (H1 : ∀ s, quiet s (deactivate_capability t s))
    by (intros; unfold deactivate_capability; repeat case_match; by repeat split).
  assert (H2 : ∀ s, quiet s (deactivate_exact_approval t s))
    by (intros; unfold deactivate_exact_approval; repeat case_match; by repeat split).
  assert (H3 : ∀ s, quiet s (deactivate_class_approval t s))
    by (intros; unfold deactivate_class_approval; repeat case_match; by repeat split).
  assert (H4 : ∀ s, quiet s (release_requirement_key t s))
    by (intros; unfold release_requirement_key; repeat case_match; by repeat split).
  eapply quiet_trans; [apply H1|]. eapply quiet_trans; [apply H2|].
  eapply quiet_trans; [apply H3 | apply H4].
Qed.

#[export] Hint Resolve quiet_refl close_action_quiet insert_replaced_quiet
  consume_approval_quiet deactivate_quiet : bellbook.

(** Run a kind-specific step symbolically. *)
Ltac unfold_steps :=
  unfold apply_request, apply_action, apply_result, apply_refusal, apply_capability,
    apply_approval, apply_summary, apply_usage, apply_plan, apply_response, apply_requirement,
    apply_selection, apply_retraction, decode_data.

Ltac preserves_step :=
  match goal with
  | |- preserves _ (lift_opt _ _ ≫= _) => apply preserves_bind_lift; intros ? ?
  | |- preserves _ (_ ≫= _) => apply preserves_bind; [|intros ?]
  | |- preserves _ (modify _) => apply preserves_modify
  | |- preserves _ _ => solve [auto with bellbook]
  end.

Ltac preserves_steps := repeat first [ progress unfold_steps | preserves_step ].

Section fold.
Context `{Primitives, Serde}.

(** Every kind but [Retraction] keeps the taint view. *)
Lemma apply_kind_quiet r s0 :
  rec_kind r ≠ Kind.Retraction → preserves (quiet s0) (apply_kind r).
Proof.
  intros Hk. unfold apply_kind. destruct (rec_kind r); try done; preserves_steps;
    intros s Hs; (eapply quiet_trans; [exact Hs|]); clear;
    unfold insert_replaced, consume_approval, close_action_for_request;
    repeat case_match; by repeat split.
Qed.

(** A retraction marks exactly what it newly reaches. *)
Lemma apply_retraction_run r s data :
  decode (rec_data r) = Some data →
  ∃ s1, apply_retraction r s = (s1, inr tt) ∧ frame s s1 ∧
    retracted_records s1 = {[rx_target_id data]} ∪ retracted_records s ∧
    (taint_closed s → taint_closed s1).
Proof.
  intros Hd. unfold apply_retraction, decode_data, lift_opt, mbind, eff_bind. rewrite Hd.
  cbn [ok_or modify]. eexists. split; [reflexivity|].
  set (t := rx_target_id data). set (s2 := set_retracted_records _ s).
  destruct (fold_mark_frame (btree_members (dependents s2 t)) s2) as (T & HT).
  set (s3 := fold_left _ _ _) in *.
  destruct (deactivate_quiet t s3) as [[Ha [He Hu]] Htaint].
  assert (Hr : retracted_records s3 = {[t]} ∪ retracted_records s) by (by rewrite HT).
  split; [|split].
  - unfold frame. rewrite Ha, He, Hu, HT. by repeat split.
  - destruct Htaint as [-> _]. done.
  - intros (Hb & Hc & Hs). eapply taint_closed_same; [exact Htaint|].
    apply (fold_mark_taint t); subst s2; simpl.
    + intros u x [->%elem_of_singleton|Hu']%elem_of_union Hd'; [|left; by eapply Hb].
      right. split; [done|]. unfold btree_members. by rewrite elem_of_sort_by, elem_of_elements.
    + apply Hc.
    + intros x Hx. destruct (Hs x Hx) as (u & ? & ?). exists u. split; [by apply elem_of_union; right | done].
    + intros x. unfold btree_members. by rewrite elem_of_sort_by, elem_of_elements.
    + apply elem_of_union. left. by apply elem_of_singleton.
Qed.

Lemma apply_kind_taint r : preserves taint_closed (apply_kind r).
Proof.
  intros s Hs. destruct (decide (rec_kind r = Kind.Retraction)) as [Hk|Hk].
  - unfold apply_kind. rewrite Hk. destruct (decode (rec_data r) : option RetractionData) as [d|] eqn:Hd.
    + destruct (apply_retraction_run r s d Hd) as (s1 & -> & _ & _ & Ht). by apply Ht.
    + unfold apply_retraction, decode_data, lift_opt, mbind, eff_bind. by rewrite Hd.
  - eapply taint_closed_same; [|exact Hs].
    apply (apply_kind_quiet r s Hk s (quiet_refl s)).
Qed.

(** The whole fold keeps the taint invariant, on failure too. *)
Lemma apply_record_taint r v : preserves taint_closed (apply_record r v).
Proof.
  unfold apply_record, apply_accepted. case_match; [|by apply preserves_ret].
  apply preserves_bind; [apply preserves_modify; intros s; by apply taint_closed_same|].
  intros _. apply preserves_bind; [apply preserves_modify; intros s; apply index_refs_taint|].
  intros _. apply apply_kind_taint.
Qed.

Lemma apply_all_taint m records : preserves taint_closed (apply_all m records).
Proof.
  induction records as [|r records IH]; simpl; [by apply preserves_ret|].
  case_match; [done|]. apply preserves_bind; [|done].
  case_match; [apply apply_record_taint | by apply preserves_ret].
Qed.

Lemma empty_taint : taint_closed empty_state.
Proof. split_and!; simpl; set_solver. Qed.

(** ** What an accepted record adds *)

(** The retraction target an accepted record asserts, if it is one. *)
Definition retraction_target (r : record) : option RecordId :=
  if rec_kind r =? Kind.Retraction then
    rx_target_id <$> (decode (rec_data r) : option RetractionData)
  else None.

Lemma apply_accepted_ok r s s' :
  apply_accepted r s = (s', inr tt) →
  apply_kind r (index_refs r (set_accepted_records ({[rec_id r]} ∪ accepted_records s) s))
    = (s', inr tt).
Proof. by intros. Qed.

Lemma apply_accepted_spec r s s' :
  apply_accepted r s = (s', inr tt) →
  accepted_records s' = {[rec_id r]} ∪ accepted_records s ∧
  (∀ a b, depends s' a b ↔
     depends s a b ∨ b = rec_id r ∧ a ∈ epistemic_targets (rec_refs r)) ∧
  (∀ t, t ∈ retracted_records s' ↔
     t ∈ retracted_records s ∨ retraction_target r = Some t) ∧
  applied_up_to s' = applied_up_to s.
Proof.
  intros Hrun%apply_accepted_ok. set (s1 := set_accepted_records _ s) in *.
  destruct (index_refs_spec r s1) as (T & D & Hi & Hd).
  assert (HA : accepted_records (index_refs r s1) = {[rec_id r]} ∪ accepted_records s)
    by (by rewrite Hi).
  assert (HR : retracted_records (index_refs r s1) = retracted_records s) by (by rewrite Hi).
  assert (HU : applied_up_to (index_refs r s1) = applied_up_to s) by (by rewrite Hi).
  unfold retraction_target. case_bool_decide as Hk.
  - unfold apply_kind in Hrun. rewrite Hk in Hrun.
    destruct (decode (rec_data r) : option RetractionData) as [d|] eqn:Ed.
    + destruct (apply_retraction_run r (index_refs r s1) d Ed)
        as (s2 & Hr & (Ha & He & Hu) & Hret & _).
      rewrite Hr in Hrun. injection Hrun as <-. rewrite Ha, Hret, Hu, HA, HR, HU.
      pose proof (depends_same _ _ He) as ->.
      split_and!; [done | exact Hd | | done]. intros t. rewrite elem_of_union, elem_of_singleton.
      clear. naive_solver.
    + unfold apply_retraction, decode_data, lift_opt, mbind, eff_bind in Hrun.
      by rewrite Ed in Hrun.
  - pose proof (apply_kind_quiet r _ Hk (index_refs r s1) (quiet_refl _)) as Hq.
    rewrite Hrun in Hq. destruct Hq as [(Ha & He & Hu) (Hret & _ & _)]. simpl in *.
    rewrite Ha, Hret, Hu, HA, HR, HU. pose proof (depends_same _ _ He) as ->.
    split_and!; [done | exact Hd | | done]. intros t. clear. naive_solver.
Qed.
End fold.

(** ** The fold ignores [applied_up_to] *)

Definition commutes {A} (t : Time) (m : eff State unit A) : Prop :=
  ∀ s, m (set_applied_up_to t s) = (set_applied_up_to t (m s).1, (m s).2).

Section commutes.
Context (t : Time).

Lemma commutes_ret {A} (x : A) : commutes t (mret x).
Proof. done. Qed.
Lemma commutes_lift_opt {A} (o : option A) : commutes t (lift_opt tt o).
Proof. done. Qed.
Lemma commutes_bind {A B} (m : eff State unit A) (f : A → eff State unit B) :
  commutes t m → (∀ a, commutes t (f a)) → commutes t (m ≫= f).
Proof.
  intros Hm Hf s. unfold mbind, eff_bind. rewrite Hm.
  destruct (m s) as [s1 [e|a]]; simpl; [done | apply Hf].
Qed.
Lemma commutes_modify f :
  (∀ s, f (set_applied_up_to t s) = set_applied_up_to t (f s)) →
  commutes t (modify f : eff State unit unit).
Proof. intros Hf s. unfold modify. by rewrite Hf. Qed.

Lemma mark_tainted_commutes id s :
  mark_tainted id (set_applied_up_to t s) = set_applied_up_to t (mark_tainted id s).
Proof.
  unfold mark_tainted.
  change (mark_fuel (set_applied_up_to t s)) with (mark_fuel s).
  rewrite !mark_tainted_loop_cascade.
  change (epistemic_dependents (set_applied_up_to t s)) with (epistemic_dependents s).
  change (tainted_records (set_applied_up_to t s)) with (tainted_records s).
  destruct (cascade _ _ _ _); reflexivity.
Qed.

Lemma fold_mark_commutes ids s :
  fold_left (λ s id, mark_tainted id s) ids (set_applied_up_to t s) =
  set_applied_up_to t (fold_left (λ s id, mark_tainted id s) ids s).
Proof.
  revert s. induction ids as [|id ids IH]; intros s; cbn [fold_left]; [done|].
  by rewrite mark_tainted_commutes, IH.
Qed.

Lemma index_refs_commutes r s :
  index_refs r (set_applied_up_to t s) = set_applied_up_to t (index_refs r s).
Proof.
  unfold index_refs.
  assert (Hf : ∀ refs s b, fold_left (index_ref (rec_id r)) refs (set_applied_up_to t s, b) =
    let p := fold_left (index_ref (rec_id r)) refs (s, b) in (set_applied_up_to t p.1, p.2)).
  { induction refs as [|x refs IH]; intros s1 b; cbn [fold_left]; [done|].
    assert (Hx : index_ref (rec_id r) (set_applied_up_to t s1, b) x =
      let p := index_ref (rec_id r) (s1, b) x in (set_applied_up_to t p.1, p.2))
      by (unfold index_ref; destruct (is_epistemic x); reflexivity).
    rewrite Hx. destruct (index_ref (rec_id r) (s1, b) x) as [s2 b2]. apply IH. }
  rewrite Hf. destruct (fold_left _ _ _) as [s1 []]; simpl; [apply mark_tainted_commutes | done].
Qed.

Context `{Primitives, Serde}.

Ltac commutes_step :=
  match goal with
  | |- commutes _ (_ ≫= _) => apply commutes_bind; [|intros ?]
  | |- commutes _ (modify _) => apply commutes_modify
  | |- commutes _ (lift_opt _ _) => apply commutes_lift_opt
  | |- commutes _ (mret _) => apply commutes_ret
  end.

Lemma apply_retraction_commutes r : commutes t (apply_retraction r).
Proof.
  unfold apply_retraction, decode_data. repeat commutes_step. intros s. cbn beta zeta.
  set (d := rx_target_id a).
  change (dependents (set_retracted_records _ (set_applied_up_to t s)) d)
    with (dependents (set_retracted_records ({[d]} ∪ retracted_records s) s) d).
  change (set_retracted_records _ (set_applied_up_to t s))
    with (set_applied_up_to t (set_retracted_records ({[d]} ∪ retracted_records s) s)).
  rewrite fold_mark_commutes. generalize (fold_left (λ s id, mark_tainted id s)
    (btree_members (dependents (set_retracted_records ({[d]} ∪ retracted_records s) s) d))
    (set_retracted_records ({[d]} ∪ retracted_records s) s)). clear s. intros s.
  assert (H1 : ∀ s, deactivate_capability d (set_applied_up_to t s) =
      set_applied_up_to t (deactivate_capability d s))
    by (intros; unfold deactivate_capability; simpl; repeat case_match; done).
  assert (H2 : ∀ s, deactivate_exact_approval d (set_applied_up_to t s) =
      set_applied_up_to t (deactivate_exact_approval d s))
    by (intros; unfold deactivate_exact_approval; simpl; repeat case_match; done).
  assert (H3 : ∀ s, deactivate_class_approval d (set_applied_up_to t s) =
      set_applied_up_to t (deactivate_class_approval d s))
    by (intros; unfold deactivate_class_approval; simpl; repeat case_match; done).
  assert (H4 : ∀ s, release_requirement_key d (set_applied_up_to t s) =
      set_applied_up_to t (release_requirement_key d s))
    by (intros; unfold release_requirement_key; simpl; repeat case_match; done).
  by rewrite H1, H2, H3, H4.
Qed.

Lemma apply_kind_commutes r : commutes t (apply_kind r).
Proof.
  unfold apply_kind. destruct (rec_kind r); try (apply apply_retraction_commutes);
    repeat first [ progress unfold_steps | commutes_step ];
    intros s; clear; unfold insert_replaced, consume_approval, close_action_for_request; simpl;
    repeat case_match; try done; by simplify_eq/=.
Qed.

Lemma apply_record_commutes r v : commutes t (apply_record r v).
Proof.
  unfold apply_record, apply_accepted. case_match; [|apply commutes_ret].
  apply commutes_bind; [by apply commutes_modify|]. intros _.
  apply commutes_bind; [apply commutes_modify; apply index_refs_commutes|]. intros _.
  apply apply_kind_commutes.
Qed.
End commutes.
