(* ===== verification/Log.v ===== *)
(** * Logs: the prior index, and replay as an inductive relation

    The index of verdict.rs is a lookup in the log prefix; the replay loop of
    replay.rs is the relation [Replays], which reads as the specification of a
    valid log. *)

From S2P Require Export Fold.
From Stdlib Require Import FunctionalExtensionality.

(** ** The prior index is the log prefix *)

(** The first record with an id: a front-to-back scan. *)
Definition find_first (log : list record) (id : RecordId) : option record :=
  snd <$> list_find (λ r, rec_id r = id) log.

(** A verdict record of the log judges [subject]. *)
Definition judged (log : list record) (subject : RecordId) : Prop :=
  ∃ v x, v ∈ log ∧ rec_kind v = Kind.Verdict ∧ x ∈ rec_refs v ∧
    ref_type x = RefType.Cause ∧ ref_target x = subject.

Lemma index_insert_all_app pos l k index :
  index_insert_all pos (l ++ k) index =
  index_insert_all (pos + length l) k (index_insert_all pos l index).
Proof.
  revert pos index. induction l as [|r l IH]; intros pos index; simpl.
  - by rewrite Nat.add_0_r.
  - rewrite IH. f_equal. lia.
Qed.

Lemma index_of_snoc log r : index_of (log ++ [r]) = index_insert (length log) r (index_of log).
Proof. unfold index_of. by rewrite index_insert_all_app. Qed.

Lemma by_id_insert_all pos l index id :
  by_id (index_insert_all pos l index) !! id =
  match by_id index !! id with
  | Some p => Some p
  | None => (λ e : nat * record, pos + e.1) <$> list_find (λ r, rec_id r = id) l
  end.
Proof.
  revert pos index. induction l as [|r l IH]; intros pos index; simpl; [by case_match|].
  rewrite IH. unfold index_insert. simpl.
  destruct (by_id index !! id) as [p|] eqn:E1.
  - destruct (by_id index !! rec_id r) eqn:E2; [by rewrite E1|].
    rewrite lookup_insert_ne by congruence. by rewrite E1.
  - destruct (decide (rec_id r = id)) as [<-|Hne].
    + rewrite E1, lookup_insert_eq. simpl. by rewrite Nat.add_0_r.
    + assert (Hl : match by_id index !! rec_id r with
        | Some _ => by_id index | None => <[rec_id r:=pos]> (by_id index) end !! id = None).
      { destruct (by_id index !! rec_id r); [done|]. by rewrite lookup_insert_ne. }
      rewrite Hl. destruct (list_find _ l) as [[i x]|]; simpl; [f_equal; lia | done].
Qed.

Lemma prior_find_spec log rest id :
  prior_find (view (index_of log) (log ++ rest)) id = find_first log id.
Proof.
  unfold prior_find, find_first, index_of. cbn [prior_index prior_records view].
  rewrite by_id_insert_all. cbn [by_id empty_index]. rewrite lookup_empty.
  destruct (list_find _ log) as [[i r]|] eqn:E; simpl; [|done].
  apply list_find_Some in E as (Hi & _ & _).
  rewrite lookup_app_l; [done|]. by eapply lookup_lt_Some.
Qed.

Lemma find_first_Some log id r : find_first log id = Some r → r ∈ log ∧ rec_id r = id.
Proof.
  unfold find_first. destruct (list_find _ log) as [[i x]|] eqn:E; [|done].
  intros [= <-]. apply list_find_Some in E as (Hi & Hx & _).
  split; [by eapply list_elem_of_lookup_2 | done].
Qed.

Lemma find_first_None log id : find_first log id = None ↔ ∀ r, r ∈ log → rec_id r ≠ id.
Proof.
  unfold find_first. destruct (list_find _ log) as [[i x]|] eqn:E; simpl.
  - apply list_find_Some in E as (Hi & Hx & _). split; [done|]. intros Hn.
    destruct (Hn x); [by eapply list_elem_of_lookup_2 | done].
  - apply list_find_None in E. rewrite Forall_forall in E. done.
Qed.

Lemma find_first_app log k id :
  find_first (log ++ k) id =
  match find_first log id with Some r => Some r | None => find_first k id end.
Proof.
  unfold find_first. induction log as [|r log IH]; simpl; [done|].
  case_decide; [done|]. destruct (list_find _ (log ++ k)) as [[]|],
    (list_find _ log) as [[]|], (list_find _ k) as [[]|]; simpl in *; congruence.
Qed.

Lemma verdicted_insert_all pos l index id :
  id ∈ verdicted_subjects (index_insert_all pos l index) ↔
  id ∈ verdicted_subjects index ∨ judged l id.
Proof.
  assert (Hfold : ∀ refs S, id ∈ fold_left (λ s ref,
      if is_type RefType.Cause ref then {[ref_target ref]} ∪ s else s) refs S ↔
      id ∈ (S : gset RecordId) ∨
      ∃ x, x ∈ refs ∧ ref_type x = RefType.Cause ∧ ref_target x = id).
  { induction refs as [|x refs IH]; intros S; cbn [fold_left].
    - split; [by left|]. intros [|(x & ?%elem_of_nil & _)]; done.
    - rewrite IH. unfold is_type. case_bool_decide as Hx.
      + rewrite elem_of_union, elem_of_singleton. setoid_rewrite elem_of_cons. naive_solver.
      + setoid_rewrite elem_of_cons. naive_solver. }
  unfold judged. revert pos index. induction l as [|r l IH]; intros pos index; simpl.
  - split; [by left|]. intros [|(v & x & ?%elem_of_nil & _)]; done.
  - rewrite IH. unfold index_insert. cbn [verdicted_subjects]. setoid_rewrite elem_of_cons.
    case_bool_decide as Hk; [rewrite Hfold|]; naive_solver.
Qed.

Lemma has_verdict_spec log records id :
  has_verdict_for (view (index_of log) records) id = true ↔ judged log id.
Proof.
  unfold has_verdict_for, index_of. rewrite bool_decide_eq_true. cbn [prior_index view].
  rewrite verdicted_insert_all. cbn [verdicted_subjects empty_index].
  split; [|by right]. by intros [?%elem_of_empty|].
Qed.

Lemma judged_app l k id : judged (l ++ k) id ↔ judged l id ∨ judged k id.
Proof. unfold judged. setoid_rewrite elem_of_app. naive_solver. Qed.

(** ** The checks read the prior view only through its two queries *)

Definition prior_equiv (p q : Prior) : Prop :=
  (∀ id, prior_find p id = prior_find q id) ∧
  (∀ id, has_verdict_for p id = has_verdict_for q id).

#[export] Instance prior_equiv_equivalence : Equivalence prior_equiv.
Proof.
  split.
  - by intros p.
  - intros p q [H1 H2]. by split.
  - intros p q r [H1 H2] [H3 H4]. split; intros id; [by rewrite H1 | by rewrite H2].
Qed.

Lemma view_prefix_equiv log rest :
  prior_equiv (view (index_of log) (log ++ rest)) (view (index_of log) log).
Proof.
  split; intros id; [|done]. rewrite prior_find_spec.
  rewrite <- (app_nil_r log) at 3. by rewrite prior_find_spec.
Qed.

Section proper.
Context `{Primitives, Serde, HashOrder}.

#[export] Instance check_verdict_record_proper :
  Proper (eq ==> prior_equiv ==> eq ==> eq) check_verdict_record.
Proof.
  intros r ? <- p q [Hf%functional_extensionality Hv%functional_extensionality] rules ? <-.
  unfold check_verdict_record. by rewrite Hf, Hv.
Qed.

#[export] Instance check_record_proper :
  Proper (eq ==> prior_equiv ==> eq ==> eq ==> eq) check_record.
Proof.
  intros r ? <- p q Hpq rules ? <- s ? <-. unfold check_record. rewrite Hpq.
  destruct Hpq as [Hf%functional_extensionality Hv%functional_extensionality].
  unfold check_ref, check_replacement, check_evidence, ref_evidences, check_kind_specific,
    check_request, check_action, check_approval_for_action, exact_approval, class_approval,
    check_result, check_refusal, check_usage, check_response, check_plan, check_task_result,
    check_retraction, check_candidate, check_evaluation, check_evaluation_v2, check_selection,
    selection_winners, used_evaluation, resolve_selection_approval, resolve_candidate,
    check_requirement.
  by rewrite Hf.
Qed.
End proper.

(** ** Valid logs *)

Definition prior_of (log : list record) : Prior := view (index_of log) log.

Section replays.
Context `{Primitives, Serde, HashOrder} (rules : VerifierRules).

(** [v] is a well-formed verdict record on [r] with content [d]. *)
Definition verdict_on (r v : record) (d : VerdictData) : Prop :=
  rec_kind v = Kind.Verdict ∧
  compute_id v = Some (rec_id v) ∧
  rec_schema v = schema_id SCHEMA_VERDICT ∧
  author_type (rec_author v) = AuthorType.Verifier ∧
  author_signature (rec_author v) = None ∧
  rec_evidence v = Evidence.Deterministic ∧
  rec_refs v = [mk_ref RefType.Cause (rec_id r)] ∧
  rec_space v = rules_space rules ∧ rec_space r = rec_space v ∧ rec_thread r = rec_thread v ∧
  decodes_canonically VerdictData (rec_data v) = true ∧
  decode (rec_data v) = Some d.

(** The verdict the rules demand for [r] after [log], in state [s].  The
    record itself is already resolvable when it is checked. *)
Definition due_verdict (log : list record) (s : State) (r : record) : VerdictData :=
  verdict_of (check_record r (prior_of (log ++ [r])) rules s).

Inductive Replays : list record → State → Prop :=
  | replays_nil : Replays [] empty_state
  | replays_pair log s r v s' :
      Replays log s →
      rec_kind r ≠ Kind.Verdict →
      find_first log (rec_id r) = None →
      compute_id r = Some (rec_id r) →
      rec_time r = (N.of_nat (length log) + 1)%N →
      rec_time v = (N.of_nat (length log) + 2)%N →
      (rec_time v <= u64_max)%N →
      verdict_on r v (due_verdict log s r) →
      apply_record r (due_verdict log s r) s = (s', inr tt) →
      Replays (log ++ [r; v]) (set_applied_up_to (rec_time v) s').

(** ** Verdict envelopes *)

Lemma check_verdict_record_None v log rest :
  check_verdict_record v (view (index_of log) (log ++ rest)) rules = None ↔
  ∃ r, rec_kind r ≠ Kind.Verdict ∧
    compute_id v = Some (rec_id v) ∧ rec_schema v = schema_id SCHEMA_VERDICT ∧
    author_type (rec_author v) = AuthorType.Verifier ∧
    author_signature (rec_author v) = None ∧
    rec_space v = rules_space rules ∧ rec_evidence v = Evidence.Deterministic ∧
    decodes_canonically VerdictData (rec_data v) = true ∧
    rec_refs v = [mk_ref RefType.Cause (rec_id r)] ∧
    find_first log (rec_id r) = Some r ∧
    rec_space r = rec_space v ∧ rec_thread r = rec_thread v ∧
    ¬ judged log (rec_id r).
Proof.
  setoid_rewrite <- (has_verdict_spec log (log ++ rest)). split.
  - intros Hc. unfold check_verdict_record in Hc.
    repeat (case_match; try done). bool_simpl. rewrite prior_find_spec in *.
    match goal with Hf : find_first log _ = Some ?r |- _ =>
      destruct (find_first_Some _ _ _ Hf) as [_ Hr]; exists r end.
    match goal with Hr : rec_id _ = ref_target ?c |- _ => destruct c as [ty id] end.
    unfold is_type in *. simpl in *. bool_simpl. subst.
    split_and!; try done.
    + by destruct (author_signature _).
    + congruence.
  - intros (r & Hk & W1 & W2 & W3 & W4 & W5 & W6 & W7 & W8 & W9 & W10 & W11 & W12).
    unfold check_verdict_record. rewrite W1, W2, W3, W4, W5, W6, W7, W8.
    rewrite !bool_decide_true by done. simpl. rewrite prior_find_spec, W9.
    rewrite (bool_decide_false (rec_kind r = _)), W10, W11, W5, !bool_decide_true by done. simpl.
    destruct (has_verdict_for _ _); [by destruct W12 | done].
Qed.

(** ** Structure of a valid log *)

Lemma judged_pair r v id :
  rec_kind r ≠ Kind.Verdict → rec_kind v = Kind.Verdict →
  rec_refs v = [mk_ref RefType.Cause (rec_id r)] → judged [r; v] id ↔ id = rec_id r.
Proof.
  intros Hr Hv Hrefs. unfold judged. split.
  - intros (w & x & Hw & Hk & Hx & _ & <-).
    rewrite !elem_of_cons, elem_of_nil in Hw. destruct Hw as [->|[->|[]]]; [done|].
    rewrite Hrefs, list_elem_of_singleton in Hx. by subst.
  - intros ->. exists v, (mk_ref RefType.Cause (rec_id r)). rewrite Hrefs.
    split_and!; [right; left | done | left | done | done]; done.
Qed.

Lemma replays_judged log s id :
  Replays log s → (judged log id ↔ ∃ r, r ∈ log ∧ rec_kind r ≠ Kind.Verdict ∧ rec_id r = id).
Proof.
  induction 1 as [|log s r v s' Hlog IH Hk Hf Hid Ht Htv Hb Hv Hap].
  - split; [intros (v & x & ?%elem_of_nil & _) | intros (r & ?%elem_of_nil & _)]; done.
  - destruct Hv as (Hkv & _ & _ & _ & _ & _ & Hrefs & _).
    rewrite judged_app, IH, judged_pair by done. split.
    + intros [(x & ? & ?)| ->]; [exists x | exists r]; rewrite elem_of_app;
        [tauto | split; [right; left; done | done]].
    + intros (x & Hx & Hkx & <-). rewrite elem_of_app, !elem_of_cons, elem_of_nil in Hx.
      destruct Hx as [?|[->|[->|[]]]]; [left; eauto | by right | done].
Qed.

(** In a valid log, no verdict can stand where a subject belongs. *)
Lemma replays_no_bare_verdict log s v rest :
  Replays log s → check_verdict_record v (view (index_of log) (log ++ rest)) rules ≠ None.
Proof.
  intros Hlog (r & Hk & _ & _ & _ & _ & _ & _ & _ & _ & Hf & _ & _ & Hj)%check_verdict_record_None.
  destruct Hj. apply (replays_judged log s); [done|]. apply find_first_Some in Hf as [? _]. eauto.
Qed.

(** The verdict checks of a pair are exactly [verdict_on], plus freshness. *)
Lemma replays_pair_checks log s r v rest d :
  Replays log s → rec_kind r ≠ Kind.Verdict →
  rec_kind v = Kind.Verdict ∧
    check_verdict_record v (view (index_of (log ++ [r])) ((log ++ [r]) ++ rest)) rules = None ∧
    (∃ c k, rec_refs v = c :: k ∧ ref_target c = rec_id r) ∧
    decode (rec_data v) = Some d
  ↔ find_first log (rec_id r) = None ∧ verdict_on r v d.
Proof.
  intros Hlog Hk. rewrite check_verdict_record_None. split.
  - intros (Hkv & (r' & Hk' & W1 & W2 & W3 & W4 & W5 & W6 & W7 & W8 & Hf & W10 & W11 & Hj)
      & (c & k & Hc & Ht) & Hd).
    assert (Hrr : rec_id r' = rec_id r) by (rewrite W8 in Hc; injection Hc as <- _; done).
    rewrite Hrr in Hf, Hj, W8. rewrite judged_app in Hj.
    assert (Hn : find_first log (rec_id r) = None).
    { destruct (find_first log (rec_id r)) as [x|] eqn:Ex; [|done]. destruct Hj. left.
      rewrite find_first_app, Ex in Hf. injection Hf as ->.
      apply (replays_judged log s); [done|]. apply find_first_Some in Ex as [? _]. eauto. }
    split; [done|]. rewrite find_first_app, Hn in Hf. unfold find_first in Hf. simpl in Hf.
    rewrite decide_True in Hf by done. injection Hf as ->.
    unfold verdict_on. split_and!; done.
  - intros (Hn & Hkv & W1 & W2 & W3 & W4 & W5 & W6 & W7 & W8 & W9 & W10 & W11).
    split_and!; [done | | rewrite W6; eexists _, _; done | done].
    exists r. split_and!; try done.
    + rewrite find_first_app, Hn. unfold find_first. simpl. by rewrite decide_True.
    + rewrite judged_app. intros [Hj|(w & x & ->%list_elem_of_singleton & ? & _)]; [|done].
      apply (replays_judged log s) in Hj as (x & Hx & _ & Hxr); [|done].
      rewrite find_first_None in Hn. by destruct (Hn x).
Qed.
End replays.
