(* ===== verification/ReplayFacts.v ===== *)
(** * The replay loop implements [Replays]

    Soundness and completeness of replay.rs against the relation of Log.v,
    and agreement of the replayed state with the unchecked full build of
    build.rs. *)

From S2P Require Export Log.

(** ** Times *)

(** Record [i] of a log that starts after [n] records has time [n + i + 1]. *)
Definition times_from (n : nat) (l : list record) : Prop :=
  ∀ i r, l !! i = Some r → rec_time r = (N.of_nat (n + i) + 1)%N ∧ (rec_time r <= u64_max)%N.

Lemma times_consecutive_cons r l :
  times_consecutive (r :: l) = true ↔
  ∀ i x, l !! i = Some x →
    rec_time x = (rec_time r + N.of_nat (S i))%N ∧ (rec_time x <= u64_max)%N.
Proof.
  revert r. induction l as [|x l IH]; intros r; [split; [by intros _ [] | done]|].
  change (times_consecutive (r :: x :: l)) with
    (bool_decide (checked_add_u64 (rec_time r) 1 = Some (rec_time x)) && times_consecutive (x :: l)).
  rewrite andb_true_iff, bool_decide_eq_true, checked_add_u64_Some, IH. split.
  - intros [[Hx Hb] Hl] [|i] y; simpl; [intros [= <-]; lia|]. intros Hy.
    destruct (Hl i y Hy). lia.
  - intros Hl. destruct (Hl 0 x eq_refl) as [Hx Hb]. split; [lia|]. intros i y Hy.
    destruct (Hl (S i) y Hy). lia.
Qed.

Lemma times_ok l : times_consecutive l && genesis_ok l = true ↔ times_from 0 l.
Proof.
  destruct l as [|r l]; [split; [by intros _ [] | done]|].
  rewrite andb_true_iff, times_consecutive_cons. unfold genesis_ok. rewrite N.eqb_eq. split.
  - intros [Hl Hr] [|i] x; simpl; [intros [= <-]; unfold u64_max; lia|]. intros Hx.
    destruct (Hl i x Hx). lia.
  - intros Hl. destruct (Hl 0 r eq_refl). split; [|lia]. intros i x Hx.
    destruct (Hl (S i) x Hx). lia.
Qed.

Lemma times_from_app n l k : times_from n (l ++ k) ↔ times_from n l ∧ times_from (n + length l) k.
Proof.
  unfold times_from. split.
  - intros Hlk. split; intros i r Hi.
    + apply Hlk. by apply lookup_app_l_Some.
    + rewrite <- Nat.add_assoc. apply Hlk. rewrite lookup_app_r by lia. by rewrite Nat.add_comm, Nat.add_sub.
  - intros [Hl Hk] i r [Hi|[Hle Hi]]%lookup_app_Some; [by apply Hl|].
    destruct (Hk _ _ Hi). split; [|done]. lia.
Qed.

Section replay_facts.
Context `{Primitives, Serde, HashOrder} (rules : VerifierRules).

Lemma ids_ok_app l k : ids_ok (l ++ k) = ids_ok l && ids_ok k.
Proof. apply forallb_app. Qed.

Lemma ids_ok_spec l : ids_ok l = true ↔ ∀ r, r ∈ l → compute_id r = Some (rec_id r).
Proof.
  unfold ids_ok. rewrite forallb_forall. setoid_rewrite list_elem_of_In.
  by setoid_rewrite bool_decide_eq_true.
Qed.

Lemma replays_ids log s : Replays rules log s → ids_ok log = true.
Proof.
  induction 1 as [|log s r v s' Hlog IH Hk Hf Hid Ht Htv Hb Hv Hap]; [done|].
  rewrite ids_ok_app, IH. destruct Hv as (_ & Hidv & _). simpl.
  by rewrite Hid, Hidv, !bool_decide_true.
Qed.

Lemma replays_times log s : Replays rules log s → times_from 0 log.
Proof.
  induction 1 as [|log s r v s' Hlog IH Hk Hf Hid Ht Htv Hb Hv Hap]; [by intros []|].
  apply times_from_app. split; [done|]. intros [|[|[]]] x; simpl; intros [= <-]; lia.
Qed.

Lemma replays_even log s : Replays rules log s → Nat.Even (length log).
Proof.
  induction 1 as [|log s r v s' Hlog [k Hk]]; [by exists 0|].
  exists (S k). rewrite length_app. simpl. lia.
Qed.

(** ** One iteration *)

Lemma replay_pair_ok log s r v rest s'' :
  Replays rules log s → rec_kind r ≠ Kind.Verdict → rec_kind v = Kind.Verdict →
  replay_pair ((log ++ [r]) ++ rest) rules (index_of (log ++ [r])) s r v = inr s'' ↔
  find_first log (rec_id r) = None ∧ verdict_on rules r v (due_verdict rules log s r) ∧
  ∃ s', apply_record r (due_verdict rules log s r) s = (s', inr tt) ∧
    s'' = set_applied_up_to (rec_time v) s'.
Proof.
  intros Hlog Hk Hkv.
  pose proof (replays_pair_checks rules log s r v rest (due_verdict rules log s r) Hlog Hk) as Hp.
  unfold replay_pair.
  assert (Hdue : verdict_of (check_record r
      (view (index_of (log ++ [r])) ((log ++ [r]) ++ rest)) rules s) = due_verdict rules log s r).
  { unfold due_verdict, prior_of. by rewrite view_prefix_equiv. }
  rewrite Hdue. split.
  - destruct (check_verdict_record _ _ _) eqn:Ec; [done|].
    destruct (rec_refs v) as [|c k] eqn:Erefs; [done|].
    destruct (negb _) eqn:Et; [done|]. bool_simpl.
    destruct (decode (rec_data v) : option VerdictData) as [d|] eqn:Ed; [|done].
    destruct (_ || _) eqn:Eq; [done|]. bool_simpl.
    assert (d = due_verdict rules log s r) as ->.
    { destruct d, (due_verdict rules log s r). simpl in *. congruence. }
    destruct (apply_record _ _ s) as [s' [|[]]] eqn:Ea; [done|]. intros [= <-].
    destruct Hp as [Hp _]. destruct Hp as [Hn Hv]; [by eauto 10|]. split_and!; [done..|]. by eexists.
  - intros (Hn & Hv & s' & Ha & ->). destruct Hp as [_ Hp].
    destruct Hp as (_ & Hc & (c & k & Hrefs & Ht) & Hd); [done|].
    rewrite Hc, Hrefs, Ht, Hd. rewrite !bool_decide_true by done. simpl. by rewrite Ha.
Qed.

Lemma replay_loop_pair log s r v rest checked :
  rec_kind r ≠ Kind.Verdict → rec_kind v = Kind.Verdict →
  replay_loop (log ++ r :: v :: rest) rules (length log) (r :: v :: rest) (index_of log) s checked =
  match replay_pair ((log ++ [r]) ++ v :: rest) rules (index_of (log ++ [r])) s r v with
  | inl reason => Err (reason, checked)
  | inr s' => replay_loop ((log ++ [r; v]) ++ rest) rules (length (log ++ [r; v])) rest
                (index_of (log ++ [r; v])) s' (checked + 2)
  end.
Proof.
  intros Hk Hkv. cbn [replay_loop]. rewrite bool_decide_false, bool_decide_true by done.
  cbn [negb]. rewrite <- index_of_snoc, <- !app_assoc. simpl.
  assert (Hi : index_insert (S (length log)) v (index_of (log ++ [r])) = index_of (log ++ [r; v])).
  { change [r; v] with ([r] ++ [v]). rewrite app_assoc, (index_of_snoc (log ++ [r]) v).
    f_equal. rewrite length_app. simpl. lia. }
  rewrite Hi, length_app. simpl. by rewrite Nat.add_comm.
Qed.

(** ** Soundness and completeness *)

Lemma replay_loop_sound n log s rest checked s' c' :
  length rest ≤ n → Replays rules log s → ids_ok rest = true → times_from (length log) rest →
  replay_loop (log ++ rest) rules (length log) rest (index_of log) s checked = inr (s', c') →
  Replays rules (log ++ rest) s' ∧ c' = (checked + N.of_nat (length rest))%N.
Proof.
  revert log s rest checked. induction n as [|n IH]; intros log s rest checked Hn Hlog Hids Ht Hrun.
  - destruct rest; [|simpl in Hn; lia]. simpl in Hrun. injection Hrun as <- <-.
    rewrite app_nil_r. split; [done|]. simpl. lia.
  - destruct rest as [|r rest].
    { simpl in Hrun. injection Hrun as <- <-. rewrite app_nil_r. split; [done|]. simpl. lia. }
    destruct (decide (rec_kind r = Kind.Verdict)) as [Hk|Hk].
    { cbn [replay_loop] in Hrun. rewrite bool_decide_true in Hrun by done.
      unfold replay_verdict in Hrun.
      destruct (check_verdict_record _ _ _) eqn:Ec; [done|].
      by apply (replays_no_bare_verdict rules log s r) in Ec. }
    destruct rest as [|v rest].
    { cbn [replay_loop] in Hrun. by rewrite bool_decide_false in Hrun. }
    destruct (decide (rec_kind v = Kind.Verdict)) as [Hkv|Hkv].
    2: { cbn [replay_loop] in Hrun. by rewrite !bool_decide_false in Hrun. }
    rewrite replay_loop_pair in Hrun by done.
    destruct (replay_pair _ _ _ _ _ _) as [|s1] eqn:Ep; [done|].
    apply replay_pair_ok in Ep as (Hf & Hv & s2 & Ha & ->); [|done..].
    change (r :: v :: rest) with ([r; v] ++ rest) in *.
    rewrite ids_ok_app, andb_true_iff in Hids. destruct Hids as [Hrv Hrest].
    apply times_from_app in Ht as [Ht2 Ht]. rewrite app_assoc.
    destruct (Ht2 0 r eq_refl) as [Hr0 _]. destruct (Ht2 1 v eq_refl) as [Hv0 Hv1].
    apply IH in Hrun as [Hrep ->].
    + split; [done|]. rewrite length_app. simpl. lia.
    + simpl in Hn. lia.
    + apply replays_pair with s; try done; [|lia|lia].
      rewrite ids_ok_spec in Hrv. apply Hrv. by left.
    + done.
    + by rewrite length_app.
Qed.

Lemma replay_loop_complete log s rest :
  Replays rules log s →
  replay_loop (log ++ rest) rules 0 (log ++ rest) empty_index empty_state 0 =
  replay_loop (log ++ rest) rules (length log) rest (index_of log) s (N.of_nat (length log)).
Proof.
  intros Hlog. revert rest.
  induction Hlog as [|log s r v s' Hlog IH Hk Hf Hid Ht Htv Hb Hv Hap]; intros rest; [done|].
  rewrite <- app_assoc. simpl. rewrite IH.
  pose proof Hv as (Hkv & _). rewrite replay_loop_pair by done.
  assert (Hp : replay_pair ((log ++ [r]) ++ v :: rest) rules (index_of (log ++ [r])) s r v
    = inr (set_applied_up_to (rec_time v) s')) by (apply replay_pair_ok; eauto).
  rewrite Hp, <- app_assoc, length_app. simpl. f_equal. lia.
Qed.

(** What [verify_log] reports about a valid log. *)
Definition accept_verdict (log : list record) (s : State) : LogVerdict :=
  mk_LogVerdict VerdictResult.Accept None (N.of_nat (length log)) (last_time log)
    (retracted_records s) (tainted_records s) (derive_standing log s).

Lemma verify_log_complete log s :
  Replays rules log s → verify_log log rules None = accept_verdict log s.
Proof.
  intros Hlog. unfold verify_log.
  pose proof (replays_times log s Hlog) as Ht%times_ok. apply andb_true_iff in Ht as [Ht Hg].
  rewrite Ht, Hg, (replays_ids log s Hlog), drop_0. cbn [negb].
  pose proof (replay_loop_complete log s [] Hlog) as Hl. rewrite !app_nil_r in Hl.
  rewrite Hl. done.
Qed.

Lemma verify_log_sound log :
  accepted (verify_log log rules None) = true → ∃ s, Replays rules log s.
Proof.
  unfold verify_log. destruct (times_consecutive log) eqn:Et; [|done].
  destruct (genesis_ok log) eqn:Eg; [|done]. destruct (ids_ok log) eqn:Ei; [|done].
  rewrite drop_0. cbn [negb].
  destruct (replay_loop _ _ _ _ _ _ _) as [[]|[s c]] eqn:El; [done|]. intros _.
  change log with ([] ++ log) in El at 1.
  apply (replay_loop_sound (length log)) in El as [Hrep _]; eauto.
  - constructor.
  - apply times_ok. by rewrite Et, Eg.
Qed.

(** The replayed state is determined by the log. *)
Lemma replays_functional log s s' : Replays rules log s → Replays rules log s' → s = s'.
Proof.
  intros W1 W2. pose proof (replay_loop_complete log s [] W1) as E1.
  pose proof (replay_loop_complete log s' [] W2) as E2.
  rewrite E1 in E2. simpl in E2. by injection E2.
Qed.
End replay_facts.

(** ** The full build of a valid log is its replayed state *)

Section build.
Context `{Primitives, Serde, HashOrder} (rules : VerifierRules).

Lemma verdict_map_from_app m l k :
  verdict_map_from m (l ++ k) = verdict_map_from m l ≫= λ m', verdict_map_from m' k.
Proof.
  revert m. induction l as [|r l IH]; intros m; simpl; [done|].
  case_match; [|done]. case_match; [|done].
  destruct (decode (rec_data r) : option VerdictData); simpl; [apply IH | done].
Qed.

Lemma apply_all_app m l k : ∀ s,
  apply_all m (l ++ k) s = (apply_all m l ≫= λ _, apply_all m k) s.
Proof.
  induction l as [|r l IH]; intros s; simpl; [done|]. case_match; [apply IH|].
  unfold mbind, eff_bind in *. destruct ((match m !! rec_id r with
    | Some verdict => apply_record r verdict | None => mret () end) s) as [s1 [|]]; [done|].
  apply IH.
Qed.

Lemma replays_last_time log s : Replays rules log s → applied_up_to s = last_time log.
Proof.
  induction 1 as [|log s r v s' Hlog IH Hk Hf Hid Ht Htv Hb Hv Hap]; [done|].
  unfold last_time. change [r; v] with ([r] ++ [v]). by rewrite app_assoc, last_snoc.
Qed.

Lemma replays_build log s :
  Replays rules log s →
  ∃ m, verdict_map_from ∅ log = Some m ∧
    (∀ m', (∀ r, r ∈ log → rec_kind r ≠ Kind.Verdict → m' !! rec_id r = m !! rec_id r) →
      apply_all m' log empty_state = (set_applied_up_to 0%N s, inr tt)).
Proof.
  induction 1 as [|log s r v s' Hlog (m & Hm & Hall) Hk Hf Hid Ht Htv Hb Hv Hap].
  { by exists ∅. }
  destruct Hv as (Hkv & _ & _ & _ & _ & _ & Hrefs & _ & _ & _ & _ & Hd).
  exists (<[rec_id r := due_verdict rules log s r]> m). split.
  - rewrite verdict_map_from_app, Hm. simpl. rewrite bool_decide_false, bool_decide_true by done.
    unfold find_ref. rewrite Hrefs. simpl. by rewrite Hd.
  - intros m' Hm'. rewrite apply_all_app. unfold mbind, eff_bind. rewrite Hall.
    + simpl. rewrite bool_decide_false, bool_decide_true by done.
      rewrite Hm', lookup_insert_eq by (done || (rewrite elem_of_app; right; left; done)).
      unfold mbind, eff_bind. rewrite apply_record_commutes, Hap. simpl. done.
    + intros x Hx Hkx. rewrite Hm', lookup_insert_ne; [done | | by rewrite elem_of_app; left | done].
      rewrite find_first_None in Hf. intros E. by destruct (Hf x Hx).
Qed.

Lemma build_replays log s : Replays rules log s → build_state_unchecked log = Some s.
Proof.
  intros Hlog. destruct (replays_build log s Hlog) as (m & Hm & Hall).
  pose proof (replays_last_time log s Hlog) as Ht.
  unfold build_state_unchecked. case_bool_decide as El.
  - subst log. by rewrite <- (replays_functional rules [] empty_state s (replays_nil rules) Hlog).
  - rewrite Hm. simpl. rewrite Hall by done. rewrite <- Ht. by destruct s.
Qed.

(** ** What the state remembers of the log *)

(** [r] is a subject of the log whose verdict accepts it. *)
Definition accepted_in (log : list record) (r : record) : Prop :=
  r ∈ log ∧ rec_kind r ≠ Kind.Verdict ∧
  ∃ v, v ∈ log ∧ rec_kind v = Kind.Verdict ∧ find_ref RefType.Cause (rec_refs v) = Some (rec_id r) ∧
    decode (rec_data v) = Some (mk_VerdictData VerdictResult.Accept None).

Lemma accepted_in_nil r : ¬ accepted_in [] r.
Proof. by intros [?%elem_of_nil _]. Qed.

Lemma find_ref_cause_judged log v id :
  v ∈ log → rec_kind v = Kind.Verdict → find_ref RefType.Cause (rec_refs v) = Some id →
  judged log id.
Proof.
  intros Hv Hk Hf. unfold find_ref in Hf.
  destruct (list_find _ _) as [[i x]|] eqn:E; [|done]. injection Hf as <-.
  apply list_find_Some in E as (Hi & Ht & _). exists v, x.
  split_and!; try done. by eapply list_elem_of_lookup_2.
Qed.

Lemma accepted_in_snoc log s r v d x :
  Replays rules log s → rec_kind r ≠ Kind.Verdict → find_first log (rec_id r) = None →
  verdict_on rules r v d →
  accepted_in (log ++ [r; v]) x ↔
    accepted_in log x ∨ x = r ∧ d = mk_VerdictData VerdictResult.Accept None.
Proof.
  intros Hlog Hk Hf (Hkv & _ & _ & _ & _ & _ & Hrefs & _ & _ & _ & _ & Hd).
  rewrite find_first_None in Hf.
  assert (Hcause : find_ref RefType.Cause (rec_refs v) = Some (rec_id r)) by (by rewrite Hrefs).
  unfold accepted_in. setoid_rewrite elem_of_app. setoid_rewrite elem_of_cons.
  setoid_rewrite elem_of_cons. split.
  - intros (Hx & Hkx & w & Hw & Hkw & Hc & Hdw).
    destruct Hw as [Hw|[->|[->|?%elem_of_nil]]]; [|done| |done].
    + assert (Hj : judged log (rec_id x)) by (by eapply find_ref_cause_judged).
      apply (replays_judged rules log s) in Hj as (y & Hy & _ & Hyx); [|done].
      destruct Hx as [Hx|[->|[->|?%elem_of_nil]]]; [left; by eauto 10 | | done | done].
      by destruct (Hf y).
    + rewrite Hcause in Hc. injection Hc as Hc.
      destruct Hx as [Hx|[->|[->|?%elem_of_nil]]]; [by destruct (Hf x) | | done | done].
      right. split; [done|]. rewrite Hd in Hdw. by injection Hdw.
  - intros [(Hx & Hkx & w & Hw & Hrest)|[-> ->]].
    + split_and!; [by left | done |]. exists w. split; [by left | done].
    + split_and!; [right; by left | done |]. exists v. split_and!; try done. right. right. by left.
Qed.

Lemma due_accept log s r :
  vd_result (due_verdict rules log s r) = VerdictResult.Accept ↔
  due_verdict rules log s r = mk_VerdictData VerdictResult.Accept None.
Proof. unfold due_verdict, verdict_of. by destruct (check_record _ _ _ _). Qed.

Lemma due_accept_check log s r :
  due_verdict rules log s r = mk_VerdictData VerdictResult.Accept None ↔
  check_record r (prior_of (log ++ [r])) rules s = None.
Proof. unfold due_verdict, verdict_of. by destruct (check_record _ _ _ _). Qed.

Lemma apply_record_due log s r s' :
  apply_record r (due_verdict rules log s r) s = (s', inr tt) →
  due_verdict rules log s r = mk_VerdictData VerdictResult.Accept None ∧
    apply_accepted r s = (s', inr tt)
  ∨ vd_result (due_verdict rules log s r) = VerdictResult.Reject ∧ s' = s.
Proof.
  unfold apply_record. destruct (vd_result _) eqn:E; intros Ha.
  - left. split; [by apply due_accept | done].
  - right. by injection Ha.
Qed.

(** The accepted set, the dependence edges and the retractions of a valid
    log's state, read off the log. *)
Lemma replays_summary log s :
  Replays rules log s →
  (∀ id, id ∈ accepted_records s ↔ ∃ r, accepted_in log r ∧ rec_id r = id) ∧
  (∀ a b, depends s a b ↔
     ∃ r, accepted_in log r ∧ rec_id r = b ∧ a ∈ epistemic_targets (rec_refs r)) ∧
  (∀ t, t ∈ retracted_records s ↔ ∃ r, accepted_in log r ∧ retraction_target r = Some t) ∧
  taint_closed s.
Proof.
  induction 1 as [|log s r v s' Hlog (IHa & IHd & IHr & IHt) Hk Hf Hid Ht Htv Hb Hv Hap].
  { split_and!; [..|apply empty_taint]; intros; (split; [intros Hx | intros (r & [] & _)]);
      try set_solver; by destruct accepted_in_nil with r. }
  pose proof (λ x, accepted_in_snoc log s r v _ x Hlog Hk Hf Hv) as Hsnoc.
  pose proof (apply_record_taint r (due_verdict rules log s r) s IHt) as Ht'. rewrite Hap in Ht'.
  change (depends (set_applied_up_to (rec_time v) s')) with (depends s'). simpl.
  destruct (apply_record_due _ _ _ _ Hap) as [[Hdue Hacc]|[Hdue ->]].
  - destruct (apply_accepted_spec r s s' Hacc) as (Ha & Hd & Hr & _).
    split_and!; [intros id | intros a b | intros t | exact Ht'];
      setoid_rewrite Hsnoc.
    + rewrite Ha, elem_of_union, elem_of_singleton, IHa. naive_solver.
    + rewrite Hd, IHd. naive_solver.
    + rewrite Hr, IHr. naive_solver.
  - assert (Hno : due_verdict rules log s r ≠ mk_VerdictData VerdictResult.Accept None)
      by (intros E; by rewrite E in Hdue).
    split_and!; [intros id | intros a b | intros t | exact Ht'];
      setoid_rewrite Hsnoc.
    + rewrite IHa. naive_solver.
    + rewrite IHd. naive_solver.
    + rewrite IHr. naive_solver.
Qed.
End build.
