(* ===== verification/RecordFacts.v ===== *)
(** * Facts about records

    Reference lists in canonical order, the evidence lattice, and the content
    binding of record ids. *)

From S2P Require Export ReplayFacts.

(** ** References *)

#[export] Instance cmp_laws_Ref : CmpLaws Ref.
Proof.
  apply (cmp_laws_inj ref_key); [done|]. intros [t1 x1] [t2 x2]. unfold ref_key; simpl.
  intros [= Ht ->]. by destruct t1, t2.
Qed.

Lemma sort_and_dedup_refs_strict refs :
  strictly_increasing (sort_and_dedup_refs refs) = true.
Proof. apply dedup_sorted, sort_cmp_sorted. Qed.

Lemma elem_of_sort_and_dedup_refs x refs : x ∈ sort_and_dedup_refs refs ↔ x ∈ refs.
Proof. unfold sort_and_dedup_refs. by rewrite elem_of_dedup, elem_of_sort_by. Qed.

Lemma sort_and_dedup_refs_id refs :
  strictly_increasing refs = true → sort_and_dedup_refs refs = refs.
Proof.
  intros Hs. unfold sort_and_dedup_refs.
  rewrite sort_cmp_id by (by apply strictly_increasing_sorted). by apply dedup_id.
Qed.

(** ** Evidence *)

Lemma evidence_max_ge a b :
  leb a (Evidence.max a b) = true ∧ leb b (Evidence.max a b) = true.
Proof. by destruct a, b. Qed.

Lemma fold_max_init es e : leb e (fold_left Evidence.max es e) = true.
Proof.
  revert e. induction es as [|y es IH]; intros e; cbn [fold_left].
  - unfold leb. by rewrite cmp_refl.
  - eapply leb_trans; [apply (evidence_max_ge e y) | apply IH].
Qed.

Lemma fold_max_ge es e x :
  x = e ∨ x ∈ es → leb x (fold_left Evidence.max es e) = true.
Proof.
  intros [->|Hx]; [apply fold_max_init|]. revert e.
  induction Hx as [y es|x y es Hx IH]; intros e; cbn [fold_left]; [|apply IH].
  eapply leb_trans; [apply (evidence_max_ge e y) | apply fold_max_init].
Qed.

Lemma fold_max_elem es e :
  fold_left Evidence.max es e = e ∨ fold_left Evidence.max es e ∈ es.
Proof.
  revert e. induction es as [|y es IH]; intros e; cbn [fold_left]; [by left|].
  destruct (IH (Evidence.max e y)) as [->|]; [|right; by right].
  unfold Evidence.max. case_match; [right; left | left]; done.
Qed.

(** Derived evidence is the weakest of the schema's class and the refs'. *)
Lemma derive_evidence_ge `{Primitives} schema es e :
  e = base_evidence schema ∨ e ∈ es → leb e (derive_evidence schema es) = true.
Proof.
  unfold derive_evidence. destruct es as [|x es].
  - intros [->|?%elem_of_nil]; [|done]. unfold leb. by rewrite cmp_refl.
  - unfold weakest. apply fold_max_ge.
Qed.

Lemma derive_evidence_elem `{Primitives} schema es :
  derive_evidence schema es = base_evidence schema ∨ derive_evidence schema es ∈ es.
Proof. unfold derive_evidence. destruct es; [by left|]. apply fold_max_elem. Qed.

(** ** Serialization is injective up to member order *)

Class NormInj (A : Type) `{Serialize A} :=
  norm_inj (a b : A) : jcs_norm (to_value a) = jcs_norm (to_value b) → a = b.

#[export] Instance norm_inj_bool : NormInj bool.
Proof. by intros ?? [= ->]. Qed.
#[export] Instance norm_inj_string : NormInj string.
Proof. by intros ?? [= ->]. Qed.
#[export] Instance norm_inj_u64 : NormInj N.
Proof. by intros ?? [= ->]. Qed.
#[export] Instance norm_inj_byte : NormInj byte.
Proof. intros a b [= E]. by apply byte_to_N_inj. Qed.
#[export] Instance norm_inj_list `{NormInj A} : NormInj (list A).
Proof.
  intros l k. unfold to_value, ser_list. cbn [jcs_norm]. intros [= E]. revert k E.
  induction l as [|a l IH]; intros [|b k] E; try done.
  rewrite !fmap_cons in E. cbn [map] in E. injection E as Ea El.
  f_equal; [by apply norm_inj | by apply IH].
Qed.
#[export] Instance norm_inj_hash : NormInj Hash256.
Proof. intros h k E. apply hash_eq. by apply (norm_inj (A := list byte)). Qed.
#[export] Instance norm_inj_kind : NormInj Kind.t.
Proof. by intros [] [] [=]. Qed.
#[export] Instance norm_inj_reftype : NormInj RefType.t.
Proof. by intros [] [] [=]. Qed.
#[export] Instance norm_inj_authortype : NormInj AuthorType.t.
Proof. by intros [] [] [=]. Qed.
#[export] Instance norm_inj_evidence : NormInj Evidence.t.
Proof. by intros [] [] [=]. Qed.

(** Objects with one value per member name. *)
Lemma object_norm_perm m1 m2 :
  jcs_norm (VObject m1) = jcs_norm (VObject m2) →
  (norm_member <$> m1) ≡ₚ (norm_member <$> m2).
Proof.
  cbn [jcs_norm]. rewrite !norm_members_sorted. intros [= E].
  rewrite <- (sort_by_perm key_cmp m1), <- (sort_by_perm key_cmp m2). by rewrite E.
Qed.

Lemma object_norm_field k m1 m2 v1 v2 :
  jcs_norm (VObject m1) = jcs_norm (VObject m2) → NoDup (fst <$> m2) →
  (k, v1) ∈ m1 → (k, v2) ∈ m2 → jcs_norm v1 = jcs_norm v2.
Proof.
  intros Hp%object_norm_perm Hnd H1 H2.
  assert (Hin : (k, jcs_norm v1) ∈ (norm_member <$> m2)).
  { rewrite <- Hp. apply list_elem_of_fmap. by exists (k, v1). }
  apply list_elem_of_fmap in Hin as ([k' v'] & [= <- ->] & Hin). f_equal.
  clear -Hnd H2 Hin. induction m2 as [|[x w] m IH]; [by apply elem_of_nil in Hin|].
  rewrite fmap_cons in Hnd. apply NoDup_cons in Hnd as [Hx Hnd].
  assert (Hno : ∀ y, (x, y) ∉ m) by (intros y Hy; apply Hx, list_elem_of_fmap; by exists (x, y)).
  apply elem_of_cons in Hin as [Hin|Hin], H2 as [H2|H2]; simplify_eq; auto.
  - by destruct (Hno v2).
  - by destruct (Hno v').
Qed.

(** Project the member [k] out of an equation of normalised objects. *)
Ltac member H k E :=
  lazymatch type of H with
  | jcs_norm (VObject ?m1) = jcs_norm (VObject ?m2) =>
    eassert (E : jcs_norm _ = jcs_norm _);
    [ eapply (object_norm_field k m1 m2);
      [ exact H | apply (bool_decide_unpack _); vm_compute; exact I
      | repeat first [ apply list_elem_of_here | apply list_elem_of_further ]
      | repeat first [ apply list_elem_of_here | apply list_elem_of_further ] ] | ]
  end.

#[export] Instance norm_inj_Ref : NormInj Ref.
Proof.
  intros [t1 x1] [t2 x2] E. unfold to_value, ser_Ref in E. cbn [ref_type ref_target] in E.
  member E "type" Et. member E "target" Ex. apply norm_inj in Et, Ex. by subst.
Qed.

#[export] Instance norm_inj_Signature : NormInj Signature.
Proof.
  intros [t1 x1] [t2 x2] E. unfold to_value, ser_Signature in E. cbn [key_id sig] in E.
  member E "key_id" Et. member E "sig" Ex. apply norm_inj in Et, Ex. by subst.
Qed.

Lemma norm_author_inj a1 a2 :
  jcs_norm (CanonicalIdAuthor a1) = jcs_norm (CanonicalIdAuthor a2) → a1 = a2.
Proof.
  destruct a1 as [i1 t1 [s1|]], a2 as [i2 t2 [s2|]]; unfold CanonicalIdAuthor;
    cbn [author_id author_type author_signature app]; intros E.
  - member E "id" Ei. member E "type" Et. member E "signature" Es.
    apply norm_inj in Ei, Et, Es. by subst.
  - apply object_norm_perm, Permutation_length in E. done.
  - apply object_norm_perm, Permutation_length in E. done.
  - member E "id" Ei. member E "type" Et. apply norm_inj in Ei, Et. by subst.
Qed.

Lemma norm_id_form_inj r1 r2 :
  jcs_norm (CanonicalIdForm r1) = jcs_norm (CanonicalIdForm r2) → r1 = set_id (rec_id r1) r2.
Proof.
  unfold CanonicalIdForm. intros E.
  member E "space" E1. member E "thread" E2. member E "time" E3. member E "author" E4.
  member E "kind" E5. member E "schema" E6. member E "data" E7. member E "refs" E8.
  member E "evidence" E9.
  apply norm_author_inj in E4. apply norm_inj in E1, E2, E3, E5, E6, E7, E8, E9.
  destruct r1, r2. simpl in *. unfold set_id. simpl. by subst.
Qed.

(** ** The id forms of records are plain values *)

Definition author_wf (a : Author) : bool :=
  str_wf (author_id a) &&
  match author_signature a with Some s => str_wf (key_id s) | None => true end.

Lemma plain_list `{Serialize A} (l : list A) :
  (∀ a, a ∈ l → plain_value (to_value a)) → plain_value (to_value l).
Proof.
  intros Hl. unfold to_value, ser_list. simpl. apply forallb_True, Forall_forall.
  intros v (a & -> & Ha)%list_elem_of_fmap. by apply Hl.
Qed.

Lemma plain_bytes (l : bytes) : plain_value (to_value l).
Proof. by apply plain_list. Qed.

Lemma plain_object m :
  Forall (λ e, Is_true (str_wf e.1 && plain_value e.2)) m → NoDup (fst <$> m) →
  plain_value (VObject m).
Proof.
  intros Hm Hnd. simpl. apply andb_True. split; [by apply forallb_True | by apply bool_decide_pack].
Qed.

(** The member names of these objects are ASCII and distinct. *)
Ltac plain_object :=
  apply plain_object;
  [ repeat (apply Forall_cons; split);
    [ .. | apply Forall_nil; exact I ]; cbn [fst snd]; apply andb_True;
    (split; [vm_compute; exact I|])
  | apply (bool_decide_unpack _); vm_compute; exact I ].

Lemma plain_id_form r : author_wf (rec_author r) → plain_value (CanonicalIdForm r).
Proof.
  intros Ha. unfold CanonicalIdForm. plain_object; try apply plain_bytes; try exact I.
  - destruct (rec_author r) as [i t [s|]]; unfold author_wf in Ha; simpl in Ha;
      apply andb_True in Ha as [Hi Hs]; unfold CanonicalIdAuthor;
      cbn [author_id author_type author_signature app]; plain_object; try done.
    + by destruct t.
    + unfold to_value, ser_Signature. plain_object; [exact Hs | apply plain_bytes].
    + by destruct t.
  - by destruct (rec_kind r).
  - apply plain_list. intros [t x] _. unfold to_value, ser_Ref. plain_object.
    + by destruct t.
    + apply plain_bytes.
  - by destruct (rec_evidence r).
Qed.

(** Equal ids bind equal content, or exhibit a SHA-256 collision. *)
Lemma id_binds `{Primitives} r1 r2 id :
  author_wf (rec_author r1) → author_wf (rec_author r2) →
  compute_id r1 = Some id → compute_id r2 = Some id →
  r1 = set_id (rec_id r1) r2 ∨ sha256_collision.
Proof.
  intros W1 W2 E1 E2.
  destruct (sha256_canonical_binds (CanonicalIdForm r1) (CanonicalIdForm r2) id) as [E|]; auto.
  - by apply plain_id_form.
  - by apply plain_id_form.
  - left. by apply norm_id_form_inj.
Qed.
