(* ===== verification/AcceptFacts.v ===== *)
(** * What acceptance means

    Decomposition of a valid log around an accepted record, and inversion of
    the checks it passed. *)

From S2P Require Export RecordFacts.

Section accept.
Context `{Primitives, Serde, HashOrder} (rules : VerifierRules).

(** [r] was accepted after the prefix [log] in state [s]. *)
Definition accepted_after (log : list record) (s : State) (r : record) : Prop :=
  Replays rules log s ∧ rec_kind r ≠ Kind.Verdict ∧ find_first log (rec_id r) = None ∧
  compute_id r = Some (rec_id r) ∧ rec_time r = (N.of_nat (length log) + 1)%N ∧
  check_record r (prior_of (log ++ [r])) rules s = None.

Lemma replays_accepted_split log s r :
  Replays rules log s → accepted_in log r →
  ∃ l1 s1 v l2, log = l1 ++ r :: v :: l2 ∧ accepted_after l1 s1 r.
Proof.
  induction 1 as [|log s x v s' Hlog IH Hk Hf Hid Ht Htv Hb Hv Hap].
  { by intros ?%accepted_in_nil. }
  intros [Hin|[-> Hdue]]%(accepted_in_snoc rules log s x v _ r Hlog Hk Hf Hv).
  - destruct (IH Hin) as (l1 & s1 & w & l2 & -> & Ha). exists l1, s1, w, (l2 ++ [x; v]).
    split; [|done]. by rewrite <- app_assoc.
  - exists log, s, v, []. split; [done|]. unfold accepted_after.
    apply due_accept_check in Hdue. done.
Qed.

(** Accepted ids resolve to the accepted record itself, in every later
    log. *)
Lemma accepted_find log s r :
  Replays rules log s → accepted_in log r → find_first log (rec_id r) = Some r.
Proof.
  intros Hlog (l1 & s1 & v & l2 & -> & _ & _ & Hf & _)%(replays_accepted_split log s r Hlog).
  rewrite find_first_app, Hf. unfold find_first. simpl. by rewrite decide_True.
Qed.

Lemma accepted_unique log s r1 r2 :
  Replays rules log s → accepted_in log r1 → accepted_in log r2 →
  rec_id r1 = rec_id r2 → r1 = r2.
Proof.
  intros Hlog W1%(accepted_find log s) W2%(accepted_find log s) E; [|done..]. congruence.
Qed.

Lemma accepted_records_find log s id :
  Replays rules log s → id ∈ accepted_records s →
  ∃ r, accepted_in log r ∧ rec_id r = id ∧ find_first log id = Some r.
Proof.
  intros Hlog Hid. destruct (replays_summary rules log s Hlog) as (Ha & _).
  apply Ha in Hid as (r & Hr & <-). exists r. eauto using accepted_find.
Qed.

(** Resolution in the prior view of a record: earlier records, or the
    record itself. *)
Lemma prior_of_find log id : prior_find (prior_of log) id = find_first log id.
Proof.
  unfold prior_of. rewrite <- (app_nil_r log) at 2. apply prior_find_spec.
Qed.

Lemma prior_find_snoc log r id :
  prior_find (prior_of (log ++ [r])) id =
  match find_first log id with
  | Some t => Some t
  | None => if decide (rec_id r = id) then Some r else None
  end.
Proof.
  rewrite prior_of_find, find_first_app. destruct (find_first log id); [done|].
  unfold find_first. simpl. by destruct (decide (rec_id r = id)).
Qed.

Lemma accepted_prior log s r id :
  Replays rules log s → id ∈ accepted_records s →
  ∃ t, prior_find (prior_of (log ++ [r])) id = Some t ∧ accepted_in log t ∧ rec_id t = id.
Proof.
  intros Hlog Hid. destruct (accepted_records_find log s id Hlog Hid) as (t & Ht & E & Hf).
  exists t. by rewrite prior_find_snoc, Hf.
Qed.

(** ** Inversion of [check_record] *)

Record passed (r : record) (prior : Prior) (s : State) : Prop := {
  p_refs_sorted : strictly_increasing (rec_refs r) = true;
  p_space : rec_space r = rules_space rules;
  p_schema : kind_schema_map rules !! rec_schema r = Some (rec_kind r);
  p_author : check_author r rules = None;
  p_signature : check_signature r rules = None;
  p_refs : ∀ x, x ∈ rec_refs r → check_ref r prior s x = None;
  p_replacement : check_replacement r prior s = None;
  p_evidence : check_evidence r prior rules s = None;
  p_payload : check_payload_decode r = None;
  p_kind : check_kind_specific r prior rules s = None;
}.

Lemma check_record_passed r prior s :
  rec_kind r ≠ Kind.Verdict → check_record r prior rules s = None → passed r prior s.
Proof.
  intros Hk Hc. unfold check_record in Hc. rewrite bool_decide_false in Hc by done.
  repeat (case_match; try done). bool_simpl.
  match goal with Hf : first_some _ _ = None |- _ =>
    rewrite first_some_None, Forall_forall in Hf end.
  split; auto; congruence.
Qed.

(** ** Inversion of the generic blocks *)

Lemma check_author_None r :
  check_author r rules = None →
  author_type (rec_author r) ∈ allowed_author_types (rec_kind r) ∧
  (rec_kind r ≠ Kind.Verdict →
    author_roles rules !! author_id (rec_author r) = Some (author_type (rec_author r))).
Proof.
  unfold check_author. intros Hc. repeat (case_match; try done); bool_simpl.
  - split; [done|]. intros _. congruence.
  - split; [done|]. by destruct (rec_kind r).
Qed.

Lemma check_signature_None r :
  check_signature r rules = None →
  (∀ keys, author_keys rules !! author_id (rec_author r) = Some keys →
     ∃ key, key ∈ keys ∧ verified_key r = Some key) ∧
  (rec_kind r ∈ signature_required_kinds rules → ∃ key, verified_key r = Some key) ∧
  (author_signature (rec_author r) ≠ None → ∃ key, verified_key r = Some key).
Proof.
  unfold check_signature. destruct (author_signature (rec_author r)) as [sg|]; simpl.
  - rewrite andb_false_r. intros Hc. destruct (verified_key r) as [key|]; [|done].
    split; [|by eauto]. intros keys Hkeys. rewrite Hkeys in Hc. case_match; [done|].
    bool_simpl. eauto.
  - rewrite andb_true_r. intros Hc. case_match; [done|]. bool_simpl.
    split_and!; [|done|done]. intros keys Hkeys. by rewrite Hkeys in *.
Qed.

Lemma check_ref_None r prior s x :
  check_ref r prior s x = None →
  ∃ t, prior_find prior (ref_target x) = Some t ∧ rec_space t = rec_space r ∧
    (ref_type x = RefType.Require_ → rec_id t ∈ accepted_records s ∧
       rec_id t ∉ retracted_records s ∧ rec_id t ∉ tainted_records s).
Proof.
  unfold check_ref, unreliable, is_type. intros Hc. repeat (case_match; try done). bool_simpl.
  eexists. split_and!; [done|done|]. intros Hx.
  rewrite Hx, bool_decide_true in * by done. simpl in *. by bool_simpl.
Qed.

Lemma check_evidence_None r prior s :
  check_evidence r prior rules s = None →
  rec_evidence r = derive_evidence (rec_schema r) (ref_evidences r prior s) ∧
  (∀ threshold, evidence_thresholds rules !! rec_kind r = Some threshold →
     leb (rec_evidence r) threshold = true).
Proof.
  unfold check_evidence. intros Hc. case_match; [done|]. bool_simpl. split; [done|].
  intros threshold Ht. rewrite Ht in Hc. case_match eqn:E; [done|].
  destruct (leb_total (rec_evidence r) threshold) as [|Hle]; [done|].
  apply leb_ltb in Hle as [<-|Hlt]; [unfold leb; by rewrite cmp_refl | congruence].
Qed.

(** A single-cause rule names the only [Cause] ref. *)
Lemma single_cause_to_spec r id :
  single_cause_to r id = true ↔ ∃ x, cause_refs r = [x] ∧ ref_target x = id.
Proof.
  unfold single_cause_to. destruct (cause_refs r) as [|x [|]].
  - split; [done | by intros (? & ? & _)].
  - rewrite bool_decide_eq_true. split; [eauto | by intros (? & [= ->] & ?)].
  - split; [done | by intros (? & ? & _)].
Qed.

Lemma requires_target_spec refs id :
  requires_target refs id = true ↔ mk_ref RefType.Require_ id ∈ refs.
Proof.
  unfold requires_target. rewrite existsb_exists. split.
  - intros ([t y] & Hx%list_elem_of_In & E). unfold is_type in E. bool_simpl. simpl in *.
    by subst.
  - intros Hx%list_elem_of_In. eexists. split; [done|]. unfold is_type. simpl.
    by rewrite !bool_decide_true.
Qed.
End accept.
