(* ===== verification/Invariants.v ===== *)
(** * Invariants of the replayed state

    Every index of the state is justified by accepted records of the log:
    authority slots, active requests, open actions and their counts, response
    turns and spent approvals. *)

From S2P Require Export AcceptFacts.

(** ** Authority indexes only hold what accepted records put there *)

Section bounded.
Context (Cap : ActorId * string * ScopeId → RecordId → Prop)
        (Exact : Hash256 → RecordId → Prop)
        (Class_ : string * ScopeId * option ActorId → RecordId → Prop)
        (Req : RecordId → Prop).

Definition bounded (s : State) : Prop :=
  (∀ k id, active_capabilities s !! k = Some id → Cap k id) ∧
  (∀ h id, valid_approvals s !! h = Some id → Exact h id) ∧
  (∀ k id, class_approvals s !! k = Some id → Class_ k id) ∧
  (∀ id, id ∈ active_requests s → Req id).

Definition same_authority (s s' : State) : Prop :=
  active_capabilities s' = active_capabilities s ∧ valid_approvals s' = valid_approvals s ∧
  class_approvals s' = class_approvals s ∧ active_requests s' = active_requests s.

Lemma bounded_same s s' : same_authority s s' → bounded s → bounded s'.
Proof. unfold bounded. by intros (-> & -> & -> & ->). Qed.

Lemma index_refs_same_authority r s : same_authority s (index_refs r s).
Proof. destruct (index_refs_spec r s) as (T & D & -> & _). by repeat split. Qed.

Lemma bounded_smaller s s' :
  active_capabilities s' ⊆ active_capabilities s → valid_approvals s' ⊆ valid_approvals s →
  class_approvals s' ⊆ class_approvals s → active_requests s' ⊆ active_requests s →
  bounded s → bounded s'.
Proof.
  intros W1 W2 W3 W4 (B1 & B2 & B3 & B4). split_and!.
  - intros k id Hk. by eapply B1, lookup_weaken.
  - intros k id Hk. by eapply B2, lookup_weaken.
  - intros k id Hk. by eapply B3, lookup_weaken.
  - intros id Hid. by apply B4, W4.
Qed.

Context `{Primitives, Serde}.

Lemma retraction_smaller t s :
  let s' := release_requirement_key t (deactivate_class_approval t
    (deactivate_exact_approval t (deactivate_capability t s))) in
  active_capabilities s' ⊆ active_capabilities s ∧ valid_approvals s' ⊆ valid_approvals s ∧
  class_approvals s' ⊆ class_approvals s ∧ active_requests s' ⊆ active_requests s.
Proof.
  unfold release_requirement_key, deactivate_class_approval, deactivate_exact_approval,
    deactivate_capability.
  repeat (case_match; simpl); split_and!; try done; apply delete_subseteq.
Qed.

Ltac bounded_lookup :=
  repeat match goal with
  | Hl : <[?k := _]> _ !! ?k' = Some _ |- _ =>
      destruct (decide (k = k')) as [<-|];
      [rewrite lookup_insert_eq in Hl; injection Hl as <-
      |rewrite lookup_insert_ne in Hl by done]
  | Hl : delete ?k _ !! ?k' = Some _ |- _ => apply lookup_delete_Some in Hl as [_ Hl]
  | Hl : _ ∈ {[_]} ∪ _ |- _ =>
      apply elem_of_union in Hl as [Hl|Hl]; [apply elem_of_singleton in Hl as ->|]
  | Hl : _ ∈ _ ∖ _ |- _ => apply elem_of_difference in Hl as [Hl _]
  end; eauto.

Lemma apply_kind_bounded r :
  (∀ d, rec_kind r = Kind.Capability → decode (rec_data r) = Some d →
     Cap (cp_actor_id d, cp_action_class d, cp_scope d) (rec_id r)) →
  (∀ d h, rec_kind r = Kind.Approval → decode (rec_data r) = Some d →
     ap_target_action d = Some h → Exact h (rec_id r)) →
  (∀ d c, rec_kind r = Kind.Approval → decode (rec_data r) = Some d →
     ap_action_class d = Some c → Class_ (c, ap_scope d, ap_actor_id d) (rec_id r)) →
  (rec_kind r = Kind.Request → Req (rec_id r)) →
  preserves bounded (apply_kind r).
Proof.
  intros W1 W2 W3 W4. unfold apply_kind. destruct (rec_kind r) eqn:Hk; preserves_steps;
    intros s Hs.
  all: lazymatch goal with
    | |- bounded (release_requirement_key _ _) =>
        cbn zeta; destruct (fold_mark_frame (btree_members (dependents
          (set_retracted_records ({[rx_target_id a]} ∪ retracted_records s) s)
          (rx_target_id a)))
          (set_retracted_records ({[rx_target_id a]} ∪ retracted_records s) s)) as (T & ->);
        pose proof (retraction_smaller (rx_target_id a) (set_tainted_records T
          (set_retracted_records ({[rx_target_id a]} ∪ retracted_records s) s)))
          as (? & ? & ? & ?); by eapply bounded_smaller
    | _ => cbn zeta; unfold insert_replaced, consume_approval, close_action_for_request;
        destruct Hs as (B1 & B2 & B3 & B4);
        repeat (case_match; simpl); split_and!; simpl; intros; bounded_lookup
    end.
Qed.

Lemma apply_accepted_bounded r :
  (∀ d, rec_kind r = Kind.Capability → decode (rec_data r) = Some d →
     Cap (cp_actor_id d, cp_action_class d, cp_scope d) (rec_id r)) →
  (∀ d h, rec_kind r = Kind.Approval → decode (rec_data r) = Some d →
     ap_target_action d = Some h → Exact h (rec_id r)) →
  (∀ d c, rec_kind r = Kind.Approval → decode (rec_data r) = Some d →
     ap_action_class d = Some c → Class_ (c, ap_scope d, ap_actor_id d) (rec_id r)) →
  (rec_kind r = Kind.Request → Req (rec_id r)) →
  preserves bounded (apply_accepted r).
Proof.
  intros W1 W2 W3 W4. unfold apply_accepted.
  apply preserves_bind; [apply preserves_modify; intros s; by apply bounded_same|]. intros _.
  apply preserves_bind; [apply preserves_modify; intros s;
    apply bounded_same, index_refs_same_authority|]. intros _.
  by apply apply_kind_bounded.
Qed.
End bounded.

Lemma bounded_mono (Cap Cap' : ActorId * string * ScopeId → RecordId → Prop)
    (Exact Exact' : Hash256 → RecordId → Prop)
    (Class_ Class' : string * ScopeId * option ActorId → RecordId → Prop)
    (Req Req' : RecordId → Prop) s :
  (∀ k id, Cap k id → Cap' k id) → (∀ h id, Exact h id → Exact' h id) →
  (∀ k id, Class_ k id → Class' k id) → (∀ id, Req id → Req' id) →
  bounded Cap Exact Class_ Req s → bounded Cap' Exact' Class' Req' s.
Proof. unfold bounded. naive_solver. Qed.

Section authority.
Context `{Primitives, Serde, HashOrder} (rules : VerifierRules).

(** An accepted record of kind [k] with id [id] and payload [d]. *)
Definition accepted_as {A} `{Decode A} (log : list record) (k : Kind.t) (id : RecordId) (d : A)
    : Prop :=
  ∃ r, accepted_in log r ∧ rec_id r = id ∧ rec_kind r = k ∧ decode (rec_data r) = Some d.

Definition granted (log : list record) (k : ActorId * string * ScopeId) (id : RecordId) : Prop :=
  ∃ d, accepted_as log Kind.Capability id d ∧
    k = (cp_actor_id d, cp_action_class d, cp_scope d).
Definition approved_exactly (log : list record) (h : Hash256) (id : RecordId) : Prop :=
  ∃ d : ApprovalData, accepted_as log Kind.Approval id d ∧ ap_target_action d = Some h.
Definition approved_class (log : list record) (k : string * ScopeId * option ActorId)
    (id : RecordId) : Prop :=
  ∃ d c, accepted_as log Kind.Approval id d ∧ ap_action_class d = Some c ∧
    k = (c, ap_scope d, ap_actor_id d).
Definition requested (log : list record) (id : RecordId) : Prop :=
  ∃ r, accepted_in log r ∧ rec_id r = id ∧ rec_kind r = Kind.Request.

Section mono.
Context (l l' : list record) (Hmono : ∀ x, accepted_in l x → accepted_in l' x).
Lemma accepted_as_mono {A} `{Decode A} k id (d : A) :
  accepted_as l k id d → accepted_as l' k id d.
Proof. intros (r & Hr & Hrest). exists r. auto. Qed.
Lemma granted_mono k id : granted l k id → granted l' k id.
Proof. intros (d & Hd & Hk). exists d. eauto using accepted_as_mono. Qed.
Lemma approved_exactly_mono h id : approved_exactly l h id → approved_exactly l' h id.
Proof. intros (d & Hd & Hk). exists d. eauto using accepted_as_mono. Qed.
Lemma approved_class_mono k id : approved_class l k id → approved_class l' k id.
Proof. intros (d & c & Hd & Hk). exists d, c. eauto using accepted_as_mono. Qed.
Lemma requested_mono id : requested l id → requested l' id.
Proof. intros (r & Hr & Hrest). exists r. auto. Qed.
End mono.

(** Every authority slot is held by an accepted record that grants it. *)
Lemma replays_authority log s :
  Replays rules log s →
  bounded (granted log) (approved_exactly log) (approved_class log) (requested log) s.
Proof.
  induction 1 as [|log s r v s' Hlog IH Hk Hf Hid Ht Htv Hb Hv Hap].
  { split_and!; simpl; intros *; try (by rewrite lookup_empty); set_solver. }
  pose proof (λ x, accepted_in_snoc rules log s r v _ x Hlog Hk Hf Hv) as Hsnoc.
  eapply (bounded_same _ _ _ _ s'); [by repeat split|].
  assert (Hmono : ∀ x, accepted_in log x → accepted_in (log ++ [r; v]) x)
    by (intros x Hx; apply Hsnoc; by left).
  eapply (bounded_mono _ (granted (log ++ [r; v])) _ (approved_exactly (log ++ [r; v]))
    _ (approved_class (log ++ [r; v])) _ (requested (log ++ [r; v]))) in IH;
    [|by eauto using granted_mono, approved_exactly_mono, approved_class_mono, requested_mono..].
  destruct (apply_record_due rules _ _ _ _ Hap) as [[Hdue Hacc]|[_ ->]]; [|done].
  assert (Hr : accepted_in (log ++ [r; v]) r) by (apply Hsnoc; by right).
  pose proof (apply_accepted_bounded (granted (log ++ [r; v])) (approved_exactly (log ++ [r; v]))
    (approved_class (log ++ [r; v])) (requested (log ++ [r; v])) r) as Hstep.
  assert (Hs' : s' = (apply_accepted r s).1) by (by rewrite Hacc). rewrite Hs'.
  apply Hstep; [..|done];
    unfold granted, approved_exactly, approved_class, requested, accepted_as; eauto 10.
Qed.

(** ** Resolution of an indexed id at the point of a check *)

Lemma accepted_as_prior {A} `{Decode A} log s r (k : Kind.t) id (d : A) t :
  Replays rules log s → accepted_as log k id d →
  prior_find (prior_of (log ++ [r])) id = Some t →
  accepted_in log t ∧ rec_id t = id ∧ rec_kind t = k ∧ decode (rec_data t) = Some d.
Proof.
  intros Hlog (c & Hc & <- & Hk & Hd) Hfind.
  rewrite prior_find_snoc, (accepted_find rules log s c Hlog Hc) in Hfind.
  injection Hfind as <-. done.
Qed.

Lemma requested_prior log s r id t :
  Replays rules log s → requested log id →
  prior_find (prior_of (log ++ [r])) id = Some t →
  accepted_in log t ∧ rec_id t = id ∧ rec_kind t = Kind.Request.
Proof.
  intros Hlog (c & Hc & <- & Hk) Hfind.
  rewrite prior_find_snoc, (accepted_find rules log s c Hlog Hc) in Hfind.
  injection Hfind as <-. done.
Qed.

(** ** The authority an action needs *)

(** Accepted, and neither retracted nor tainted. *)
Definition reliable (s : State) (id : RecordId) : Prop :=
  id ∈ accepted_records s ∧ id ∉ retracted_records s ∧ id ∉ tainted_records s.

(** An approval in force for [r]: exact for this author and this content,
    or for the class, to the author or to anyone. *)
Definition approves (log : list record) (s : State) (r : record) (data : ActionData)
    (id : RecordId) : Prop :=
  ∃ d, accepted_as log Kind.Approval id d ∧ reliable s id ∧
    expired (rec_time r) (ap_expiry d) = false ∧ ap_scope d = ac_scope data ∧
    ((∃ h, action_approval_hash (author_id (rec_author r)) data = Some h ∧
        ap_target_action d = Some h ∧ ap_actor_id d = Some (author_id (rec_author r))) ∨
     (ap_action_class d = Some (ac_action_class data) ∧
        (ap_actor_id d = Some (author_id (rec_author r)) ∨ ap_actor_id d = None))).

Lemma usable_reliable s id : usable s id = true ↔ reliable s id.
Proof.
  unfold usable, unreliable, reliable.
  rewrite andb_true_iff, negb_true_iff, orb_false_iff, bool_decide_eq_true,
    !bool_decide_eq_false. tauto.
Qed.

Lemma exact_approval_ok log s r data h id :
  Replays rules log s → action_approval_hash (author_id (rec_author r)) data = Some h →
  exact_approval r data h (prior_of (log ++ [r])) s = Some (Ok id) → approves log s r data id.
Proof.
  intros Hlog Hh He. destruct (replays_authority log s Hlog) as (_ & B2 & _ & _).
  unfold exact_approval in He. destruct (valid_approvals s !! h) as [a|] eqn:Ea; [|done].
  destruct (prior_find _ a) as [t|] eqn:Et; [|done].
  destruct (B2 h a Ea) as (d & Hd & Htarget).
  destruct (accepted_as_prior log s r _ a d t Hlog Hd Et) as (_ & _ & _ & Hdec).
  destruct (usable s a) eqn:Eu; [|done]. rewrite Hdec in He.
  destruct (_ && _) eqn:Eq; [|done]. destruct (expired _ _) eqn:Ex; [done|].
  injection He as <-. bool_simpl. exists d. apply usable_reliable in Eu.
  split_and!; try done. left. eauto.
Qed.

Lemma class_approval_ok log s r data actor id :
  Replays rules log s → actor = Some (author_id (rec_author r)) ∨ actor = None →
  class_approval r data actor (prior_of (log ++ [r])) s = Some (Ok id) → approves log s r data id.
Proof.
  intros Hlog Hactor He. destruct (replays_authority log s Hlog) as (_ & _ & B3 & _).
  unfold class_approval in He. destruct (class_approvals s !! _) as [a|] eqn:Ea; [|done].
  destruct (prior_find _ a) as [t|] eqn:Et; [|done].
  destruct (B3 _ a Ea) as (d & c & Hd & Hc & [= <- Hsc Hact]).
  destruct (accepted_as_prior log s r _ a d t Hlog Hd Et) as (_ & _ & _ & Hdec).
  destruct (usable s a) eqn:Eu; [|done]. rewrite Hdec in He.
  destruct (expired _ _) eqn:Ex; [done|]. injection He as <-. exists d.
  apply usable_reliable in Eu. split_and!; try done. right. split; [done|].
  by rewrite <- Hact.
Qed.

Lemma approval_for_action_ok log s r data id :
  Replays rules log s →
  check_approval_for_action r data (prior_of (log ++ [r])) s = Ok id → approves log s r data id.
Proof.
  intros Hlog. unfold check_approval_for_action.
  destruct (action_approval_hash _ _) as [h|] eqn:Eh; [|done].
  destruct (exact_approval _ _ _ _ _) as [o|] eqn:E1; simpl.
  { intros ->. by eapply exact_approval_ok. }
  destruct (class_approval _ _ (Some _) _ _) as [o|] eqn:E2; simpl.
  { intros ->. apply (class_approval_ok log s r data _ id Hlog (or_introl eq_refl) E2). }
  destruct (class_approval _ _ None _ _) as [o|] eqn:E3; simpl; [|done].
  intros ->. apply (class_approval_ok log s r data _ id Hlog (or_intror eq_refl) E3).
Qed.
End authority.

(** ** Open actions and their counts *)

(** The open actions that serve request [q]. *)
Definition open_of (s : State) (q : RecordId) : gset RecordId :=
  filter (λ a, action_to_request s !! a = Some q) (open_actions s).

Definition same_work (s s' : State) : Prop :=
  open_actions s' = open_actions s ∧ action_to_request s' = action_to_request s ∧
  request_open_action_count s' = request_open_action_count s.

(** The count of a request is the number of its open actions; a request
    without open actions has no entry. *)
Definition counts_exact (s : State) : Prop :=
  (∀ a, a ∈ open_actions s → a ∈ accepted_records s ∧ is_Some (action_to_request s !! a)) ∧
  (∀ q, request_open_action_count s !! q =
     if size (open_of s q) =? 0 then None else Some (N.of_nat (size (open_of s q)))).

Lemma same_work_trans s1 s2 s3 : same_work s1 s2 → same_work s2 s3 → same_work s1 s3.
Proof. unfold same_work. intuition congruence. Qed.

Lemma counts_exact_same s s' :
  same_work s s' → accepted_records s ⊆ accepted_records s' → counts_exact s → counts_exact s'.
Proof.
  unfold counts_exact, open_of. intros (-> & -> & ->) Hsub [H1 H2]. split; [|done].
  intros a Ha. destruct (H1 a Ha). auto.
Qed.

Lemma count_at s q c :
  counts_exact s → request_open_action_count s !! q = Some c →
  c = N.of_nat (size (open_of s q)) ∧ (0 < c)%N.
Proof.
  intros [_ H2] Hc. rewrite H2 in Hc. case_bool_decide; [done|]. injection Hc as <-. lia.
Qed.

Lemma close_action_counts a q s s1 :
  counts_exact s → (N.of_nat (size (open_actions s)) <= u64_max)%N →
  a ∈ open_actions s → action_to_request s !! a = Some q →
  s1 = set_open_actions (open_actions s ∖ {[a]}) s →
  counts_exact (close_action_for_request a s1).
Proof.
  intros Hc Hbound Ha Hq ->.
  assert (Hin : a ∈ open_of s q) by (apply elem_of_filter; done).
  assert (Hsz : size (open_of s q) ≤ size (open_actions s)).
  { apply subseteq_size. intros x. by intros [_ ?]%elem_of_filter. }
  assert (Hcount : request_open_action_count s !! q = Some (N.of_nat (size (open_of s q)))).
  { destruct Hc as [_ ->]. rewrite bool_decide_false; [done|].
    intros Hz%size_empty_inv. set_solver. }
  assert (Hopen : ∀ q', open_of (set_open_actions (open_actions s ∖ {[a]}) s) q' =
    open_of s q' ∖ {[a]}).
  { intros q'. apply set_eq. intros x. unfold open_of. simpl. set_solver. }
  assert (Hdec : size (open_of s q ∖ {[a]}) = size (open_of s q) - 1).
  { rewrite size_difference, size_singleton; [done | set_solver]. }
  assert (Hpos : 0 < size (open_of s q)).
  { destruct (decide (size (open_of s q) = 0)) as [Hz%size_empty_inv|]; [set_solver | lia]. }
  unfold close_action_for_request. simpl. rewrite Hq, Hcount.
  rewrite sub_u64_small by lia.
  destruct Hc as [H1 H2]. split.
  - intros x Hx. simpl in *. apply elem_of_difference in Hx as [Hx _]. by apply H1.
  - intros q'. change (open_of (set_request_open_action_count _ _) q')
      with (open_of (set_open_actions (open_actions s ∖ {[a]}) s) q'). rewrite Hopen. simpl.
    destruct (decide (q' = q)) as [->|Hne].
    + rewrite Hdec. destruct (N.eqb_spec (N.of_nat (size (open_of s q)) - 1) 0).
      * rewrite lookup_delete_eq, bool_decide_true; [done | lia].
      * rewrite lookup_insert_eq, bool_decide_false by lia. f_equal. lia.
    + assert (Hout : a ∉ open_of s q').
      { intros [Hq' _]%elem_of_filter. congruence. }
      rewrite difference_disjoint_L by set_solver.
      destruct (_ =? 0)%N; rewrite ?lookup_delete_ne, lookup_insert_ne by done; apply H2.
Qed.

Lemma open_action_counts id q s :
  counts_exact s → (N.of_nat (size (open_actions s)) < u64_max)%N → id ∉ open_actions s →
  counts_exact
    (set_request_open_action_count
      (<[q := add_u64 (default 0%N (request_open_action_count s !! q)) 1]>
        (request_open_action_count s))
      (set_action_to_request (<[id := q]> (action_to_request s))
        (set_open_actions ({[id]} ∪ open_actions s)
          (set_accepted_records ({[id]} ∪ accepted_records s) s)))).
Proof.
  intros [H1 H2] Hbound Hid. set (s' := set_request_open_action_count _ _).
  assert (Hother : ∀ q', q' ≠ q → open_of s' q' = open_of s q').
  { intros q' Hne. apply set_eq. intros x. unfold open_of. rewrite !elem_of_filter. simpl.
    destruct (decide (x = id)) as [->|Hx].
    - rewrite lookup_insert_eq. set_solver.
    - rewrite lookup_insert_ne by done. set_solver. }
  assert (Hself : open_of s' q = {[id]} ∪ open_of s q).
  { apply set_eq. intros x. unfold open_of.
    rewrite elem_of_union, elem_of_singleton, !elem_of_filter. simpl.
    destruct (decide (x = id)) as [->|Hx].
    - rewrite lookup_insert_eq. set_solver.
    - rewrite lookup_insert_ne by done. set_solver. }
  assert (Hsz : size (open_of s q) ≤ size (open_actions s)).
  { apply subseteq_size. intros x. by intros [_ ?]%elem_of_filter. }
  assert (Hn : size (open_of s' q) = S (size (open_of s q))).
  { rewrite Hself, size_union, size_singleton; [done|].
    apply disjoint_singleton_l. by intros [_ ?]%elem_of_filter. }
  split.
  - intros a [->%elem_of_singleton|Ha]%elem_of_union; simpl.
    + split; [set_solver|]. rewrite lookup_insert_eq. eauto.
    + destruct (H1 a Ha) as [? [q' Hq']]. split; [set_solver|].
      rewrite lookup_insert_ne by (by intros ->). eauto.
  - intros q'. destruct (decide (q' = q)) as [->|Hne].
    + rewrite Hn, bool_decide_false by done. simpl. rewrite lookup_insert_eq, H2. f_equal.
      case_bool_decide as Hz; simpl; rewrite add_u64_small; lia.
    + rewrite Hother by done. simpl. rewrite lookup_insert_ne by done. apply H2.
Qed.

Section work.
Context `{Primitives, Serde, HashOrder} (rules : VerifierRules).

(** The kinds that open or close actions. *)
Definition moves_work (r : record) : bool :=
  match rec_kind r with Kind.Action | Kind.Result | Kind.Refusal => true | _ => false end.

Lemma index_refs_same_work r s : same_work s (index_refs r s).
Proof. destruct (index_refs_spec r s) as (T & D & -> & _). by repeat split. Qed.

Lemma consume_same_work h refs s : same_work s (consume_approval h refs s).
Proof. unfold consume_approval. repeat case_match; by repeat split. Qed.

Lemma retraction_same_work t ids s :
  same_work s (release_requirement_key t (deactivate_class_approval t
    (deactivate_exact_approval t (deactivate_capability t
      (fold_left (λ s id, mark_tainted id s) ids s))))).
Proof.
  assert (W1 : ∀ s, same_work s (deactivate_capability t s))
    by (intros; unfold deactivate_capability; repeat case_match; by repeat split).
  assert (W2 : ∀ s, same_work s (deactivate_exact_approval t s))
    by (intros; unfold deactivate_exact_approval; repeat case_match; by repeat split).
  assert (W3 : ∀ s, same_work s (deactivate_class_approval t s))
    by (intros; unfold deactivate_class_approval; repeat case_match; by repeat split).
  assert (W4 : ∀ s, same_work s (release_requirement_key t s))
    by (intros; unfold release_requirement_key; repeat case_match; by repeat split).
  destruct (fold_mark_frame ids s) as (T & ->).
  eapply same_work_trans; [|apply W4]. eapply same_work_trans; [|apply W3].
  eapply same_work_trans; [|apply W2]. eapply same_work_trans; [|apply W1]. by repeat split.
Qed.

Lemma apply_kind_same_work r s0 :
  moves_work r = false → preserves (same_work s0) (apply_kind r).
Proof.
  unfold moves_work. intros Hk. unfold apply_kind. destruct (rec_kind r); try done;
    preserves_steps; intros s Hs; (eapply same_work_trans; [exact Hs|]); clear;
    try (eapply same_work_trans; [|apply retraction_same_work]; by repeat split);
    unfold insert_replaced, consume_approval; repeat case_match; by repeat split.
Qed.

Lemma check_result_open r prior s :
  check_result r prior rules s = None →
  ∃ d : ResultData, decode (rec_data r) = Some d ∧ rt_action_id d ∈ open_actions s.
Proof.
  unfold check_result. intros Hc. destruct (decode (rec_data r) : option ResultData) as [d|];
    [|done]. exists d. split; [done|].
  rule_inv Hc; done.
Qed.

Lemma check_refusal_open r prior s :
  check_refusal r prior s = None →
  ∃ d : RefusalData, decode (rec_data r) = Some d ∧
    (rf_target_kind d = RefusalTarget.Action → rf_target_id d ∈ open_actions s).
Proof.
  unfold check_refusal. intros Hc. destruct (decode (rec_data r) : option RefusalData) as [d|];
    [|done]. exists d. split; [done|]. intros Hk. rewrite Hk in Hc.
  rule_inv Hc; done.
Qed.

Lemma accepted_size log s : Replays rules log s → size (accepted_records s) ≤ length log.
Proof.
  intros Hlog. destruct (replays_summary rules log s Hlog) as (Ha & _).
  etrans; [apply (subseteq_size _ (list_to_set (rec_id <$> log)))|].
  - intros id (r & (Hin & _) & <-)%Ha. apply elem_of_list_to_set, list_elem_of_fmap. eauto.
  - rewrite <- (length_fmap rec_id log). generalize (rec_id <$> log). clear.
    induction l as [|x l IH]; [done|]. cbn [length].
    rewrite list_to_set_cons, size_union_alt, size_singleton. etrans; [|apply le_n_S, IH].
    apply le_n_S, subseteq_size. set_solver.
Qed.

Lemma open_size log s :
  Replays rules log s → counts_exact s → size (open_actions s) ≤ length log.
Proof.
  intros Hlog [H1' _]. etrans; [|by apply (accepted_size log s)].
  apply subseteq_size. intros a Ha. by apply H1'.
Qed.

(** Closing an action that is open keeps the counts exact. *)
Lemma close_step a s :
  counts_exact s → (N.of_nat (size (open_actions s)) <= u64_max)%N → a ∈ open_actions s →
  counts_exact (close_action_for_request a (set_open_actions (open_actions s ∖ {[a]}) s)).
Proof.
  intros Hc Hb Ha. destruct (proj1 Hc a Ha) as [_ [q Hq]].
  by eapply close_action_counts.
Qed.

Lemma apply_accepted_counts log s r s' :
  Replays rules log s → counts_exact s → (N.of_nat (length log) < u64_max)%N →
  find_first log (rec_id r) = None → rec_kind r ≠ Kind.Verdict →
  check_record r (prior_of (log ++ [r])) rules s = None →
  apply_accepted r s = (s', inr tt) → counts_exact s'.
Proof.
  intros Hlog Hc Hb Hf Hk Hcheck Hrun%apply_accepted_ok.
  apply check_record_passed in Hcheck; [|done]. pose proof (p_kind _ _ _ _ Hcheck) as Hkind.
  pose proof (open_size log s Hlog Hc) as Hsz.
  set (s0 := set_accepted_records _ s) in Hrun. set (s1 := index_refs r s0) in Hrun.
  assert (Hw : same_work s s1) by (eapply same_work_trans; [|apply index_refs_same_work]; done).
  assert (Ha : accepted_records s1 = {[rec_id r]} ∪ accepted_records s).
  { unfold s1. destruct (index_refs_spec r s0) as (T & D & -> & _). done. }
  assert (Hc1 : counts_exact s1).
  { eapply counts_exact_same; [exact Hw | rewrite Ha; set_solver | done]. }
  assert (Hsz1 : open_actions s1 = open_actions s) by apply Hw.
  destruct (moves_work r) eqn:Hmv.
  2: { pose proof (apply_kind_same_work r s1 Hmv s1) as Hs'. rewrite Hrun in Hs'.
    eapply counts_exact_same; [apply Hs'; by repeat split | | exact Hc1].
    assert (Hfr : preserves (λ t, accepted_records s1 ⊆ accepted_records t) (apply_kind r)).
    { intros t Ht. destruct (decide (rec_kind r = Kind.Retraction)) as [Hr|Hr].
      - unfold apply_kind. rewrite Hr. destruct (decode (rec_data r) : option RetractionData)
          as [d|] eqn:Hd.
        + destruct (apply_retraction_run r t d Hd) as (t' & -> & (Hacc & _) & _).
          simpl. by rewrite Hacc.
        + unfold apply_retraction, decode_data, lift_opt, mbind, eff_bind. by rewrite Hd.
      - destruct (apply_kind_quiet r t Hr t (quiet_refl t)) as [[Hacc _] _]. by rewrite Hacc. }
    specialize (Hfr s1). rewrite Hrun in Hfr. by apply Hfr. }
  unfold check_kind_specific in Hkind. unfold apply_kind in Hrun. unfold moves_work in Hmv.
  destruct (rec_kind r); try done.
  - unfold apply_action, decode_data in Hrun. eff_inv Hrun.
    eapply counts_exact_same; [| |apply (open_action_counts (rec_id r) (ac_request_id a) s Hc)].
    + destruct (consume_same_work a0 (rec_refs r) s1) as (C1 & C2 & C3).
      destruct Hw as (W1 & W2 & W3). repeat split; simpl; congruence.
    + assert (Hcons : accepted_records (consume_approval a0 (rec_refs r) s1) = accepted_records s1)
        by (apply (consume_approval_quiet a0 (rec_refs r) s1)).
      simpl. rewrite Hcons, Ha. done.
    + lia.
    + intros Ho. destruct (proj1 Hc _ Ho) as [Hacc _].
      destruct (accepted_records_find rules log s _ Hlog Hacc) as (? & _ & _ & E). congruence.
  - unfold apply_result, decode_data in Hrun. eff_inv Hrun.
    destruct (check_result_open r _ s Hkind) as (d & Hd & Ho).
    assert (a = d) as -> by congruence. apply close_step; [done | rewrite Hsz1; lia | by rewrite Hsz1].
  - unfold apply_refusal, decode_data in Hrun. eff_inv Hrun.
    destruct (check_refusal_open r _ s Hkind) as (d & Hd & Ho).
    assert (a = d) as -> by congruence. destruct (rf_target_kind d).
    + apply close_step; [done | rewrite Hsz1; lia | rewrite Hsz1; auto].
    + eapply counts_exact_same; [| |exact Hc1]; by repeat split.
    + done.
Qed.

Lemma replays_counts log s : Replays rules log s → counts_exact s.
Proof.
  induction 1 as [|log s r v s' Hlog IH Hk Hf Hid Ht Htv Hb Hv Hap].
  { split; [intros a; set_solver|]. intros q. rewrite bool_decide_true; [done|].
    apply size_empty_iff. unfold open_of. set_solver. }
  eapply (counts_exact_same s'); [by repeat split | done |].
  destruct (apply_record_due rules _ _ _ _ Hap) as [[Hdue Hacc]|[_ ->]]; [|done].
  eapply apply_accepted_counts; try done; [lia|]. by apply due_accept_check.
Qed.
End work.
