(* ===== verification/Examples.v ===== *)
(** * Concrete instances and logs

    Executable stand-ins for the third-party primitives (a polynomial digest,
    a keyed-digest signature, parsers that recognise the example payloads),
    and small logs built with them.  They show that the hypotheses of the
    theorems can hold; no theorem is about these instances except where it
    says so. *)

From S2P Require Export Invariants.

(** ** Primitives *)

Fixpoint le_bytes (k : nat) (n : N) : bytes :=
  match k with
  | O => []
  | S k => byte_of (N.land n 255) :: le_bytes k (N.shiftr n 8)
  end.

Definition toy_digest (b : bytes) : Hash256 :=
  let n := fold_left (λ acc x, N.land (acc * 1000003 + code x + 1) 18446744073709551615)%N b 7%N in
  let d := le_bytes 8 n in
  default zero_hash (hash_of_bytes (d ++ d ++ d ++ d)).

Definition toy_sign (key : Hash256) (message : bytes) : bytes :=
  let d := hash_bytes (toy_digest (hash_bytes key ++ message)) in d ++ d.

#[export] Instance toy_primitives : Primitives := {|
  sha256 := toy_digest;
  ryu_format_finite := λ _, lit "0.5";
  ed25519_key_valid := λ _, true;
  ed25519_verify_strict := λ key message s, s =? toy_sign key message;
  ed25519_public := λ secret, secret;
  ed25519_sign := toy_sign;
|}.

#[export] Instance toy_hash_order : HashOrder := {|
  hash_iter := λ K V _ _ m, map_to_list m;
  hash_iter_perm := λ K V _ _ m, Permutation_refl _;
|}.

(** ** Ids, actors and payloads *)

Definition space0 : Hash256 := hash_fill x01.
Definition thread0 : Hash256 := hash_fill x02.
Definition scope0 : Hash256 := hash_fill x03.
Definition human_key : Hash256 := hash_fill x09.

Definition human := mk_author "human" AuthorType.User None.
Definition agent := mk_author "agent" AuthorType.Provider None.
Definition tool := mk_author "tool" AuthorType.Executor None.

Definition request0 := mk_RequestData "ship it" scope0 [] None.
Definition requirement0 := mk_RequirementData "R1" "tests pass" true None Provenance.UserAuthored.
Definition capability0 := mk_CapabilityData "agent" "shell" scope0 CapabilityMode.Ask None.

(** The payloads that refer to earlier records. *)
Definition action0 (request : RecordId) :=
  mk_ActionData request "shell" scope0 ExecMode.Internal (VString "make").
Definition approval0 (action_hash : Hash256) :=
  mk_ApprovalData (Some action_hash) None scope0 (Some "agent") None.
Definition result0 (action : RecordId) := mk_ResultData action ResultStatus.Success "ok" None.
Definition response0 (request : RecordId) := mk_ResponseData request "done" 0 true.
Definition retraction0 (target : RecordId) := mk_RetractionData target "wrong".

(** ** Parsers recognising a finite list of payloads *)

Definition parse_one_of `{Serialize A} (l : list A) (b : bytes) : option A :=
  snd <$> list_find (λ x, canonical_json x = Some b) l.

Definition all_verdicts : list VerdictData :=
  mk_VerdictData VerdictResult.Accept None ::
  ((λ c, mk_VerdictData VerdictResult.Reject (Some c)) <$>
    [ReasonCode.InvalidPayload; ReasonCode.AuthorRoleInvalid; ReasonCode.ApprovalMissing;
     ReasonCode.RequirementInvalid; ReasonCode.SignatureMissing; ReasonCode.SignatureInvalid;
     ReasonCode.UnknownSchema; ReasonCode.KindSchemaMismatch; ReasonCode.RefUnresolved;
     ReasonCode.RefCrossSpace; ReasonCode.RequestMissing; ReasonCode.CapabilityMissing;
     ReasonCode.CapabilityDenied; ReasonCode.ApprovalExpired; ReasonCode.ActionClosed;
     ReasonCode.ReplacementInvalid; ReasonCode.ExternalReceiptRequired;
     ReasonCode.EvidenceBelowThreshold; ReasonCode.Refused; ReasonCode.InvalidCheckpoint;
     ReasonCode.AuthorityRefMissing; ReasonCode.SourceBindingInvalid; ReasonCode.LineageInvalid;
     ReasonCode.PayloadRefUnresolved; ReasonCode.EvaluationInvalid; ReasonCode.SelectionInvalid;
     ReasonCode.ReaffirmationInvalid; ReasonCode.ArtifactRefInvalid]).

Record Payloads := {
  x_actions : list ActionData;
  x_responses : list ResponseData;
  x_results : list ResultData;
  x_approvals : list ApprovalData;
  x_retractions : list RetractionData;
  x_plans : list PlanData;
  x_evaluations : list EvaluationDataRaw;
  x_candidates : list CandidateData;
  x_selections : list SelectionData;
}.

(** A parser for the fixed payloads above and the given ones. *)
Definition serde_for (p : Payloads) : Serde := {|
  from_slice_request := parse_one_of [request0];
  from_slice_action := parse_one_of (x_actions p);
  from_slice_response := parse_one_of (x_responses p);
  from_slice_result := parse_one_of (x_results p);
  from_slice_requirement := parse_one_of [requirement0];
  from_slice_capability := parse_one_of [capability0];
  from_slice_approval := parse_one_of (x_approvals p);
  from_slice_summary := λ _, None;
  from_slice_refusal := λ _, None;
  from_slice_retraction := parse_one_of (x_retractions p);
  from_slice_usage := λ _, None;
  from_slice_verdict := parse_one_of all_verdicts;
  from_slice_plan := parse_one_of (x_plans p);
  from_slice_candidate := parse_one_of (x_candidates p);
  from_slice_evaluation := λ _, head (x_evaluations p);
  from_slice_evaluation_v2 := λ _, None;
  from_slice_selection := parse_one_of (x_selections p);
|}.

(** ** Growing a log by one decided record *)

(** What the commit protocol builds for a proposal: the subject with derived
    evidence and computed id, and the verdict the rules demand. *)
Definition subject_of `{Serde} (rules : VerifierRules) (log : list record)
    (author : Author) (kind : Kind.t) (schema : string) (data : option bytes) (refs : list Ref)
    : record :=
  let s := default empty_state (build_state_unchecked log) in
  let r := mk_record zero_hash space0 thread0 (N.of_nat (length log) + 1)%N author kind
    (schema_id schema) (default [] data) (sort_and_dedup_refs refs) Evidence.Assumed in
  let evidence := derive_evidence (schema_id schema) (ref_evidences r (prior_of log) s) in
  let r := mk_record zero_hash space0 thread0 (rec_time r) author kind (schema_id schema)
    (rec_data r) (rec_refs r) evidence in
  default r (with_computed_id r).

Definition verdict_record `{Serde} (rules : VerifierRules) (log : list record) (r : record)
    : record :=
  let s := default empty_state (build_state_unchecked log) in
  let v := mk_record zero_hash space0 thread0 (rec_time r + 1)%N
    (mk_author "verifier" AuthorType.Verifier None) Kind.Verdict (schema_id SCHEMA_VERDICT)
    (default [] (encode (due_verdict rules log s r)))
    [mk_ref RefType.Cause (rec_id r)] Evidence.Deterministic in
  default v (with_computed_id v).

Definition decide_record `{Serde} (rules : VerifierRules) (log : list record) (r : record)
    : list record := log ++ [r; verdict_record rules log r].

Definition rules0 : VerifierRules :=
  with_author_role "tool" AuthorType.Executor
    (with_author_role "agent" AuthorType.Provider
      (with_author_role "human" AuthorType.User (new_rules space0 100))).

(** The id a subject has once built. *)
Definition cause (id : RecordId) := mk_ref RefType.Cause id.
Definition need (id : RecordId) := mk_ref RefType.Require_ id.

(** ** An approved action, its result, the closing response, and a late
    retraction of the capability *)

Module Approved.
Definition x0 := serde_for (Build_Payloads [] [] [] [] [] [] [] [] []).
Definition r1 := Eval vm_compute in
  subject_of (H := x0) rules0 [] human Kind.Request SCHEMA_REQUEST (encode request0) [].
Definition log1 := Eval vm_compute in decide_record (H := x0) rules0 [] r1.
Definition r2 := Eval vm_compute in
  subject_of (H := x0) rules0 log1 human Kind.Capability SCHEMA_CAPABILITY
    (encode capability0) [].
Definition log2 := Eval vm_compute in decide_record (H := x0) rules0 log1 r2.

Definition action := action0 (rec_id r1).
Definition approval := Eval vm_compute in
  approval0 (default zero_hash (action_approval_hash "agent" action)).
Definition x1 := serde_for
  (Build_Payloads [action] [response0 (rec_id r1)] [] [approval]
     [retraction0 (rec_id r2)] [] [] [] []).
Definition r3 := Eval vm_compute in
  subject_of (H := x1) rules0 log2 human Kind.Approval SCHEMA_APPROVAL (encode approval) [].
Definition log3 := Eval vm_compute in decide_record (H := x1) rules0 log2 r3.
Definition r4 := Eval vm_compute in
  subject_of (H := x1) rules0 log3 agent Kind.Action SCHEMA_ACTION (encode action)
    [need (rec_id r3); need (rec_id r2)].
Definition log4 := Eval vm_compute in decide_record (H := x1) rules0 log3 r4.

#[export] Instance serde : Serde := serde_for
  (Build_Payloads [action] [response0 (rec_id r1)] [result0 (rec_id r4)] [approval]
     [retraction0 (rec_id r2)] [] [] [] []).
Definition r5 := Eval vm_compute in
  subject_of rules0 log4 tool Kind.Result SCHEMA_RESULT
    (encode (result0 (rec_id r4))) [cause (rec_id r4)].
Definition log5 := Eval vm_compute in decide_record rules0 log4 r5.
Definition r6 := Eval vm_compute in
  subject_of rules0 log5 agent Kind.Response SCHEMA_RESPONSE
    (encode (response0 (rec_id r1))) [].
Definition log6 := Eval vm_compute in decide_record rules0 log5 r6.
Definition r7 := Eval vm_compute in
  subject_of rules0 log6 human Kind.Retraction SCHEMA_RETRACTION
    (encode (retraction0 (rec_id r2))) [cause (rec_id r2)].
Definition log := Eval vm_compute in decide_record rules0 log6 r7.
End Approved.

(** ** A requirement key released by a second retraction of the same target *)

Module Requirements.
Definition requirement (H : Serde) (log : list record) (request : RecordId) :=
  subject_of rules0 log human Kind.Requirement SCHEMA_REQUIREMENT
    (encode requirement0) [cause request].
Definition retract (H : Serde) (log : list record) (target : RecordId) :=
  subject_of rules0 log human Kind.Retraction SCHEMA_RETRACTION
    (encode (retraction0 target)) [cause target].

Definition x0 := serde_for (Build_Payloads [] [] [] [] [] [] [] [] []).
Definition r1 := Approved.r1.
Definition log1 := Eval vm_compute in decide_record (H := x0) rules0 [] r1.
Definition q1 := Eval vm_compute in requirement x0 log1 (rec_id r1).
Definition log2 := Eval vm_compute in decide_record (H := x0) rules0 log1 q1.

#[export] Instance serde : Serde :=
  serde_for (Build_Payloads [] [] [] [] [retraction0 (rec_id q1)] [] [] [] []).
Definition t1 := Eval vm_compute in retract serde log2 (rec_id q1).
Definition log3 := Eval vm_compute in decide_record rules0 log2 t1.
Definition q2 := Eval vm_compute in requirement serde log3 (rec_id r1).
Definition log4 := Eval vm_compute in decide_record rules0 log3 q2.
Definition t2 := Eval vm_compute in retract serde log4 (rec_id q1).
Definition log5 := Eval vm_compute in decide_record rules0 log4 t2.
Definition q3 := Eval vm_compute in requirement serde log5 (rec_id r1).
Definition log := Eval vm_compute in decide_record rules0 log5 q3.
End Requirements.

(** ** A request signed by a pinned identity *)

Module Signed.
Definition rules : VerifierRules :=
  mk_VerifierRules (rules_space rules0) (kind_schema_map rules0) ∅
    {["human" := {[human_key]}]} (author_roles rules0) (admin_retraction_actors rules0)
    (allowed_summary_types rules0) (evidence_thresholds rules0) (max_context_records rules0)
    (min_binding rules0) (selection_requires_evaluation rules0) (reaffirmation_actors rules0)
    (max_considered rules0) (selection_requires_approval rules0)
    (reject_compromised_continuation rules0).
Definition unsigned := Eval vm_compute in Approved.r1.
Definition signature := Eval vm_compute in sign human_key unsigned.
Definition signed_human := Eval vm_compute in mk_author "human" AuthorType.User signature.
Definition r1 := Eval vm_compute in
  subject_of (H := Approved.serde) rules [] signed_human Kind.Request SCHEMA_REQUEST
    (encode request0) [].
Definition log := Eval vm_compute in decide_record (H := Approved.serde) rules [] r1.
End Signed.

(** ** A running plan of two dependent tasks *)

Module Planned.
Definition task (id : string) (deps : list string) (status : TaskStatus.t) : PlanTask :=
  mk_PlanTask id "do it" PlanTaskKind.Generic None [] None TaskDoneWhen.ToolSuccess status None
    deps FailurePolicy.AskUser.
Definition tasks := [task "b" ["a"] TaskStatus.Pending; task "a" [] TaskStatus.Running].
Definition plan := Eval vm_compute in mk_PlanData (rec_id Approved.r1) tasks PlanStatus.Running.
#[export] Instance serde : Serde := serde_for (Build_Payloads [] [] [] [] [] [plan] [] [] []).
Definition r2 := Eval vm_compute in
  subject_of rules0 Approved.log1 agent Kind.Plan SCHEMA_PLAN (encode plan)
    [cause (rec_id Approved.r1)].
Definition log := Eval vm_compute in decide_record rules0 Approved.log1 r2.
End Planned.

(** ** A selection withdrawn after work continued from it *)

Module Lineage.
(** Selections need no evaluation here. *)
Definition rules : VerifierRules :=
  mk_VerifierRules (rules_space rules0) (kind_schema_map rules0) ∅ ∅ (author_roles rules0)
    (admin_retraction_actors rules0) (allowed_summary_types rules0) ∅
    (max_context_records rules0) (min_binding rules0) false ∅ (max_considered rules0)
    (selection_requires_approval rules0) (reject_compromised_continuation rules0).
Definition oid : string := "0123456789abcdef0123456789abcdef01234567".
Definition source := mk_SourceBinding (mk_GitSource SourceAlgo.Sha1 oid None) None BindingMode.Reported.
Definition root := mk_CandidateData source CandidateBasis.Root None None None.
Definition x0 := serde_for (Build_Payloads [] [] [] [] [] [] [] [root] []).
Definition c1 := Eval vm_compute in
  subject_of (H := x0) rules [] agent Kind.Candidate SCHEMA_CANDIDATE (encode root) [].
Definition log1 := Eval vm_compute in decide_record (H := x0) rules [] c1.

Definition choice := mk_SelectionData "pick" [rec_id c1] (SelectionOutcome.Selected [rec_id c1]) None.
Definition x1 := serde_for (Build_Payloads [] [] [] [] [] [] [] [root] [choice]).
Definition s1 := Eval vm_compute in
  subject_of (H := x1) rules log1 human Kind.Selection SCHEMA_SELECTION (encode choice)
    [need (rec_id c1)].
Definition log2 := Eval vm_compute in decide_record (H := x1) rules log1 s1.

Definition next := mk_CandidateData source CandidateBasis.Continuation (Some (rec_id c1)) None None.
#[export] Instance serde : Serde := serde_for
  (Build_Payloads [] [] [] [] [retraction0 (rec_id s1)] [] [] [root; next] [choice]).
Definition c2 := Eval vm_compute in
  subject_of rules log2 agent Kind.Candidate SCHEMA_CANDIDATE (encode next) [cause (rec_id s1)].
Definition log3 := Eval vm_compute in decide_record rules log2 c2.
Definition t1 := Eval vm_compute in
  subject_of rules log3 human Kind.Retraction SCHEMA_RETRACTION
    (encode (retraction0 (rec_id s1))) [cause (rec_id s1)].
Definition log4 := Eval vm_compute in decide_record rules log3 t1.

(** The replacement that restores it. *)
Definition s2 := Eval vm_compute in
  subject_of rules log4 human Kind.Selection SCHEMA_SELECTION (encode choice)
    [need (rec_id c1); mk_ref RefType.Replace (rec_id s1)].
Definition log := Eval vm_compute in decide_record rules log4 s2.
End Lineage.

(** ** An evaluated candidate *)

Module Evaluated.
Definition raw : EvaluationDataRaw :=
  mk_EvaluationData (rec_id Lineage.c1) "speed" None
    (EvaluationOutcome.Scored (mk_ScoredValueRaw 15 1)).
Definition evaluation : EvaluationData :=
  mk_EvaluationData (rec_id Lineage.c1) "speed" None
    (EvaluationOutcome.Scored (mk_ScoredValue 15 1)).
#[export] Instance serde : Serde :=
  serde_for (Build_Payloads [] [] [] [] [] [] [raw] [Lineage.root] []).
Definition e1 := Eval vm_compute in
  subject_of Lineage.rules Lineage.log1 agent Kind.Evaluation SCHEMA_EVALUATION
    (encode evaluation) [mk_ref RefType.Use (rec_id Lineage.c1)].
Definition log := Eval vm_compute in decide_record Lineage.rules Lineage.log1 e1.
End Evaluated.
