(* ===== verification/WorkFacts.v ===== *)
(** * Requests, actions and responses along a log

    How each accepted record moves the work indexes of the state, and the
    induction principle over accepted records of a valid log. *)

From S2P Require Export Examples.

(** ** What a record closes or answers *)

Section effects.
Context `{Primitives, Serde}.

(** The action a record closes, if any. *)
Definition closed_action (r : record) : option RecordId :=
  match rec_kind r with
  | Kind.Result => rt_action_id <$> (decode (rec_data r) : option ResultData)
  | Kind.Refusal =>
      d ← (decode (rec_data r) : option RefusalData);
      if rf_target_kind d =? RefusalTarget.Action then Some (rf_target_id d) else None
  | _ => None
  end.

(** The request a closing response answers for good. *)
Definition response_closes (r : record) : option RecordId :=
  match rec_kind r with
  | Kind.Response =>
      d ← (decode (rec_data r) : option ResponseData);
      if rs_closes_request d then Some (rs_request_id d) else None
  | _ => None
  end.

Definition refused_request (r : record) : option RecordId :=
  match rec_kind r with
  | Kind.Refusal =>
      d ← (decode (rec_data r) : option RefusalData);
      if rf_target_kind d =? RefusalTarget.Request then Some (rf_target_id d) else None
  | _ => None
  end.

(** The request and turn of a response. *)
Definition answered (r : record) : option (RecordId * N) :=
  match rec_kind r with
  | Kind.Response =>
      (λ d, (rs_request_id d, rs_turn_index d)) <$> (decode (rec_data r) : option ResponseData)
  | _ => None
  end.

(** The request an action serves. *)
Definition served (r : record) : option RecordId :=
  match rec_kind r with
  | Kind.Action => ac_request_id <$> (decode (rec_data r) : option ActionData)
  | _ => None
  end.

Definition same_tasks (s s' : State) : Prop :=
  open_actions s' = open_actions s ∧ action_to_request s' = action_to_request s ∧
  active_requests s' = active_requests s ∧ response_turns s' = response_turns s.

Lemma same_tasks_trans s1 s2 s3 : same_tasks s1 s2 → same_tasks s2 s3 → same_tasks s1 s3.
Proof. unfold same_tasks. intuition congruence. Qed.

Lemma retraction_same_tasks t ids s :
  same_tasks s (release_requirement_key t (deactivate_class_approval t
    (deactivate_exact_approval t (deactivate_capability t
      (fold_left (λ s id, mark_tainted id s) ids s))))).
Proof.
  assert (W1 : ∀ s, same_tasks s (deactivate_capability t s))
    by (intros; unfold deactivate_capability; repeat case_match; by repeat split).
  assert (W2 : ∀ s, same_tasks s (deactivate_exact_approval t s))
    by (intros; unfold deactivate_exact_approval; repeat case_match; by repeat split).
  assert (W3 : ∀ s, same_tasks s (deactivate_class_approval t s))
    by (intros; unfold deactivate_class_approval; repeat case_match; by repeat split).
  assert (W4 : ∀ s, same_tasks s (release_requirement_key t s))
    by (intros; unfold release_requirement_key; repeat case_match; by repeat split).
  destruct (fold_mark_frame ids s) as (T & ->).
  eapply same_tasks_trans; [|apply W4]. eapply same_tasks_trans; [|apply W3].
  eapply same_tasks_trans; [|apply W2]. eapply same_tasks_trans; [|apply W1]. by repeat split.
Qed.

Definition is_task_kind (k : Kind.t) : bool :=
  match k with
  | Kind.Request | Kind.Action | Kind.Result | Kind.Refusal | Kind.Response => true
  | _ => false
  end.

Lemma apply_kind_same_tasks r s0 :
  is_task_kind (rec_kind r) = false → preserves (same_tasks s0) (apply_kind r).
Proof.
  intros Hk. unfold apply_kind. destruct (rec_kind r); try done; preserves_steps;
    intros s Hs; (eapply same_tasks_trans; [exact Hs|]); clear;
    try (eapply same_tasks_trans; [|apply retraction_same_tasks]; by repeat split);
    unfold insert_replaced, consume_approval; repeat case_match; by repeat split.
Qed.

Lemma close_same_tasks a s : same_tasks s (close_action_for_request a s).
Proof. unfold close_action_for_request. repeat case_match; by repeat split. Qed.

Lemma consume_same_tasks h refs s : same_tasks s (consume_approval h refs s).
Proof. unfold consume_approval. repeat case_match; by repeat split. Qed.

(** The bookkeeping of counts and approvals leaves the tasks alone. *)
Lemma close_tasks a s :
  open_actions (close_action_for_request a s) = open_actions s ∧
  action_to_request (close_action_for_request a s) = action_to_request s ∧
  active_requests (close_action_for_request a s) = active_requests s ∧
  response_turns (close_action_for_request a s) = response_turns s.
Proof. apply close_same_tasks. Qed.

(** The tasks after an accepted record. *)
Record tasks_step (r : record) (s s' : State) : Prop := {
  t_open a : a ∈ open_actions s' ↔
    a ∈ open_actions s ∧ closed_action r ≠ Some a ∨ rec_kind r = Kind.Action ∧ a = rec_id r;
  t_served a : action_to_request s' !! a =
    match served r with
    | Some q => if decide (rec_id r = a) then Some q else action_to_request s !! a
    | None => action_to_request s !! a
    end;
  t_requests q : q ∈ active_requests s' ↔
    q ∈ active_requests s ∧ response_closes r ≠ Some q ∧ refused_request r ≠ Some q ∨
    rec_kind r = Kind.Request ∧ q = rec_id r;
  t_turns q : response_turns s' !! q =
    match answered r with
    | Some (q', _) =>
        if decide (q' = q) then Some (saturating_add_u32 (default 0%N (response_turns s !! q)) 1)
        else response_turns s !! q
    | None => response_turns s !! q
    end;
}.

Lemma tasks_step_same r s s1 s' :
  same_tasks s s1 → tasks_step r s1 s' → tasks_step r s s'.
Proof. intros (E1 & E2 & E3 & E4) []. split; congruence || (intros; rewrite <- ?E1, <- ?E2, <- ?E3, <- ?E4; auto). Qed.

Lemma apply_kind_tasks r s s' :
  apply_kind r s = (s', inr tt) → tasks_step r s s'.
Proof.
  intros Hrun. destruct (is_task_kind (rec_kind r)) eqn:Hk.
  2: { pose proof (apply_kind_same_tasks r s Hk s) as Hs. rewrite Hrun in Hs.
    destruct Hs as (E1 & E2 & E3 & E4); [by repeat split|]. simpl in *.
    split; unfold closed_action, response_closes, refused_request, answered, served; intros;
      rewrite ?E1, ?E2, ?E3, ?E4; destruct (rec_kind r); naive_solver. }
  unfold apply_kind in Hrun. unfold is_task_kind in Hk.
  destruct (rec_kind r) eqn:Hkind; try done; revert Hrun; unfold_steps; intros Hrun; eff_inv Hrun.
  all: split; unfold closed_action, response_closes, refused_request, answered, served;
    rewrite Hkind; intros x;
    repeat match goal with Hd : decode _ = Some _ |- _ => rewrite Hd; clear Hd end;
    cbn [fmap option_fmap option_map mbind option_bind].
  all: try destruct (rf_target_kind _); try destruct (rs_closes_request _); simpl;
    repeat match goal with
    | |- context [consume_approval ?h ?k ?s] =>
        destruct (consume_same_tasks h k s) as (C1 & C2 & C3 & C4); rewrite ?C1, ?C2, ?C3, ?C4;
        clear C1 C2 C3 C4
    | |- context [close_action_for_request ?a ?s] =>
        destruct (close_same_tasks a s) as (C1 & C2 & C3 & C4); rewrite ?C1, ?C2, ?C3, ?C4;
        clear C1 C2 C3 C4; simpl
    end.
  all: first
    [ done
    | rewrite ?elem_of_union, ?elem_of_difference, ?elem_of_singleton; clear; naive_solver
    | case_decide; subst; [by rewrite lookup_insert_eq | by rewrite lookup_insert_ne] ].
Qed.

Lemma apply_accepted_tasks r s s' :
  apply_accepted r s = (s', inr tt) → tasks_step r s s'.
Proof.
  intros Hrun%apply_accepted_ok%apply_kind_tasks. eapply tasks_step_same; [|exact Hrun].
  set (s1 := set_accepted_records _ s).
  destruct (index_refs_spec r s1) as (T & D & -> & _). by repeat split.
Qed.
End effects.

(** ** Induction over the accepted records of a valid log *)

Section induction.
Context `{Primitives, Serde, HashOrder} (rules : VerifierRules).

(** An invariant that ignores [applied_up_to] and looks at the log through
    its accepted records only. *)
Lemma replays_accepted_ind (P : (record → Prop) → State → Prop) :
  (∀ (A B : record → Prop) s t, (∀ x, A x ↔ B x) → P A s → P B (set_applied_up_to t s)) →
  P (λ _, False) empty_state →
  (∀ log s r s', accepted_after rules log s r → P (accepted_in log) s →
     apply_accepted r s = (s', inr tt) →
     P (λ x, accepted_in log x ∨ x = r) s') →
  ∀ log s, Replays rules log s → P (accepted_in log) s.
Proof.
  intros Hext Hnil Hstep. induction 1 as [|log s r v s' Hlog IH Hk Hf Hid Ht Htv Hb Hv Hap].
  { apply (Hext (λ _, False) _ empty_state 0%N); [|done]. intros x.
    split; [done | by intros ?%accepted_in_nil]. }
  pose proof (λ x, accepted_in_snoc rules log s r v _ x Hlog Hk Hf Hv) as Hsnoc.
  destruct (apply_record_due rules _ _ _ _ Hap) as [[Hdue Hacc]|[Hdue ->]].
  - apply (Hext (λ x, accepted_in log x ∨ x = r)).
    + intros x. rewrite Hsnoc, Hdue. naive_solver.
    + apply (Hstep log s); [|done..]. unfold accepted_after. split_and!; try done.
      by apply due_accept_check.
  - apply (Hext (accepted_in log)); [|done]. intros x. rewrite Hsnoc. split; [by left|].
    intros [|[_ E]]; [done|]. by rewrite E in Hdue.
Qed.

Lemma accepted_fresh log s r x :
  accepted_after rules log s r → accepted_in log x → rec_id x ≠ rec_id r.
Proof.
  intros (_ & _ & Hf & _) (Hx & _) E. rewrite find_first_None in Hf. by apply (Hf x).
Qed.

Lemma accepted_after_kind log s r :
  accepted_after rules log s r → check_kind_specific r (prior_of (log ++ [r])) rules s = None.
Proof.
  intros (_ & Hk & _ & _ & _ & Hc). by apply check_record_passed in Hc as [].
Qed.
End induction.

(** ** Tasks of a valid log *)

Section tasks.
Context `{Primitives, Serde, HashOrder} (rules : VerifierRules).

(** An open action is an accepted action that no accepted record closes, and
    no action is closed twice. *)
Definition open_exact (A : record → Prop) (s : State) : Prop :=
  (∀ a, a ∈ open_actions s ↔
     (∃ x, A x ∧ rec_kind x = Kind.Action ∧ rec_id x = a) ∧
     ¬ ∃ x, A x ∧ closed_action x = Some a) ∧
  (∀ x a, A x → closed_action x = Some a →
     ∃ y, A y ∧ rec_kind y = Kind.Action ∧ rec_id y = a) ∧
  (∀ x y a, A x → A y → closed_action x = Some a → closed_action y = Some a → x = y) ∧
  (∀ x, A x → rec_kind x = Kind.Action →
     rec_id x ∈ open_actions s ∨ ∃ z, A z ∧ closed_action z = Some (rec_id x)).

Lemma closed_was_open log s r a :
  accepted_after rules log s r → closed_action r = Some a → a ∈ open_actions s.
Proof.
  intros Hr%accepted_after_kind Ha. unfold check_kind_specific, closed_action in *.
  destruct (rec_kind r); try done.
  - destruct (check_result_open rules r _ s Hr) as (d & Hd & Ho). rewrite Hd in Ha.
    by injection Ha as <-.
  - destruct (check_refusal_open r _ s Hr) as (d & Hd & Ho). rewrite Hd in Ha.
    cbn [mbind option_bind] in Ha. case_bool_decide; [|done]. injection Ha as <-. auto.
Qed.

Lemma replays_open_exact log s : Replays rules log s → open_exact (accepted_in log) s.
Proof.
  apply (replays_accepted_ind rules open_exact).
  - intros A B t0 t HAB. unfold open_exact. simpl. by setoid_rewrite HAB.
  - split_and!; [|naive_solver..]. intros a. simpl. set_solver.
  - clear log s. intros log s r s' Hr (I1 & I2 & I3 & I4) Hrun%apply_accepted_tasks.
    pose proof (accepted_fresh rules log s r) as Hfresh.
    assert (Hclosed : ∀ a, closed_action r = Some a → a ∈ open_actions s)
      by (intros; by eapply closed_was_open).
    assert (Hold : ∀ x, accepted_in log x → closed_action x ≠ Some (rec_id r)).
    { intros x Hx Ha. destruct (I2 x _ Hx Ha) as (y & Hy & _ & E). by apply (Hfresh y). }
    assert (Hact : rec_kind r = Kind.Action → ∀ a, closed_action r ≠ Some a)
      by (unfold closed_action; by intros ->).
    split_and!.
    + intros a. rewrite (t_open _ _ _ Hrun), I1. split.
      * intros [[[(x & Hx & Hk & E) Hno] Hne]|[Hk ->]].
        -- split; [by eauto|]. intros (y & [Hy| ->] & Hc); [|done]. apply Hno. eauto.
        -- split; [by eauto|]. intros (y & [Hy| ->] & Hc); [by eapply Hold | by eapply Hact].
      * intros [(x & [Hx| ->] & Hk & E) Hno]; [left | by right].
        split_and!; [by eauto | |]; [intros (y & Hy & Hc) | intros Hc]; apply Hno; eauto.
    + intros x a [Hx| ->] Hc; [destruct (I2 x a Hx Hc) as (y & ? & ?); eauto|].
      apply Hclosed, I1 in Hc as [(y & ? & ?) _]. eauto.
    + intros x y a [Hx| ->] [Hy| ->] Hcx Hcy; [by eauto | | |done].
      * apply Hclosed, I1 in Hcy as [_ []]. eauto.
      * apply Hclosed, I1 in Hcx as [_ []]. eauto.
    + intros x [Hx| ->] Hk; [|left; apply (t_open _ _ _ Hrun); by right].
      destruct (decide (closed_action r = Some (rec_id x))) as [Hc|Hc]; [by eauto|].
      destruct (I4 x Hx Hk) as [Ho|(z & Hz & Hc')]; [left | by eauto].
      apply (t_open _ _ _ Hrun). by left.
Qed.

(** An active request is an accepted request that no accepted record ends. *)
Definition ended_by (x : record) (q : RecordId) : Prop :=
  response_closes x = Some q ∨ refused_request x = Some q.

Definition requests_exact (A : record → Prop) (s : State) : Prop :=
  (∀ q, q ∈ active_requests s ↔
     (∃ x, A x ∧ rec_kind x = Kind.Request ∧ rec_id x = q) ∧ ¬ ∃ x, A x ∧ ended_by x q) ∧
  (∀ x q, A x → ended_by x q → ∃ y, A y ∧ rec_kind y = Kind.Request ∧ rec_id y = q).

Lemma check_response_ok r prior s :
  check_response r prior s = None →
  ∃ d : ResponseData, decode (rec_data r) = Some d ∧
    rs_request_id d ∈ active_requests s ∧
    default 0%N (response_turns s !! rs_request_id d) ≠ u32_max ∧
    rs_turn_index d = default 0%N (response_turns s !! rs_request_id d) ∧
    (rs_closes_request d = true → request_open_action_count s !! rs_request_id d = None ∨
       request_open_action_count s !! rs_request_id d = Some 0%N).
Proof.
  unfold check_response. intros Hc. destruct (decode (rec_data r) : option ResponseData) as [d|];
    [|done]. exists d. split; [done|].
  repeat (case_match; try done). bool_simpl. split_and!; try done.
  intros Hcl. destruct (request_open_action_count s !! rs_request_id d) as [n|] eqn:En;
    [right | by left].
  rewrite Hcl in *. simpl in *.
  match goal with Hz : (0 <? n)%N = false |- _ => apply N.ltb_ge in Hz end. f_equal. lia.
Qed.

Lemma ended_was_active log s r q :
  accepted_after rules log s r → ended_by r q → q ∈ active_requests s.
Proof.
  intros Hr%accepted_after_kind Hq. unfold check_kind_specific, ended_by, response_closes,
    refused_request in *.
  destruct (rec_kind r); try by destruct Hq.
  - destruct (check_response_ok r _ s Hr) as (d & Hd & Ho & _). rewrite Hd in Hq.
    cbn [mbind option_bind] in Hq. destruct Hq as [Hq|]; [|done].
    case_match; [|done]. by injection Hq as <-.
  - destruct Hq as [|Hq]; [done|]. unfold check_refusal in Hr.
    destruct (decode (rec_data r) : option RefusalData) as [d|] eqn:Hd; [|done].
    cbn [mbind option_bind] in Hq. case_bool_decide as Ht; [|done]. injection Hq as <-.
    rewrite Ht in Hr. rule_inv Hr; done.
Qed.

Lemma replays_requests_exact log s : Replays rules log s → requests_exact (accepted_in log) s.
Proof.
  apply (replays_accepted_ind rules requests_exact).
  - intros A B t0 t HAB. unfold requests_exact. simpl. by setoid_rewrite HAB.
  - split; [|naive_solver]. intros a. simpl. set_solver.
  - clear log s. intros log s r s' Hr (I1 & I2) Hrun%apply_accepted_tasks.
    pose proof (accepted_fresh rules log s r) as Hfresh.
    assert (Hended : ∀ q, ended_by r q → q ∈ active_requests s)
      by (intros; by eapply ended_was_active).
    assert (Hold : ∀ x, accepted_in log x → ¬ ended_by x (rec_id r)).
    { intros x Hx Ha. destruct (I2 x _ Hx Ha) as (y & Hy & _ & E). by apply (Hfresh y). }
    assert (Hreq : rec_kind r = Kind.Request → ∀ q, ¬ ended_by r q).
    { unfold ended_by, response_closes, refused_request. intros -> q. naive_solver. }
    split.
    + intros q. rewrite (t_requests _ _ _ Hrun), I1. split.
      * intros [[[(x & Hx & Hk & E) Hno] [N1 N2]]|[Hk ->]].
        -- split; [by eauto|]. intros (y & [Hy| ->] & Hc); [apply Hno; by eauto | by destruct Hc].
        -- split; [by eauto|]. intros (y & [Hy| ->] & Hc); [by eapply Hold | by eapply Hreq].
      * intros [(x & [Hx| ->] & Hk & E) Hno]; [left | by right].
        split_and!; [by eauto | | |]; [intros (y & Hy & Hc) | intros Hc..]; apply Hno;
          unfold ended_by; eauto.
    + intros x q [Hx| ->] Hc; [destruct (I2 x q Hx Hc) as (y & ? & ?); eauto|].
      apply Hended, I1 in Hc as [(y & ? & ?) _]. eauto.
Qed.
End tasks.

(** ** Requests served, turns answered *)

Section answers.
Context `{Primitives, Serde, HashOrder} (rules : VerifierRules).

Definition served_exact (A : record → Prop) (s : State) : Prop :=
  ∀ a q, action_to_request s !! a = Some q ↔ ∃ x, A x ∧ rec_id x = a ∧ served x = Some q.

Lemma served_some r prior s :
  check_kind_specific r prior rules s = None → rec_kind r = Kind.Action →
  ∃ q, served r = Some q ∧ q ∈ active_requests s.
Proof.
  unfold check_kind_specific, served. intros Hc Hk. rewrite Hk in *. unfold check_action in Hc.
  destruct (decode (rec_data r) : option ActionData) as [d|]; [|done].
  exists (ac_request_id d). split; [done|]. destruct (_ ∈? _) eqn:Ea in Hc; [|done]. by bool_simpl.
Qed.

Lemma replays_served_exact log s : Replays rules log s → served_exact (accepted_in log) s.
Proof.
  apply (replays_accepted_ind rules served_exact).
  - intros A B t0 t HAB. unfold served_exact. simpl. by setoid_rewrite HAB.
  - intros a q. simpl. split; [by rewrite lookup_empty | naive_solver].
  - clear log s. intros log s r s' Hr IH Hrun%apply_accepted_tasks a q.
    pose proof (accepted_fresh rules log s r) as Hfresh.
    rewrite (t_served _ _ _ Hrun). destruct (served r) as [q'|] eqn:Es.
    + destruct (decide (rec_id r = a)) as [<-|Hne].
      * split; [intros [= <-]; eauto|]. intros (x & [Hx| ->] & E & Hs); [|congruence].
        by destruct (Hfresh x Hr Hx).
      * rewrite (IH a q). split; [naive_solver|]. intros (x & [Hx| ->] & E & Hs); [eauto|done].
    + rewrite (IH a q). split; [naive_solver|]. intros (x & [Hx| ->] & E & Hs); [eauto|congruence].
Qed.

(** A request answered by a closing response has no open action left. *)
Lemma replays_closed_quiet log s x q :
  Replays rules log s → accepted_in log x → response_closes x = Some q → open_of s q = ∅.
Proof.
  intros Hlog Hx Hq. revert x q Hx Hq.
  refine (replays_accepted_ind rules (λ A s, ∀ x q, A x → response_closes x = Some q →
    open_of s q = ∅) _ _ _ log s Hlog); clear log s Hlog.
  - intros A B s t HAB IH x q Hx%HAB. by apply IH.
  - done.
  - intros log s r s' Hr IH Hrun x q Hx Hq.
    pose proof (accepted_after_kind rules log s r Hr) as Hkind.
    pose proof Hr as (Hlog & _). pose proof (apply_accepted_tasks _ _ _ Hrun) as Ht.
    destruct (replays_requests_exact rules log s Hlog) as [Hreq _].
    pose proof (replays_served_exact log s Hlog) as Hserved.
    assert (Hempty : open_of s q = ∅).
    { destruct Hx as [Hx| ->]; [by eapply IH|].
      unfold check_kind_specific, response_closes in *. destruct (rec_kind r) eqn:Hk; try done.
      destruct (check_response_ok r _ s Hkind) as (d & Hd & _ & _ & _ & Hcl). rewrite Hd in Hq.
      cbn [mbind option_bind] in Hq. case_match; [|done]. injection Hq as <-.
      destruct (replays_counts rules log s Hlog) as [_ Hc]. rewrite Hc in Hcl.
      case_bool_decide as Hz; [by apply size_empty_inv in Hz; apply leibniz_equiv|].
      destruct Hcl as [?|[= ?]]; [done.. | lia]. }
    apply set_eq. intros a. split; [|set_solver].
    intros [Hs Ha]%elem_of_filter. rewrite (t_open _ _ _ Ht) in Ha.
    rewrite (t_served _ _ _ Ht) in Hs.
    assert (Hno : ∀ b, b ∈ open_actions s → action_to_request s !! b ≠ Some q).
    { intros b Hb Hbq. assert (b ∈ open_of s q) by (by apply elem_of_filter). set_solver. }
    destruct Ha as [[Ha _]|[Hk ->]].
    + destruct (served r) as [q'|] eqn:Es; [|by destruct (Hno a Ha)].
      destruct (decide (rec_id r = a)) as [<-|]; [|by destruct (Hno a Ha)].
      destruct (proj1 (replays_open_exact rules log s Hlog) (rec_id r)) as [[(y & Hy & _ & E) _] _];
        [done|]. by destruct (accepted_fresh rules log s r y Hr Hy).
    + destruct (served_some r _ s Hkind Hk) as (q' & Es & Hact). rewrite Es in Hs.
      rewrite decide_True in Hs by done. injection Hs as ->.
      apply Hreq in Hact as [_ []]. destruct Hx as [Hx| ->]; [exists x; by split; [|left]|].
      unfold response_closes in Hq. by rewrite Hk in Hq.
Qed.

(** The turns answered for a request are an initial segment, each once. *)
Definition turns_exact (A : record → Prop) (s : State) : Prop :=
  (∀ q i, (i < default 0 (response_turns s !! q))%N ↔ ∃ x, A x ∧ answered x = Some (q, i)) ∧
  (∀ x y q i, A x → A y → answered x = Some (q, i) → answered y = Some (q, i) → x = y) ∧
  (∀ q, (default 0 (response_turns s !! q) <= u32_max)%N).

Lemma answered_next log s r q i :
  accepted_after rules log s r → answered r = Some (q, i) →
  i = default 0%N (response_turns s !! q) ∧ i ≠ u32_max.
Proof.
  intros Hr%accepted_after_kind Ha. unfold check_kind_specific, answered in *.
  destruct (rec_kind r); try done.
  destruct (check_response_ok r _ s Hr) as (d & Hd & _ & Hmax & Ht & _). rewrite Hd in Ha.
  injection Ha as <- <-. split; congruence.
Qed.

Lemma replays_turns_exact log s : Replays rules log s → turns_exact (accepted_in log) s.
Proof.
  apply (replays_accepted_ind rules turns_exact).
  - intros A B t0 t HAB. unfold turns_exact. simpl. by setoid_rewrite HAB.
  - split_and!; [|naive_solver|]; intros q; simpl; rewrite lookup_empty; simpl;
      [split; [lia | naive_solver] | unfold u32_max; lia].
  - clear log s. intros log s r s' Hr (I1 & I2 & I3) Hrun%apply_accepted_tasks.
    pose proof (t_turns _ _ _ Hrun) as Ht. pose proof (answered_next log s r) as Hn.
    destruct (answered r) as [[q0 i0]|] eqn:Ea.
    2: { unfold turns_exact. setoid_rewrite Ht. split_and!; [|naive_solver|done].
      intros q i. rewrite I1. naive_solver. }
    destruct (Hn q0 i0 Hr eq_refl) as [-> Hmax].
    assert (Hnew : ∀ q, default 0%N (response_turns s' !! q) =
      if decide (q0 = q) then (default 0 (response_turns s !! q) + 1)%N
      else default 0%N (response_turns s !! q)).
    { intros q. rewrite Ht. destruct (decide (q0 = q)) as [<-|]; [|done].
      cbn [default from_option id]. pose proof (I3 q0). unfold saturating_add_u32.
      unfold u32_max in *. lia. }
    split_and!.
    + intros q i. rewrite Hnew. split.
      * intros Hi. destruct (decide (q0 = q)) as [<-|Hne].
        -- destruct (decide (i = default 0%N (response_turns s !! q0))) as [->|]; [by eauto|].
           destruct (proj1 (I1 q0 i)) as (x & ? & ?); [lia | eauto].
        -- apply I1 in Hi as (x & ? & ?). eauto.
      * intros (x & [Hx| ->] & Hxa).
        -- assert (Hi : (i < default 0 (response_turns s !! q))%N) by (apply I1; eauto).
           case_decide; lia.
        -- rewrite Ea in Hxa. injection Hxa as <- <-. rewrite decide_True by done. lia.
    + intros x y q i [Hx| ->] [Hy| ->] Hxa Hya; [by eauto| | |done].
      * rewrite Ea in Hya. injection Hya as <- <-.
        assert ((default 0 (response_turns s !! q0) < default 0 (response_turns s !! q0))%N)
          by (apply I1; eauto). lia.
      * rewrite Ea in Hxa. injection Hxa as <- <-.
        assert ((default 0 (response_turns s !! q0) < default 0 (response_turns s !! q0))%N)
          by (apply I1; eauto). lia.
    + intros q. rewrite Hnew. pose proof (I3 q). case_decide as Hq; [subst q0|]; [|done]. lia.
Qed.
End answers.

(** ** Exact approvals are spent *)

Section spending.
Context `{Primitives, Serde, HashOrder} (rules : VerifierRules).

(** The content an exact approval for this record must name. *)
Definition approval_subject (r : record) : option Hash256 :=
  match rec_kind r with
  | Kind.Action =>
      d ← (decode (rec_data r) : option ActionData);
      action_approval_hash (author_id (rec_author r)) d
  | Kind.Selection =>
      d ← (decode (rec_data r) : option SelectionData);
      selection_approval_subject_hash (author_id (rec_author r))
        (find_replace_ref (rec_refs r)) d
  | _ => None
  end.

(** [r], arriving in state [s], requires the exact approval [id] that is in
    force for precisely its content. *)
Definition spends (s : State) (r : record) (id : RecordId) : Prop :=
  ∃ h, approval_subject r = Some h ∧ valid_approvals s !! h = Some id ∧
    requires_target (rec_refs r) id = true.

Lemma consume_spec h refs s h' id :
  valid_approvals (consume_approval h refs s) !! h' = Some id →
  valid_approvals s !! h' = Some id ∧ ¬ (h' = h ∧ requires_target refs id = true).
Proof.
  unfold consume_approval. destruct (valid_approvals s !! h) as [a|] eqn:Ea.
  - destruct (requires_target refs a) eqn:Er; simpl.
    + intros [Hne Hl]%lookup_delete_Some. split; [done|]. by intros [-> _].
    + intros Hl. split; [done|]. intros [-> Hr]. congruence.
  - intros Hl. split; [done|]. intros [-> _]. congruence.
Qed.

Lemma index_refs_valid r s : valid_approvals (index_refs r s) = valid_approvals s.
Proof. by destruct (index_refs_spec r s) as (T & D & -> & _). Qed.

Lemma apply_accepted_valid r s s' h id :
  apply_accepted r s = (s', inr tt) → valid_approvals s' !! h = Some id →
  id = rec_id r ∨
  valid_approvals s !! h = Some id ∧
    ¬ (approval_subject r = Some h ∧ requires_target (rec_refs r) id = true).
Proof.
  intros Hrun Hid.
  pose proof (apply_accepted_bounded (λ _ _, True)
    (λ h id, id = rec_id r ∨ valid_approvals s !! h = Some id) (λ _ _, True) (λ _, True) r) as Hb.
  assert (Hv : ∀ h id, valid_approvals (apply_accepted r s).1 !! h = Some id →
    id = rec_id r ∨ valid_approvals s !! h = Some id).
  { apply Hb; [done | intros; by left | done | done |]. split_and!; auto. }
  rewrite Hrun in Hv. destruct (Hv h id Hid) as [|Hs]; [by left|]. right. split; [done|].
  intros [Hsub Hreq]. apply apply_accepted_ok in Hrun. set (s1 := index_refs _ _) in Hrun.
  assert (Hs1 : valid_approvals s1 = valid_approvals s) by (unfold s1; by rewrite index_refs_valid).
  clear Hb Hv. unfold approval_subject, apply_kind in *. destruct (rec_kind r); try done.
  - unfold apply_action, decode_data in Hrun. eff_inv Hrun. simpl in Hid.
    apply consume_spec in Hid as [_ []].
    match goal with Hd : decode _ = Some _ |- _ => rewrite Hd in Hsub end.
    cbn [mbind option_bind] in Hsub. split; [congruence | done].
  - unfold apply_selection, decode_data in Hrun. eff_inv Hrun.
    apply consume_spec in Hid as [_ []].
    match goal with Hd : decode _ = Some _ |- _ => rewrite Hd in Hsub end.
    cbn [mbind option_bind] in Hsub. split; [congruence | done].
Qed.

Lemma valid_target log s h h' id :
  Replays rules log s → valid_approvals s !! h = Some id → approved_exactly log h' id → h = h'.
Proof.
  intros Hlog Hid (d' & (r' & Hr' & E' & _ & Hd') & Hh').
  destruct (replays_authority rules log s Hlog) as (_ & B & _ & _).
  destruct (B h id Hid) as (d & (r & Hr & E & _ & Hd) & Hh).
  assert (r = r') as <- by (eapply accepted_unique; eauto; congruence). congruence.
Qed.

Lemma split_snoc2 {A} (l k : list A) x v y m :
  l ++ [x; v] = k ++ y :: m →
  (∃ m', l = k ++ y :: m') ∨ k = l ∧ y = x ∨ k = l ++ [x] ∧ y = v.
Proof.
  intros E. apply app_eq_app in E as (n & [[-> Hn]|[-> Hn]]).
  - destruct n as [|z n]; simpl in Hn; [right; left; rewrite app_nil_r; by injection Hn|].
    injection Hn as -> ->. left. by eexists.
  - destruct n as [|z [|w [|]]]; simpl in Hn; try done.
    + injection Hn as -> _. right. left. by rewrite app_nil_r.
    + injection Hn as -> -> _. by right; right.
Qed.

(** Once spent, an approval is in force for nothing. *)
Lemma spent_gone log s l1 s1 r k id :
  Replays rules log s → log = l1 ++ r :: k → accepted_after rules l1 s1 r → spends s1 r id →
  ∀ h, valid_approvals s !! h ≠ Some id.
Proof.
  intros Hlog. revert l1 s1 r k id.
  induction Hlog as [|log s x v s' Hlog IH Hk Hf Hid Ht Htv Hb Hv Hap];
    intros l1 s1 r k id E Hr Hsp h Hh; [by destruct l1|]. simpl in Hh.
  destruct Hsp as (h0 & Hsub & Hv0 & Hreq).
  pose proof Hr as (Hl1 & Hkr & _).
  destruct (replays_authority rules l1 s1 Hl1) as (_ & B1 & _ & _).
  pose proof (B1 h0 id Hv0) as Happ.
  apply split_snoc2 in E as [(m & ->)|[[-> ->]|[-> ->]]]; [| |by destruct Hv].
  - destruct (apply_record_due rules _ _ _ _ Hap) as [[_ Hacc]|[_ ->]].
    + destruct (apply_accepted_valid x s s' h id Hacc Hh) as [->|[Hs _]].
      * destruct Happ as (d & (y & [Hy _] & E & _) & _). rewrite find_first_None in Hf.
        apply (Hf y); [by apply elem_of_app; left | done].
      * eapply IH; [done..| |done]. by exists h0.
    + eapply IH; [done..| |done]. by exists h0.
  - assert (s1 = s) as -> by (by eapply replays_functional).
    destruct (apply_record_due rules _ _ _ _ Hap) as [[_ Hacc]|[Hrej _]].
    + destruct (apply_accepted_valid x s s' h id Hacc Hh) as [->|[Hs Hno]].
      * destruct Happ as (d & (y & [Hy _] & E & _) & _). rewrite find_first_None in Hf.
        by apply (Hf y).
      * apply Hno. by rewrite (valid_target log s h h0 id Hlog Hs Happ).
    + destruct Hr as (_ & _ & _ & _ & _ & Hc). apply due_accept_check in Hc.
      by rewrite Hc in Hrej.
Qed.

Lemma accepted_after_in log s l1 s1 r k :
  Replays rules log s → log = l1 ++ r :: k → accepted_after rules l1 s1 r →
  accepted_in log r.
Proof.
  intros Hlog. revert l1 s1 r k.
  induction Hlog as [|log s x v s' Hlog IH Hk Hf Hid Ht Htv Hb Hv Hap];
    intros l1 s1 r k E Hr; [by destruct l1|].
  apply (accepted_in_snoc rules log s x v _ r Hlog Hk Hf Hv).
  pose proof Hr as (Hl1 & Hkr & _ & _ & _ & Hc).
  apply split_snoc2 in E as [(m & ->)|[[-> ->]|[-> ->]]]; [| |by destruct Hv].
  - left. by eapply IH.
  - right. split; [done|]. apply due_accept_check.
    by assert (s1 = s) as <- by (by eapply replays_functional).
Qed.

(** Hence no approval is spent twice. *)
Lemma spent_once log s l1 s1 r1 k1 l2 s2 r2 k2 id :
  Replays rules log s →
  log = l1 ++ r1 :: k1 → accepted_after rules l1 s1 r1 → spends s1 r1 id →
  log = l2 ++ r2 :: k2 → accepted_after rules l2 s2 r2 → spends s2 r2 id →
  l1 = l2 ∧ r1 = r2.
Proof.
  intros Hlog E1 A1 S1 E2 A2 S2.
  assert (Hlt : ∀ l1 s1 r1 k1 l2 s2 r2 k2,
    log = l1 ++ r1 :: k1 → accepted_after rules l1 s1 r1 → spends s1 r1 id →
    log = l2 ++ r2 :: k2 → accepted_after rules l2 s2 r2 → spends s2 r2 id →
    ¬ length l1 < length l2).
  { clear. intros l1 s1 r1 k1 l2 s2 r2 k2 E1 A1 S1 E2 A2 (h & _ & Hh & _) Hlt.
    assert (Hpre : l2 = l1 ++ r1 :: take (length l2 - S (length l1)) k1).
    { rewrite <- (take_app_length l2 (r2 :: k2)), <- E2, E1 at 1.
      rewrite take_app_ge by lia. f_equal.
      replace (length l2 - length l1) with (S (length l2 - S (length l1))) by lia. done. }
    pose proof A2 as (Hl2 & _). by apply (spent_gone l2 s2 l1 s1 r1 _ id Hl2 Hpre A1 S1 h). }
  assert (Hlen : length l1 = length l2).
  { pose proof (Hlt _ _ _ _ _ _ _ _ E1 A1 S1 E2 A2 S2).
    pose proof (Hlt _ _ _ _ _ _ _ _ E2 A2 S2 E1 A1 S1). lia. }
  rewrite E1 in E2. apply app_inj_1 in E2 as [-> [= -> _]]; done.
Qed.
End spending.

(** ** The authority behind an action *)

Section authorized.
Context `{Primitives, Serde, HashOrder} (rules : VerifierRules).

(** The request an action serves is accepted and still active, and agrees
    with the action on thread, space and scope. *)
Definition serves_active (log : list record) (s : State) (r : record) (data : ActionData)
    : Prop :=
  ∃ q qd, accepted_in log q ∧ rec_kind q = Kind.Request ∧ rec_id q = ac_request_id data ∧
    rec_id q ∈ active_requests s ∧
    rec_thread q = rec_thread r ∧ rec_space q = rec_space r ∧
    decode (rec_data q) = Some qd ∧ rq_scope qd = ac_scope data.

(** The capability behind an action: granted to its author for its class and
    scope, in force, reliable, unexpired and required by the action; an
    [Ask] capability is backed by an approval in force that the action
    requires too. *)
Definition capability_for (log : list record) (s : State) (r : record) (data : ActionData)
    : Prop :=
  ∃ id cd, accepted_as log Kind.Capability id cd ∧
    active_capabilities s !! (author_id (rec_author r), ac_action_class data, ac_scope data)
      = Some id ∧
    cp_actor_id cd = author_id (rec_author r) ∧ cp_action_class cd = ac_action_class data ∧
    cp_scope cd = ac_scope data ∧
    reliable s id ∧ expired (rec_time r) (cp_expiry cd) = false ∧
    mk_ref RefType.Require_ id ∈ rec_refs r ∧
    match cp_mode cd with
    | CapabilityMode.Deny => False
    | CapabilityMode.Auto => True
    | CapabilityMode.Ask =>
        ∃ a, approves log s r data a ∧ mk_ref RefType.Require_ a ∈ rec_refs r
    end.

Lemma reliable_iff log s id k {A} `{Decode A} (d : A) :
  Replays rules log s → accepted_as log k id d → unreliable s id = false → reliable s id.
Proof.
  intros Hlog (r & Hr & <- & _) Hu. unfold unreliable in Hu. unfold reliable.
  destruct (replays_summary rules log s Hlog) as (Ha & _). bool_simpl.
  split_and!; [apply Ha; by exists r | done..].
Qed.

Lemma check_action_ok log s r :
  Replays rules log s → check_action r (prior_of (log ++ [r])) s = None →
  ∃ data : ActionData, decode (rec_data r) = Some data ∧
    serves_active log s r data ∧ capability_for log s r data.
Proof.
  intros Hlog Hc. unfold check_action in Hc.
  destruct (replays_authority rules log s Hlog) as (B1 & _ & _ & B4).
  destruct (decode (rec_data r) : option ActionData) as [data|] eqn:Hd; [|done].
  exists data. split; [done|].
  destruct (_ ∈? active_requests s) eqn:Ea in Hc; [|done].
  destruct (prior_find _ (ac_request_id data)) as [q|] eqn:Eq in Hc; [|done].
  destruct (_ || _) eqn:Et in Hc; [done|].
  destruct (decode (rec_data q) : option RequestData) as [qd|] eqn:Hqd; [|done].
  destruct (ac_scope data =? rq_scope qd) eqn:Es in Hc; [|done].
  destruct (active_capabilities s !! _) as [id|] eqn:Ecap in Hc; [|done].
  destruct (prior_find _ id) as [cr|] eqn:Ecr in Hc; [|done].
  destruct (unreliable s id) eqn:Eu in Hc; [done|].
  destruct (decode (rec_data cr) : option CapabilityData) as [cd|] eqn:Hcd; [|done].
  destruct (expired _ _) eqn:Ex in Hc; [done|]. bool_simpl.
  destruct (B1 _ _ Ecap) as (cd' & Hcap & [= E1 E2 E3]).
  destruct (accepted_as_prior rules log s r _ id cd' cr Hlog Hcap Ecr) as (_ & _ & _ & Hcd').
  assert (cd' = cd) as -> by congruence.
  destruct (requested_prior rules log s r (ac_request_id data) q Hlog) as (Hq & Hqi & Hqk);
    [by apply B4 | done |].
  split; [exists q, qd; rewrite Hqi; split_and!; congruence || done|].
  exists id, cd. split_and!; try done; [exact (reliable_iff log s id _ cd Hlog Hcap Eu) | |].
  - unfold has_require_ref in Hc. destruct (requires_target (rec_refs r) id) eqn:Er.
    + by apply requires_target_spec.
    + destruct (cp_mode cd); simpl in Hc; try done;
        by destruct (check_approval_for_action _ _ _ _).
  - destruct (cp_mode cd); try done.
    destruct (check_approval_for_action _ _ _ _) as [|a] eqn:Eap; [done|]. simpl in Hc.
    exists a. split; [exact (approval_for_action_ok rules log s r data a Hlog Eap)|].
    apply requires_target_spec. unfold has_require_ref in Hc.
    destruct (requires_target _ id) in Hc; [|done]. by destruct (requires_target _ a).
Qed.
End authorized.

(** ** Evidence along refs *)

Section evidence.
Context `{Primitives, Serde, HashOrder} (rules : VerifierRules).

(** The evidence recorded is at least as weak as what each epistemic ref
    contributes, and as the schema's own class. *)
Lemma evidence_of_refs log s r :
  accepted_after rules log s r →
  leb (base_evidence (rec_schema r)) (rec_evidence r) = true ∧
  ∀ a, a ∈ epistemic_targets (rec_refs r) →
    ∃ t, find_first (log ++ [r]) a = Some t ∧ leb (rec_evidence t) (rec_evidence r) = true ∧
      (¬ reliable s a → rec_evidence r = Evidence.Assumed).
Proof.
  intros (Hlog & Hk & _ & _ & _ & Hc). apply check_record_passed in Hc; [|done].
  destruct (check_evidence_None rules r _ s (p_evidence _ _ _ _ Hc)) as [Hev _].
  split; [rewrite Hev at 1; apply derive_evidence_ge; by left|].
  intros a (x & -> & Hx)%list_elem_of_fmap. apply list_elem_of_filter in Hx as [He Hx].
  destruct (check_ref_None r _ s x (p_refs _ _ _ _ Hc x Hx)) as (t & Ht & _).
  assert (Hid : rec_id t = ref_target x).
  { rewrite prior_of_find in Ht. by apply find_first_Some in Ht as [_ ?]. }
  assert (Hin : ∀ e, ref_evidence s x t = Some e → leb e (rec_evidence r) = true).
  { intros e Heq. rewrite Hev. apply derive_evidence_ge. right. unfold ref_evidences.
    apply list_elem_of_omap. exists x. split; [done|]. by rewrite Ht. }
  exists t. split; [by rewrite <- prior_of_find|].
  unfold ref_evidence in Hin. unfold is_epistemic in He. rewrite Hid in Hin.
  assert (Hweak : ∀ e, leb Evidence.Assumed e = true → e = Evidence.Assumed) by (by intros []).
  assert (Htop : ∀ e, leb e Evidence.Assumed = true) by (by intros []).
  destruct (ref_type x); try done.
  all: match type of Hin with context [if ?b then _ else _] => destruct b eqn:Eb end.
  all: specialize (Hin _ eq_refl); split;
    [ first [done | apply Hweak in Hin; rewrite Hin; apply Htop] | ].
  all: try (by intros _; apply Hweak).
  all: intros Hno; destruct Hno; unfold reliable; by bool_simpl.
Qed.
End evidence.
