(* ===== verification/LogTheorems.v ===== *)
(** * Properties of whole logs

    What [verify_log] decides, what the state of a verified log is, and what
    its reported retracted and tainted sets mean. *)

From S2P Require Export WorkFacts.

#[local] Existing Instance Approved.serde.

(** Membership by computation. *)
Lemma elem_of_check (x : RecordId) (X : gset RecordId) : (x ∈? X) = true → x ∈ X.
Proof. apply bool_decide_eq_true. Qed.
Lemma not_elem_of_check (x : RecordId) (X : gset RecordId) : (x ∈? X) = false → x ∉ X.
Proof. apply bool_decide_eq_false. Qed.
Lemma elem_of_list_check (r : record) (l : list record) : (r ∈? l) = true → r ∈ l.
Proof. apply bool_decide_eq_true. Qed.

(** [b] names [a] by an epistemic ref, and is an accepted record of the log. *)
Definition rests_on `{Serde} (log : list record) (a b : RecordId) : Prop :=
  ∃ r, accepted_in log r ∧ rec_id r = b ∧ a ∈ epistemic_targets (rec_refs r).

(** The log's id and the last time of its last record. *)
Definition well_timed (log : list record) : Prop :=
  ∀ i r, log !! i = Some r → rec_time r = N.of_nat (S i) ∧ (rec_time r <= u64_max)%N.

Section support.
Context `{Primitives, Serde, HashOrder} (rules : VerifierRules).

Lemma tc_rests_on log s a b :
  Replays rules log s → tc (depends s) a b ↔ tc (rests_on log) a b.
Proof.
  intros Hlog. destruct (replays_summary rules log s Hlog) as (_ & Hd & _).
  split; apply (tc_congruence id); intros x y; unfold rests_on; apply Hd.
Qed.

Lemma verified_replays log :
  accepted (verify_log log rules None) = true →
  ∃ s, Replays rules log s ∧ verify_log log rules None = accept_verdict log s ∧
    build_state_unchecked log = Some s.
Proof.
  intros (s & Hlog)%verify_log_sound. exists s.
  eauto using verify_log_complete, build_replays.
Qed.

Lemma built_replays log s : verify_and_build_state log rules = inr s → Replays rules log s.
Proof.
  unfold verify_and_build_state.
  destruct (accepted (verify_log log rules None)) eqn:Ea; simpl; [|done].
  apply verified_replays in Ea as (s' & Hlog & _ & ->). by intros [= <-].
Qed.

Lemma verified_build log :
  accepted (verify_log log rules None) = true → ∃ s, verify_and_build_state log rules = inr s.
Proof.
  intros Hv. destruct (verified_replays log Hv) as (s & _ & _ & Hb). exists s.
  unfold verify_and_build_state. by rewrite Hv, Hb.
Qed.

(** Every even prefix of a valid log is valid. *)
Lemma replays_prefix log s n :
  Replays rules log s → Nat.Even n → n ≤ length log → ∃ s', Replays rules (take n log) s'.
Proof.
  induction 1 as [|log s r v s' Hlog IH Hk Hf Hid Ht Htv Hb Hv Hap]; intros [k ->] Hn.
  - exists empty_state. rewrite take_nil. constructor.
  - destruct (decide (2 * k ≤ length log)) as [Hle|Hgt].
    + rewrite take_app_le by done. apply IH; [by exists k | done].
    + destruct (replays_even rules log s Hlog) as [m Hm]. rewrite length_app in Hn. simpl in Hn.
      assert (E : 2 * k = length (log ++ [r; v])) by (rewrite length_app; simpl; lia).
      rewrite E, firstn_all. eexists. by apply replays_pair with s.
Qed.
End support.

(** ** What acceptance decides *)



(** C3: the retracted set a verified log reports is exactly the set of targets
    of its accepted retractions, and its tainted set is exactly the set of
    records that rest on a retracted one through a chain, of any length, of
    accepted records linked by [Use] and [Require] refs.  The incremental,
    stack-based marking of the fold neither misses a record nor marks one too
    many, whatever the order of uses and retractions in the log. *)
Theorem taint_is_exact `{Primitives, Serde, HashOrder} rules log :
  accepted (verify_log log rules None) = true →
  (∀ t, t ∈ lv_retracted_records (verify_log log rules None) ↔
     ∃ r, accepted_in log r ∧ retraction_target r = Some t) ∧
  (∀ x, x ∈ lv_tainted_records (verify_log log rules None) ↔
     ∃ t, t ∈ lv_retracted_records (verify_log log rules None) ∧ tc (rests_on log) t x).
Proof.
  intros (s & Hlog & -> & _)%verified_replays. simpl.
  destruct (replays_summary rules log s Hlog) as (_ & _ & Hr & Ht). split; [done|].
  intros x. rewrite (taint_closed_iff s x Ht). by setoid_rewrite (tc_rests_on rules log s).
Qed.

Lemma approved_accepted : accepted (verify_log Approved.log rules0 None) = true.
Proof. vm_cast_no_check (eq_refl true). Qed.

Lemma taint_is_exact_witness :
  accepted (verify_log Approved.log rules0 None) = true ∧
  ∃ t, t ∈ lv_retracted_records (verify_log Approved.log rules0 None) ∧
    tc (rests_on Approved.log) t (rec_id Approved.r4).
Proof.
  split; [exact approved_accepted|].
  apply (taint_is_exact rules0 Approved.log approved_accepted), elem_of_check.
  vm_cast_no_check (eq_refl true).
Defined.



(** C5: the records of a verified log carry the times 1, 2, 3, ... without
    gap, their count is even, and the last time is the length of the log and
    fits 64 bits. *)
Theorem verified_times `{Primitives, Serde, HashOrder} rules log :
  accepted (verify_log log rules None) = true →
  well_timed log ∧ Nat.Even (length log) ∧
  lv_last_time (verify_log log rules None) = N.of_nat (length log) ∧
  (N.of_nat (length log) <= u64_max)%N.
Proof.
  intros (s & Hlog & -> & _)%verified_replays. simpl.
  pose proof (replays_times rules log s Hlog) as Ht.
  assert (Hw : well_timed log) by (intros i r Hi; destruct (Ht i r Hi); lia).
  assert (Hl : last_time log = N.of_nat (length log) ∧ (N.of_nat (length log) <= u64_max)%N).
  { unfold last_time. rewrite last_lookup. destruct (log !! pred (length log)) as [r|] eqn:El.
    - destruct (Hw _ r El) as [E Hb]. apply lookup_lt_Some in El. simpl. lia.
    - apply lookup_ge_None in El. simpl. unfold u64_max. lia. }
  split_and!; [done | by eapply replays_even | apply Hl..].
Qed.

Lemma verified_times_witness :
  well_timed Approved.log ∧ Nat.Even (length Approved.log) ∧
  lv_last_time (verify_log Approved.log rules0 None) = 14%N ∧ (14 <= u64_max)%N.
Proof. exact (verified_times rules0 Approved.log approved_accepted). Defined.

(** C6: verification is incremental: every prefix of a verified log that ends
    after a verdict is itself a verified log. *)
Theorem verified_prefix `{Primitives, Serde, HashOrder} rules log n :
  accepted (verify_log log rules None) = true → Nat.Even n → n ≤ length log →
  accepted (verify_log (take n log) rules None) = true.
Proof.
  intros (s & Hlog & _)%verified_replays Hn Hle.
  destruct (replays_prefix rules log s n Hlog Hn Hle) as [s' Hpre].
  by rewrite (verify_log_complete rules _ s' Hpre).
Qed.

Lemma verified_prefix_witness :
  accepted (verify_log (take 8 Approved.log) rules0 None) = true.
Proof.
  apply (verified_prefix rules0 Approved.log 8 approved_accepted).
  - by exists 4.
  - apply Nat.leb_le. reflexivity.
Defined.
