(* ===== verification/WorkTheorems.v ===== *)
(** * Properties of authority, work and evidence

    Theorems about the accepted records of a verified log: the authority
    behind actions, signatures, approvals, evidence, and the life of requests,
    actions and responses. *)

From S2P Require Export LogTheorems.

#[local] Existing Instance Approved.serde.

(** ** Deciding acceptance after a prefix *)

Section next.
Context `{Primitives, Serde, HashOrder} (rules : VerifierRules).

Definition state_of (log : list record) : State :=
  default empty_state (build_state_unchecked log).

Definition accepts_next (log : list record) (r : record) : bool :=
  accepted (verify_log log rules None) && negb (rec_kind r =? Kind.Verdict) &&
  negb (is_Some_b (find_first log (rec_id r))) && (compute_id r =? Some (rec_id r)) &&
  (rec_time r =? N.of_nat (length log) + 1)%N &&
  negb (is_Some_b (check_record r (prior_of (log ++ [r])) rules (state_of log))).

Lemma accepts_next_after log r :
  accepts_next log r = true → accepted_after rules log (state_of log) r.
Proof.
  unfold accepts_next. rewrite !andb_true_iff, !negb_true_iff.
  intros (((((Hv & Hk) & Hf) & Hid) & Ht) & Hc).
  apply verified_replays in Hv as (s & Hlog & _ & Hb). unfold state_of in *. rewrite Hb in *.
  bool_simpl. split_and!; try done.
  - by destruct (find_first _ _).
  - by apply N.eqb_eq.
  - cbn [default from_option id] in *. by destruct (check_record _ _ _ _).
Qed.

(** The moment a record of a verified log was accepted. *)
Lemma accepted_moment log r :
  accepted (verify_log log rules None) = true → accepted_in log r →
  ∃ l1 s1 k, log = l1 ++ r :: k ∧ accepted_after rules l1 s1 r.
Proof.
  intros (s & Hlog & _)%verified_replays Hr.
  destruct (replays_accepted_split rules log s r Hlog Hr) as (l1 & s1 & v & l2 & -> & Ha).
  by exists l1, s1, (v :: l2).
Qed.
End next.

(** Acceptance in a concrete log: the record and its accepting verdict. *)
Definition accepted_at `{Serde} (log : list record) (i : nat) (r : record) : bool :=
  (log !! i =? Some r) && negb (rec_kind r =? Kind.Verdict) &&
  match log !! S i with
  | Some v =>
      (rec_kind v =? Kind.Verdict) && (find_ref RefType.Cause (rec_refs v) =? Some (rec_id r)) &&
      match (decode (rec_data v) : option VerdictData) with
      | Some d => (vd_result d =? VerdictResult.Accept) && negb (is_Some_b (vd_reason d))
      | None => false
      end
  | None => false
  end.

Lemma accepted_at_in `{Serde} log i r : accepted_at log i r = true → accepted_in log r.
Proof.
  unfold accepted_at. rewrite !andb_true_iff, negb_true_iff. intros ((Hi & Hk) & Hv).
  destruct (log !! S i) as [v|] eqn:Ev; [|done]. bool_simpl.
  destruct (decode (rec_data v) : option VerdictData) as [[res reason]|] eqn:Ed; [|done].
  simpl in *. bool_simpl. subst. split_and!; [by eapply list_elem_of_lookup_2 | done |].
  exists v. split_and!; try done; [by eapply list_elem_of_lookup_2|].
  by destruct reason.
Qed.

Ltac by_vm := vm_cast_no_check (eq_refl true).

(** C7: every accepted action was authorised when it was accepted: its request
    was accepted and active, with the same thread, space and scope; a reliable,
    unexpired capability, accepted before, granted its author that class of
    action in that scope, did not deny it, and is named by a [Require] ref; and
    if the capability asks, an approval in force for this author and content
    (or for the class) backs it and is named by a [Require] ref too. *)
Theorem action_is_authorized `{Primitives, Serde, HashOrder} rules log r :
  accepted (verify_log log rules None) = true → accepted_in log r → rec_kind r = Kind.Action →
  ∃ l1 s1 k data, log = l1 ++ r :: k ∧ accepted_after rules l1 s1 r ∧
    decode (rec_data r) = Some data ∧
    serves_active l1 s1 r data ∧ capability_for l1 s1 r data.
Proof.
  intros Hv Hr Hk. destruct (accepted_moment rules log r Hv Hr) as (l1 & s1 & k & E & Ha).
  pose proof (accepted_after_kind rules l1 s1 r Ha) as Hc. unfold check_kind_specific in Hc.
  rewrite Hk in Hc. pose proof Ha as (Hl1 & _).
  destruct (check_action_ok rules l1 s1 r Hl1 Hc) as (data & Hd & Hs & Hcap).
  exists l1, s1, k, data. done.
Qed.

Lemma action_is_authorized_witness :
  ∃ l1 s1 k data, Approved.log = l1 ++ Approved.r4 :: k ∧
    accepted_after rules0 l1 s1 Approved.r4 ∧
    decode (rec_data Approved.r4) = Some data ∧
    serves_active l1 s1 Approved.r4 data ∧ capability_for l1 s1 Approved.r4 data.
Proof.
  apply (action_is_authorized rules0 Approved.log Approved.r4 approved_accepted);
    [apply (accepted_at_in _ 6); by_vm | reflexivity].
Defined.

(** What the rules' pins demand of an accepted record. *)
Lemma pinned_signed `{Primitives, Serde, HashOrder} rules log r keys :
  accepted (verify_log log rules None) = true → accepted_in log r →
  author_keys rules !! author_id (rec_author r) = Some keys →
  ∃ s key m, author_signature (rec_author r) = Some s ∧ hex_decode (key_id s) = Some key ∧
    key ∈ keys ∧ length (sig s) = 64 ∧ signing_bytes r = Some m ∧
    ed25519_verify_strict key m (sig s) = true.
Proof.
  intros Hv Hr Hkeys. destruct (accepted_moment rules log r Hv Hr) as (l1 & s1 & k & _ & Ha).
  destruct Ha as (_ & Hk & _ & _ & _ & Hc). apply check_record_passed in Hc; [|done].
  destruct (check_signature_None rules r (p_signature _ _ _ _ Hc)) as (Hpin & _).
  destruct (Hpin keys Hkeys) as (key & Hin & Hvk). unfold verified_key in Hvk.
  destruct (author_signature (rec_author r)) as [s|]; [|done]. simpl in Hvk.
  destruct (hex_decode (key_id s)) as [kb|] eqn:Eh; [|done]. simpl in Hvk.
  destruct (negb (ed25519_key_valid kb)); [done|].
  destruct (length (sig s) =? 64) eqn:El; [|done]. simpl in Hvk.
  destruct (signing_bytes r) as [m|] eqn:Em; [|done]. simpl in Hvk.
  destruct (ed25519_verify_strict _ _ _) eqn:Ev; [|done]. injection Hvk as <-. bool_simpl.
  exists s, kb, m. done.
Qed.

(** C8: an identity whose keys the rules pin cannot act unsigned: every
    accepted record of a pinned author carries a signature of 64 bytes that
    strictly verifies, over the domain-separated signing bytes of the record,
    under one of the pinned keys, the one its key id spells in hex. *)
Theorem pinned_author_signs `{Primitives, Serde, HashOrder} rules log r keys :
  accepted (verify_log log rules None) = true → accepted_in log r →
  author_keys rules !! author_id (rec_author r) = Some keys →
  ∃ s key m, author_signature (rec_author r) = Some s ∧ hex_decode (key_id s) = Some key ∧
    key ∈ keys ∧ length (sig s) = 64 ∧ signing_bytes r = Some m ∧
    ed25519_verify_strict key m (sig s) = true.
Proof. apply pinned_signed. Qed.

Lemma pinned_author_signs_witness :
  ∃ s key m, author_signature (rec_author Signed.r1) = Some s ∧
    hex_decode (key_id s) = Some key ∧ key ∈ ({[human_key]} : gset Hash256) ∧
    length (sig s) = 64 ∧ signing_bytes Signed.r1 = Some m ∧
    ed25519_verify_strict key m (sig s) = true.
Proof.
  apply (pinned_author_signs Signed.rules Signed.log Signed.r1);
    [by_vm | apply (accepted_at_in _ 0); by_vm | reflexivity].
Defined.

(** C9: an exact approval is spent by the first accepted action or selection
    that requires it for the content it approves: no two accepted records of a
    verified log spend the same approval, even with the same content. *)
Theorem approval_is_spent_once `{Primitives, Serde, HashOrder} rules log id
    l1 s1 r1 k1 l2 s2 r2 k2 :
  accepted (verify_log log rules None) = true →
  log = l1 ++ r1 :: k1 → accepted_after rules l1 s1 r1 → spends s1 r1 id →
  log = l2 ++ r2 :: k2 → accepted_after rules l2 s2 r2 → spends s2 r2 id →
  l1 = l2 ∧ r1 = r2.
Proof. intros (s & Hlog & _)%verified_replays. by apply (spent_once rules log s). Qed.

Lemma approval_is_spent_once_witness :
  Approved.log3 = Approved.log3 ∧ Approved.r4 = Approved.r4.
Proof.
  assert (Ha : accepted_after rules0 Approved.log3 (state_of Approved.log3) Approved.r4)
    by (apply accepts_next_after; by_vm).
  assert (Hs : spends (state_of Approved.log3) Approved.r4 (rec_id Approved.r3)).
  { exists (default zero_hash (approval_subject Approved.r4)).
    split_and!; vm_compute; reflexivity. }
  apply (approval_is_spent_once rules0 Approved.log (rec_id Approved.r3)
    Approved.log3 (state_of Approved.log3) Approved.r4 (drop 7 Approved.log)
    Approved.log3 (state_of Approved.log3) Approved.r4 (drop 7 Approved.log) approved_accepted);
    [vm_compute; reflexivity | exact Ha | exact Hs | vm_compute; reflexivity | exact Ha | exact Hs].
Defined.

(** C10: evidence is never inflated.  An accepted record claims no stronger
    evidence than its schema allows, nor than any accepted record it rests on,
    directly or through a chain of [Use] and [Require] refs; and a record that
    cites something rejected, retracted or tainted at that moment is [Assumed]. *)
Theorem evidence_never_inflated `{Primitives, Serde, HashOrder} rules log r :
  accepted (verify_log log rules None) = true → accepted_in log r →
  leb (base_evidence (rec_schema r)) (rec_evidence r) = true ∧
  (∀ t, accepted_in log t → tc (rests_on log) (rec_id t) (rec_id r) →
     leb (rec_evidence t) (rec_evidence r) = true) ∧
  (∃ l1 s1 k, log = l1 ++ r :: k ∧ accepted_after rules l1 s1 r ∧
     ∀ a, a ∈ epistemic_targets (rec_refs r) → ¬ reliable s1 a →
       rec_evidence r = Evidence.Assumed).
Proof.
  intros Hv Hr. pose proof Hv as (s & Hlog & _)%verified_replays.
  assert (Hstep : ∀ t u, accepted_in log t → accepted_in log u →
    rec_id t ∈ epistemic_targets (rec_refs u) → leb (rec_evidence t) (rec_evidence u) = true).
  { intros t u Ht Hu Hin. destruct (accepted_moment rules log u Hv Hu) as (l1 & s1 & k & E & Ha).
    destruct (evidence_of_refs rules l1 s1 u Ha) as [_ Hrefs].
    destruct (Hrefs _ Hin) as (t' & Hf & Hle & _).
    pose proof (accepted_find rules log s t Hlog Ht) as Hft.
    rewrite E, cons_middle, app_assoc, find_first_app, Hf in Hft. by injection Hft as ->. }
  destruct (accepted_moment rules log r Hv Hr) as (l1 & s1 & k & E & Ha).
  destruct (evidence_of_refs rules l1 s1 r Ha) as [Hbase Hrefs]. split_and!; [done| |].
  - intros t Ht Htc. clear E Ha Hbase Hrefs. remember (rec_id t) as a eqn:Ea.
    remember (rec_id r) as b eqn:Eb. revert t Ht Ea.
    induction Htc as [a b (u & Hu & Eu & Hin)|a c b (u & Hu & Eu & Hin) Hcb IH];
      intros t Ht ->.
    + assert (u = r) as -> by (eapply (accepted_unique rules log s); eauto; congruence).
      by apply Hstep.
    + eapply leb_trans; [by apply (Hstep t u)|]. by apply IH.
  - exists l1, s1, k. split_and!; [done..|]. intros a Hin Hno.
    by destruct (Hrefs a Hin) as (? & _ & _ & Hassumed); auto.
Qed.

Lemma evidence_never_inflated_witness :
  leb (base_evidence (rec_schema Approved.r4)) (rec_evidence Approved.r4) = true ∧
  leb (rec_evidence Approved.r3) (rec_evidence Approved.r4) = true.
Proof.
  assert (Hr : accepted_in Approved.log Approved.r4) by (apply (accepted_at_in _ 6); by_vm).
  assert (Ht : accepted_in Approved.log Approved.r3) by (apply (accepted_at_in _ 4); by_vm).
  destruct (evidence_never_inflated rules0 Approved.log Approved.r4 approved_accepted Hr)
    as (Hbase & Hchain & _). split; [exact Hbase|].
  apply (Hchain _ Ht), tc_once. exists Approved.r4. split_and!; [exact Hr | reflexivity |].
  apply (bool_decide_eq_true_1 (rec_id Approved.r3 ∈ epistemic_targets (rec_refs Approved.r4))).
  vm_compute. reflexivity.
Defined.

(** C11: in the state of a verified log, the open actions are exactly the
    accepted actions that no accepted result or refusal closes; an action is
    closed at most once; and the counter of a request is the number of open
    actions that serve it, absent when there is none.  No counter ever
    underflows or drifts. *)
Theorem open_actions_are_exact `{Primitives, Serde, HashOrder} rules log s :
  verify_and_build_state log rules = inr s →
  (∀ a, a ∈ open_actions s ↔
     (∃ x, accepted_in log x ∧ rec_kind x = Kind.Action ∧ rec_id x = a) ∧
     ¬ ∃ x, accepted_in log x ∧ closed_action x = Some a) ∧
  (∀ x y a, accepted_in log x → accepted_in log y →
     closed_action x = Some a → closed_action y = Some a → x = y) ∧
  (∀ q, request_open_action_count s !! q =
     if size (open_of s q) =? 0 then None else Some (N.of_nat (size (open_of s q)))).
Proof.
  intros Hrep%built_replays.
  destruct (replays_open_exact rules log s Hrep) as (I1 & _ & I3 & _).
  destruct (replays_counts rules log s Hrep) as [_ Hc]. done.
Qed.

Lemma open_actions_are_exact_witness :
  ∃ s, verify_and_build_state Approved.log4 rules0 = inr s ∧
    request_open_action_count s !! rec_id Approved.r1 =
      if size (open_of s (rec_id Approved.r1)) =? 0 then None
      else Some (N.of_nat (size (open_of s (rec_id Approved.r1)))).
Proof.
  assert (Hv : accepted (verify_log Approved.log4 rules0 None) = true) by by_vm.
  destruct (verified_build rules0 Approved.log4 Hv) as [s E].
  exists s. split; [exact E|].
  exact (proj2 (proj2 (open_actions_are_exact rules0 Approved.log4 s E)) (rec_id Approved.r1)).
Defined.

(** C12: a closing response ends its request for good.  In any verified log
    that contains one, the request is no longer active, every accepted action
    that serves it has been closed by an accepted record, and no action for it
    can be accepted afterwards. *)
Theorem closing_response_is_final `{Primitives, Serde, HashOrder} rules log s x q :
  verify_and_build_state log rules = inr s → accepted_in log x → response_closes x = Some q →
  q ∉ active_requests s ∧ request_open_action_count s !! q = None ∧
  (∀ y, accepted_in log y → served y = Some q →
     ∃ z, accepted_in log z ∧ closed_action z = Some (rec_id y)) ∧
  (∀ y, accepted_after rules log s y → served y ≠ Some q).
Proof.
  intros Hrep%built_replays Hx Hq.
  destruct (replays_requests_exact rules log s Hrep) as [Hact _].
  pose proof (replays_closed_quiet rules log s x q Hrep Hx Hq) as Hempty.
  assert (Hno : q ∉ active_requests s).
  { intros [_ []]%Hact. exists x. split; [done | by left]. }
  split_and!; [done | | |].
  - destruct (replays_counts rules log s Hrep) as [_ ->]. by rewrite Hempty, size_empty.
  - intros y Hy Hs. destruct (replays_open_exact rules log s Hrep) as (_ & _ & _ & I4).
    assert (Hk : rec_kind y = Kind.Action) by (unfold served in Hs; by destruct (rec_kind y)).
    destruct (I4 y Hy Hk) as [Ho|]; [|done]. assert (Hin : rec_id y ∈ open_of s q); [|set_solver].
    apply elem_of_filter. split; [|done]. apply (replays_served_exact rules log s Hrep). eauto.
  - intros y Hy Hs. pose proof (accepted_after_kind rules log s y Hy) as Hc.
    assert (Hk : rec_kind y = Kind.Action) by (unfold served in Hs; by destruct (rec_kind y)).
    destruct (served_some rules y _ s Hc Hk) as (q' & Hs' & Hq'). congruence.
Qed.

Lemma closing_response_is_final_witness :
  ∃ s, verify_and_build_state Approved.log rules0 = inr s ∧
    rec_id Approved.r1 ∉ active_requests s ∧
    ∃ z, accepted_in Approved.log z ∧ closed_action z = Some (rec_id Approved.r4).
Proof.
  destruct (verified_build rules0 Approved.log approved_accepted) as [s E].
  assert (Hx : accepted_in Approved.log Approved.r6) by (apply (accepted_at_in _ 10); by_vm).
  assert (Hy : accepted_in Approved.log Approved.r4) by (apply (accepted_at_in _ 6); by_vm).
  assert (Hq : response_closes Approved.r6 = Some (rec_id Approved.r1))
    by (vm_compute; reflexivity).
  assert (Hs : served Approved.r4 = Some (rec_id Approved.r1)) by (vm_compute; reflexivity).
  destruct (closing_response_is_final rules0 Approved.log s Approved.r6 _ E Hx Hq)
    as (Hno & _ & Hclosed & _).
  exists s. split; [exact E|]. split; [exact Hno | exact (Hclosed Approved.r4 Hy Hs)].
Defined.

(** The accepted responses to a request carry the turns 0, 1, 2, ...,
    each exactly once: a turn has an accepted response exactly when it is below
    the request's turn count, and that count stays within 32 bits. *)
Theorem response_turns_are_gapless `{Primitives, Serde, HashOrder} rules log s q :
  verify_and_build_state log rules = inr s →
  (∀ i, (i < default 0 (response_turns s !! q))%N ↔
     ∃ x, accepted_in log x ∧ answered x = Some (q, i)) ∧
  (∀ x y i, accepted_in log x → accepted_in log y →
     answered x = Some (q, i) → answered y = Some (q, i) → x = y) ∧
  (default 0 (response_turns s !! q) <= u32_max)%N.
Proof.
  intros Hrep%built_replays. destruct (replays_turns_exact rules log s Hrep) as (I1 & I2 & I3).
  split_and!; [apply I1 | intros x y i; apply I2 | apply I3].
Qed.

Lemma response_turns_are_gapless_witness :
  ∃ s, verify_and_build_state Approved.log rules0 = inr s ∧
    (0 < default 0 (response_turns s !! rec_id Approved.r1))%N.
Proof.
  destruct (verified_build rules0 Approved.log approved_accepted) as [s E].
  exists s. split; [exact E|].
  apply (proj1 (response_turns_are_gapless rules0 Approved.log s (rec_id Approved.r1) E)).
  exists Approved.r6. split; [apply (accepted_at_in _ 10); by_vm | vm_compute; reflexivity].
Defined.
