(* ===== verification/KeyTheorems.v ===== *)
(** * Requirement keys

    The key index of requirements (state/incremental.rs,
    verify/verifier/evolution.rs): keys are unique among live requirements as
    long as no record is retracted twice, and not otherwise. *)

From S2P Require Export WorkTheorems.

#[local] Existing Instance Requirements.serde.

(** ** How a record moves the key index *)

Section keys.
Context `{Primitives, Serde}.

(** The request and key an accepted requirement claims. *)
Definition keyed (r : record) : option (RecordId * string) :=
  match rec_kind r with
  | Kind.Requirement =>
      d ← (decode (rec_data r) : option RequirementData);
      q ← find_ref RefType.Cause (rec_refs r);
      Some (q, rm_key d)
  | _ => None
  end.

Definition keys_of (s : State) (q : RecordId) : gset string := default ∅ (requirement_keys s !! q).

Definition same_keys (s s' : State) : Prop :=
  requirement_keys s' = requirement_keys s ∧ requirement_index s' = requirement_index s.

Lemma same_keys_trans s1 s2 s3 : same_keys s1 s2 → same_keys s2 s3 → same_keys s1 s3.
Proof. unfold same_keys. intuition congruence. Qed.

Lemma deactivate_same_keys t s :
  same_keys s (deactivate_class_approval t (deactivate_exact_approval t
    (deactivate_capability t s))).
Proof.
  assert (W1 : ∀ s, same_keys s (deactivate_capability t s))
    by (intros; unfold deactivate_capability; repeat case_match; by repeat split).
  assert (W2 : ∀ s, same_keys s (deactivate_exact_approval t s))
    by (intros; unfold deactivate_exact_approval; repeat case_match; by repeat split).
  assert (W3 : ∀ s, same_keys s (deactivate_class_approval t s))
    by (intros; unfold deactivate_class_approval; repeat case_match; by repeat split).
  eapply same_keys_trans; [|apply W3]. eapply same_keys_trans; [apply W1 | apply W2].
Qed.

Lemma apply_kind_same_keys r s0 :
  rec_kind r ≠ Kind.Requirement → rec_kind r ≠ Kind.Retraction →
  preserves (same_keys s0) (apply_kind r).
Proof.
  intros Hq Hr. unfold apply_kind. destruct (rec_kind r); try done; preserves_steps;
    intros s Hs; (eapply same_keys_trans; [exact Hs|]); clear;
    unfold insert_replaced, consume_approval, close_action_for_request;
    repeat case_match; by repeat split.
Qed.

(** The key index after an accepted record. *)
Record keys_step (r : record) (s s' : State) : Prop := {
  k_index id : requirement_index s' !! id =
    match keyed r with
    | Some p => if decide (rec_id r = id) then Some p else requirement_index s !! id
    | None => requirement_index s !! id
    end;
  k_keys q k : k ∈ keys_of s' q ↔
    keyed r = Some (q, k) ∨
    k ∈ keys_of s q ∧ ¬ (∃ t, retraction_target r = Some t ∧ requirement_index s !! t = Some (q, k));
}.

Lemma release_keys t s q k :
  k ∈ keys_of (release_requirement_key t s) q ↔
  k ∈ keys_of s q ∧ requirement_index s !! t ≠ Some (q, k).
Proof.
  unfold release_requirement_key.
  destruct (requirement_index s !! t) as [[q' k']|] eqn:Ei; [|naive_solver].
  unfold keys_of. destruct (requirement_keys s !! q') as [keys|] eqn:Ek.
  - destruct (decide (q = q')) as [->|Hne].
    + case_bool_decide as He; simpl.
      * rewrite lookup_delete_eq, Ek. simpl. set_solver.
      * rewrite lookup_insert_eq, Ek. simpl.
        rewrite elem_of_difference, elem_of_singleton. naive_solver.
    + case_bool_decide; simpl; rewrite ?lookup_delete_ne, ?lookup_insert_ne by done; naive_solver.
  - destruct (decide (q = q')) as [->|]; [rewrite Ek; simpl; set_solver | naive_solver].
Qed.

Lemma apply_kind_keys r s s' : apply_kind r s = (s', inr tt) → keys_step r s s'.
Proof.
  intros Hrun. destruct (decide (rec_kind r = Kind.Requirement)) as [Hq|Hq];
    [|destruct (decide (rec_kind r = Kind.Retraction)) as [Hr|Hr]].
  - unfold apply_kind in Hrun. rewrite Hq in Hrun. unfold apply_requirement, decode_data in Hrun.
    eff_inv Hrun. split; intros; unfold keyed, retraction_target; rewrite Hq;
      match goal with Hd : decode _ = Some _ |- _ => rewrite Hd end;
      cbn [mbind option_bind]; destruct (find_ref RefType.Cause (rec_refs r)) as [q0|];
      cbn [mbind option_bind]; try done; simpl.
    + destruct (decide (rec_id r = id)) as [<-|]; [by rewrite lookup_insert_eq|].
      by rewrite lookup_insert_ne.
    + unfold keys_of. simpl. destruct (decide (q0 = q)) as [->|].
      * rewrite lookup_insert_eq. simpl. rewrite elem_of_union, elem_of_singleton. naive_solver.
      * rewrite lookup_insert_ne by done. naive_solver.
    + naive_solver.
  - unfold apply_kind in Hrun. rewrite Hr in Hrun. unfold apply_retraction, decode_data in Hrun.
    eff_inv Hrun. set (t := rx_target_id a). set (s1 := set_retracted_records _ s).
    set (s2 := fold_left _ _ _). set (s3 := deactivate_class_approval _ _).
    assert (Hs : same_keys s s3).
    { eapply same_keys_trans; [|apply deactivate_same_keys]. unfold s2.
      destruct (fold_mark_frame (btree_members (dependents s1 t)) s1) as (T & HT).
      fold t. rewrite HT. done. }
    assert (Ht : retraction_target r = Some t).
    { unfold retraction_target. rewrite bool_decide_true by done.
      match goal with Hd : decode _ = Some _ |- _ => by rewrite Hd end. }
    assert (Hk : keyed r = None) by (unfold keyed; by rewrite Hr).
    destruct Hs as [E1 E2]. split; rewrite ?Hk, ?Ht.
    + intros id. rewrite <- E2. unfold release_requirement_key. repeat case_match; done.
    + intros q k. rewrite release_keys, E2. unfold keys_of at 1. rewrite E1. fold (keys_of s q).
      clear. split; [intros [Hk Hi]; right; split; [done|]; by intros (? & [= <-] & ?)|].
      intros [|[Hk Hno]]; [done|]. split; [done|]. intros Hi. apply Hno. by exists t.
  - pose proof (apply_kind_same_keys r s Hq Hr s) as Hs. rewrite Hrun in Hs.
    destruct Hs as [E1 E2]; [by repeat split|]. simpl in *.
    assert (Hk : keyed r = None) by (unfold keyed; by destruct (rec_kind r)).
    assert (Ht : retraction_target r = None) by (unfold retraction_target; by rewrite bool_decide_false).
    split; rewrite ?Hk, ?Ht; [intros; by rewrite E2|]. intros q k. unfold keys_of. rewrite E1.
    naive_solver.
Qed.

Lemma apply_accepted_keys r s s' : apply_accepted r s = (s', inr tt) → keys_step r s s'.
Proof.
  intros Hrun%apply_accepted_ok%apply_kind_keys.
  destruct (index_refs_spec r (set_accepted_records ({[rec_id r]} ∪ accepted_records s) s))
    as (T & D & E & _). rewrite E in Hrun. destruct Hrun. by split.
Qed.
End keys.

(** ** Live keys *)

Section live.
Context `{Primitives, Serde, HashOrder} (rules : VerifierRules).

(** [x] holds [k] under request [q] and is not retracted. *)
Definition live_key (A : record → Prop) (R : gset RecordId) (q : RecordId) (k : string)
    (x : record) : Prop := A x ∧ keyed x = Some (q, k) ∧ rec_id x ∉ R.

Definition keys_exact (A : record → Prop) (s : State) : Prop :=
  (∀ id p, requirement_index s !! id = Some p ↔ ∃ x, A x ∧ rec_id x = id ∧ keyed x = Some p) ∧
  (∀ t, t ∈ retracted_records s ↔ ∃ x, A x ∧ retraction_target x = Some t) ∧
  (∀ t, t ∈ retracted_records s → ∃ x, A x ∧ rec_id x = t) ∧
  ((∀ x y t, A x → A y → retraction_target x = Some t → retraction_target y = Some t → x = y) →
   (∀ q k, k ∈ keys_of s q ↔ ∃ x, live_key A (retracted_records s) q k x) ∧
   (∀ q k x y, live_key A (retracted_records s) q k x → live_key A (retracted_records s) q k y →
      x = y)).

Lemma check_requirement_fresh r prior s q k :
  check_requirement r prior s = None → keyed r = Some (q, k) → rec_kind r = Kind.Requirement →
  k ∉ keys_of s q.
Proof.
  unfold check_requirement, keyed. intros Hc Hk Hkind. rewrite Hkind in Hk.
  destruct (decode (rec_data r) : option RequirementData) as [d|]; [|done].
  cbn [mbind option_bind] in Hk.
  destruct (_ || _) in Hc; [done|]. destruct (negb _) in Hc; [done|].
  destruct (cause_refs r) as [|c [|]] eqn:Ec; [done| |done].
  assert (Hf : find_ref RefType.Cause (rec_refs r) = Some (ref_target c)).
  { unfold find_ref. unfold cause_refs in Ec. clear -Ec.
    induction (rec_refs r) as [|x l IH]; [done|]. simpl. rewrite filter_cons in Ec.
    destruct (decide (ref_type x = RefType.Cause)); [by injection Ec as ->|].
    rewrite <- IH by done. by destruct (list_find _ l) as [[]|]. }
  rewrite Hf in Hk. injection Hk as <- <-.
  destruct (prior_find _ _); [|done]. destruct (negb _ || _ || _ || _) in Hc; [done|].
  destruct (_ ∈? _) eqn:Ein in Hc; [done|]. bool_simpl. done.
Qed.

Lemma check_retraction_target r prior s :
  check_retraction r prior rules s = None →
  ∃ d : RetractionData, decode (rec_data r) = Some d ∧ rx_target_id d ∈ accepted_records s.
Proof.
  unfold check_retraction. intros Hc.
  destruct (decode (rec_data r) : option RetractionData) as [d|]; [|done]. exists d.
  split; [done|]. destruct (negb _) in Hc; [done|]. destruct (prior_find _ _); [|done].
  destruct (_ ∈? _) eqn:Ein in Hc; [|done]. by bool_simpl.
Qed.

Lemma keyed_accepted log s r q k :
  accepted_after rules log s r → keyed r = Some (q, k) → k ∉ keys_of s q.
Proof.
  intros Hr%accepted_after_kind Hk. unfold check_kind_specific in Hr.
  assert (rec_kind r = Kind.Requirement) as Hkind by (unfold keyed in Hk; by destruct (rec_kind r)).
  rewrite Hkind in Hr. by eapply check_requirement_fresh.
Qed.

Lemma retraction_accepted log s r t :
  accepted_after rules log s r → retraction_target r = Some t →
  rec_kind r = Kind.Retraction ∧ t ∈ accepted_records s.
Proof.
  intros Hr%accepted_after_kind Ht. unfold check_kind_specific in Hr.
  unfold retraction_target in Ht. case_bool_decide as Hk; [|done]. rewrite Hk in Hr.
  destruct (check_retraction_target r _ s Hr) as (d & Hd & Ha). rewrite Hd in Ht.
  injection Ht as <-. done.
Qed.

Lemma keys_exact_step log s r s' :
  accepted_after rules log s r → keys_exact (accepted_in log) s →
  apply_accepted r s = (s', inr tt) →
  keys_exact (λ x, accepted_in log x ∨ x = r) s'.
Proof.
  intros Hr (I1 & I2 & I3 & I4) Hrun.
  destruct (apply_accepted_spec r s s' Hrun) as (_ & _ & Hret & _).
  apply apply_accepted_keys in Hrun as [Kidx Kkeys].
  pose proof Hr as (Hlog & _). destruct (replays_summary rules log s Hlog) as (Hacc & _).
  pose proof (accepted_fresh rules log s r) as Hfresh.
  assert (Hnew : rec_id r ∉ retracted_records s).
  { intros Hin. destruct (I3 _ Hin) as (x & Hx & E). by apply (Hfresh x). }
  assert (Hself : ∀ t, retraction_target r = Some t → t ≠ rec_id r).
  { intros t Ht ->. destruct (retraction_accepted log s r _ Hr Ht) as [_ (x & Hx & E)%Hacc].
    by apply (Hfresh x). }
  assert (Hkr : ∀ p t, keyed r = Some p → retraction_target r ≠ Some t).
  { intros p t Hk Ht. destruct (retraction_accepted log s r _ Hr Ht) as [E _].
    unfold keyed in Hk. by rewrite E in Hk. }
  assert (Hret' : ∀ x, rec_id x ∉ retracted_records s' ↔
      rec_id x ∉ retracted_records s ∧ retraction_target r ≠ Some (rec_id x))
    by (intros x; rewrite Hret; tauto).
  split_and!.
  - intros id p. rewrite Kidx. destruct (keyed r) as [p'|] eqn:Ek.
    + destruct (decide (rec_id r = id)) as [<-|Hne].
      * split; [intros [= <-]; eauto|]. intros (x & [Hx| ->] & E & Hx'); [|congruence].
        by destruct (Hfresh x Hr Hx).
      * rewrite I1. split; [naive_solver|]. intros (x & [Hx| ->] & E & Hx'); [eauto | done].
    + rewrite I1. split; [naive_solver|]. intros (x & [Hx| ->] & E & Hx'); [eauto | congruence].
  - intros t. rewrite Hret, I2. naive_solver.
  - intros t. rewrite Hret. intros [(x & ? & ?)%I3|Ht]; [by eauto|].
    destruct (retraction_accepted log s r t Hr Ht) as [_ (x & ? & ?)%Hacc]. eauto.
  - intros Honce. destruct I4 as [Hk Hu]; [by eauto|].
    assert (Htnew : ∀ t, retraction_target r = Some t → t ∉ retracted_records s).
    { intros t Ht (x & Hx & Htx)%I2. assert (x = r) as -> by eauto. by apply (Hfresh r). }
    unfold live_key in *. split.
    + intros q k. rewrite Kkeys, Hk. split.
      * intros [Ek|[(x & Hx & Hkx & Hxr) Hno]].
        -- exists r. rewrite Hret'. split_and!; [by right | done | done |].
           intros Ht. by apply (Hself _ Ht).
        -- exists x. rewrite Hret'. split_and!; [by left | done | done |]. intros Ht.
           apply Hno. exists (rec_id x). split; [done|]. apply I1. eauto.
      * intros (x & [Hx| ->] & Hkx & [Hxr Hxt]%Hret'); [right | by left].
        split; [by eauto|]. intros (t & Ht & (y & Hy & Ey & Hky)%I1).
        assert (x = y) as <-; [|congruence].
        apply (Hu q k x y); split_and!; try done. rewrite Ey. by apply Htnew.
    + intros q k x y (Hx & Hkx & [Hxr _]%Hret') (Hy & Hky & [Hyr _]%Hret').
      destruct Hx as [Hx| ->], Hy as [Hy| ->]; [by eapply Hu | | |done];
        destruct (keyed_accepted log s r q k Hr); try done; apply Hk; eauto.
Qed.

Lemma replays_keys_exact log s : Replays rules log s → keys_exact (accepted_in log) s.
Proof.
  apply (replays_accepted_ind rules keys_exact).
  - intros A B t0 t HAB. unfold keys_exact, live_key. simpl.
    change (keys_of (set_applied_up_to t t0)) with (keys_of t0).
    setoid_rewrite HAB. done.
  - split_and!.
    + intros id p. simpl. split; [by rewrite lookup_empty | naive_solver].
    + intros t. simpl. split; [set_solver | naive_solver].
    + intros t. simpl. set_solver.
    + intros _. unfold live_key, keys_of. simpl. split; [|naive_solver]. intros q k.
      rewrite lookup_empty. simpl. set_solver.
  - intros. by eapply keys_exact_step.
Qed.
End live.

(** No two members of the list map to the same value. *)
Lemma omap_inj {A B} (f : A → option B) l x y b :
  NoDup (omap f l) → x ∈ l → y ∈ l → f x = Some b → f y = Some b → x = y.
Proof.
  induction l as [|a l IH]; [by intros _ ?%elem_of_nil|].
  assert (Hin : ∀ z, z ∈ l → f z = Some b → b ∈ omap f l)
    by (intros z Hz Hf; apply list_elem_of_omap; eauto).
  intros Hnd Hx Hy Fx Fy. apply elem_of_cons in Hx as [->|Hx], Hy as [->|Hy]; [done|..].
  - simpl in Hnd. rewrite Fx in Hnd. apply NoDup_cons in Hnd as [Hb _]. destruct Hb. eauto.
  - simpl in Hnd. rewrite Fy in Hnd. apply NoDup_cons in Hnd as [Hb _]. destruct Hb. eauto.
  - apply IH; try done. simpl in Hnd. destruct (f a); [by apply NoDup_cons in Hnd as [_ ?] | done].
Qed.



(** C15: the proviso of C14 is needed, because the code lets the same record be
    retracted twice: the second retraction frees the key again, although it
    now belongs to the corrected requirement.  A concrete log verifies in
    which two accepted requirements, neither of them retracted, hold the same
    key under the same request. *)
Theorem second_retraction_frees_foreign_key :
  accepted (verify_log Requirements.log rules0 None) = true ∧
  ∃ q, Requirements.q2 ≠ Requirements.q3 ∧
    accepted_in Requirements.log Requirements.q2 ∧
    accepted_in Requirements.log Requirements.q3 ∧
    keyed Requirements.q2 = Some (q, "R1") ∧
    keyed Requirements.q3 = Some (q, "R1") ∧
    rec_id Requirements.q2 ∉ lv_retracted_records
      (verify_log Requirements.log rules0 None) ∧
    rec_id Requirements.q3 ∉ lv_retracted_records
      (verify_log Requirements.log rules0 None).
Proof.
  split; [by_vm|]. exists (rec_id Requirements.r1). split_and!.
  - intros E. apply (f_equal rec_time) in E. discriminate.
  - apply (accepted_at_in _ 6); by_vm.
  - apply (accepted_at_in _ 10); by_vm.
  - vm_compute. reflexivity.
  - vm_compute. reflexivity.
  - apply not_elem_of_check. vm_cast_no_check (eq_refl false).
  - apply not_elem_of_check. vm_cast_no_check (eq_refl false).
Qed.
