(* ===== verification/PlanFacts.v ===== *)
(** * Cycle detection

    Kahn's algorithm of verify/verifier/plans.rs decides whether the task
    dependencies of a plan are acyclic, whatever order the hash maps iterate
    in. *)

From S2P Require Export KeyTheorems.

(** Occurrences of [x] in [l]. *)
Definition mult (x : string) (l : list string) : nat := length (filter (λ y, y = x) l).

Lemma mult_cons x y l : mult x (y :: l) = (if decide (y = x) then 1 else 0) + mult x l.
Proof. unfold mult. rewrite filter_cons. by case_decide. Qed.
Lemma mult_app x l k : mult x (l ++ k) = mult x l + mult x k.
Proof. unfold mult. by rewrite filter_app, length_app. Qed.
Lemma mult_pos x l : x ∈ l ↔ 0 < mult x l.
Proof.
  induction l as [|y l IH]; [split; [by intros ?%elem_of_nil | unfold mult; simpl; lia]|].
  rewrite mult_cons, elem_of_cons, IH. case_decide; [subst; split; [lia | by left]|].
  split; [intros [->|]; [done | lia] | intros; right; lia].
Qed.

(** The dependencies listed for [id], by every task of that id. *)
Definition deps_in (tasks : list PlanTask) (id : string) : list string :=
  concat (tk_depends_on <$> filter (λ t, tk_id t = id) tasks).

(** The task [b] depends on the task [a]. *)
Definition depends_on (tasks : list PlanTask) (a b : string) : Prop := a ∈ deps_in tasks b.

Definition task_ids (tasks : list PlanTask) : list string := tk_id <$> tasks.

Lemma deps_in_snoc tasks t id :
  deps_in (tasks ++ [t]) id =
  deps_in tasks id ++ (if decide (tk_id t = id) then tk_depends_on t else []).
Proof.
  unfold deps_in. rewrite filter_app, filter_cons, filter_nil, fmap_app, concat_app.
  case_decide; simpl; by rewrite ?app_nil_r.
Qed.

(** ** The graph *)

Lemma add_deps_spec id deps g :
  is_Some (g.1 !! id) →
  let g' := fold_left (add_dep id) deps g in
  g'.1 = <[id := (default 0 (g.1 !! id) + N.of_nat (length deps))%N]> g.1 ∧
  ∀ a b, mult b (default [] (g'.2 !! a)) =
    mult b (default [] (g.2 !! a)) + (if decide (id = b) then mult a deps else 0).
Proof.
  revert g. induction deps as [|d deps IH]; intros g [n Hn]; cbn [fold_left].
  - split.
    + rewrite Hn. simpl. rewrite N.add_0_r. by rewrite insert_id.
    + intros a b. unfold mult at 3. simpl. case_decide; lia.
  - destruct (IH (add_dep id g d)) as [E1 E2]; [unfold add_dep; simpl; rewrite lookup_insert_eq; eauto|].
    split.
    + rewrite E1. unfold add_dep. simpl. rewrite lookup_insert_eq, insert_insert_eq, Hn. simpl. f_equal. lia.
    + intros a b. rewrite E2, mult_cons. unfold add_dep. simpl.
      destruct (decide (d = a)) as [->|].
      * rewrite lookup_insert_eq. simpl. rewrite mult_app, mult_cons.
        change (mult b []) with 0. destruct (decide (id = b)); lia.
      * rewrite lookup_insert_ne by done. case_decide; lia.
Qed.

Lemma build_graph_spec tasks :
  (∀ id, (build_graph tasks).1 !! id =
     if decide (id ∈ task_ids tasks) then Some (N.of_nat (length (deps_in tasks id))) else None) ∧
  (∀ a b, mult b (default [] ((build_graph tasks).2 !! a)) = mult a (deps_in tasks b)).
Proof.
  induction tasks as [|t tasks [IH1 IH2]] using rev_ind.
  - split; [|done]. intros id. rewrite decide_False; [done|]. apply not_elem_of_nil.
  - unfold build_graph in *. rewrite fold_left_app. cbn [fold_left].
    set (g := fold_left add_task tasks (∅, ∅)) in *. unfold add_task.
    set (g0 := (<[tk_id t := _]> g.1, _)).
    destruct (add_deps_spec (tk_id t) (tk_depends_on t) g0) as [E1 E2];
      [simpl; rewrite lookup_insert_eq; eauto|].
    split.
    + intros id. rewrite E1. simpl. rewrite lookup_insert_eq. simpl.
      rewrite insert_insert_eq, deps_in_snoc, length_app. unfold task_ids.
      rewrite fmap_app. simpl. destruct (decide (tk_id t = id)) as [<-|Hne].
      * rewrite lookup_insert_eq, decide_True by (apply elem_of_app; right; by left).
        f_equal. rewrite IH1. case_decide as Hin; simpl; [lia|].
        assert (E : deps_in tasks (tk_id t) = []); [|rewrite E; simpl; lia].
        unfold deps_in. assert (filter (λ t0, tk_id t0 = tk_id t) tasks = []) as ->; [|done].
        destruct (filter _ tasks) as [|x k] eqn:Ef; [done|]. destruct Hin.
        assert (Hx : x ∈ filter (λ t0, tk_id t0 = tk_id t) tasks) by (rewrite Ef; by left).
        apply list_elem_of_filter in Hx as [<- Hx]. by apply list_elem_of_fmap_2.
      * rewrite lookup_insert_ne, IH1 by done. simpl. rewrite Nat.add_0_r.
        destruct (decide (id ∈ task_ids tasks)) as [Hin|Hin].
        -- rewrite decide_True; [done|]. apply elem_of_app. by left.
        -- rewrite decide_False; [done|]. unfold task_ids in Hin.
           rewrite elem_of_app, list_elem_of_singleton. naive_solver.
    + intros a b. rewrite E2. simpl. rewrite deps_in_snoc, mult_app, <- IH2.
      assert (Ha : default [] (<[tk_id t := default [] (g.2 !! tk_id t)]> g.2 !! a) = default [] (g.2 !! a)).
      { destruct (decide (tk_id t = a)) as [<-|]; [by rewrite lookup_insert_eq|].
        by rewrite lookup_insert_ne. }
      rewrite Ha. by case_decide.
Qed.

(** ** Visiting the neighbours of one node *)

Lemma visit_fold_spec l d q :
  (∀ id, id ∈ l → ∃ n, d !! id = Some n ∧ (N.of_nat (mult id l) <= n <= u64_max)%N) →
  ∃ d' k, fold_left visit_neighbor l (d, q) = (d', q ++ k) ∧
    (∀ id, d' !! id = (λ n, (n - N.of_nat (mult id l))%N) <$> d !! id) ∧
    NoDup k ∧ (∀ id, id ∈ k ↔ id ∈ l ∧ d !! id = Some (N.of_nat (mult id l))).
Proof.
  revert d q. induction l as [|x l IH]; intros d q Hd; cbn [fold_left].
  { exists d, []. rewrite app_nil_r. split_and!; [done | | constructor | set_solver].
    intros id. change (mult id []) with 0. destruct (d !! id); simpl; [f_equal; lia | done]. }
  destruct (Hd x) as (n & Hn & Hle); [by left|]. rewrite mult_cons, decide_True in Hle by done.
  unfold visit_neighbor at 2. cbn [fst snd]. rewrite Hn.
  rewrite sub_u64_small by lia.
  set (d1 := <[x := (n - 1)%N]> d). set (q1 := if ((n - 1) =? 0)%N then q ++ [x] else q).
  destruct (IH d1 q1) as (d' & k & E & Hd' & Hnd & Hk).
  { intros id Hid. unfold d1. destruct (decide (x = id)) as [<-|Hne].
    - rewrite lookup_insert_eq. eexists. split; [done|]. lia.
    - rewrite lookup_insert_ne by done. destruct (Hd id) as (m & Hm & Hb); [by right|].
      rewrite mult_cons, decide_False in Hb by done. simpl in Hb. eauto. }
  assert (Hval : ∀ id, d' !! id = (λ n, (n - N.of_nat (mult id (x :: l)))%N) <$> d !! id).
  { intros id. rewrite Hd', mult_cons. unfold d1. destruct (decide (x = id)) as [<-|].
    - rewrite lookup_insert_eq, Hn. simpl. f_equal. lia.
    - by rewrite lookup_insert_ne. }
  unfold q1 in *. destruct (N.eqb_spec (n - 1) 0) as [Hz|Hz].
  - assert (Hx : mult x l = 0) by lia. assert (Hxl : x ∉ l) by (rewrite mult_pos; lia).
    exists d', (x :: k). rewrite E, <- app_assoc. split_and!; [done | done | |].
    + constructor; [|done]. by intros [? _]%Hk.
    + intros id. rewrite !elem_of_cons, Hk, mult_cons. unfold d1. destruct (decide (x = id)) as [<-|].
      * rewrite Hn, Hx. split; [|by left]. intros _. split; [by left | f_equal; lia].
      * rewrite lookup_insert_ne by done. simpl. naive_solver.
  - exists d', k. rewrite E. split_and!; [done..|]. intros id.
    rewrite elem_of_cons, Hk, mult_cons. unfold d1. destruct (decide (x = id)) as [<-|].
    + rewrite lookup_insert_eq, Hn. split.
      * intros [Hin [= Heq]]. split; [by left | f_equal; lia].
      * intros [_ [= Heq]]. assert (Hpos : 0 < mult x l) by lia.
        split; [by apply mult_pos | f_equal; lia].
    + rewrite lookup_insert_ne by done. simpl. naive_solver.
Qed.

(** ** The main loop *)

Section kahn.
Context (tasks : list PlanTask).
Context (Hids : NoDup (task_ids tasks)).
Context (Hdeps : ∀ id a, a ∈ deps_in tasks id → a ∈ task_ids tasks).
Context (Hwidth : ∀ id, (N.of_nat (length (deps_in tasks id)) <= u64_max)%N).

(** Dependencies of [id] not yet visited. *)
Definition rem (P : list string) (id : string) : nat :=
  length (filter (λ a, a ∉ P) (deps_in tasks id)).

Lemma rem_snoc P x id :
  x ∉ P → rem (P ++ [x]) id + mult x (deps_in tasks id) = rem P id.
Proof.
  intros Hx. unfold rem, mult. induction (deps_in tasks id) as [|a l IH]; [done|].
  rewrite !filter_cons. destruct (decide (a = x)) as [->|Hne].
  - rewrite (decide_False (P := x ∉ P ++ [x])) by (rewrite elem_of_app, list_elem_of_singleton; tauto).
    rewrite (decide_True (P := x ∉ P)) by done. simpl. lia.
  - destruct (decide (a ∉ P)) as [Ha|Ha].
    + rewrite decide_True by (rewrite elem_of_app, list_elem_of_singleton; tauto). simpl. lia.
    + rewrite decide_False by (rewrite elem_of_app; tauto). done.
Qed.

Lemma rem_zero P id : rem P id = 0 ↔ ∀ a, a ∈ deps_in tasks id → a ∈ P.
Proof.
  unfold rem. rewrite length_zero_iff_nil. split.
  - intros E a Ha. destruct (decide (a ∈ P)) as [|Hn]; [done|].
    assert (Hin : a ∈ filter (λ a, a ∉ P) (deps_in tasks id)) by (by apply list_elem_of_filter).
    rewrite E in Hin. by apply elem_of_nil in Hin.
  - intros H. destruct (filter _ _) as [|a l] eqn:E; [done|].
    assert (Hin : a ∈ filter (λ a, a ∉ P) (deps_in tasks id)) by (rewrite E; by left).
    apply list_elem_of_filter in Hin as [Hn Ha]. by destruct Hn; apply H.
Qed.

(** [P] lists every node after its dependencies. *)
Definition topological (P : list string) : Prop :=
  ∀ P1 x P2, P = P1 ++ x :: P2 → ∀ a, a ∈ deps_in tasks x → a ∈ P1.

Record loop_inv (d : gmap string N) (P q : list string) : Prop := {
  l_nodup : NoDup (P ++ q);
  l_ids id : id ∈ P ++ q → id ∈ task_ids tasks;
  l_degree id : d !! id = if decide (id ∈ task_ids tasks) then Some (N.of_nat (rem P id)) else None;
  l_ready id : id ∈ task_ids tasks → (id ∈ P ++ q ↔ rem P id = 0);
  l_topo : topological P;
}.

Lemma rem_le P id : rem P id ≤ length (deps_in tasks id).
Proof. unfold rem. apply length_filter. Qed.

Lemma mult_le_rem P x id : x ∉ P → mult x (deps_in tasks id) ≤ rem P id.
Proof. intros Hx. pose proof (rem_snoc P x id Hx). lia. Qed.

Lemma topological_snoc P x :
  topological P → rem P x = 0 → topological (P ++ [x]).
Proof.
  intros Ht Hr P1 y P2 E a Ha. apply app_eq_app in E as (n & [[-> Hn]|[-> Hn]]).
  - destruct n as [|z n]; simpl in Hn.
    + injection Hn as -> ->. rewrite app_nil_r in Hr. by apply (proj1 (rem_zero _ _) Hr).
    + injection Hn as -> _. by eapply Ht.
  - destruct n as [|z [|]]; simpl in Hn; try done. injection Hn as -> _.
    rewrite app_nil_r. by apply (proj1 (rem_zero P y) Hr).
Qed.

Lemma loop_step (adj : gmap string (list string)) d P x q :
  (∀ a b, mult b (default [] (adj !! a)) = mult a (deps_in tasks b)) →
  loop_inv d P (x :: q) →
  ∃ d' k, fold_left visit_neighbor (default [] (adj !! x)) (d, q) = (d', q ++ k) ∧
    loop_inv d' (P ++ [x]) (q ++ k).
Proof.
  intros Hadj [Hnd Hin Hdeg Hready Htopo].
  assert (HxP : x ∉ P).
  { apply NoDup_app in Hnd as (_ & Hdis & _). intros Hx. apply (Hdis x Hx). by left. }
  assert (Hx0 : rem P x = 0).
  { apply Hready; [apply Hin|]; apply elem_of_app; right; by left. }
  assert (Hdep : ∀ id, id ∈ default [] (adj !! x) ↔ 0 < mult x (deps_in tasks id))
    by (intros id; by rewrite mult_pos, Hadj).
  assert (Hnode : ∀ id, 0 < mult x (deps_in tasks id) → id ∈ task_ids tasks).
  { intros id Hid%mult_pos. destruct (decide (id ∈ task_ids tasks)) as [|Hno]; [done|].
    unfold deps_in in Hid. destruct (filter _ tasks) as [|t k] eqn:Ef;
      [by apply elem_of_nil in Hid|].
    assert (Ht : t ∈ filter (λ t, tk_id t = id) tasks) by (rewrite Ef; by left).
    apply list_elem_of_filter in Ht as [<- Ht]. by apply list_elem_of_fmap_2. }
  destruct (visit_fold_spec (default [] (adj !! x)) d q) as (d' & k & E & Hd' & Hk & Hkin).
  { intros id Hid%Hdep. rewrite Hdeg, decide_True by auto. eexists. split; [done|].
    rewrite Hadj. pose proof (mult_le_rem P x id HxP). pose proof (rem_le P id).
    pose proof (Hwidth id). lia. }
  exists d', k. split; [done|].
  assert (Hk' : ∀ id, id ∈ k ↔ id ∈ task_ids tasks ∧ rem P id ≠ 0 ∧ rem (P ++ [x]) id = 0).
  { intros id. rewrite Hkin, Hdep, Hdeg, Hadj. pose proof (rem_snoc P x id HxP). split.
    - intros [Hpos Heq]. rewrite decide_True in Heq by auto. injection Heq as Heq.
      split_and!; [auto | lia | lia].
    - intros (Hid & Hne & Hz). rewrite decide_True by done. split; [lia | f_equal; lia]. }
  assert (Hall : ∀ id, id ∈ (P ++ [x]) ++ (q ++ k) ↔ id ∈ P ++ x :: q ∨ id ∈ k)
    by (intros id; rewrite !elem_of_app, !elem_of_cons, elem_of_nil; tauto).
  split.
  - rewrite app_assoc, <- (app_assoc P [x] q). simpl. apply NoDup_app. split_and!; [done| |done].
    intros id Hid (Ht & Hne & _)%Hk'. by apply Hne, Hready.
  - intros id [Hid|(Ht & _)%Hk']%Hall; auto.
  - intros id. rewrite Hd', Hdeg, Hadj. case_decide; [|done]. simpl. f_equal.
    pose proof (rem_snoc P x id HxP). lia.
  - intros id Ht. rewrite Hall, Hk', (Hready id Ht). pose proof (rem_snoc P x id HxP).
    split; [intros [?|(_ & _ & ?)]; lia|]. intros Hz.
    destruct (decide (rem P id = 0)); [by left | by right].
  - by apply topological_snoc.
Qed.

Lemma nodup_in_ids l : NoDup l → (∀ id, id ∈ l → id ∈ task_ids tasks) → length l ≤ length tasks.
Proof.
  intros Hnd Hin. rewrite <- (length_fmap tk_id tasks).
  apply submseteq_length, NoDup_submseteq; [done|]. intros id Hid. by apply Hin.
Qed.

Lemma kahn_spec (adj : gmap string (list string)) fuel d P q :
  (∀ a b, mult b (default [] (adj !! a)) = mult a (deps_in tasks b)) →
  loop_inv d P q → length tasks < fuel + length P →
  ∃ d' P', kahn fuel adj d q (length P) = Some (length P') ∧ loop_inv d' P' [].
Proof.
  intros Hadj. revert d P q. induction fuel as [|fuel IH]; intros d P q Hinv Hfuel.
  - destruct Hinv as [Hnd Hin _ _ _]. pose proof (nodup_in_ids _ Hnd Hin) as Hl.
    rewrite length_app in Hl. lia.
  - destruct q as [|x q]; [by exists d, P|].
    destruct (loop_step adj d P x q Hadj Hinv) as (d' & k & E & Hinv'). cbn [kahn]. rewrite E.
    replace (S (length P)) with (length (P ++ [x])) by (rewrite length_app; simpl; lia).
    apply (IH d' (P ++ [x])); [done|]. rewrite length_app. simpl. lia.
Qed.

(** A topological order excludes cycles. *)
Lemma topological_acyclic P id :
  topological P → (∀ i, i ∈ task_ids tasks → i ∈ P) → NoDup P →
  ¬ tc (depends_on tasks) id id.
Proof.
  intros Htopo Hall Hnd Hc.
  assert (Hpos : ∀ a b, tc (depends_on tasks) a b → ∀ P1 P2, P = P1 ++ b :: P2 → a ∈ P1).
  { induction 1 as [a b Hab|a c b Hac Hcb IH]; intros P1 P2 E; [by eapply Htopo|].
    apply (IH P1 P2) in E as Hc1. apply list_elem_of_split in Hc1 as (Q1 & Q2 & ->).
    rewrite <- app_assoc in E. simpl in E. pose proof (Htopo _ _ _ E a Hac).
    apply elem_of_app. by left. }
  assert (Hid : id ∈ P).
  { apply Hall. assert (Hlast : ∃ c, depends_on tasks id c) by (inversion Hc; eauto).
    destruct Hlast as [c Hlast]. by eapply Hdeps. }
  apply list_elem_of_split in Hid as (P1 & P2 & E).
  pose proof (Hpos id id Hc P1 P2 E) as Hin. rewrite E in Hnd.
  apply NoDup_app in Hnd as (_ & Hdis & _). apply (Hdis id Hin). by left.
Qed.

Lemma tc_flipped {A} (R : A → A → Prop) x y : tc (flip R) x y → tc R y x.
Proof.
  induction 1 as [x y Hxy|x y z Hxy _ IH]; [by apply tc_once|].
  eapply tc_r; [exact IH | exact Hxy].
Qed.

(** Without cycles the loop visits everything. *)
Lemma stuck_cyclic d P :
  loop_inv d P [] → (∀ id, ¬ tc (depends_on tasks) id id) →
  ∀ id, id ∈ task_ids tasks → id ∈ P.
Proof.
  intros [_ _ _ Hready _] Hac id.
  assert (Hsn : sn (flip (depends_on tasks)) id).
  { apply tc_finite_sn.
    - intros x Hx%tc_flipped. by apply (Hac x).
    - exists (task_ids tasks). intros y Hy.
      assert (Hlast : ∃ c, depends_on tasks y c).
      { clear -Hy. induction Hy as [x y Hxy|x y z Hxy Hyz IH]; [by exists x | exact IH]. }
      destruct Hlast as [c Hlast]. by eapply Hdeps. }
  induction Hsn as [id _ IH]. intros Hid.
  rewrite <- (app_nil_r P). apply Hready; [done|]. apply rem_zero. intros a Ha.
  apply IH; [done | by eapply Hdeps].
Qed.
End kahn.

(** ** [has_cycle] *)

Section has_cycle.
Context (tasks : list PlanTask).
Context (Hids : NoDup (task_ids tasks)).
Context (Hdeps : ∀ id a, a ∈ deps_in tasks id → a ∈ task_ids tasks).
Context (Hwidth : ∀ id, (N.of_nat (length (deps_in tasks id)) <= u64_max)%N).

(** The state in which the main loop starts. *)
Lemma start_inv (l : list (string * N)) :
  l ≡ₚ map_to_list (build_graph tasks).1 →
  loop_inv tasks (build_graph tasks).1 [] (fst <$> filter (λ e, e.2 = 0%N) l).
Proof.
  intros Hl. destruct (build_graph_spec tasks) as [Hdeg _].
  assert (Hrem : ∀ id, rem tasks [] id = length (deps_in tasks id)).
  { intros id. unfold rem. induction (deps_in tasks id) as [|a k IH]; [done|].
    rewrite filter_cons, decide_True by apply not_elem_of_nil. simpl. by f_equal. }
  assert (Hready : ∀ id, id ∈ fst <$> filter (λ e, e.2 = 0%N) l ↔
    id ∈ task_ids tasks ∧ rem tasks [] id = 0).
  { intros id. rewrite list_elem_of_fmap. split.
    - intros ([i n] & -> & [Hz Hin]%list_elem_of_filter). simpl in *.
      rewrite Hl, elem_of_map_to_list, Hdeg in Hin. case_decide; [|done].
      injection Hin as <-. split; [done|]. rewrite Hrem. lia.
    - intros [Hid Hz]. exists (id, 0%N). split; [done|]. apply list_elem_of_filter. split; [done|].
      rewrite Hl, elem_of_map_to_list, Hdeg, decide_True by done. f_equal.
      rewrite Hrem in Hz. lia. }
  split; simpl.
  - assert (Hnd : NoDup (fst <$> l)) by (rewrite Hl; apply NoDup_fst_map_to_list).
    clear -Hnd. induction l as [|[i n] l IH]; [constructor|]. rewrite fmap_cons in Hnd.
    apply NoDup_cons in Hnd as [Hi Hnd]. rewrite filter_cons. case_decide; [|by apply IH].
    rewrite fmap_cons. apply NoDup_cons. split; [|by apply IH]. simpl in *. intros Hin.
    apply Hi. apply list_elem_of_fmap in Hin as (e & -> & [_ He]%list_elem_of_filter).
    by apply list_elem_of_fmap_2.
  - by intros id [? _]%Hready.
  - intros id. rewrite Hdeg. by case_decide; [rewrite Hrem|].
  - intros id Hid. rewrite Hready. tauto.
  - intros P1 x P2 E. by destruct P1.
Qed.

Lemma has_cycle_false `{HashOrder} :
  has_cycle tasks = false ↔ ∀ id, ¬ tc (depends_on tasks) id id.
Proof.
  destruct (build_graph_spec tasks) as [_ Hadj].
  pose proof (start_inv _ (hash_iter_perm (build_graph tasks).1)) as Hinv.
  unfold has_cycle. destruct (build_graph tasks) as [d adj]. cbn [fst snd] in *.
  destruct (kahn_spec tasks Hwidth adj (kahn_fuel tasks) d [] _ Hadj Hinv)
    as (d' & P & E & Hfin); [unfold kahn_fuel; simpl; lia|].
  change (length (A := string) []) with 0 in E. rewrite E.
  pose proof Hfin as [Hnd Hin _ _ Htopo]. rewrite app_nil_r in Hnd, Hin.
  rewrite negb_false_iff, bool_decide_eq_true. split.
  - intros Hlen id. apply (topological_acyclic tasks Hdeps P id Htopo); [|done].
    assert (Hperm : P ≡ₚ task_ids tasks).
    { apply submseteq_length_Permutation; [by apply NoDup_submseteq|].
      unfold task_ids. rewrite length_fmap. lia. }
    intros i. by rewrite Hperm.
  - intros Hac. rewrite <- (length_fmap tk_id tasks). apply Permutation_length, NoDup_Permutation;
      [done..|]. intros id. split; [apply Hin | by apply (stuck_cyclic tasks Hdeps d' P)].
Qed.
End has_cycle.
