(* ===== verification/PlanTheorems.v ===== *)
(** * Properties of plans

    What [has_cycle] decides and what an accepted plan guarantees. *)

From S2P Require Export PlanFacts.

#[local] Existing Instance Planned.serde.

(** The size of the dependency lists fits the word of the in-degrees. *)
Definition deps_fit (tasks : list PlanTask) : Prop :=
  (N.of_nat (length (concat (tk_depends_on <$> tasks))) <= u64_max)%N.

Lemma deps_fit_in tasks id :
  deps_fit tasks → (N.of_nat (length (deps_in tasks id)) <= u64_max)%N.
Proof.
  unfold deps_fit, deps_in. intros Hf.
  assert (Hl : length (concat (tk_depends_on <$> filter (λ t, tk_id t = id) tasks)) ≤
    length (concat (tk_depends_on <$> tasks))); [|lia].
  clear Hf. induction tasks as [|t tasks IH]; [done|].
  rewrite filter_cons. case_decide; rewrite ?fmap_cons; cbn [concat]; rewrite ?length_app; lia.
Qed.

Lemma collect_ids_spec seen tasks ids :
  collect_ids seen tasks = Some ids →
  NoDup (task_ids tasks) ∧ (∀ id, id ∈ task_ids tasks → id ∉ seen) ∧
  (∀ id, id ∈ ids ↔ id ∈ seen ∨ id ∈ task_ids tasks).
Proof.
  revert seen. induction tasks as [|t tasks IH]; intros seen; simpl.
  - intros [= <-]. split_and!; [constructor | by intros ? ?%elem_of_nil |].
    intros id. rewrite elem_of_nil. tauto.
  - case_bool_decide as Ht; [done|]. intros (Hnd & Hnew & Hall)%IH.
    change (task_ids (t :: tasks)) with (tk_id t :: task_ids tasks). split_and!.
    + constructor; [|done]. intros Hin. apply (Hnew _ Hin). set_solver.
    + intros id [->|Hid]%elem_of_cons; [done|]. specialize (Hnew id Hid). set_solver.
    + intros id. rewrite Hall, elem_of_cons, elem_of_union, elem_of_singleton. tauto.
Qed.

Lemma elem_of_deps_in tasks id a :
  a ∈ deps_in tasks id ↔ ∃ t, t ∈ tasks ∧ tk_id t = id ∧ a ∈ tk_depends_on t.
Proof.
  unfold deps_in. rewrite list_elem_of_In, in_concat. setoid_rewrite <- list_elem_of_In.
  setoid_rewrite list_elem_of_fmap. split.
  - intros (l & (t & -> & [E Ht]%list_elem_of_filter) & Ha). eauto.
  - intros (t & Ht & E & Ha). exists (tk_depends_on t). split; [|done].
    exists t. by rewrite list_elem_of_filter.
Qed.



(** C17: every accepted plan has a non-empty list of tasks with distinct ids,
    whose dependencies and inputs name tasks of the plan, without a dependency
    cycle; its status fits its tasks' statuses, it has exactly one cause, the
    request it plans, and every result it cites was accepted before, in the
    same thread and space, for an action of that request. *)
Theorem accepted_plan_is_sound `{Primitives, Serde, HashOrder} rules log r :
  accepted (verify_log log rules None) = true → accepted_in log r → rec_kind r = Kind.Plan →
  ∃ l1 s1 k data, log = l1 ++ r :: k ∧ accepted_after rules l1 s1 r ∧
    decode (rec_data r) = Some data ∧
    pl_tasks data ≠ [] ∧ NoDup (task_ids (pl_tasks data)) ∧
    (∀ t a, t ∈ pl_tasks data → a ∈ tk_depends_on t ∨ a ∈ tk_inputs_from t →
       a ∈ task_ids (pl_tasks data)) ∧
    (deps_fit (pl_tasks data) → ∀ id, ¬ tc (depends_on (pl_tasks data)) id id) ∧
    status_consistent data = true ∧
    (∃ c, cause_refs r = [c] ∧ ref_target c = pl_request_id data) ∧
    pl_request_id data ∈ active_requests s1 ∧
    (∀ t id, t ∈ pl_tasks data → tk_result_record_id t = Some id →
       ∃ res rd act ad, accepted_in l1 res ∧ rec_id res = id ∧ rec_kind res = Kind.Result ∧
         rec_thread res = rec_thread r ∧ rec_space res = rec_space r ∧
         decode (rec_data res) = Some rd ∧ is_executed (tk_status t) = true ∧
         prior_find (prior_of (l1 ++ [r])) (rt_action_id rd) = Some act ∧
         decode (rec_data act) = Some ad ∧ ac_request_id ad = pl_request_id data).
Proof.
  intros Hv Hr Hk. destruct (accepted_moment rules log r Hv Hr) as (l1 & s1 & k & E & Ha).
  pose proof (accepted_after_kind rules l1 s1 r Ha) as Hc. unfold check_kind_specific in Hc.
  rewrite Hk in Hc. pose proof Ha as (Hl1 & _). unfold check_plan in Hc.
  destruct (decode (rec_data r) : option PlanData) as [data|] eqn:Hd; [|done].
  destruct (single_cause_to r _) eqn:Ecause; [|done].
  destruct (_ ∈? active_requests s1) eqn:Ereq in Hc; [|done].
  destruct (prior_find _ (pl_request_id data)) as [q|] eqn:Eq in Hc; [|done].
  destruct (_ || _) eqn:Eth in Hc; [done|].
  destruct (bool_decide (pl_tasks data = [])) eqn:Ene in Hc; [done|].
  destruct (collect_ids _ _) as [ids|] eqn:Eids; [|done].
  destruct (negb (forallb _ _)) eqn:Ein in Hc; [done|].
  destruct (first_some _ _) eqn:Eres; [done|].
  destruct (has_cycle _) eqn:Ecyc; [done|].
  destruct (status_consistent data) eqn:Est; [|done]. clear Hc. bool_simpl.
  apply collect_ids_spec in Eids as (Hnd & _ & Hids).
  assert (Hnames : ∀ t a, t ∈ pl_tasks data → a ∈ tk_depends_on t ∨ a ∈ tk_inputs_from t →
    a ∈ task_ids (pl_tasks data)).
  { intros t a Ht Hin. rewrite forallb_forall in Ein.
    specialize (Ein t (proj1 (list_elem_of_In _ _) Ht)). bool_simpl.
    assert (Hseen : a ∈ ids); [|apply Hids in Hseen; set_solver].
    destruct Hin as [Hin|Hin]; apply list_elem_of_In in Hin;
      match goal with Hf : forallb _ ?l = true, Hm : In a ?l |- _ =>
        rewrite forallb_forall in Hf; specialize (Hf a Hm) end; by bool_simpl. }
  exists l1, s1, k, data. split_and!; try done.
  - intros Hfit. refine (proj1 (has_cycle_false (pl_tasks data) Hnd _ _) Ecyc);
      [|intros; by apply deps_fit_in].
    intros id a (t & Ht & _ & Hat)%elem_of_deps_in. eauto.
  - by apply single_cause_to_spec.
  - intros t id Ht Hid. rewrite first_some_None, Forall_forall in Eres. specialize (Eres t Ht).
    unfold check_task_result in Eres. rewrite Hid in Eres.
    destruct (is_executed _) eqn:Eex in Eres; [|done].
    destruct (prior_find _ id) as [res|] eqn:Er in Eres; [|done].
    destruct (_ || _) eqn:Eb in Eres; [done|].
    destruct (decode (rec_data res) : option ResultData) as [rd|] eqn:Erd; [|done].
    destruct (prior_find _ (rt_action_id rd)) as [act|] eqn:Eact in Eres; [|done].
    destruct (decode (rec_data act) : option ActionData) as [ad|] eqn:Ead; [|done].
    destruct (_ =? _) eqn:Erq in Eres; [|done]. bool_simpl.
    destruct (accepted_prior rules l1 s1 r id Hl1) as (res' & Hf & Hacc & Hi); [done|].
    rewrite Er in Hf. injection Hf as <-. exists res, rd, act, ad. done.
Qed.

Lemma accepted_plan_is_sound_witness :
  ∃ l1 s1 k data, Planned.log = l1 ++ Planned.r2 :: k ∧
    accepted_after rules0 l1 s1 Planned.r2 ∧ decode (rec_data Planned.r2) = Some data ∧
    NoDup (task_ids (pl_tasks data)).
Proof.
  destruct (accepted_plan_is_sound rules0 Planned.log Planned.r2) as
    (l1 & s1 & k & data & E & Ha & Hd & _ & Hnd & _);
    [by_vm | apply (accepted_at_in _ 2); by_vm | reflexivity|].
  exists l1, s1, k, data. split_and!; assumption.
Defined.
