(* ===== verification/StandingFacts.v ===== *)
(** * The standing walk

    The iterative post-order walk of verify/standing.rs terminates within its
    fuel on an acyclic lineage and computes the inductively defined soundness
    of candidates; replacement chains are followed to their end. *)

From S2P Require Export PlanTheorems.

(** ** Sums over a map *)

Section weights.
Context {A : Type} (m : gmap RecordId A) (w : RecordId → A → nat).

Definition weight_of (l : list (RecordId * A)) : nat := sum_list_with (λ e, w e.1 e.2) l.

Lemma weight_total : map_fold (λ k a n, w k a + n) 0 m = weight_of (map_to_list m).
Proof.
  rewrite map_fold_foldr. unfold weight_of.
  induction (map_to_list m) as [|[k a] l IH]; simpl; [done|]. by rewrite IH.
Qed.
End weights.

Lemma weight_of_le {A} (w1 w2 : RecordId → A → nat) l :
  (∀ k a, (k, a) ∈ l → w1 k a ≤ w2 k a) → weight_of w1 l ≤ weight_of w2 l.
Proof.
  unfold weight_of. induction l as [|[k a] l IH]; intros Hw; simpl; [done|].
  specialize (Hw k a) as Hk. specialize (IH ltac:(intros; apply Hw; by right)).
  specialize (Hk ltac:(by left)). lia.
Qed.

Lemma weight_of_drop {A} (w1 w2 : RecordId → A → nat) l k a :
  (∀ k a, (k, a) ∈ l → w1 k a ≤ w2 k a) → (k, a) ∈ l → w1 k a = 0 →
  weight_of w1 l + w2 k a ≤ weight_of w2 l.
Proof.
  unfold weight_of. induction l as [|[k' a'] l IH]; intros Hw Hin Hz; simpl; [by apply elem_of_nil in Hin|].
  assert (Hl : ∀ k a, (k, a) ∈ l → w1 k a ≤ w2 k a) by (intros; apply Hw; by right).
  apply elem_of_cons in Hin as [[= -> ->]|Hin].
  - rewrite Hz. pose proof (weight_of_le w1 w2 l Hl) as Hle. unfold weight_of in Hle. lia.
  - specialize (IH Hl Hin Hz). specialize (Hw k' a' ltac:(by left)). lia.
Qed.

(** ** The walk *)

Section walk.
Context (candidates : gmap RecordId CandInfo) (anchor_ok : RecordId → RecordId → bool) (s : State).

(** A candidate stands: it is not retracted, and its basis stands. *)
Inductive stands : RecordId → Prop :=
  | stands_root id info :
      candidates !! id = Some info → id ∉ retracted_records s →
      ci_basis info = CandidateBasis.Root → stands id
  | stands_continuation id info anchor parent :
      candidates !! id = Some info → id ∉ retracted_records s →
      ci_basis info = CandidateBasis.Continuation →
      head (ci_causes info) = Some anchor → ci_parent info = Some parent →
      anchor_ok anchor parent = true → stands parent → stands id
  | stands_derivation id info :
      candidates !! id = Some info → id ∉ retracted_records s →
      ci_basis info = CandidateBasis.Derivation →
      (∀ d, d ∈ standing_deps candidates info → stands d) → stands id.

Lemma stands_candidate id : stands id → is_Some (candidates !! id).
Proof. destruct 1; eauto. Qed.

(** Lineage points to strictly smaller rank. *)
Context (rank : RecordId → nat).
Context (Hrank : ∀ id info d, candidates !! id = Some info → id ∉ retracted_records s →
  d ∈ standing_deps candidates info → is_Some (candidates !! d) → rank d < rank id).

Definition decided_right (sound : gmap RecordId bool) : Prop :=
  ∀ id b, sound !! id = Some b → is_Some (candidates !! id) ∧ (b = true ↔ stands id).

Lemma decided_insert sound id b :
  decided_right sound → is_Some (candidates !! id) → (b = true ↔ stands id) →
  decided_right (<[id := b]> sound).
Proof.
  intros Hs Hc Hb x c. destruct (decide (id = x)) as [<-|].
  - rewrite lookup_insert_eq. by intros [= <-].
  - rewrite lookup_insert_ne by done. apply Hs.
Qed.

Lemma dep_sound_right sound d :
  decided_right sound → (is_Some (candidates !! d) → is_Some (sound !! d)) →
  default false (sound !! d) = true ↔ stands d.
Proof.
  intros Hs Hd. destruct (sound !! d) as [b|] eqn:E; simpl; [by apply (Hs d b)|].
  split; [done|]. intros Hst%stands_candidate. by destruct (Hd Hst).
Qed.

Lemma standing_value_right sound id info :
  decided_right sound → candidates !! id = Some info → id ∉ retracted_records s →
  (∀ d, d ∈ standing_deps candidates info → is_Some (candidates !! d) → is_Some (sound !! d)) →
  standing_value candidates anchor_ok sound info = true ↔ stands id.
Proof.
  intros Hs Hc Hret Hdeps. unfold standing_value.
  pose proof Hdeps as Hd. unfold standing_deps in Hd.
  destruct (ci_basis info) eqn:Hb.
  - split; [intros _; by eapply stands_root | done].
  - destruct (head (ci_causes info)) as [anchor|] eqn:Ea.
    2: { split; [done|]. inversion 1; simplify_eq; congruence. }
    destruct (ci_parent info) as [parent|] eqn:Ep.
    2: { split; [done|]. inversion 1; simplify_eq; congruence. }
    rewrite andb_true_iff, dep_sound_right by (done || (apply Hd; by left)). split.
    + intros [Hok Hst]. by eapply stands_continuation.
    + inversion 1; simplify_eq; try congruence. by split; congruence || done.
  - rewrite forallb_forall. split.
    + intros Hall. eapply stands_derivation; [done..|]. intros d Hin.
      apply (dep_sound_right sound); [done | by apply Hdeps |]. apply Hall. by apply list_elem_of_In.
    + inversion 1; simplify_eq; try congruence. intros d Hin%list_elem_of_In.
      apply dep_sound_right; auto.
Qed.

(** Every entry to be valued has its candidates decided, or above it. *)
Definition deps_above (sound : gmap RecordId bool) (stack : list (RecordId * bool)) : Prop :=
  ∀ up id down info d, stack = up ++ (id, true) :: down → candidates !! id = Some info →
    d ∈ standing_deps candidates info → is_Some (candidates !! d) →
    is_Some (sound !! d) ∨ ∃ b, (d, b) ∈ up.

(** Entries above one that waits for its value are of smaller rank. *)
Definition ranked (stack : list (RecordId * bool)) : Prop :=
  ∀ up id down d b, stack = up ++ (id, true) :: down → (d, b) ∈ up → rank d < rank id.

Lemma deps_above_tail sound sound' e stack :
  deps_above sound (e :: stack) → sound ⊆ sound' →
  (is_Some (candidates !! e.1) → is_Some (sound' !! e.1)) → deps_above sound' stack.
Proof.
  intros Hd Hsub He up id down info d -> Hc Hin Hcd.
  destruct (Hd (e :: up) id down info d) as [[v Hv]|(b & Hb)]; try done.
  - left. exists v. by eapply lookup_weaken.
  - apply elem_of_cons in Hb as [<-|Hb]; [left; by apply He | right; eauto].
Qed.

Lemma ranked_tail e stack : ranked (e :: stack) → ranked stack.
Proof.
  intros Hr up id down d b -> Hin. apply (Hr (e :: up) id down d b); [done | by right].
Qed.

Definition unresolved (sound : gmap RecordId bool) (info : CandInfo) : list RecordId :=
  filter (λ d, sound !! d = None ∧ is_Some (candidates !! d)) (standing_deps candidates info).

Definition pushed (sound : gmap RecordId bool) (info : CandInfo) : list (RecordId * bool) :=
  reverse ((λ d, (d, false)) <$> unresolved sound info).

Lemma elem_of_pushed_deps sound info d b :
  (d, b) ∈ pushed sound info ↔
  b = false ∧ d ∈ standing_deps candidates info ∧ sound !! d = None ∧ is_Some (candidates !! d).
Proof.
  unfold pushed. rewrite elem_of_reverse, list_elem_of_fmap. unfold unresolved.
  setoid_rewrite list_elem_of_filter. naive_solver.
Qed.

(** A split of the extended stack at a waiting entry. *)
Lemma expand_split sound info id stack up x down :
  pushed sound info ++ (id, true) :: stack = up ++ (x, true) :: down →
  up = pushed sound info ∧ x = id ∧ down = stack ∨
  ∃ mid, up = pushed sound info ++ (id, true) :: mid ∧ stack = mid ++ (x, true) :: down.
Proof.
  intros E. apply app_eq_app in E as (n & [[E1 E2]|[E1 E2]]).
  - destruct n as [|[y b] n]; simpl in E2.
    + injection E2 as -> ->. left. by rewrite app_nil_r in E1.
    + injection E2 as <- <- E2. exfalso.
      assert (Hin : (x, true) ∈ pushed sound info) by (rewrite E1; apply elem_of_app; right; by left).
      by apply elem_of_pushed_deps in Hin as [? _].
  - destruct n as [|[y b] n]; simpl in E2.
    + injection E2 as -> ->. left. by rewrite app_nil_r in E1.
    + injection E2 as <- <- E2. right. exists n. by rewrite E1, E2.
Qed.

Lemma expand_deps_above sound id b info stack :
  deps_above sound ((id, b) :: stack) → candidates !! id = Some info →
  deps_above sound (pushed sound info ++ (id, true) :: stack).
Proof.
  intros Hd Hc up x down info' d E Hc' Hin Hcd.
  destruct (expand_split _ _ _ _ _ _ _ E) as [(-> & -> & ->)|(mid & -> & Em)].
  - assert (info' = info) as -> by congruence.
    destruct (sound !! d) as [v|] eqn:Es; [left; eauto|]. right. exists false.
    by apply elem_of_pushed_deps.
  - destruct (Hd ((id, b) :: mid) x down info' d) as [?|(c & Hb)]; try done; [by rewrite Em | by left|].
    right. apply elem_of_cons in Hb as [[= -> ->]|Hb].
    + exists true. apply elem_of_app. right. by left.
    + exists c. apply elem_of_app. right. by right.
Qed.

Lemma expand_ranked sound id b info stack :
  ranked ((id, b) :: stack) → candidates !! id = Some info → id ∉ retracted_records s →
  ranked (pushed sound info ++ (id, true) :: stack).
Proof.
  intros Hr Hc Hret up x down d c E Hin.
  destruct (expand_split _ _ _ _ _ _ _ E) as [(-> & -> & ->)|(mid & -> & Em)].
  - apply elem_of_pushed_deps in Hin as (_ & Hdep & _ & Hcd). by eapply Hrank.
  - assert (Hx : rank id < rank x).
    { apply (Hr ((id, b) :: mid) x down id b); [by rewrite Em | by left]. }
    apply elem_of_app in Hin as [Hin|[[= -> ->]|Hin]%elem_of_cons]; [|done|].
    + apply elem_of_pushed_deps in Hin as (_ & Hdep & _ & Hcd).
      etrans; [by eapply Hrank | done].
    + apply (Hr ((id, b) :: mid) x down d c); [by rewrite Em | by right].
Qed.

(** ** The fuel *)

Definition waiting (stack : list (RecordId * bool)) (id : RecordId) : bool := (id, true) ∈? stack.

(** Work left for a candidate that is neither decided nor expanded. *)
Definition work_of (sound : gmap RecordId bool) (stack : list (RecordId * bool))
    (id : RecordId) (info : CandInfo) : nat :=
  if is_Some_b (sound !! id) || waiting stack id then 0
  else S (length (standing_deps candidates info)).

Definition work_left (sound : gmap RecordId bool) (stack : list (RecordId * bool)) : nat :=
  weight_of (work_of sound stack) (map_to_list candidates).

Lemma work_left_mono sound sound' stack stack' :
  (∀ id info, candidates !! id = Some info → work_of sound' stack' id info ≤ work_of sound stack id info) →
  work_left sound' stack' ≤ work_left sound stack.
Proof. intros Hw. apply weight_of_le. intros k a Hin%elem_of_map_to_list. by apply Hw. Qed.

Lemma work_of_pop sound sound' e stack id info :
  sound ⊆ sound' → (e.2 = true → is_Some (candidates !! e.1) → is_Some (sound' !! e.1)) →
  candidates !! id = Some info →
  work_of sound' stack id info ≤ work_of sound (e :: stack) id info.
Proof.
  intros Hsub He Hc. unfold work_of, waiting.
  destruct (sound !! id) as [v|] eqn:E; simpl.
  { by rewrite (lookup_weaken _ _ _ _ E Hsub). }
  destruct (bool_decide ((id, true) ∈ e :: stack)) eqn:Eb; bool_simpl.
  - apply elem_of_cons in Eb as [<-|Hin].
    + destruct He as [v Hv]; [done | by eauto |]. simpl in Hv. by rewrite Hv.
    + rewrite (bool_decide_true ((id, true) ∈ stack)) by done. by rewrite orb_true_r.
  - rewrite (bool_decide_false ((id, true) ∈ stack)) by (intros ?; apply Eb; by right).
    rewrite orb_false_r. destruct (is_Some_b _); lia.
Qed.

Lemma work_expand sound id info stack :
  candidates !! id = Some info → sound !! id = None → (id, true) ∉ stack →
  work_left sound (pushed sound info ++ (id, true) :: stack) +
    S (length (standing_deps candidates info)) ≤ work_left sound ((id, false) :: stack).
Proof.
  intros Hc Hs Hn.
  assert (Hw : work_of sound ((id, false) :: stack) id info = S (length (standing_deps candidates info))).
  { unfold work_of, waiting. rewrite Hs. simpl. rewrite bool_decide_false; [done|].
    by intros [[=]|?]%elem_of_cons. }
  rewrite <- Hw. apply weight_of_drop.
  - intros k a _. unfold work_of, waiting. destruct (is_Some_b (sound !! k)); simpl; [done|].
    destruct (decide ((k, true) ∈ (id, false) :: stack)) as [Hin|Hin].
    + rewrite !bool_decide_true; [done | done |].
      apply elem_of_cons in Hin as [[=]|Hin]. apply elem_of_app. right. by right.
    + rewrite (bool_decide_false _ Hin). case_match; lia.
  - by apply elem_of_map_to_list.
  - unfold work_of, waiting. rewrite (bool_decide_true ((id, true) ∈ _));
      [by rewrite orb_true_r|]. apply elem_of_app. right. by left.
Qed.

(** ** The loop *)

(** What the loop owes for a stack. *)
Definition walk_result (stack : list (RecordId * bool)) (sound sound' : gmap RecordId bool) : Prop :=
  sound ⊆ sound' ∧ decided_right sound' ∧
  ∀ id b, (id, b) ∈ stack → is_Some (candidates !! id) → is_Some (sound' !! id).

Lemma walk_result_pop e stack sound sound1 sound' :
  walk_result stack sound1 sound' → sound ⊆ sound1 →
  (is_Some (candidates !! e.1) → is_Some (sound1 !! e.1)) →
  walk_result (e :: stack) sound sound'.
Proof.
  intros (Hsub & Hr & Hst) Hsub1 He. split_and!; [by etrans | done |].
  intros id b [<-|Hin]%elem_of_cons Hc; [|by eapply Hst].
  destruct (He Hc) as [v Hv]. exists v. by eapply lookup_weaken.
Qed.

Lemma standing_loop_spec fuel stack sound :
  decided_right sound → deps_above sound stack → ranked stack →
  length stack + work_left sound stack ≤ fuel →
  ∃ sound', standing_loop fuel candidates anchor_ok s stack sound = Some sound' ∧
    walk_result stack sound sound'.
Proof.
  revert stack sound. induction fuel as [|fuel IH]; intros [|[id b] stack] sound Hs Hd Hr Hf;
    cbn [standing_loop].
  1, 3: exists sound; split; [done|]; split_and!; [done..|]; by intros ?? ?%elem_of_nil.
  { simpl in Hf. lia. }
  assert (Hpop : ∀ sound1, sound ⊆ sound1 → decided_right sound1 →
    (is_Some (candidates !! id) → is_Some (sound1 !! id)) →
    ∃ sound', standing_loop fuel candidates anchor_ok s stack sound1 = Some sound' ∧
      walk_result ((id, b) :: stack) sound sound').
  { intros sound1 Hsub Hs1 Hid. destruct (IH stack sound1) as (sound' & E & Hw).
    - done.
    - by eapply deps_above_tail.
    - by eapply ranked_tail.
    - assert (Hle : work_left sound1 stack ≤ work_left sound ((id, b) :: stack)).
      { apply work_left_mono. intros k info Hk. apply work_of_pop; [done | auto | done]. }
      simpl in Hf. lia.
    - exists sound'. split; [done|]. by eapply walk_result_pop. }
  destruct (sound !! id) as [v|] eqn:Es; cbn [is_Some_b]; [apply Hpop; eauto|].
  destruct (candidates !! id) as [info|] eqn:Ec; [|apply Hpop; [done..|]; by intros []].
  assert (Hins : ∀ v, (v = true ↔ stands id) → ∃ sound',
    standing_loop fuel candidates anchor_ok s stack (<[id := v]> sound) = Some sound' ∧
      walk_result ((id, b) :: stack) sound sound').
  { intros v Hv. apply Hpop; [by apply insert_subseteq | apply decided_insert; eauto |].
    rewrite lookup_insert_eq. eauto. }
  destruct (id ∈? retracted_records s) eqn:Eret; bool_simpl.
  { apply Hins. split; [done|]. by destruct 1. }
  fold (unresolved sound info). destruct (negb b && _) eqn:Eb.
  - bool_simpl. subst b. fold (pushed sound info).
    assert (Hfresh : (id, true) ∉ stack).
    { intros (l1 & l2 & ->)%list_elem_of_split.
      pose proof (Hr ((id, false) :: l1) id l2 id false eq_refl ltac:(by left)). lia. }
    pose proof (work_expand sound id info stack Ec Es Hfresh) as Hwork.
    assert (Hlen : length (pushed sound info) ≤ length (standing_deps candidates info)).
    { unfold pushed. rewrite length_reverse, length_fmap. apply length_filter. }
    destruct (IH (pushed sound info ++ (id, true) :: stack) sound) as (sound' & E & Hsub & Hs' & Hst).
    + done.
    + by eapply expand_deps_above.
    + by eapply expand_ranked.
    + rewrite length_app. simpl in *. lia.
    + exists sound'. split; [done|]. split_and!; [done..|].
      intros x c [[= -> ->]|Hin]%elem_of_cons Hc.
      * apply (Hst id true); [|done]. apply elem_of_app. right. by left.
      * apply (Hst x c); [|done]. apply elem_of_app. right. by right.
  - apply Hins. apply standing_value_right; [done..|]. intros d Hin Hcd.
    apply andb_false_iff in Eb as [Eb|Eb]; bool_simpl.
    + subst b. destruct (Hd [] id stack info d) as [?|(c & ?%elem_of_nil)]; done.
    + destruct (sound !! d) as [v|] eqn:Ed; [by eauto|].
      assert (Hun : d ∈ unresolved sound info) by (by apply list_elem_of_filter).
      rewrite Eb in Hun. by apply elem_of_nil in Hun.
Qed.

(** From one candidate, the fuel of the model suffices. *)
Lemma standing_from_one id sound :
  decided_right sound →
  ∃ sound', standing_loop (standing_fuel candidates) candidates anchor_ok s [(id, false)] sound
      = Some sound' ∧ walk_result [(id, false)] sound sound'.
Proof.
  intros Hs. apply standing_loop_spec; [done | | |].
  - intros up x down info d E. destruct up as [|? []]; simplify_eq.
  - intros up x down d b E. destruct up as [|? []]; simplify_eq.
  - unfold standing_fuel. rewrite (weight_total candidates (λ _ info, S (length (standing_deps candidates info)))).
    unfold work_left. simpl. apply le_n_S, weight_of_le. intros k info _.
    unfold work_of. case_match; lia.
Qed.

(** All candidates end up decided, rightly. *)
Lemma standing_all_spec `{HashOrder} :
  decided_right (standing_all candidates anchor_ok s) ∧
  ∀ id, is_Some (candidates !! id) → is_Some (standing_all candidates anchor_ok s !! id).
Proof.
  unfold standing_all.
  assert (Hfold : ∀ l sound, decided_right sound →
    let sound' := fold_left (λ sound (e : RecordId * CandInfo),
        if is_Some_b (sound !! e.1) then sound
        else default sound
          (standing_loop (standing_fuel candidates) candidates anchor_ok s [(e.1, false)] sound))
      l sound in
    decided_right sound' ∧ sound ⊆ sound' ∧
    ∀ id info, (id, info) ∈ l → is_Some (candidates !! id) → is_Some (sound' !! id)).
  { induction l as [|[x info] l IH]; intros sound Hs; cbn [fold_left fst].
    - split_and!; [done..|]. by intros ?? ?%elem_of_nil.
    - assert (Hstep : ∃ sound1, (if is_Some_b (sound !! x) then sound else default sound
          (standing_loop (standing_fuel candidates) candidates anchor_ok s [(x, false)] sound)) = sound1 ∧
        decided_right sound1 ∧ sound ⊆ sound1 ∧ (is_Some (candidates !! x) → is_Some (sound1 !! x))).
      { destruct (sound !! x) as [v|] eqn:Ex; cbn [is_Some_b]; [exists sound; by eauto|].
        destruct (standing_from_one x sound Hs) as (sound1 & -> & Hsub & Hs1 & Hx).
        exists sound1. split_and!; [done..|]. apply (Hx x false). by left. }
      destruct Hstep as (sound1 & -> & Hs1 & Hsub1 & Hx1).
      destruct (IH sound1 Hs1) as (Hs2 & Hsub2 & Hx2). split_and!; [done | by etrans |].
      intros id i [[= -> ->]|Hin]%elem_of_cons Hc; [|by eapply Hx2].
      destruct (Hx1 Hc) as [v Hv]. exists v. by eapply lookup_weaken. }
  destruct (Hfold (hash_iter candidates) ∅) as (Hs & _ & Hall); [by intros ?? ?%lookup_empty_Some|].
  split; [done|]. intros id [info Hi]. apply (Hall id info); [|by eauto].
  rewrite hash_iter_perm. by apply elem_of_map_to_list.
Qed.
End walk.

(** ** Replacement chains *)

Section chains.
Context (selections : gmap RecordId SelInfo) (rank : RecordId → nat).

(** The selection [x] replaces [y]. *)
Definition replaces (x y : RecordId) : Prop :=
  ∃ i, selections !! x = Some i ∧ si_replace_target i = Some y.

Context (Hrank : ∀ x y, replaces x y → rank y < rank x).

(** Selections of rank at most [n]. *)
Definition below (n : nat) : nat :=
  weight_of (λ k (_ : SelInfo), if rank k <=? n then 1 else 0)%nat (map_to_list selections).

Lemma below_step x i n :
  selections !! x = Some i → n < rank x → S (below n) ≤ below (rank x).
Proof.
  intros Hx Hn. unfold below.
  pose proof (weight_of_drop (λ k (_ : SelInfo), if rank k <=? n then 1 else 0)%nat
    (λ k _, if rank k <=? rank x then 1 else 0)%nat (map_to_list selections) x i) as Hd.
  cbn beta in Hd. rewrite (Nat.leb_refl (rank x)) in Hd.
  rewrite Nat.add_1_r in Hd. apply Hd.
  - intros k a _. destruct (Nat.leb_spec (rank k) n), (Nat.leb_spec (rank k) (rank x)); lia.
  - by apply elem_of_map_to_list.
  - apply Nat.leb_gt in Hn. by rewrite Hn.
Qed.

Lemma below_size n : below n ≤ size selections.
Proof.
  unfold below. rewrite <- length_map_to_list. unfold weight_of.
  induction (map_to_list selections) as [|e l IH]; simpl; [done|]. case_match; lia.
Qed.

Definition entry (m : gmap RecordId (gset RecordId)) (a : RecordId) : gset RecordId :=
  default ∅ (m !! a).

Definition no_empty (m : gmap RecordId (gset RecordId)) : Prop := ∀ a X, m !! a = Some X → X ≠ ∅.

Lemma add_replacers_spec guard s2 hop m :
  (∀ a, hop = Some a → S (below (rank a)) ≤ guard) → no_empty m →
  let m' := add_replacers guard selections s2 hop m in
  no_empty m' ∧ ∀ a x, x ∈ entry m' a ↔ x ∈ entry m a ∨ x = s2 ∧ ∃ b, hop = Some b ∧ rtc replaces b a.
Proof.
  revert hop m. induction guard as [|guard IH]; intros [b|] m Hg Hm; cbn [add_replacers].
  - specialize (Hg b eq_refl). lia.
  - split; [done|]. naive_solver.
  - set (m1 := <[b := _]> m). destruct (IH (selections !! b ≫= si_replace_target) m1) as [Hm' Hin].
    + intros a Ha. destruct (selections !! b) as [i|] eqn:Eb; [|done]. simpl in Ha.
      assert (Hr : rank a < rank b) by (apply Hrank; by exists i).
      pose proof (below_step b i (rank a) Eb Hr). specialize (Hg b eq_refl). lia.
    + intros a X. unfold m1. destruct (decide (b = a)) as [<-|].
      * rewrite lookup_insert_eq. intros [= <-]. set_solver.
      * rewrite lookup_insert_ne by done. apply Hm.
    + split; [done|]. intros a x. rewrite Hin. unfold m1, entry at 1.
      assert (Hhop : ∀ c, selections !! b ≫= si_replace_target = Some c ↔ replaces b c).
      { intros c. unfold replaces. destruct (selections !! b); simpl; naive_solver. }
      setoid_rewrite Hhop. destruct (decide (b = a)) as [<-|Hne].
      * rewrite lookup_insert_eq. cbn [default from_option id].
        rewrite elem_of_union, elem_of_singleton. fold (entry m b).
        split; [|intros [?|[-> _]]; auto].
        intros [[->|?]|[-> _]]; [right|by left|right]; (split; [done|]; exists b; split; [done | apply rtc_refl]).
      * rewrite lookup_insert_ne by done. fold (entry m a). split.
        -- intros [?|[-> (c & Hbc & Hca)]]; [by left|]. right. split; [done|]. exists b.
           split; [done | by eapply rtc_l].
        -- intros [?|[-> (c & [= <-] & Hba)]]; [by left|]. right. split; [done|].
           inversion Hba; subst; [done|]. eauto.
  - split; [done|]. naive_solver.
Qed.

Lemma replacers_of_spec `{HashOrder} s :
  no_empty (replacers_of selections s) ∧
  ∀ a x, x ∈ entry (replacers_of selections s) a ↔
    is_Some (selections !! x) ∧ is_unsound s x = false ∧ tc replaces x a.
Proof.
  unfold replacers_of.
  assert (Hfold : ∀ l m, (∀ e, e ∈ l → selections !! e.1 = Some e.2) → no_empty m →
    let m' := fold_left (λ replacers (e : RecordId * SelInfo),
      if is_unsound s e.1 then replacers
      else add_replacers (S (size selections)) selections e.1 (si_replace_target e.2) replacers) l m in
    no_empty m' ∧ ∀ a x, x ∈ entry m' a ↔ x ∈ entry m a ∨
      ∃ i, (x, i) ∈ l ∧ is_unsound s x = false ∧ tc replaces x a).
  { induction l as [|[y i] l IH]; intros m Hl Hm; cbn [fold_left fst snd].
    - split; [done|]. intros a x. setoid_rewrite elem_of_nil. naive_solver.
    - pose proof (Hl (y, i) ltac:(by left)) as Hy. simpl in Hy.
      assert (Hl' : ∀ e, e ∈ l → selections !! e.1 = Some e.2) by (intros; apply Hl; by right).
      setoid_rewrite elem_of_cons. destruct (is_unsound s y) eqn:Eu.
      + destruct (IH m Hl' Hm) as [Hm' Hin]. split; [done|]. intros a x. rewrite Hin.
        split; [naive_solver|]. intros [?|(j & [[= -> ->]|?] & ? & ?)]; [by left | congruence | eauto].
      + destruct (add_replacers_spec (S (size selections)) y (si_replace_target i) m) as [Hm1 Hin1].
        { intros b _. pose proof (below_size (rank b)). lia. }
        { done. }
        destruct (IH _ Hl' Hm1) as [Hm' Hin]. split; [done|]. intros a x. rewrite Hin, Hin1.
        assert (Htc : (∃ b, si_replace_target i = Some b ∧ rtc replaces b a) ↔ tc replaces y a).
        { split.
          - intros (b & Hb & Hba). eapply tc_rtc_r; [apply tc_once; by exists i | done].
          - intros Ht. assert (∃ b, replaces y b ∧ rtc replaces b a) as (b & (j & Hj & Hb) & Hba).
            { inversion Ht; subst; [eauto using rtc_refl | eauto using tc_rtc]. }
            rewrite Hy in Hj. injection Hj as <-. eauto. }
        rewrite Htc. naive_solver. }
  destruct (Hfold (hash_iter selections) ∅) as [Hm Hin].
  - intros [x i] He. rewrite hash_iter_perm in He. by apply elem_of_map_to_list in He.
  - by intros ?? ?%lookup_empty_Some.
  - split; [done|]. intros a x. rewrite Hin. unfold entry at 1. rewrite lookup_empty. simpl.
    setoid_rewrite hash_iter_perm. setoid_rewrite elem_of_map_to_list. unfold is_Some. set_solver.
Qed.
End chains.

Lemma restorations_of_spec unsound_ids replacers id X :
  no_empty replacers →
  restorations_of unsound_ids replacers !! id = Some X ↔
    id ∈ unsound_ids ∧ X = entry replacers id ∧ X ≠ ∅.
Proof.
  intros Hne. unfold restorations_of.
  assert (Hfold : ∀ l (m : gmap RecordId (gset RecordId)), fold_left (λ m id,
      match replacers !! id with
      | Some set => if bool_decide (set = ∅) then m else <[id := set]> m
      | None => m
      end) l m !! id = Some X ↔
    (id ∈ l ∧ X = entry replacers id ∧ X ≠ ∅) ∨
    (¬ (id ∈ l ∧ entry replacers id ≠ ∅) ∧ m !! id = Some X)).
  { unfold entry. induction l as [|y l IH]; intros m; cbn [fold_left].
    - rewrite elem_of_nil. naive_solver.
    - rewrite IH, elem_of_cons. destruct (decide (id = y)) as [<-|Hid].
      + destruct (replacers !! id) as [Y|] eqn:Ey; simpl.
        * pose proof (Hne id Y Ey). rewrite bool_decide_false, lookup_insert_eq by done.
          destruct (decide (id ∈ l)); naive_solver.
        * naive_solver.
      + destruct (replacers !! y) as [Y|] eqn:Ey; [|naive_solver].
        rewrite bool_decide_false by (by eapply Hne). rewrite lookup_insert_ne by done.
        naive_solver. }
  rewrite Hfold, lookup_empty. unfold btree_members. rewrite elem_of_sort_by, elem_of_elements.
  naive_solver.
Qed.

(** ** The lineage of a valid log *)

Section lineage.
Context `{Primitives, Serde, HashOrder} (rules : VerifierRules).

(** What the lineage records of an accepted candidate or selection. *)
Definition candidate_of (log : list record) (id : RecordId) (info : CandInfo) : Prop :=
  ∃ r (d : CandidateData), accepted_in log r ∧ rec_id r = id ∧ rec_kind r = Kind.Candidate ∧
    decode (rec_data r) = Some d ∧ info = cand_info r d.
Definition selection_of (log : list record) (id : RecordId) (info : SelInfo) : Prop :=
  ∃ r (d : SelectionData), accepted_in log r ∧ rec_id r = id ∧ rec_kind r = Kind.Selection ∧
    decode (rec_data r) = Some d ∧ info = sel_info r d.

Lemma subjects_unique log s r1 r2 :
  Replays rules log s → r1 ∈ log → r2 ∈ log → rec_kind r1 ≠ Kind.Verdict →
  rec_kind r2 ≠ Kind.Verdict → rec_id r1 = rec_id r2 → r1 = r2.
Proof.
  induction 1 as [|log s r v s' Hlog IH Hk Hf Hid Ht Htv Hb Hv Hap];
    [by intros ?%elem_of_nil|].
  rewrite find_first_None in Hf. destruct Hv as (Hkv & _).
  rewrite !elem_of_app, !elem_of_cons, !elem_of_nil.
  intros [W1|[->|[->|[]]]] [W2|[->|[->|[]]]] K1 K2 E; try done;
    first [by apply IH | by destruct (Hf r1) | by destruct (Hf r2)].
Qed.

Lemma accepted_in_iff log s r :
  Replays rules log s → accepted_in log r ↔
  r ∈ log ∧ rec_kind r ≠ Kind.Verdict ∧ rec_id r ∈ accepted_records s.
Proof.
  intros Hlog. destruct (replays_summary rules log s Hlog) as (Ha & _). rewrite Ha. split.
  - intros Hr. pose proof Hr as (Hin & Hk & _). split_and!; eauto.
  - intros (Hin & Hk & (r' & Hr' & E)). pose proof Hr' as (Hin' & Hk' & _).
    by rewrite (subjects_unique log s r r' Hlog Hin Hin' Hk Hk').
Qed.

(** What scanning one record adds. *)
Definition cand_at (s : State) (r : record) (id : RecordId) (info : CandInfo) : Prop :=
  rec_id r ∈ accepted_records s ∧ rec_id r = id ∧ rec_kind r = Kind.Candidate ∧
  ∃ d : CandidateData, decode (rec_data r) = Some d ∧ info = cand_info r d.
Definition sel_at (s : State) (r : record) (id : RecordId) (info : SelInfo) : Prop :=
  rec_id r ∈ accepted_records s ∧ rec_id r = id ∧ rec_kind r = Kind.Selection ∧
  ∃ d : SelectionData, decode (rec_data r) = Some d ∧ info = sel_info r d.

Lemma insert_iff {A} (m : gmap RecordId A) k a id x :
  <[k := a]> m !! id = Some x ↔ (k = id ∧ x = a) ∨ (k ≠ id ∧ m !! id = Some x).
Proof. rewrite lookup_insert_Some. naive_solver. Qed.

Lemma scan_record_cand s acc r id info :
  (scan_record s acc r).1 !! id = Some info →
  cand_at s r id info ∨ acc.1 !! id = Some info.
Proof.
  unfold scan_record, cand_at. case_match eqn:Ea; [by right|]. bool_simpl.
  destruct (rec_kind r) eqn:Hk; simpl; try by right.
  - destruct (decode (rec_data r) : option CandidateData) as [d|] eqn:Hd; simpl; [|by right].
    rewrite insert_iff. intros [[<- ->]|[_ ?]]; [left; eauto 10 | by right].
  - case_match; by right.
Qed.

Lemma scan_record_cand_here s acc r id info :
  cand_at s r id info → (scan_record s acc r).1 !! id = Some info.
Proof.
  intros (Ha & <- & Hk & d & Hd & ->). unfold scan_record.
  rewrite bool_decide_true by done. cbn [negb]. rewrite Hk, Hd. by apply lookup_insert_eq.
Qed.

Lemma scan_record_cand_other s acc r id :
  rec_id r ≠ id → (scan_record s acc r).1 !! id = acc.1 !! id.
Proof.
  intros Hne. unfold scan_record. case_match; [done|].
  destruct (rec_kind r); try done; case_match; try done. by apply lookup_insert_ne.
Qed.

Lemma scan_record_sel s acc r id info :
  (scan_record s acc r).2 !! id = Some info →
  sel_at s r id info ∨ acc.2 !! id = Some info.
Proof.
  unfold scan_record, sel_at. case_match eqn:Ea; [by right|]. bool_simpl.
  destruct (rec_kind r) eqn:Hk; simpl; try by right.
  - case_match; by right.
  - destruct (decode (rec_data r) : option SelectionData) as [d|] eqn:Hd; simpl; [|by right].
    rewrite insert_iff. intros [[<- ->]|[_ ?]]; [left; eauto 10 | by right].
Qed.

Lemma scan_record_sel_here s acc r id info :
  sel_at s r id info → (scan_record s acc r).2 !! id = Some info.
Proof.
  intros (Ha & <- & Hk & d & Hd & ->). unfold scan_record.
  rewrite bool_decide_true by done. cbn [negb]. rewrite Hk, Hd. by apply lookup_insert_eq.
Qed.

Lemma scan_record_sel_other s acc r id :
  rec_id r ≠ id → (scan_record s acc r).2 !! id = acc.2 !! id.
Proof.
  intros Hne. unfold scan_record. case_match; [done|].
  destruct (rec_kind r); try done; case_match; try done. by apply lookup_insert_ne.
Qed.

(** A fold of steps that either set their own key or leave the map alone. *)
Lemma fold_lookup {A B : Type} (f : B → record → B) (m : B → gmap RecordId A)
    (at_ : record → RecordId → A → Prop) (acc : B) (l : list record) :
  (∀ b r id a, m (f b r) !! id = Some a → at_ r id a ∨ m b !! id = Some a) →
  (∀ b r id a, at_ r id a → m (f b r) !! id = Some a) →
  (∀ b r id, rec_id r ≠ id → m (f b r) !! id = m b !! id) →
  (∀ r id a, at_ r id a → rec_id r = id ∧ rec_kind r ≠ Kind.Verdict) →
  (∀ r id a, r ∈ l → at_ r id a → ∀ r', r' ∈ l → rec_id r' = id → ∀ b,
     rec_kind r' = Kind.Verdict → m (f b r') = m b) →
  (∀ r r', r ∈ l → r' ∈ l → rec_kind r ≠ Kind.Verdict → rec_kind r' ≠ Kind.Verdict →
     rec_id r = rec_id r' → r = r') →
  m acc = ∅ →
  ∀ id a, m (fold_left f l acc) !! id = Some a ↔ ∃ r, r ∈ l ∧ at_ r id a.
Proof.
  intros Hsrc Hhere Hother Hat Hquiet Huniq Hacc.
  induction l as [|r l IH] using rev_ind; intros id a.
  { simpl. rewrite Hacc, lookup_empty. setoid_rewrite elem_of_nil. naive_solver. }
  assert (Hl : ∀ x, x ∈ l → x ∈ l ++ [r]) by (intros; apply elem_of_app; by left).
  assert (Hr : r ∈ l ++ [r]) by (apply elem_of_app; right; by left).
  specialize (IH ltac:(eauto) ltac:(eauto)).
  rewrite fold_left_app. cbn [fold_left]. split.
  - intros Ha. apply Hsrc in Ha as [?|Ha]; [by eauto|]. apply IH in Ha as (x & ? & ?). by eauto.
  - intros (x & Hx & Hxa).
    apply elem_of_app in Hx as [Hx| ->%list_elem_of_singleton]; [|by apply Hhere].
    destruct (decide (rec_id r = id)) as [Hid|]; [|rewrite Hother by done; apply IH; eauto].
    destruct (Hat _ _ _ Hxa) as [Ex Kx].
    destruct (decide (rec_kind r = Kind.Verdict)) as [Kr|Kr].
    + rewrite (Hquiet x id a (Hl _ Hx) Hxa r Hr Hid _ Kr). apply IH; eauto.
    + rewrite <- (Huniq x r) by (eauto || congruence). by apply Hhere.
Qed.

Lemma scan_record_verdict s acc r : rec_kind r = Kind.Verdict → scan_record s acc r = acc.
Proof. intros Hk. unfold scan_record. rewrite Hk. by case_match. Qed.

Lemma scan_spec log s :
  Replays rules log s →
  (∀ id info, (scan log s).1 !! id = Some info ↔ candidate_of log id info) ∧
  (∀ id info, (scan log s).2 !! id = Some info ↔ selection_of log id info).
Proof.
  intros Hlog. unfold scan. pose proof (subjects_unique log s) as Hu.
  split; intros id info.
  - rewrite (fold_lookup _ fst (cand_at s)).
    + unfold cand_at, candidate_of. setoid_rewrite (accepted_in_iff log s _ Hlog).
      split.
      * intros (r & Hin & Ha & He & Hk & d & Hd & Hi). exists r, d. split_and!; try done. by rewrite Hk.
      * intros (r & d & (Hin & _ & Ha) & He & Hk & Hd & Hi). exists r. by split_and!; eauto.
    + intros. by apply scan_record_cand.
    + intros. by apply scan_record_cand_here.
    + intros. by apply scan_record_cand_other.
    + intros r i a (_ & Ei & Hk & _). by rewrite Hk.
    + intros r i a _ _ r' _ _ b Hk. by rewrite scan_record_verdict.
    + eauto.
    + done.
  - rewrite (fold_lookup _ snd (sel_at s)).
    + unfold sel_at, selection_of. setoid_rewrite (accepted_in_iff log s _ Hlog).
      split.
      * intros (r & Hin & Ha & He & Hk & d & Hd & Hi). exists r, d. split_and!; try done. by rewrite Hk.
      * intros (r & d & (Hin & _ & Ha) & He & Hk & Hd & Hi). exists r. by split_and!; eauto.
    + intros. by apply scan_record_sel.
    + intros. by apply scan_record_sel_here.
    + intros. by apply scan_record_sel_other.
    + intros r i a (_ & Ei & Hk & _). by rewrite Hk.
    + intros r i a _ _ r' _ _ b Hk. by rewrite scan_record_verdict.
    + eauto.
    + done.
Qed.
(** ** Lineage points to earlier records *)

(** The position of the first record with an id. *)
Fixpoint rank (log : list record) (id : RecordId) : nat :=
  match log with
  | [] => 0
  | r :: log => if decide (rec_id r = id) then 0 else S (rank log id)
  end.

Lemma rank_here l r k : find_first l (rec_id r) = None → rank (l ++ r :: k) (rec_id r) = length l.
Proof.
  rewrite find_first_None. intros Hf. induction l as [|x l IH]; simpl; [by rewrite decide_True|].
  rewrite decide_False by (apply Hf; by left). f_equal. apply IH. intros y Hy. apply Hf. by right.
Qed.

Lemma rank_earlier l k t : t ∈ l → rank (l ++ k) (rec_id t) < length l.
Proof.
  induction l as [|x l IH]; intros Ht; [by apply elem_of_nil in Ht|]. simpl.
  case_decide as E; [lia|]. apply elem_of_cons in Ht as [->|Ht]; [done|].
  specialize (IH Ht). lia.
Qed.

(** A record accepted after [l] outranks what the state after [l] accepted. *)
Lemma rank_accepted l s r k d :
  accepted_after rules l s r → d ∈ accepted_records s → rank (l ++ r :: k) d < rank (l ++ r :: k) (rec_id r).
Proof.
  intros (Hl & _ & Hf & _) Hd. rewrite rank_here by done.
  destruct (accepted_records_find rules l s d Hl Hd) as (t & (Ht & _) & <- & _). by apply rank_earlier.
Qed.

(** Resolved targets of an accepted record. *)
Lemma prior_accepted_id l s r id t :
  Replays rules l s → prior_find (prior_of (l ++ [r])) id = Some t →
  rec_id t ∈ accepted_records s → id ∈ accepted_records s.
Proof. intros _ Hf Ha. rewrite prior_of_find in Hf. by apply find_first_Some in Hf as [_ <-]. Qed.

Lemma resolve_candidate_accepted l s r id t :
  resolve_candidate id r (prior_of (l ++ [r])) s = inr t → id ∈ accepted_records s.
Proof.
  unfold resolve_candidate. rewrite prior_of_find. intros Hres.
  destruct (find_first _ id) as [t'|] eqn:Ef; [|done]. apply find_first_Some in Ef as [_ <-].
  case_match eqn:Eb; [|done]. bool_simpl. naive_solver.
Qed.

Lemma check_candidate_parent l s r d p :
  check_candidate r (prior_of (l ++ [r])) rules s = None → decode (rec_data r) = Some d →
  cd_parent d = Some p → p ∈ accepted_records s.
Proof.
  unfold check_candidate. intros Hc Hd Hp. rewrite Hd, Hp in Hc.
  destruct (negb (source_binding_well_formed _)); [done|].
  destruct (match cd_artifacts d with Some _ => _ | None => _ end); [done|].
  destruct (resolve_candidate p r _ s) eqn:Er; [done|]. by eapply resolve_candidate_accepted.
Qed.

Lemma check_candidate_causes l s r d x :
  Replays rules l s →
  check_candidate r (prior_of (l ++ [r])) rules s = None → decode (rec_data r) = Some d →
  cd_basis d = CandidateBasis.Derivation → x ∈ cause_refs r → ref_target x ∈ accepted_records s.
Proof.
  unfold check_candidate. intros Hl Hc Hd Hb Hx. rewrite Hd, Hb in Hc.
  destruct (negb (source_binding_well_formed _)); [done|].
  destruct (match cd_artifacts d with Some _ => _ | None => _ end); [done|].
  destruct (match cd_parent d with Some _ => _ | None => _ end); [done|].
  destruct (mapM _ (cause_refs r)) as [causes|] eqn:Em; [|done].
  destruct (_ || bool_decide (causes = [])); [done|].
  destruct (forallb _ causes) eqn:Ef; [|done]. rewrite forallb_forall in Ef.
  apply mapM_Some_1 in Em. destruct (list_elem_of_lookup_1 _ _ Hx) as [i Hi].
  destruct (Forall2_lookup_l _ _ _ _ _ Em Hi) as (t & Ht & Hft).
  eapply prior_accepted_id; [done..|]. specialize (Ef t).
  destruct (rec_id t ∈? accepted_records s) eqn:Ea; [by bool_simpl|]. simpl in Ef.
  discriminate Ef. apply list_elem_of_In.
  by eapply list_elem_of_lookup_2.
Qed.

Lemma check_candidate_anchor l s r d x :
  Replays rules l s →
  check_candidate r (prior_of (l ++ [r])) rules s = None → decode (rec_data r) = Some d →
  cd_basis d = CandidateBasis.Continuation → x ∈ cause_refs r → ref_target x ∈ accepted_records s.
Proof.
  unfold check_candidate. intros Hl Hc Hd Hb Hx. rewrite Hd, Hb in Hc.
  destruct (negb (source_binding_well_formed _)); [done|].
  destruct (match cd_artifacts d with Some _ => _ | None => _ end); [done|].
  destruct (match cd_parent d with Some _ => _ | None => _ end); [done|].
  destruct (mapM _ (cause_refs r)) as [causes|] eqn:Em; [|done].
  destruct causes as [|anchor [|]]; [done| |done]. apply mapM_Some_1 in Em.
  destruct (list_elem_of_lookup_1 _ _ Hx) as [i Hi].
  destruct (Forall2_lookup_l _ _ _ _ _ Em Hi) as (t & Ht & Hft).
  apply list_elem_of_lookup_2, list_elem_of_singleton in Ht as ->.
  eapply prior_accepted_id; [done..|].
  destruct (rec_id anchor ∈? accepted_records s) eqn:Ea; [by bool_simpl|].
  rewrite orb_true_r in Hc. done.
Qed.

Lemma check_replacement_target l s r a :
  check_replacement r (prior_of (l ++ [r])) s = None →
  find_ref RefType.Replace (rec_refs r) = Some a → a ∈ accepted_records s.
Proof.
  unfold check_replacement, find_ref. intros Hc Hf.
  destruct (list_find (λ x, ref_type x = RefType.Replace) (rec_refs r)) as [[n x]|] eqn:El; [|done].
  simpl in Hf. injection Hf as <-. apply list_find_Some in El as (Hn & Hx & _).
  assert (Hin : x ∈ filter (λ x, ref_type x = RefType.Replace) (rec_refs r)).
  { apply list_elem_of_filter. split; [done|]. by eapply list_elem_of_lookup_2. }
  destruct (filter (λ x, ref_type x = RefType.Replace) (rec_refs r)) as [|y [|]]; [|..|done].
  { by apply elem_of_nil in Hin. }
  apply list_elem_of_singleton in Hin as <-. rewrite prior_of_find in Hc.
  destruct (negb (is_replaceable _)); [done|].
  destruct (find_first _ _) as [t|] eqn:Ef; [|done]. apply find_first_Some in Ef as [_ <-].
  destruct (rec_id t ∈? accepted_records s) eqn:Ea; [by bool_simpl | done].
Qed.

Lemma lineage_rank log s :
  Replays rules log s →
  (∀ id info d, (scan log s).1 !! id = Some info →
    d ∈ standing_deps (scan log s).1 info → rank log d < rank log id) ∧
  (∀ x y, replaces (scan log s).2 x y → rank log y < rank log x).
Proof.
  intros Hlog. destruct (scan_spec log s Hlog) as [Hc Hs].
  assert (Hafter : ∀ r, accepted_in log r → ∃ l s' k, log = l ++ r :: k ∧ accepted_after rules l s' r).
  { intros r Hr. destruct (replays_accepted_split rules log s r Hlog Hr) as (l & s' & v & k & -> & Ha).
    by exists l, s', (v :: k). }
  split.
  - intros id info x (r & d & Hr & <- & Hk & Hd & ->)%Hc Hx.
    destruct (Hafter r Hr) as (l & s' & k & -> & Ha). eapply rank_accepted; [done|].
    pose proof (accepted_after_kind rules l s' r Ha) as Hck. unfold check_kind_specific in Hck.
    rewrite Hk in Hck. unfold standing_deps, cand_info in Hx. simpl in Hx.
    destruct (cd_basis d) eqn:Eb; [by apply elem_of_nil in Hx|..].
    + destruct (cd_parent d) as [p|] eqn:Ep; [|by apply elem_of_nil in Hx].
      apply list_elem_of_singleton in Hx as ->. by eapply check_candidate_parent.
    + apply list_elem_of_filter in Hx as [_ (c & -> & Hin)%list_elem_of_fmap].
      destruct Ha as (Hl & _). by eapply check_candidate_causes.
  - intros x y (i & (r & d & Hr & <- & Hk & Hd & ->)%Hs & Hy).
    destruct (Hafter r Hr) as (l & s' & k & -> & Ha). eapply rank_accepted; [done|].
    destruct Ha as (_ & _ & _ & _ & _ & Hcr). apply check_record_passed in Hcr; [|by rewrite Hk].
    eapply check_replacement_target; [by apply (p_replacement _ _ _ _ Hcr) | done].
Qed.
End lineage.
