(* ===== verification/StandingTheorems.v ===== *)
(** * The standing report of a verified log

    What the report derived at the end of a replay means, stated on the
    accepted records alone: which selections are unsound, what restores them,
    and which candidates no longer stand. *)

From S2P Require Export StandingFacts.

#[local] Existing Instance Lineage.serde.

(** ** The specification *)

Section spec.
Context `{Primitives, Serde} (log : list record) (s : State).

(** The accepted selection [x] replaces [y]. *)
Definition selection_replaces (x y : RecordId) : Prop :=
  ∃ info, selection_of log x info ∧ si_replace_target info = Some y.

(** A reliable selection further down the replacement chain of [y]. *)
Definition restores (x y : RecordId) : Prop :=
  (∃ info, selection_of log x info) ∧ unreliable s x = false ∧ tc selection_replaces x y.

(** The anchor of a continuation holds: it is reliable, or one of its
    restorations selected the same parent. *)
Definition anchor_holds (anchor parent : RecordId) : Prop :=
  unreliable s anchor = false ∨
  ∃ x info, restores x anchor ∧ selection_of log x info ∧ parent ∈ si_selected info.

(** A candidate is sound: accepted, not retracted, and what it builds on
    holds.  A derivation rests on those of its causes that are candidates. *)
Inductive sound_candidate : RecordId → Prop :=
  | sound_root id info :
      candidate_of log id info → id ∉ retracted_records s →
      ci_basis info = CandidateBasis.Root → sound_candidate id
  | sound_continuation id info anchor parent :
      candidate_of log id info → id ∉ retracted_records s →
      ci_basis info = CandidateBasis.Continuation →
      head (ci_causes info) = Some anchor → ci_parent info = Some parent →
      anchor_holds anchor parent → sound_candidate parent → sound_candidate id
  | sound_derivation id info :
      candidate_of log id info → id ∉ retracted_records s →
      ci_basis info = CandidateBasis.Derivation →
      (∀ d, d ∈ ci_causes info → (∃ i, candidate_of log d i) → sound_candidate d) →
      sound_candidate id.

(** The report says exactly this. *)
Definition standing_exact (st : StandingSection) : Prop :=
  (∀ id, id ∈ unsound st ↔ (∃ info, selection_of log id info) ∧ unreliable s id = true) ∧
  (∀ id, id ∈ compromised st ↔ (∃ info, candidate_of log id info) ∧ ¬ sound_candidate id) ∧
  (∀ id X, restorations st !! id = Some X ↔
    id ∈ unsound st ∧ X ≠ ∅ ∧ ∀ x, x ∈ X ↔ restores x id).
End spec.

(** ** The derivation meets it *)

Section meets.
Context `{Primitives, Serde, HashOrder} (rules : VerifierRules).
Context (log : list record) (s : State) (Hlog : Replays rules log s).

#[local] Notation candidates := ((scan log s).1).
#[local] Notation selections := ((scan log s).2).

Lemma candidates_iff id : is_Some (candidates !! id) ↔ ∃ info, candidate_of log id info.
Proof. destruct (scan_spec rules log s Hlog) as [Hc _]. unfold is_Some. by setoid_rewrite Hc. Qed.

Lemma selections_iff id : is_Some (selections !! id) ↔ ∃ info, selection_of log id info.
Proof. destruct (scan_spec rules log s Hlog) as [_ Hs]. unfold is_Some. by setoid_rewrite Hs. Qed.

Lemma tc_replaces_iff x y : tc (replaces selections) x y ↔ tc (selection_replaces log) x y.
Proof.
  destruct (scan_spec rules log s Hlog) as [_ Hs].
  split; apply (tc_congruence id); intros a b; unfold replaces, selection_replaces;
    by setoid_rewrite Hs.
Qed.

Lemma replacers_restores x y :
  x ∈ entry (replacers_of selections s) y ↔ restores log s x y.
Proof.
  destruct (replacers_of_spec selections (rank log) (proj2 (lineage_rank rules log s Hlog)) s)
    as [_ Hin].
  rewrite Hin, selections_iff, tc_replaces_iff. done.
Qed.

Lemma anchor_sound_iff a p :
  anchor_sound selections (replacers_of selections s) s a p = true ↔ anchor_holds log s a p.
Proof.
  destruct (scan_spec rules log s Hlog) as [_ Hs].
  unfold anchor_sound, anchor_holds, is_unsound. destruct (unreliable s a); simpl; [|naive_solver].
  setoid_rewrite <- replacers_restores. unfold entry.
  destruct (replacers_of selections s !! a) as [X|]; simpl.
  2: { split; [done|]. intros [?|(x & i & ?%elem_of_empty & _)]; done. }
  rewrite existsb_exists. split.
  - intros (x & Hx%list_elem_of_In & E). right.
    unfold btree_members in Hx. rewrite elem_of_sort_by, elem_of_elements in Hx.
    destruct (selections !! x) as [i|] eqn:Ei; [|done]. bool_simpl. apply Hs in Ei. eauto.
  - intros [?|(x & i & Hx & Hi%Hs & Hp)]; [done|]. exists x. split.
    + apply list_elem_of_In. unfold btree_members. by rewrite elem_of_sort_by, elem_of_elements.
    + change Hash256 with RecordId. rewrite Hi. by apply bool_decide_eq_true.
Qed.

Lemma stands_iff id :
  stands candidates (anchor_sound selections (replacers_of selections s) s) s id ↔
  sound_candidate log s id.
Proof.
  destruct (scan_spec rules log s Hlog) as [Hc _]. split.
  - induction 1 as [id info Hi|id info a p Hi Hr Hb Ha Hp Hok%anchor_sound_iff|id info Hi Hr Hb Hd IH];
      apply Hc in Hi; [by eapply sound_root | by eapply sound_continuation |].
    eapply sound_derivation; [done..|]. intros d Hin Hcd. apply IH. unfold standing_deps.
    rewrite Hb. apply list_elem_of_filter. split; [by apply candidates_iff | done].
  - induction 1 as [id info Hi|id info a p Hi Hr Hb Ha Hp Hok%anchor_sound_iff|id info Hi Hr Hb Hd IH];
      apply Hc in Hi; [by eapply stands_root | by eapply stands_continuation |].
    eapply stands_derivation; [done..|]. intros d. unfold standing_deps. rewrite Hb.
    intros [Hcd Hin]%list_elem_of_filter. apply IH; [done|]. by apply candidates_iff.
Qed.

Lemma compromised_iff id :
  id ∈ compromised (derive_standing log s) ↔
  (∃ info, candidate_of log id info) ∧ ¬ sound_candidate log s id.
Proof.
  assert (Hrk : ∀ x info d, candidates !! x = Some info → x ∉ retracted_records s →
    d ∈ standing_deps candidates info → is_Some (candidates !! d) → rank log d < rank log x).
  { intros x info d Hx _ Hd _. exact (proj1 (lineage_rank rules log s Hlog) x info d Hx Hd). }
  destruct (standing_all_spec candidates
    (anchor_sound selections (replacers_of selections s) s) s (rank log) Hrk) as [Hr Hall].
  unfold derive_standing. destruct (scan log s) as [c sel] eqn:E. cbn [fst snd compromised] in *.
  rewrite elem_of_list_to_set, list_elem_of_filter, list_elem_of_fmap.
  setoid_rewrite hash_iter_perm.
  rewrite <- candidates_iff, <- stands_iff, E. cbn [fst snd]. split.
  - intros (Hf & [k i] & -> & Hi%elem_of_map_to_list). cbn [fst] in *.
    assert (Hk : is_Some (c !! k)) by eauto. split; [done|]. intros Hst.
    destruct (Hall k Hk) as [b Hb]. rewrite Hb in Hf. simpl in Hf. subst b.
    destruct (Hr k false Hb) as [_ Hiff]. by apply Hiff in Hst.
  - intros [[i Hi] Hn]. destruct (Hall id ltac:(eauto)) as [b Hb]. split.
    + rewrite Hb. destruct b; [|done]. destruct Hn. by apply (Hr id true Hb).
    + exists (id, i). split; [done|]. by apply elem_of_map_to_list.
Qed.

Lemma unsound_iff id :
  id ∈ unsound (derive_standing log s) ↔ (∃ info, selection_of log id info) ∧ unreliable s id = true.
Proof.
  rewrite <- selections_iff. unfold derive_standing, is_unsound.
  destruct (scan log s) as [c sel]. cbn [snd unsound].
  rewrite elem_of_list_to_set, list_elem_of_filter, list_elem_of_fmap.
  setoid_rewrite hash_iter_perm. split.
  - intros (Hu & [k i] & -> & Hi%elem_of_map_to_list). eauto.
  - intros [[i Hi] Hu]. split; [done|]. exists (id, i). split; [done|]. by apply elem_of_map_to_list.
Qed.

Lemma restorations_iff id X :
  restorations (derive_standing log s) !! id = Some X ↔
  id ∈ unsound (derive_standing log s) ∧ X ≠ ∅ ∧ ∀ x, x ∈ X ↔ restores log s x id.
Proof.
  destruct (replacers_of_spec selections (rank log) (proj2 (lineage_rank rules log s Hlog)) s)
    as [Hne _].
  setoid_rewrite <- replacers_restores.
  unfold derive_standing. destruct (scan log s) as [c sel]. cbn [snd unsound restorations] in *.
  rewrite restorations_of_spec by done. split.
  - intros (Hu & -> & HX). done.
  - intros (Hu & HX & Hx). split; [done|]. split; [|done]. by apply set_eq.
Qed.
End meets.

(** C18: the standing report of a verified log is exact: the unsound
    selections are the accepted ones that are retracted or tainted; a
    selection's restorations are the reliable selections further down its
    replacement chain; and the compromised candidates are exactly those that
    are not sound, in the inductive sense that a candidate is sound when it is
    not retracted and its anchor (or a restoration of it that selected the same
    parent), its parent and the candidates it derives from all hold.  In
    particular the iterative walk ends with every candidate decided. *)
Theorem standing_is_exact `{Primitives, Serde, HashOrder} rules log :
  accepted (verify_log log rules None) = true →
  ∃ s, verify_and_build_state log rules = inr s ∧
    standing_exact log s (lv_standing (verify_log log rules None)).
Proof.
  intros Hv. destruct (verified_replays rules log Hv) as (s & Hlog & Ev & Hb). exists s. split.
  - unfold verify_and_build_state. by rewrite Hv, Hb.
  - rewrite Ev. unfold standing_exact. cbn [lv_standing accept_verdict].
    split_and!; intros;
      [by eapply unsound_iff | by eapply compromised_iff | by eapply restorations_iff].
Qed.

Lemma lineage_accepted : accepted (verify_log Lineage.log4 Lineage.rules None) = true.
Proof. by_vm. Qed.

Lemma standing_is_exact_witness :
  rec_id Lineage.c2 ∈ compromised (lv_standing (verify_log Lineage.log4 Lineage.rules None)) ∧
  ∃ s, verify_and_build_state Lineage.log4 Lineage.rules = inr s ∧
    standing_exact Lineage.log4 s (lv_standing (verify_log Lineage.log4 Lineage.rules None)).
Proof.
  split; [apply elem_of_check; by_vm|].
  apply (standing_is_exact Lineage.rules Lineage.log4 lineage_accepted).
Defined.
