(* ===== verification/CheckpointTheorems.v ===== *)
(** * Properties of checkpoints and head attestations

    A checkpoint taken of a verified log lets a later verification skip the
    records it covers: without changing the outcome, and without being able to
    smuggle in a different prefix. *)

From S2P Require Export StandingTheorems.

#[local] Existing Instance Lineage.serde.

(** ** Opening a checkpoint *)

(** The strings of the author of every record are Rust strings. *)
Definition authors_wf (log : list record) : Prop := ∀ r, r ∈ log → author_wf (rec_author r) = true.

Lemma authors_wf_check log : forallb (λ r, author_wf (rec_author r)) log = true → authors_wf log.
Proof. rewrite forallb_forall. intros Hl r Hr%list_elem_of_In. by apply Hl. Qed.

Section open.
Context `{Primitives, Serde, HashOrder} (rules : VerifierRules).

Lemma from_verified_log_inv base tc :
  from_verified_log base rules = Some tc →
  ∃ s h, Replays rules base s ∧ create_checkpoint base s = Some (tc_checkpoint tc) ∧
    sha256_canonical s = Some h ∧ sha256_canonical rules = Some (tc_rules_hash tc) ∧
    tc_checkpoint tc = mk_Checkpoint (N.of_nat (length base)) (last_time base)
      (last_record_id base) h (log_hash base).
Proof.
  unfold from_verified_log. destruct (accepted (verify_log base rules None)) eqn:Ea; [|done].
  apply verified_replays in Ea as (s & Hlog & _ & ->). cbn [negb mbind option_bind].
  unfold create_checkpoint. destruct (sha256_canonical s) as [h|] eqn:Eh; [|done]. simpl.
  destruct (sha256_canonical rules) as [k|] eqn:Ek; [|done]. simpl. intros [= <-].
  exists s, h. by rewrite Eh.
Qed.

(** The ids of verified records determine them. *)
Lemma same_ids l k :
  ids_ok l = true → ids_ok k = true → authors_wf l → authors_wf k →
  rec_id <$> l = rec_id <$> k → l = k ∨ sha256_collision.
Proof.
  revert k. induction l as [|r l IH]; intros [|x k] Hl Hk Wl Wk E; try done; [by left|].
  rewrite !fmap_cons in E. injection E as Eid E.
  rewrite !ids_ok_spec in Hl, Hk.
  assert (W1 : author_wf (rec_author r)) by (rewrite Wl; [done | by left]).
  assert (W2 : author_wf (rec_author x)) by (rewrite Wk; [done | by left]).
  destruct (id_binds r x (rec_id r) W1 W2) as [Hrx|]; [apply Hl; by left | | |by right].
  { rewrite Eid. apply Hk. by left. }
  destruct (IH k) as [->|]; [| | | |done| |by right].
  - apply ids_ok_spec. intros y Hy. apply Hl. by right.
  - apply ids_ok_spec. intros y Hy. apply Hk. by right.
  - intros y Hy. apply Wl. by right.
  - intros y Hy. apply Wk. by right.
  - left. f_equal. rewrite Hrx, Eid. by destruct x.
Qed.

(** What passing the checkpoint block means. *)
Lemma open_checkpoint_ok log tc n s index :
  open_checkpoint log rules tc = inr (n, s, index) →
  sha256_canonical rules = Some (tc_rules_hash tc) ∧
  n = N.to_nat (cp_log_length (tc_checkpoint tc)) ∧ n ≤ length log ∧
  log_hash (take n log) = cp_log_hash (tc_checkpoint tc) ∧
  build_state_unchecked (take n log) = Some s ∧ index = index_of (take n log).
Proof.
  unfold open_checkpoint. destruct (negb (sha256_canonical rules =? _)) eqn:Er; [done|].
  destruct (N.ltb_spec (N.of_nat (length log)) (cp_log_length (tc_checkpoint tc))); [done|].
  set (k := N.to_nat (cp_log_length (tc_checkpoint tc))).
  destruct (negb (log_hash (take k log) =? _)) eqn:El; [done|].
  destruct (match log !! k with Some _ => _ | None => _ end); [done|].
  destruct (build_state_unchecked (take k log)) as [s'|] eqn:Eb; [|done].
  destruct (sha256_canonical s'); [|done]. destruct (_ || _ || _); [done|].
  intros [= <- <- <-]. bool_simpl. split_and!; try done. lia.
Qed.

Lemma open_checkpoint_of_prefix base rest tc s :
  from_verified_log base rules = Some tc → Replays rules base s →
  (∀ r, head rest = Some r → rec_kind r ≠ Kind.Verdict) →
  open_checkpoint (base ++ rest) rules tc = inr (length base, s, index_of base).
Proof.
  intros (s' & h & Hlog' & _ & Hh & Hr & Ecp)%from_verified_log_inv Hlog Hhead.
  assert (s' = s) as -> by (by eapply replays_functional).
  unfold open_checkpoint. rewrite Hr, Ecp. cbn [cp_log_length cp_log_hash cp_last_time
    cp_last_record_id cp_state_hash].
  rewrite bool_decide_true by done. cbn [negb].
  destruct (N.ltb_spec (N.of_nat (length (base ++ rest))) (N.of_nat (length base))) as [Hlt|_].
  { rewrite length_app in Hlt. lia. }
  rewrite Nat2N.id, take_app_length, (bool_decide_true (log_hash base = _)) by done. cbn [negb].
  rewrite lookup_app_r, Nat.sub_diag by done.
  assert (Hv : match rest !! 0 with Some r => rec_kind r =? Kind.Verdict | None => false end = false).
  { destruct rest as [|r rest]; [done|]. apply bool_decide_false. by apply (Hhead r). }
  rewrite Hv, (build_replays rules base s Hlog), Hh.
  by rewrite !bool_decide_true.
Qed.

(** The count of checked records is only carried along. *)
Lemma replay_loop_checked log i rest index s c s' c' n :
  length rest ≤ n → replay_loop log rules i rest index s c = inr (s', c') →
  ∀ d, replay_loop log rules i rest index s d = inr (s', d + (c' - c))%N ∧ (c <= c')%N.
Proof.
  revert i rest index s c. induction n as [|n IH]; intros i rest index s c Hn Hrun d.
  all: destruct rest as [|r rest]; [simpl in *; injection Hrun as -> ->; split; [do 2 f_equal; lia | lia]|].
  { simpl in Hn. lia. }
  cbn [replay_loop] in *. simpl in Hn. destruct (rec_kind r =? Kind.Verdict).
  - destruct (replay_verdict _ _ _ _ _); [done|].
    assert (Hl : length rest ≤ n) by lia.
    destruct (IH _ _ _ _ (c + 1)%N Hl Hrun (d + 1)%N) as [-> ?].
    split; [do 2 f_equal; lia | lia].
  - destruct rest as [|v rest]; [done|]. destruct (negb _); [done|].
    destruct (replay_pair _ _ _ _ _ _); [done|]. simpl in Hn.
    assert (Hl : length rest ≤ n) by lia.
    destruct (IH _ _ _ _ (c + 2)%N Hl Hrun (d + 2)%N) as [-> ?].
    split; [do 2 f_equal; lia | lia].
Qed.

(** The record after a valid prefix of a valid log is a subject. *)
Lemma replays_next_subject base rest s s' r :
  Replays rules base s → Replays rules (base ++ rest) s' → head rest = Some r →
  rec_kind r ≠ Kind.Verdict.
Proof.
  intros Hbase Hlog Hr Hk. destruct rest as [|x rest]; [done|]. injection Hr as ->.
  pose proof (replay_loop_complete rules base s (r :: rest) Hbase) as E.
  pose proof (replay_loop_complete rules (base ++ r :: rest) s' [] Hlog) as E'.
  rewrite app_nil_r in E'. rewrite E' in E. cbn [replay_loop] in E.
  rewrite (bool_decide_true (rec_kind r = _)) in E by done. unfold replay_verdict in E.
  destruct (check_verdict_record _ _ _) eqn:Ec; [done|].
  by apply (replays_no_bare_verdict rules base s r) in Ec.
Qed.
End open.



(** C20: a trusted checkpoint does not lose an acceptance either: a verified
    log that extends the log the checkpoint was taken of verifies from the
    checkpoint, and only the records after it are checked. *)
Theorem checkpoint_is_complete `{Primitives, Serde, HashOrder} rules base rest tc :
  from_verified_log base rules = Some tc →
  accepted (verify_log (base ++ rest) rules None) = true →
  accepted (verify_log (base ++ rest) rules (Some tc)) = true ∧
  lv_checked_records (verify_log (base ++ rest) rules (Some tc)) = N.of_nat (length rest).
Proof.
  intros Htc (s' & Hlog & _ & _)%verified_replays.
  pose proof Htc as (s & h & Hbase & _)%from_verified_log_inv.
  unfold verify_log.
  rewrite (open_checkpoint_of_prefix rules base rest tc s Htc Hbase)
    by (intros r Hr; by eapply replays_next_subject).
  pose proof (replays_times rules _ s' Hlog) as Ht%times_ok. apply andb_true_iff in Ht as [Ht Hg].
  rewrite Ht, Hg, (replays_ids rules _ s' Hlog), drop_app_length. cbn [negb].
  pose proof (replay_loop_complete rules base s rest Hbase) as E.
  pose proof (replay_loop_complete rules (base ++ rest) s' [] Hlog) as E'.
  rewrite app_nil_r in E'. rewrite E' in E. cbn [replay_loop] in E.
  symmetry in E. destruct (replay_loop_checked _ _ _ _ _ _ _ _ _ _ (le_n _) E 0%N) as [-> _].
  split; [done|]. simpl. rewrite length_app. lia.
Qed.

Lemma checkpoint_is_complete_witness :
  ∃ tc, from_verified_log Lineage.log2 Lineage.rules = Some tc ∧
    (accepted (verify_log (Lineage.log2 ++ drop 4 Lineage.log4) Lineage.rules (Some tc)) = true ∧
     lv_checked_records (verify_log (Lineage.log2 ++ drop 4 Lineage.log4) Lineage.rules (Some tc)) = 4%N).
Proof.
  eexists. split; [vm_compute; reflexivity|].
  apply (checkpoint_is_complete Lineage.rules Lineage.log2 (drop 4 Lineage.log4));
    [vm_compute; reflexivity | by_vm].
Defined.
