(* ===== verification/ContextTheorems.v ===== *)
(** * Properties of the context builder

    On a verified log the context is the newest eligible records, and nothing
    retracted, replaced or -- by default -- tainted reaches the proposer. *)

From S2P Require Export Contexts CheckpointTheorems.

#[local] Existing Instance Approved.serde.

(** Times rise along the log, so later records come first in the sort. *)
Lemma times_lt l n i j x y :
  times_from n l → l !! i = Some x → l !! j = Some y → i < j → (rec_time x < rec_time y)%N.
Proof. intros Ht Hx Hy Hij. destruct (Ht i x Hx), (Ht j y Hy). lia. Qed.

(** A list whose times fall is sorted newest first, and only one order is. *)
Definition falling (l : list record) : Prop :=
  StronglySorted (λ x y, (rec_time y < rec_time x)%N) l.

Lemma falling_filter P `{∀ x, Decision (P x)} l : falling l → falling (filter P l).
Proof.
  unfold falling. induction 1 as [|x l Hl IH Hx]; [constructor|]. rewrite filter_cons.
  case_decide; [|done]. constructor; [done|]. apply Forall_forall. intros y Hy.
  apply list_elem_of_filter in Hy as [_ Hy]. rewrite Forall_forall in Hx. auto.
Qed.

Lemma times_falling n l : times_from n l → falling (reverse l).
Proof.
  revert n. induction l as [|x l IH] using rev_ind; intros n Ht; [constructor|].
  rewrite reverse_snoc. pose proof Ht as Hxl. apply times_from_app in Ht as [Hl _]. constructor; [by eapply IH|].
  apply Forall_forall. intros y Hy. rewrite elem_of_reverse in Hy.
  apply list_elem_of_lookup_1 in Hy as [i Hi].
  apply lookup_lt_Some in Hi as Hlt.
  apply (times_lt (l ++ [x]) n i (length l) y x Hxl); [by apply lookup_app_l_Some | | done].
  by rewrite lookup_app_r, Nat.sub_diag.
Qed.

Lemma falling_sorted l : falling l → StronglySorted (le_by newest_first) l.
Proof.
  unfold falling. induction 1 as [|x l Hl IH Hx]; [constructor|].
  constructor; [done|]. eapply Forall_impl; [exact Hx|]. intros y Hy. unfold le_by, newest_first.
  apply N.compare_lt_iff in Hy. unfold cmp at 1, cmp_N. by rewrite Hy.
Qed.

Lemma newest_first_sorted l : StronglySorted (le_by newest_first) (sort_by newest_first l).
Proof.
  assert (E : ∀ x y, newest_first x y = cmp (rec_time y, rec_id x) (rec_time x, rec_id y)) by done.
  apply sort_by_sorted; unfold le_by.
  - intros x y. unfold newest_first. rewrite (cmp_flip (rec_time y)), (cmp_flip (rec_id x)).
    by destruct (cmp (rec_time y) _), (cmp (rec_id x) _).
  - intros x y z. unfold newest_first. unfold cmp_then.
    destruct (cmp (rec_time y) (rec_time x)) eqn:E1, (cmp (rec_time z) (rec_time y)) eqn:E2; try done;
      rewrite ?cmp_eq_iff in *.
    + rewrite E2, E1, cmp_refl. rewrite <- !leb_not_gt. apply leb_trans.
    + rewrite <- E1. by rewrite E2.
    + rewrite E2, E1. done.
    + by rewrite (cmp_lt_trans _ _ _ E2 E1).
Qed.

(** On a log whose times rise, sorting newest first is reversing. *)
Lemma sort_newest l n P `{∀ x, Decision (P x)} :
  times_from n l → sort_by newest_first (filter P l) = reverse (filter P l).
Proof.
  intros Ht. apply (StronglySorted_unique_strong (le_by newest_first)).
  - intros x y Hx Hy Hxy Hyx. apply elem_of_sort_by, list_elem_of_filter in Hx as [_ Hx].
    rewrite elem_of_reverse in Hy. apply list_elem_of_filter in Hy as [_ Hy].
    apply list_elem_of_lookup_1 in Hx as [i Hi], Hy as [j Hj].
    destruct (decide (i < j)) as [Hij|Hij]; [|destruct (decide (j < i)) as [Hji|Hji]].
    + pose proof (times_lt l n i j x y Ht Hi Hj Hij) as Hlt. unfold le_by, newest_first in Hxy.
      apply N.compare_gt_iff in Hlt. unfold cmp at 1, cmp_N in Hxy. by rewrite Hlt in Hxy.
    + pose proof (times_lt l n j i y x Ht Hj Hi Hji) as Hlt. unfold le_by, newest_first in Hyx.
      apply N.compare_gt_iff in Hlt. unfold cmp at 1, cmp_N in Hyx. by rewrite Hlt in Hyx.
    + assert (i = j) as -> by lia. congruence.
  - apply newest_first_sorted.
  - apply falling_sorted. rewrite <- filter_reverse. by eapply falling_filter, times_falling.
  - by rewrite sort_by_perm, reverse_Permutation.
Qed.

(** C36: on a verified log, the context is exactly the newest eligible records
    of the thread, at most as many as the rules allow, newest first; none of
    them is rejected, replaced, retracted or a verdict; under the default
    policy none is tainted, and otherwise exactly the tainted ones are
    labelled; and the usage feedback is the state's, for these records only. *)
Theorem context_is_exact `{Primitives, Serde, HashOrder} records s rules thread policy :
  accepted (verify_log records rules None) = true → build_state_unchecked records = Some s →
  let cx := build_context_with records s rules thread policy in
  cx_records cx = take (N.to_nat (max_context_records rules))
    (reverse (filter (λ r, eligible s thread policy r = true) records)) ∧
  (∀ r, r ∈ cx_records cx →
     accepted_in records r ∧ rec_thread r = thread ∧ rec_id r ∉ retracted_records s ∧
     rec_id r ∉ replaced_records s ∧
     (policy = ContextPolicy.ExcludeTainted → rec_id r ∉ tainted_records s) ∧
     (rec_id r ∈ cx_tainted_records cx ↔ rec_id r ∈ tainted_records s)) ∧
  (∀ id role, cx_usage_feedback cx !! (id, role) =
     if decide (id ∈ rec_id <$> cx_records cx) then usage_counts s !! (id, role) else None).
Proof.
  intros (s' & Hlog)%verify_log_sound Hs.
  rewrite (build_replays rules records s' Hlog) in Hs. injection Hs as ->.
  pose proof (replays_times rules records s Hlog) as Ht.
  set (cx := build_context_with records s rules thread policy). cbv zeta.
  assert (Hrec : cx_records cx = take (N.to_nat (max_context_records rules))
      (reverse (filter (λ r, eligible s thread policy r = true) records))).
  { unfold cx, build_context_with. cbn [cx_records]. f_equal. by eapply sort_newest. }
  split; [exact Hrec|]. split.
  - intros r Hr. pose proof Hr as Hcx. rewrite Hrec in Hr. apply elem_of_take in Hr as (i & Hr & _).
    apply list_elem_of_lookup_2 in Hr. rewrite elem_of_reverse in Hr.
    apply list_elem_of_filter in Hr as [Hel Hr]. unfold eligible in Hel. cbv zeta in Hel. bool_simpl.
    assert (Hpol : policy = ContextPolicy.ExcludeTainted → rec_id r ∉ tainted_records s).
    { intros ->. match goal with Hx : _ || _ = true |- _ => simpl in Hx; by bool_simpl end. }
    split_and!; try done; [by apply (accepted_in_iff rules records s)|].
    unfold cx at 1, build_context_with. cbn [cx_tainted_records]. fold (cx_records cx).
    rewrite elem_of_list_to_set, list_elem_of_fmap. split.
    + intros (x & -> & Hx). by apply list_elem_of_filter in Hx as [? _].
    + intros Htaint. exists r. split; [done|]. by apply list_elem_of_filter.
  - intros id role. unfold cx at 1, build_context_with. cbn [cx_usage_feedback].
    rewrite map_lookup_filter. cbn [fst]. fold (cx_records cx).
    destruct (usage_counts s !! (id, role)) as [u|]; simpl; [|by case_decide].
    change (list_to_set (rec_id <$> take _ _) : gset RecordId)
      with (list_to_set (rec_id <$> cx_records cx) : gset RecordId).
    case_guard as Hg; simpl; [rewrite decide_True | rewrite decide_False]; try done;
      by rewrite elem_of_list_to_set in Hg.
Qed.

Lemma context_is_exact_witness :
  let s := default empty_state (build_state_unchecked Approved.log) in
  let shown := cx_records (build_context Approved.log s rules0 thread0) in
  length shown = 5 ∧
  Forall (λ r, accepted_in Approved.log r ∧ rec_id r ∉ retracted_records s ∧ rec_id r ∉ tainted_records s)
    shown.
Proof.
  intros s shown. split; [vm_compute; reflexivity|]. apply Forall_forall. intros r Hr.
  destruct (context_is_exact Approved.log s rules0 thread0 ContextPolicy.ExcludeTainted)
    as (_ & Hall & _).
  - by_vm.
  - vm_compute. reflexivity.
  - destruct (Hall r Hr) as (H1 & _ & H3 & _ & H5 & _). split; [exact H1|]. split; [exact H3|].
    exact (H5 eq_refl).
Defined.
