(* ===== verification/DataTheorems.v ===== *)
(** * Properties of the data formats

    Canonical bytes, signatures, reference lists, strict collections, hex
    identifiers and scores. *)

From S2P Require Export CheckpointTheorems.

#[local] Existing Instance Approved.serde.

(** ** The signing form *)

(** What a signature covers: everything but the id and the signature. *)
Definition unsigned (r : record) : record :=
  mk_record zero_hash (rec_space r) (rec_thread r) (rec_time r)
    (mk_author (author_id (rec_author r)) (author_type (rec_author r)) None)
    (rec_kind r) (rec_schema r) (rec_data r) (rec_refs r) (rec_evidence r).

(** The record with [s] attached. *)
Definition attach (s : Signature) (r : record) : record :=
  mk_record (rec_id r) (rec_space r) (rec_thread r) (rec_time r)
    (mk_author (author_id (rec_author r)) (author_type (rec_author r)) (Some s))
    (rec_kind r) (rec_schema r) (rec_data r) (rec_refs r) (rec_evidence r).

Lemma signing_form_unsigned r :
  DomainSeparatedSigningForm r = DomainSeparatedSigningForm (unsigned r).
Proof. done. Qed.

Lemma signing_form_inj r1 r2 :
  jcs_norm (DomainSeparatedSigningForm r1) = jcs_norm (DomainSeparatedSigningForm r2) →
  unsigned r1 = unsigned r2.
Proof.
  unfold DomainSeparatedSigningForm. intros E. member E "record" E0. clear E.
  unfold CanonicalSigningForm in E0. rename E0 into E.
  member E "space" E1. member E "thread" E2. member E "time" E3. member E "author" E4.
  member E "kind" E5. member E "schema" E6. member E "data" E7. member E "refs" E8.
  member E "evidence" E9. unfold CanonicalAuthor in E4.
  member E4 "id" Ei. member E4 "type" Et.
  apply norm_inj in E1, E2, E3, Ei, Et, E5, E6, E7, E8, E9. unfold unsigned. congruence.
Qed.

Lemma plain_signing_form r :
  str_wf (author_id (rec_author r)) → plain_value (DomainSeparatedSigningForm r).
Proof.
  intros Ha. unfold DomainSeparatedSigningForm, CanonicalSigningForm, CanonicalAuthor.
  plain_object; [vm_compute; exact I|].
  plain_object; try apply plain_bytes; try exact I.
  - plain_object; [exact Ha|]. by destruct (author_type (rec_author r)).
  - by destruct (rec_kind r).
  - apply plain_list. intros [t x] _. unfold to_value, ser_Ref. plain_object.
    + by destruct t.
    + apply plain_bytes.
  - by destruct (rec_evidence r).
Qed.

(** An id form is never a signing form: only the latter has a domain. *)
Lemma id_form_not_signing r1 r2 :
  jcs_norm (CanonicalIdForm r1) ≠ jcs_norm (DomainSeparatedSigningForm r2).
Proof. by intros E%object_norm_perm%Permutation_length. Qed.

(** C21: signing bytes are exact and domain separated: two records have the
    same signing bytes just when they agree in everything but id and signature;
    and no signing bytes are the bytes any record id is computed from, so a
    signature can be replayed neither on another record nor as an id preimage. *)
Theorem signing_bytes_are_exact `{Primitives} r1 r2 b :
  str_wf (author_id (rec_author r1)) = true → author_wf (rec_author r2) = true →
  signing_bytes r1 = Some b →
  (signing_bytes r2 = Some b ↔ unsigned r1 = unsigned r2) ∧ canonical_id_form r2 ≠ Some b.
Proof.
  unfold signing_bytes, canonical_id_form, canonical_json, to_value, ser_value. cbn [id].
  intros W1 W2 Hb.
  assert (P1 : plain_value (DomainSeparatedSigningForm r1)) by (apply plain_signing_form; by rewrite W1).
  assert (P2 : plain_value (DomainSeparatedSigningForm r2)).
  { apply plain_signing_form. unfold author_wf in W2. apply andb_true_iff in W2 as [-> _]. done. }
  split.
  - rewrite (jcs_equal _ _ b P1 P2 Hb). split; [apply signing_form_inj|].
    intros E. by rewrite (signing_form_unsigned r1), E.
  - intros Hid. assert (P3 : plain_value (CanonicalIdForm r2)) by (apply plain_id_form; by rewrite W2).
    apply (jcs_equal _ _ b P1 P3 Hb) in Hid. by destruct (id_form_not_signing r2 r1).
Qed.

Lemma signing_bytes_are_exact_witness :
  ∃ b, signing_bytes Signed.r1 = Some b ∧
  ((signing_bytes Signed.unsigned = Some b ↔ unsigned Signed.r1 = unsigned Signed.unsigned) ∧
   canonical_id_form Signed.unsigned ≠ Some b).
Proof.
  eexists. split; [vm_compute; reflexivity|].
  apply (signing_bytes_are_exact Signed.r1 Signed.unsigned);
    [by_vm | by_vm | vm_compute; reflexivity].
Defined.

(** Ed25519 as documented: keys it derives are valid, signatures are 64 bytes,
    and a signature strictly verifies under the public key of its secret. *)
Definition ed25519_correct `{Primitives} : Prop :=
  ∀ secret, ed25519_key_valid (ed25519_public secret) = true ∧
    ∀ m, length (ed25519_sign secret m) = 64 ∧
      ed25519_verify_strict (ed25519_public secret) m (ed25519_sign secret m) = true.

(** C22: signing and verifying round trip: a record that carries the signature
    the signer made of it, whatever signature and id it carried when it was
    signed, verifies, and the verified key is the signer's public key. *)
Theorem signed_record_verifies `{Primitives} secret r s :
  ed25519_correct → sign secret r = Some s →
  verified_key (attach s r) = Some (ed25519_public secret) ∧ signature_verifies (attach s r) = true.
Proof.
  intros Hed Hs. assert (Hk : verified_key (attach s r) = Some (ed25519_public secret)).
  { unfold sign in Hs. destruct (signing_bytes r) as [m|] eqn:Em; [|done]. simpl in Hs.
    injection Hs as <-. destruct (Hed secret) as [Hv Hm]. destruct (Hm m) as [Hl Hver].
    unfold verified_key. cbn [attach rec_author author_signature mbind option_bind key_id sig].
    unfold public_key_hex. rewrite hex_decode_encode. cbn [mbind option_bind]. rewrite Hv, Hl.
    change (signing_bytes (attach _ r)) with (signing_bytes r). rewrite Em. simpl.
    by rewrite Hver. }
  split; [done|]. unfold signature_verifies. by rewrite Hk.
Qed.

Lemma toy_ed25519_correct : ed25519_correct.
Proof.
  intros secret. split; [done|]. intros m. split.
  - unfold ed25519_sign, toy_primitives, toy_sign. by rewrite length_app, !hash_length.
  - unfold ed25519_verify_strict, ed25519_public, ed25519_sign, toy_primitives.
    by apply bool_decide_eq_true.
Qed.

Lemma signed_record_verifies_witness :
  ∃ s, sign human_key Signed.unsigned = Some s ∧
    (verified_key (attach s Signed.unsigned) = Some (ed25519_public human_key) ∧
     signature_verifies (attach s Signed.unsigned) = true).
Proof.
  eexists. split; [vm_compute; reflexivity|].
  apply (signed_record_verifies human_key); [exact toy_ed25519_correct | vm_compute; reflexivity].
Defined.

(** ** Reference lists *)

(** The reference list of every accepted record is in canonical form,
    strictly increasing and so without repetition, and canonicalisation has one
    result per set of references: it keeps exactly the references given, and
    any list with the same references canonicalises to the record's own. *)
Theorem accepted_refs_canonical `{Primitives, Serde, HashOrder} rules log r :
  accepted (verify_log log rules None) = true → accepted_in log r →
  strictly_increasing (rec_refs r) = true ∧
  ∀ refs, (∀ x, x ∈ refs ↔ x ∈ rec_refs r) → sort_and_dedup_refs refs = rec_refs r.
Proof.
  intros Hv Hr. destruct (accepted_moment rules log r Hv Hr) as (l1 & s1 & k & _ & Ha).
  destruct Ha as (_ & Hk & _ & _ & _ & Hc). apply check_record_passed in Hc; [|done].
  pose proof (p_refs_sorted _ _ _ _ Hc) as Hs. split; [done|]. intros refs Hsame.
  apply strictly_increasing_ext; [apply sort_and_dedup_refs_strict | done |].
  intros x. by rewrite elem_of_sort_and_dedup_refs.
Qed.

Lemma accepted_refs_canonical_witness :
  strictly_increasing (rec_refs Approved.r4) = true ∧
  ∀ refs, (∀ x, x ∈ refs ↔ x ∈ rec_refs Approved.r4) →
    sort_and_dedup_refs refs = rec_refs Approved.r4.
Proof.
  apply (accepted_refs_canonical rules0 Approved.log Approved.r4 approved_accepted).
  apply (accepted_at_in _ 6). by_vm.
Defined.

(** ** Round trips *)

(** A hex identifier has one spelling. *)
Lemma hex_spelling_unique s h : hex_decode s = Some h ↔ hex_encode h = s.
Proof.
  split; [apply hex_encode_decode|]. intros <-. apply hex_decode_encode.
Qed.

(** C24: the strict decoders read exactly what the writers write. A map or set
    written in its canonical order is read back; a sequence is accepted just
    when no key or member repeats, and yields its contents; and a hex
    identifier has one spelling -- decoding accepts a string just when it is
    the encoding of the identifier it returns, so uppercase digits, other
    lengths and foreign characters are all refused. *)
Theorem strict_collections_roundtrip {K V : Type} `{Countable K, Cmp K} (m : gmap K V) (s : gset K)
    (entries : list (K * V)) (members : list K) :
  strict_map_de (btree_entries m) = Some m ∧ strict_set_de (btree_members s) = Some s ∧
  (strict_map_de entries = Some m ↔ NoDup entries.*1 ∧ m = list_to_map entries) ∧
  (strict_set_de members = Some s ↔ NoDup members ∧ s = list_to_set members) ∧
  (∀ text id, hex_decode text = Some id ↔ hex_encode id = text).
Proof.
  split_and!; [apply strict_map_roundtrip | apply strict_set_roundtrip
    | apply strict_map_de_spec | apply strict_set_de_spec | apply hex_spelling_unique].
Qed.

(** ** Canonical numbers *)

(** An integer is written just when it is a safe one, of magnitude at most
    [2^53 - 1], and then as its decimal digits. *)
Lemma safe_integers_written `{Primitives} (z : Z) :
  (- 2 ^ 63 <= z < 2 ^ 64)%Z →
  canonical_json z =
    if decide (Z.abs z <= 2 ^ 53 - 1)%Z then Some (lit (pretty z)) else None.
Proof.
  intros Hz. unfold canonical_json, to_value, ser_i64. cbn [write_jcs]. unfold write_number.
  destruct (Z.ltb_spec z 0); cbn [as_u64 as_i64].
  - change (- Z.of_N MAX_SAFE_INTEGER)%Z with (- (2 ^ 53 - 1))%Z.
    destruct (Z.ltb_spec z (- (2 ^ 53 - 1))); case_decide; (done || lia).
  - destruct (N.ltb_spec MAX_SAFE_INTEGER (Z.to_N z)) as [Hl|Hl]; unfold MAX_SAFE_INTEGER in Hl;
      case_decide; try done; try lia.
    do 2 f_equal. unfold pretty, pretty_Z. destruct z as [|p|p]; [done | done | lia].
Qed.

Lemma safe_integers_written_witness :
  canonical_json (-9007199254740992)%Z = None.
Proof.
  etrans; [apply (safe_integers_written (-9007199254740992)); lia | reflexivity].
Defined.

(** ** Typed payloads *)

Definition scored_ok (s : ScoredValue) : Prop :=
  (- (2 ^ 53 - 1) <= sv_value s <= 2 ^ 53 - 1)%Z ∧ (sv_scale s <= 12)%N.

Definition evaluation_ok (d : EvaluationData) : Prop :=
  ev_criterion d ≠ "" ∧
  match ev_outcome d with EvaluationOutcome.Scored s => scored_ok s | _ => True end.

Definition evaluation_v2_ok (d : EvaluationDataV2) : Prop :=
  e2_criterion d ≠ "" ∧ db_id (e2_evaluator d) ≠ "" ∧
  strictly_increasing (e2_requirements d) = true ∧
  match e2_outcome d with EvaluationOutcomeV2.Scored s => scored_ok s | _ => True end.

Lemma scored_try_from_ok raw s : scored_try_from raw = Some s → scored_ok s.
Proof.
  unfold scored_try_from, scored_ok. destruct (negb _) eqn:E1; [done|].
  destruct (N.ltb_spec MAX_SCORE_SCALE (svr_scale raw)); [done|]. intros [= <-]. simpl.
  apply negb_false_iff, andb_true_iff in E1 as [?%Z.leb_le ?%Z.leb_le].
  unfold MAX_SAFE_INTEGER_I64, MAX_SCORE_SCALE in *. lia.
Qed.


