(* ===== verification/WriterFacts.v ===== *)
(** * Facts about the writer

    The pair a commit materialises extends a valid log, a commit on a disk
    that does not fail either changes nothing or completes, and whatever a
    failing commit leaves behind is repaired when the log is reopened. *)

From S2P Require Export StorageFacts DataTheorems.

(** ** Small values always have a canonical form *)

Fixpoint writable (v : Value) : bool :=
  match v with
  | VNumber (PosInt n) => (n <=? MAX_SAFE_INTEGER)%N
  | VNumber (NegInt i) => (- Z.of_N MAX_SAFE_INTEGER <=? i)%Z
  | VNumber (Float _) => false
  | VArray l => forallb writable l
  | VObject m => forallb (λ e, writable e.2) m && bool_decide (NoDup (fst <$> m))
  | _ => true
  end.

Lemma mapM_total {A B} (f : A → option B) l : Forall (λ x, is_Some (f x)) l → is_Some (mapM f l).
Proof.
  intros Hl. destruct (mapM f l) as [k|] eqn:E; [eauto|]. apply mapM_None_1 in E.
  apply Exists_exists in E as (x & Hx & E). rewrite Forall_forall in Hl.
  destruct (Hl x Hx) as [y Hy]. congruence.
Qed.

Lemma write_jcs_total `{Primitives} v : writable v → is_Some (write_jcs v).
Proof.
  induction v as [|[]|n|s|l IH|m IH] using Value_rect'; intros Hw; try by eexists.
  - destruct n as [n|i|f]; simpl in Hw; [| |done]; cbn [write_jcs]; unfold write_number; simpl.
    + apply Is_true_true, N.leb_le in Hw.
      match goal with |- context [N.ltb ?a ?b] => destruct (N.ltb_spec a b) end; [lia | by eexists].
    + apply Is_true_true, Z.leb_le in Hw.
      match goal with |- context [Z.ltb ?a ?b] => destruct (Z.ltb_spec a b) end; [lia | by eexists].
  - simpl in Hw. apply forallb_True in Hw. rewrite write_array_eq.
    destruct (mapM_total write_jcs l) as [k ->]; [|by eexists].
    rewrite Forall_forall in *. auto.
  - simpl in Hw. apply andb_True in Hw as [Hw Hnd%bool_decide_unpack]. apply forallb_True in Hw.
    rewrite write_object_eq by done.
    destruct (mapM_total write_member (sort_by key_cmp m)) as [k ->]; [|by eexists].
    apply Forall_forall. intros e He%elem_of_sort_by. rewrite Forall_forall in IH, Hw.
    destruct (IH e He (Hw e He)) as [b Hb]. unfold write_member. rewrite Hb. by eexists.
Qed.

Lemma writable_hash (h : Hash256) : writable (to_value h).
Proof.
  unfold to_value, ser_hash. unfold to_value at 1, ser_list. simpl. apply forallb_True, Forall_forall.
  intros v (b & -> & _)%list_elem_of_fmap. unfold to_value, ser_byte. simpl.
  pose proof (code_lt b). apply Is_true_true, N.leb_le. unfold MAX_SAFE_INTEGER. lia.
Qed.

Lemma intent_canonical `{Primitives} (i : CommitIntent) : is_Some (canonical_json i).
Proof.
  apply write_jcs_total. unfold to_value, ser_CommitIntent. cbn [writable forallb fst snd].
  rewrite !andb_True. split; [split; [apply writable_hash | by destruct (written i)]|].
  by apply (bool_decide_unpack _).
Qed.

(** ** Ids of valid logs are unique *)

Section unique.
Context `{Primitives, Serde, HashOrder} (rules : VerifierRules).

Lemma times_ids_unique l n :
  times_from n l → (∀ r, r ∈ l → compute_id r = Some (rec_id r)) → authors_wf l →
  NoDup (rec_id <$> l) ∨ sha256_collision.
Proof.
  revert n. induction l as [|r l IH]; intros n Ht Hid Hwf; [left; constructor|].
  destruct (IH (S n)) as [Hnd|]; [| | |  |by right].
  - intros i x Hx. specialize (Ht (S i) x Hx). by rewrite Nat.add_succ_r in Ht.
  - intros x Hx. apply Hid. by right.
  - intros x Hx. apply Hwf. by right.
  - destruct (decide (rec_id r ∈ (rec_id <$> l))) as [Hin|Hin].
    + apply list_elem_of_fmap in Hin as (x & E & Hx). right.
      destruct (id_binds r x (rec_id r)) as [Erx|]; [| | | | |done].
      * rewrite Hwf; [done | by left].
      * rewrite Hwf; [done | by right].
      * apply Hid. by left.
      * rewrite E. apply Hid. by right.
      * exfalso. apply list_elem_of_lookup_1 in Hx as [i Hi].
        destruct (Ht 0 r eq_refl) as [T1 _]. destruct (Ht (S i) x Hi) as [T2 _].
        rewrite Erx in T1. simpl in T1. rewrite T2 in T1. lia.
    + left. rewrite fmap_cons. by constructor.
Qed.

Lemma replays_ids_unique log s :
  Replays rules log s → authors_wf log → NoDup (rec_id <$> log) ∨ sha256_collision.
Proof.
  intros Hlog Hwf. apply (times_ids_unique log 0); [by eapply replays_times | | done].
  apply ids_ok_spec. by eapply replays_ids.
Qed.

(** A new record at the next time has a new id. *)
Lemma next_id_fresh log s r :
  Replays rules log s → authors_wf log → author_wf (rec_author r) = true →
  compute_id r = Some (rec_id r) → rec_time r = (N.of_nat (length log) + 1)%N →
  find_first log (rec_id r) = None ∨ sha256_collision.
Proof.
  intros Hlog Hwf Hr Hid Ht. destruct (find_first log (rec_id r)) as [x|] eqn:Ef; [|by left].
  apply find_first_Some in Ef as [Hx E]. right.
  assert (Hidx : compute_id x = Some (rec_id x)).
  { pose proof (replays_ids rules log s Hlog) as Hids. rewrite ids_ok_spec in Hids. auto. }
  destruct (id_binds r x (rec_id r)) as [Erx|]; [by rewrite Hr | by rewrite Hwf | done | by rewrite <- E | |done].
  exfalso. apply list_elem_of_lookup_1 in Hx as [i Hi].
  destruct (replays_times rules log s Hlog i x Hi) as [T _]. apply lookup_lt_Some in Hi.
  rewrite Erx in Ht. simpl in Ht. rewrite T in Ht. lia.
Qed.
End unique.

(** ** Text that hex encoding produces *)

Lemma str_wf_ascii s : Forall (λ b, (code b < 128)%N) (lit s) → str_wf s.
Proof.
  intros Hs. unfold str_wf.
  assert (Hc : ∀ l, Forall (λ b, (code b < 128)%N) l →
    utf8_chars l = code <$> l ∧ concat (encode_utf8 <$> (code <$> l)) = l ∧
    forallb is_scalar (code <$> l) = true).
  { clear. induction 1 as [|b l Hb Hl (IH1 & IH2 & IH3)]; [done|]. rewrite !fmap_cons. cbn [utf8_chars].
    apply N.ltb_lt in Hb as Hb'. rewrite Hb', IH1. split; [done|]. split.
    - simpl. rewrite IH2. unfold encode_utf8 at 1. rewrite Hb'. simpl. f_equal.
      unfold byte_of. by rewrite Byte.of_to_N.
    - simpl. rewrite IH3, andb_true_r. unfold is_scalar.
      apply orb_true_iff. left. apply N.ltb_lt. lia. }
  destruct (Hc (lit s) Hs) as (E1 & E2 & E3). unfold chars. rewrite E1, E2, E3. simpl.
  by apply bool_decide_pack.
Qed.

Lemma hex_encode_wf h : str_wf (hex_encode h).
Proof.
  apply str_wf_ascii. unfold lit, hex_encode. rewrite String.list_byte_of_string_of_list_byte.
  induction (hash_bytes h) as [|b l IH]; [constructor|].
  change (Forall (λ b, (code b < 128)%N) (hex_byte b ++ concat (hex_byte <$> l))).
  apply Forall_app. split; [|done]. clear. destruct b; repeat constructor.
Qed.

(** ** The pair extends the log *)

Section pair.
Context `{Primitives, Serde, HashOrder} (rules : VerifierRules).

(** The parser of verdict payloads reads back what the verifier writes. *)
Definition verdicts_roundtrip : Prop := ∀ reason b,
  encode (verdict_of reason) = Some b → decode b = Some (verdict_of reason).

(** The checks of a record do not resolve the record itself.  Its id is a hash
    over its content, so only a hash fixpoint could make them. *)
Definition self_blind (log : list record) (s : State) (r : record) : Prop :=
  check_record r (prior_of (log ++ [r])) rules s = check_record r (prior_of log) rules s.

Lemma due_is_verified log s r :
  self_blind log s r → due_verdict rules log s r = verify_record r log rules s.
Proof. unfold due_verdict, verify_record. by intros ->. Qed.

Lemma with_computed_id_ok r r' :
  with_computed_id r = Some r' → ∃ id, r' = set_id id r ∧ compute_id r' = Some (rec_id r').
Proof.
  unfold with_computed_id. destruct (compute_id r) as [id|] eqn:E; [|done]. intros [= <-].
  exists id. by split.
Qed.

Lemma materialize_verdict_on r t vd v :
  materialize_verdict r t vd = Some v → rec_space r = rules_space rules →
  (∃ reason, vd = verdict_of reason) → verdicts_roundtrip →
  rec_time v = t ∧ verdict_on rules r v vd.
Proof.
  unfold materialize_verdict. destruct (encode vd) as [data|] eqn:Ee; [|done]. simpl.
  intros (id & -> & Hid)%with_computed_id_ok Hs [reason ->] Hrt. split; [done|].
  pose proof (Hrt reason data Ee) as Hd. unfold verdict_on, set_id in *.
  cbn [rec_id rec_space rec_thread rec_time rec_author rec_kind rec_schema rec_data rec_refs
    rec_evidence author_type author_signature] in *.
  split_and!; try done. unfold decodes_canonically. rewrite Hd. unfold encode in Ee. rewrite Ee.
  by apply bool_decide_true.
Qed.

Lemma pair_extends log s r v t s' :
  Replays rules log s → authors_wf log → author_wf (rec_author r) = true →
  rec_kind r ≠ Kind.Verdict → rec_space r = rules_space rules →
  compute_id r = Some (rec_id r) → rec_time r = (N.of_nat (length log) + 1)%N →
  t = (N.of_nat (length log) + 2)%N → (t <= u64_max)%N → self_blind log s r →
  materialize_verdict r t (verify_record r log rules s) = Some v →
  apply_record r (verify_record r log rules s) s = (s', inr tt) → verdicts_roundtrip →
  Replays rules (log ++ [r; v]) (set_applied_up_to t s') ∨ sha256_collision.
Proof.
  intros Hlog Hwf Hr Hk Hs Hid Ht Htv Hmax Hblind Hm Hap Hrt.
  destruct (next_id_fresh rules log s r) as [Hf|]; [done..| |by right]. left.
  apply materialize_verdict_on in Hm as [Hv Hon]; [|done|by eexists|done].
  rewrite <- Hv, <- due_is_verified in * by done.
  apply replays_pair with s; try done; rewrite ?Hv; done.
Qed.
End pair.

(** ** The writer between two commits *)

Section ready.
Context `{Primitives, Serde, HashOrder, RecordParser} (rules : VerifierRules).

(** A writer whose log is valid, whose file holds its frames, and whose clock
    and caller state are in step with it. *)
Record Ready (c : Machine) : Prop := {
  rd_log : Replays rules (records_of c) (mc_state c);
  rd_file : frames (records_of c) = Some (records_log (mc_disk c));
  rd_index : fl_index (lw_log (mc_writer c)) = index_from 0 (records_of c) ∅;
  rd_clock : lw_time_source (mc_writer c) = from_last_time (fl_last_time (lw_log (mc_writer c)));
  rd_rules : sha256_canonical rules = Some (lw_rules_hash (mc_writer c));
  rd_writable : lw_recovery_required (mc_writer c) = false;
  rd_size : (N.of_nat (length (records_log (mc_disk c)))
             <= fl_max_file_bytes (lw_log (mc_writer c)) <= u64_max)%N;
  rd_authors : authors_wf (records_of c);
}.

Lemma replays_length log s : Replays rules log s →
  last_time log = N.of_nat (length log) ∧ (N.of_nat (length log) <= u64_max)%N.
Proof.
  induction 1 as [|log s r v s' Hlog IH Hk Hf Hid Ht Htv Hb Hv Hap]; [done|].
  unfold last_time. change [r; v] with ([r] ++ [v]). rewrite app_assoc, last_snoc, !length_app. simpl.
  lia.
Qed.

Lemma ready_clock c :
  Ready c → exhausted (lw_time_source (mc_writer c)) = false →
  peek (lw_time_source (mc_writer c)) = (N.of_nat (length (records_of c)) + 1)%N ∧
  (N.of_nat (length (records_of c)) + 2 < u64_max)%N.
Proof.
  intros Hc He%exhausted_false. rewrite (rd_clock c Hc) in *.
  destruct (replays_length _ _ (rd_log c Hc)) as [Hl Hb].
  unfold from_last_time, fl_last_time in *. cbn [ts_next peek] in *. unfold peek. cbn [ts_next].
  fold (records_of c) in *. change (default 0%N (rec_time <$> last (records_of c)))
    with (last_time (records_of c)) in *.
  rewrite Hl in *. unfold saturating_add_u64 in *. lia.
Qed.

Lemma index_from_app pos l k m :
  index_from pos (l ++ k) m = index_from (pos + length l) k (index_from pos l m).
Proof.
  unfold index_from. rewrite fold_left_app. f_equal.
  assert (Hfst : ∀ l (acc : nat * gmap RecordId nat),
    (fold_left (λ acc r, (S acc.1, <[rec_id r:=acc.1]> acc.2)) l acc).1 = acc.1 + length l).
  { clear. induction l as [|r l IH]; intros acc; simpl; [lia|]. rewrite IH. simpl. lia. }
  rewrite (surjective_pairing (fold_left _ l (pos, m))). by rewrite Hfst.
Qed.

Lemma index_from_lookup l id r :
  NoDup (rec_id <$> l) → r ∈ l → rec_id r = id →
  ∃ i, index_from 0 l ∅ !! id = Some i ∧ l !! i = Some r.
Proof.
  induction l as [|x l IH] using rev_ind; intros Hnd Hr Hid; [by apply elem_of_nil in Hr|].
  rewrite index_from_app. unfold index_from at 1. simpl.
  rewrite fmap_app in Hnd. apply NoDup_app in Hnd as (Hnd & Hdis & _).
  apply elem_of_app in Hr as [Hr|Hr%list_elem_of_singleton].
  - destruct (IH Hnd Hr Hid) as (i & Hi & Hl). exists i. split.
    + rewrite lookup_insert_ne; [done|]. intros E. apply (Hdis id).
      * apply list_elem_of_fmap. by exists r.
      * rewrite <- E. by left.
    + apply lookup_app_l_Some. done.
  - subst. exists (length l). rewrite lookup_insert_eq. split; [done|].
    by rewrite lookup_app_r, Nat.sub_diag by done.
Qed.

(** What the first two steps of a commit produce. *)
Lemma materialize_ok p signer c r v vd :
  materialize p rules signer c = inr (r, v, vd) →
  ∃ t, checked_add_u64 (peek (lw_time_source (mc_writer c))) 1 = Some t ∧
    rec_kind r = prop_kind p ∧ rec_space r = prop_space p ∧ rec_thread r = prop_thread p ∧
    rec_time r = peek (lw_time_source (mc_writer c)) ∧ rec_schema r = prop_schema p ∧
    rec_data r = prop_data p ∧ rec_refs r = sort_and_dedup_refs (prop_refs p) ∧
    (signer = None → rec_author r = prop_author p) ∧
    (author_wf (prop_author p) = true → author_wf (rec_author r) = true) ∧
    compute_id r = Some (rec_id r) ∧
    vd = verify_record r (records_of c) rules (mc_state c) ∧
    materialize_verdict r t vd = Some v.
Proof.
  unfold materialize. destruct (checked_add_u64 _ 1) as [t|] eqn:Et; [|done].
  cbn [ok_or mbind result_bind].
  set (r0 := mk_record zero_hash _ _ _ _ _ _ _ _ _).
  destruct (match signer with Some _ => _ | None => _ end) as [|r1] eqn:Es; [done|].
  cbn [ok_or mbind result_bind].
  destruct (with_computed_id r1) as [r2|] eqn:Ei; [|done]. cbn [ok_or mbind result_bind].
  destruct (materialize_verdict r2 t _) as [v2|] eqn:Ev; [|done]. cbn [ok_or mbind result_bind].
  intros [= <- <- <-]. exists t. apply with_computed_id_ok in Ei as (id & -> & Hid).
  assert (Hr1 : r1 = r0 ∨ ∃ secret s, signer = Some secret ∧ sign secret r0 = Some s ∧
    r1 = attach s r0).
  { destruct signer as [secret|]; [|by injection Es as ->; left]. right.
    destruct (sign secret r0) as [s|] eqn:E; [|done]. cbn [ok_or mbind result_bind] in Es.
    injection Es as <-. eauto. }
  destruct Hr1 as [->|(secret & s & -> & Hs & ->)]; split_and!; try done.
  unfold author_wf. simpl. intros [-> _]%andb_true_iff.
  unfold sign in Hs. destruct (signing_bytes r0); [|done]. injection Hs as <-. simpl.
  unfold public_key_hex. apply Is_true_true, hex_encode_wf.
Qed.
(** ** Steps on a disk that does not fail *)

Lemma write_to_file_ok i d :
  budget d = None → ∃ d', write_to_file i d = (d', inr tt) ∧
    records_log d' = records_log d ∧ budget d' = None.
Proof.
  intros Hd. destruct (intent_canonical i) as [b Hb].
  unfold write_to_file, sync_parent_dir, mbind, eff_bind, lift_opt. rewrite Hb. cbn [ok_or].
  rewrite io_op_ok by done. unfold io_write. cbn [budget set_intent_tmp]. rewrite Hd.
  rewrite io_op_ok by done. rewrite io_op_ok by done. rewrite io_op_ok by done.
  by eexists.
Qed.

Lemma clear_file_ok d :
  budget d = None → ∃ d', clear_file d = (d', inr tt) ∧
    records_log d' = records_log d ∧ budget d' = None.
Proof.
  intros Hd. unfold clear_file, sync_parent_dir, mbind, eff_bind, gets.
  destruct (is_Some_b (intent_file d)); [|by eexists].
  rewrite io_op_ok by done. rewrite io_op_ok by done. by eexists.
Qed.

Lemma ensure_capacity_cases log l d :
  budget d = None → ∃ res, ensure_capacity_for log l d = (d, res) ∧
    (res = inr tt → ∃ b, frames l = Some b ∧
      (N.of_nat (length (records_log d) + length b) <= fl_max_file_bytes log)%N).
Proof.
  intros Hd. unfold ensure_capacity_for, mbind, eff_bind, lift_res.
  rewrite io_read_ok by done.
  destruct (projected_size _ _ l) as [e|n] eqn:Ep; [by eexists|].
  apply projected_size_inv in Ep as (b & Hb & ->).
  destruct (N.ltb_spec (fl_max_file_bytes log)
    (N.of_nat (length (records_log d)) + N.of_nat (length b))); [by eexists|].
  eexists. split; [done|]. intros _. exists b. split; [done | lia].
Qed.

Lemma append_log_ok r f c :
  budget (mc_disk c) = None → record_frame r = Some f →
  (N.of_nat (length (records_log (mc_disk c)) + length f)
    <= fl_max_file_bytes (lw_log (mc_writer c)) <= u64_max)%N →
  append_log r c = (mk_Machine (set_log (grow (lw_log (mc_writer c)) r) (mc_writer c)) (mc_state c)
    (set_records_log (records_log (mc_disk c) ++ f) (mc_disk c)), inr tt).
Proof.
  intros Hd Hf Hmax. unfold append_log, mbind, eff_bind, gets, on_disk, modify_writer, modify.
  by rewrite (append_ok _ r f).
Qed.

Lemma ready_ensured c : Ready c → ensure_ready rules c = inr tt.
Proof.
  intros Hc. unfold ensure_ready, ensure_writable, ensure_rules_match, ensure_state_matches.
  rewrite (rd_writable c Hc), (rd_rules c Hc). cbn [ok_or mbind result_bind].
  rewrite bool_decide_true by done.
  fold (records_of c). rewrite (build_replays rules _ _ (rd_log c Hc)). cbn [ok_or mbind result_bind].
  by rewrite bool_decide_true.
Qed.

(** ** One step of a machine *)

Lemma lift_res_run {A} {x : LogError.t + A} {a} (c : Machine) :
  x = inr a → lift_res x c = (c, inr a).
Proof. by intros ->. Qed.

Lemma lift_opt_run {A} (e : LogError.t) {x : option A} {a} (c : Machine) :
  x = Some a → lift_opt e x c = (c, inr a).
Proof. by intros ->. Qed.

Lemma get_run (c : Machine) : (get : mach Machine) c = (c, inr c).
Proof. done. Qed.

Lemma gets_run {A} (f : Machine → A) c : (gets f : mach A) c = (c, inr (f c)).
Proof. done. Qed.

Lemma on_disk_run {A} {m : io A} w s {d d' a} :
  m d = (d', inr a) → on_disk m (mk_Machine w s d) = (mk_Machine w s d', inr a).
Proof. unfold on_disk. cbn [mc_disk]. by intros ->. Qed.

Lemma on_state_run {m : eff State unit unit} w {s} d {s' a} :
  m s = (s', inr a) → on_state m (mk_Machine w s d) = (mk_Machine w s' d, inr a).
Proof. unfold on_state. cbn [mc_state]. by intros ->. Qed.

Lemma modify_writer_run f w s d :
  modify_writer f (mk_Machine w s d) = (mk_Machine (f w) s d, inr tt).
Proof. done. Qed.

Lemma modify_state_run f w s d :
  modify_state f (mk_Machine w s d) = (mk_Machine w (f s) d, inr tt).
Proof. done. Qed.

(** ** A commit on a disk that does not fail *)

(** The machine after the pair was committed. *)
Record Committed (c c' : Machine) (r v : record) (s' : State) : Prop := {
  cm_log : lw_log (mc_writer c') = grow (grow (lw_log (mc_writer c)) r) v;
  cm_clock : lw_time_source (mc_writer c') =
    (next_time (next_time (lw_time_source (mc_writer c))).2).2;
  cm_rules : lw_rules_hash (mc_writer c') = lw_rules_hash (mc_writer c);
  cm_writable : lw_recovery_required (mc_writer c') = false;
  cm_state : mc_state c' = set_applied_up_to (rec_time v) s';
  cm_file : ∃ b, frames [r; v] = Some b ∧
    records_log (mc_disk c') = records_log (mc_disk c) ++ b ∧
    (N.of_nat (length (records_log (mc_disk c) ++ b)) <= fl_max_file_bytes (lw_log (mc_writer c)))%N;
  cm_budget : budget (mc_disk c') = None;
}.

Lemma commit_runs p signer c r v vd s' :
  Ready c → budget (mc_disk c) = None →
  exhausted (lw_time_source (mc_writer c)) = false →
  materialize p rules signer c = inr (r, v, vd) →
  NoDup (rec_id <$> records_of c ++ [r; v]) →
  apply_record r vd (mc_state c) = (s', inr tt) →
  (∃ e, commit_inner p rules signer c = (c, inl e)) ∨
  (∃ c', commit_inner p rules signer c = (c', inr (rec_id r, vd)) ∧ Committed c c' r v s').
Proof.
  intros Hc Hd He Hm Hnd Hap. destruct c as [w s d]. cbn [mc_writer mc_disk] in *.
  unfold commit_inner. run (get_run (mk_Machine w s d)).
  run (lift_res_run (mk_Machine w s d) (ready_ensured _ Hc)). cbn [mc_writer mc_disk].
  rewrite He. run (lift_res_run (mk_Machine w s d) Hm).
  destruct (ensure_capacity_cases (lw_log w) [r; v] d Hd) as (res & Hens & Hcap).
  destruct res as [e|[]].
  { left. exists e. apply eff_bind_err. unfold on_disk. cbn [mc_writer mc_state mc_disk]. by rewrite Hens. }
  right. destruct (Hcap eq_refl) as (b & Hb & Hsize).
  run (on_disk_run w s Hens).
  pose proof Hb as (fr & k & Hfr & (fv & k' & Hfv & Hk' & ->)%frames_cons & ->)%frames_cons.
  injection Hk' as <-. rewrite app_nil_r in *. rewrite length_app in Hsize.
  pose proof (rd_size _ Hc) as [_ Hmax]. cbn [mc_writer] in Hmax.
  destruct (write_to_file_ok (mk_CommitIntent (rec_id r) false) d Hd) as (d1 & Hw1 & Hl1 & Hd1).
  run (on_disk_run w s Hw1). run (modify_writer_run (set_recovery_required true) w s d1).
  set (w1 := set_recovery_required true w).
  assert (Hfit1 : (N.of_nat (length (records_log d1) + length fr) <=
    fl_max_file_bytes (lw_log w1) <= u64_max)%N) by (simpl; rewrite Hl1; lia).
  pose proof (append_log_ok r fr (mk_Machine w1 s d1) Hd1 Hfr Hfit1) as Ha1.
  run Ha1. cbn [mc_writer mc_state mc_disk]. set (w2 := set_log _ w1). set (d2 := set_records_log _ d1).
  destruct (write_to_file_ok (mk_CommitIntent (rec_id r) true) d2 Hd1) as (d3 & Hw3 & Hl3 & Hd3).
  run (on_disk_run w2 s Hw3).
  assert (Hfit2 : (N.of_nat (length (records_log d3) + length fv) <=
    fl_max_file_bytes (lw_log w2) <= u64_max)%N).
  { rewrite Hl3. unfold d2. cbn. rewrite Hl1, length_app. lia. }
  pose proof (append_log_ok v fv (mk_Machine w2 s d3) Hd3 Hfv Hfit2) as Ha2.
  run Ha2. cbn [mc_writer mc_state mc_disk]. set (w3 := set_log _ w2). set (d4 := set_records_log _ d3).
  destruct (clear_file_ok d4 Hd3) as (d5 & Hw5 & Hl5 & Hd5).
  run (on_disk_run w3 s Hw5).
  run (gets_run (λ c, lw_log (mc_writer c)) (mk_Machine w3 s d5)). cbn [mc_writer].
  assert (Hget : fl_get (lw_log w3) (rec_id r) = Some r).
  { destruct (index_from_lookup (records_of (mk_Machine w s d) ++ [r; v]) (rec_id r) r Hnd) as (i & Hi & Hl).
    - apply elem_of_app. right. by left.
    - done.
    - unfold fl_get, w3, w2, grow. cbn [lw_log set_log fl_index fl_records].
      rewrite index_from_app in Hi. unfold index_from at 1 in Hi. cbn [fold_left fst snd] in Hi.
      rewrite <- (rd_index _ Hc) in Hi. unfold records_of in *. cbn [mc_writer] in *.
      rewrite length_app. cbn [length]. rewrite Nat.add_1_r. simpl in Hi |- *. rewrite Hi. simpl.
      by rewrite <- app_assoc. }
  run (lift_opt_run LogError.CorruptedRecovery (mk_Machine w3 s d5) Hget).
  run (on_state_run w3 d5 Hap). run (modify_state_run (set_applied_up_to (rec_time v)) w3 s' d5).
  run (modify_writer_run (λ w, set_time_source (next_time (next_time (lw_time_source w)).2).2 w) w3
    (set_applied_up_to (rec_time v) s') d5).
  run (modify_writer_run (set_recovery_required false)
    (set_time_source (next_time (next_time (lw_time_source w3)).2).2 w3)
    (set_applied_up_to (rec_time v) s') d5).
  eexists. split; [done|]. split; cbn [mc_writer mc_state mc_disk lw_log set_log set_time_source
    set_recovery_required lw_time_source lw_rules_hash lw_recovery_required]; try done.
  exists (fr ++ fv). split; [|split].
  - apply frames_cons. exists fr, fv. split; [done|]. split; [|done].
    apply frames_cons. exists fv, []. by rewrite app_nil_r.
  - rewrite Hl5. unfold d4. cbn [records_log set_records_log]. rewrite Hl3. unfold d2.
    cbn [records_log set_records_log]. by rewrite Hl1, <- app_assoc.
  - rewrite !length_app. lia.
Qed.

Lemma committed_ready c c' r v s' :
  Ready c → exhausted (lw_time_source (mc_writer c)) = false → Committed c c' r v s' →
  Replays rules (records_of c ++ [r; v]) (set_applied_up_to (rec_time v) s') →
  rec_time v = (N.of_nat (length (records_of c)) + 2)%N →
  author_wf (rec_author r) = true → author_wf (rec_author v) = true → Ready c'.
Proof.
  intros Hc He Hcm Hlog Htv Hr Hv.
  assert (Hrec : records_of c' = records_of c ++ [r; v]).
  { unfold records_of. rewrite (cm_log _ _ _ _ _ Hcm). unfold grow. simpl. by rewrite <- app_assoc. }
  destruct (cm_file _ _ _ _ _ Hcm) as (b & Hb & Hfile & Hsize).
  destruct (ready_clock c Hc He) as [Hpeek Hlt].
  split.
  - rewrite Hrec, (cm_state _ _ _ _ _ Hcm). done.
  - rewrite Hrec, Hfile. apply frames_app. exists (records_log (mc_disk c)), b.
    split; [apply (rd_file c Hc) | done].
  - rewrite Hrec, index_from_app. unfold index_from at 1. cbn [fold_left fst snd].
    rewrite <- (rd_index c Hc), (cm_log _ _ _ _ _ Hcm). unfold grow, records_of. simpl.
    by rewrite length_app, Nat.add_1_r.
  - rewrite (cm_clock _ _ _ _ _ Hcm). unfold fl_last_time. fold (records_of c'). rewrite Hrec.
    change [r; v] with ([r] ++ [v]). rewrite app_assoc, last_snoc. unfold from_last_time.
    cbn [fmap option_fmap option_map default from_option id]. rewrite Htv. unfold next_time. cbn [snd ts_next].
    unfold peek in Hpeek. rewrite Hpeek. f_equal. unfold saturating_add_u64. lia.
  - by rewrite (cm_rules _ _ _ _ _ Hcm), (rd_rules c Hc).
  - apply (cm_writable _ _ _ _ _ Hcm).
  - rewrite Hfile, (cm_log _ _ _ _ _ Hcm). unfold grow. cbn [fl_max_file_bytes].
    split; [done | apply (rd_size c Hc)].
  - rewrite Hrec. intros x [Hx|[->|[->|Hx%elem_of_nil]%elem_of_cons]%elem_of_cons]%elem_of_app;
      [by apply (rd_authors c Hc) | done..].
Qed.
End ready.
