(* ===== verification/ApplyFacts.v ===== *)
(** * Accepted records apply

    Under the frozen schema map, the fold never fails on a record the verifier
    accepts: every payload it decodes decodes, and every hash it takes exists. *)

From S2P Require Export WriterFacts.

Section frozen.
Context `{Primitives}.

(** Every binding of the frozen map comes from its list. *)
Lemma fold_insert_lookup {A} (l : list (string * A)) (m : gmap Hash256 A) s k :
  fold_left (λ m e, <[schema_id e.1 := e.2]> m) l m !! s = Some k →
  (∃ n, (n, k) ∈ l ∧ schema_id n = s) ∨ m !! s = Some k.
Proof.
  revert m. induction l as [|[n k'] l IH]; intros m Hf; cbn [fold_left fst snd] in Hf; [by right|].
  apply IH in Hf as [(n' & Hin & E)|Hf].
  - left. exists n'. split; [by right | done].
  - destruct (decide (schema_id n = s)) as [<-|Hne].
    + rewrite lookup_insert_eq in Hf. injection Hf as ->. left. exists n. split; [by left | done].
    + rewrite lookup_insert_ne in Hf by done. by right.
Qed.

(** Two schema names under one id. *)
Lemma schema_id_inj n m : schema_id n = schema_id m → n = m ∨ sha256_collision.
Proof.
  intros [E|]%sha256_eq_or_collision; [left | by right].
  by apply lit_inj.
Qed.
End frozen.

(** Split off the case where two distinct schema names share an id. *)
Ltac other_schema :=
  match goal with
  | |- context [bool_decide (schema_id ?n = schema_id ?m)] =>
      let E := fresh "E" in
      destruct (decide (schema_id n = schema_id m)) as [E|E];
      [ apply schema_id_inj in E as [E|]; [discriminate E | by right]
      | rewrite (bool_decide_false _ E); clear E ]
  end.

(** An object of distinct members is writable when its members are. *)
Ltac writable_object :=
  cbn [writable forallb fst snd]; rewrite !andb_True;
  split; [split_and! | by apply (bool_decide_unpack _)].

Section applies.
Context `{Primitives, Serde, HashOrder} (rules : VerifierRules).
Context (Hmap : kind_schema_map rules = frozen_kind_schema_map).

Lemma frozen_action s : kind_schema_map rules !! s = Some Kind.Action → s = schema_id SCHEMA_ACTION.
Proof.
  rewrite Hmap. intros [(n & Hin & <-)|?]%fold_insert_lookup; [|by rewrite lookup_empty in *].
  repeat (apply elem_of_cons in Hin as [E|Hin]; [first [discriminate E | by injection E as ->]|]).
  by apply elem_of_nil in Hin.
Qed.

Lemma frozen_capability s :
  kind_schema_map rules !! s = Some Kind.Capability → s = schema_id SCHEMA_CAPABILITY.
Proof.
  rewrite Hmap. intros [(n & Hin & <-)|?]%fold_insert_lookup; [|by rewrite lookup_empty in *].
  repeat (apply elem_of_cons in Hin as [E|Hin]; [first [discriminate E | by injection E as ->]|]).
  by apply elem_of_nil in Hin.
Qed.

Lemma payload_action r :
  rec_schema r = schema_id SCHEMA_ACTION → check_payload_decode r = None →
  decodes_canonically ActionData (rec_data r) = true ∨ sha256_collision.
Proof.
  intros Hs. unfold check_payload_decode. rewrite Hs. other_schema.
  rewrite bool_decide_true by done. destruct (decodes_canonically _ _); [by left | done].
Qed.

Lemma payload_capability r :
  rec_schema r = schema_id SCHEMA_CAPABILITY → check_payload_decode r = None →
  decodes_canonically CapabilityData (rec_data r) = true ∨ sha256_collision.
Proof.
  intros Hs. unfold check_payload_decode. rewrite Hs. do 6 other_schema. cbn [orb].
  rewrite bool_decide_true by done. destruct (decodes_canonically _ _); [by left | done].
Qed.

Lemma writable_string (x : string) : writable (to_value x).
Proof. done. Qed.

Lemma writable_list `{Serialize A} (l : list A) :
  (∀ a, writable (to_value a)) → writable (to_value l).
Proof.
  intros Hl. unfold to_value, ser_list. simpl. apply forallb_True, Forall_forall.
  by intros v (a & -> & _)%list_elem_of_fmap.
Qed.

Lemma writable_option `{Serialize A} (o : option A) :
  (∀ a, writable (to_value a)) → writable (to_value o).
Proof. intros Ho. destruct o; [apply Ho | done]. Qed.

Lemma writable_bytes (b : bytes) : writable (to_value b).
Proof.
  apply writable_list. intros x. unfold to_value, ser_byte. simpl.
  pose proof (code_lt x). apply Is_true_true, N.leb_le. unfold MAX_SAFE_INTEGER. lia.
Qed.

Lemma writable_selection (d : SelectionData) : writable (to_value d).
Proof.
  unfold to_value, ser_SelectionData. cbn [writable forallb fst snd]. rewrite !andb_True.
  split; [|by apply (bool_decide_unpack _)]. split_and!; try done.
  - apply writable_list, writable_hash.
  - destruct (sl_outcome d) as [c|]; [|done]. unfold to_value, SelectionOutcome.ser.
    cbn [writable forallb fst snd]. rewrite !andb_True.
    repeat split; try by apply (bool_decide_unpack _). apply writable_list, writable_hash.
  - by apply writable_option.
Qed.

Lemma selection_subject_hash author replace d :
  is_Some (selection_approval_subject_hash author replace d).
Proof.
  unfold selection_approval_subject_hash, sha256_canonical, canonical_json. apply fmap_is_Some.
  apply write_jcs_total. unfold to_value at 1, ser_value, id. cbn [writable forallb].
  rewrite !andb_True. split_and!; try done; [|apply writable_selection].
  by apply writable_option, writable_hash.
Qed.

Lemma summary_key_some d : is_Some (summary_key d).
Proof.
  unfold summary_key, sha256_canonical, canonical_json. apply fmap_is_Some.
  apply write_jcs_total. unfold to_value at 1, ser_value, id. cbn [writable forallb].
  rewrite !andb_True. by split_and!; [destruct (sm_summary_type d) | apply writable_hash | apply writable_hash |].
Qed.

Lemma action_hash_some author (d : ActionData) :
  is_Some (canonical_json d) → is_Some (action_approval_hash author d).
Proof.
  intros [b Hb]. unfold action_approval_hash, sha256_canonical. apply fmap_is_Some.
  change (canonical_json (author, d)) with (write_jcs (VArray [VString author; to_value d])).
  rewrite write_array_eq. change (canonical_json d) with (write_jcs (to_value d)) in Hb.
  cbn [mapM]. rewrite Hb. by eexists.
Qed.

(** The kind-specific part of the fold succeeds. *)
Lemma apply_kind_total r prior s s0 :
  check_record r prior rules s = None → rec_kind r ≠ Kind.Verdict →
  (∃ s', apply_kind r s0 = (s', inr tt)) ∨ sha256_collision.
Proof.
  intros Hc Hk. apply check_record_passed in Hc; [|done].
  pose proof (p_kind _ _ _ _ Hc) as Hkind. pose proof (p_payload _ _ _ _ Hc) as Hpay.
  pose proof (p_schema _ _ _ _ Hc) as Hsch. unfold check_kind_specific in Hkind. unfold apply_kind.
  assert (Hdec : ∀ (A : Type) (D : Decode A) (f : A → eff State unit unit),
    (∀ d : A, decode (rec_data r) = Some d → ∃ s', f d s0 = (s', inr tt)) →
    (decode (rec_data r) : option A) ≠ None → ∃ s', (decode_data A r ≫= f) s0 = (s', inr tt)).
  { intros A D f Hf Hd. destruct (decode (rec_data r) : option A) as [d|] eqn:E; [|done].
    destruct (Hf d eq_refl) as [s' Hs']. exists s'.
    unfold mbind, eff_bind, decode_data, lift_opt. by rewrite E. }
  destruct (rec_kind r) eqn:Ek; try done; try (left; by eexists);
    try (left; apply Hdec; [intros d _; cbv zeta; eexists; reflexivity|];
         unfold check_response, check_result, check_approval, check_usage, check_refusal,
           check_plan, check_retraction, check_requirement in Hkind;
         by destruct (decode (rec_data r))).
  - destruct (payload_action r (frozen_action _ Hsch) Hpay) as [Hcan|]; [|by right]. left.
    unfold decodes_canonically in Hcan. apply Hdec; [|by destruct (decode (rec_data r))].
    intros d Hd. rewrite Hd in Hcan. destruct (canonical_json d) as [b|] eqn:Eb; [|done].
    destruct (action_hash_some (author_id (rec_author r)) d) as [h Hh]; [by eexists|].
    unfold mbind, eff_bind, lift_opt. rewrite Hh. by eexists.
  - left. apply Hdec; [|unfold check_summary in Hkind; by destruct (decode (rec_data r))].
    intros d _. destruct (summary_key_some d) as [h Hh].
    unfold mbind, eff_bind, lift_opt. rewrite Hh. by eexists.
  - destruct (payload_capability r (frozen_capability _ Hsch) Hpay) as [Hcan|]; [|by right]. left.
    unfold decodes_canonically in Hcan. unfold apply_capability. apply Hdec; [intros d _; cbv zeta; eexists; reflexivity|].
    by destruct (decode (rec_data r)).
  - left. unfold check_selection in Hkind. apply Hdec.
    + intros d _. destruct (selection_subject_hash (author_id (rec_author r))
        (find_replace_ref (rec_refs r)) d) as [h Hh].
      unfold mbind, eff_bind, lift_opt. rewrite Hh. by eexists.
    + by destruct (decode (rec_data r) : option SelectionData).
Qed.

Lemma verified_applies r log s s0 :
  rec_kind r ≠ Kind.Verdict →
  (∃ s', apply_record r (verify_record r log rules s) s0 = (s', inr tt)) ∨ sha256_collision.
Proof.
  intros Hk. unfold verify_record, apply_record.
  destruct (check_record r _ rules s) as [reason|] eqn:Ec; [left; by eexists|]. cbn [verdict_of vd_result].
  unfold apply_accepted.
  destruct (apply_kind_total r _ s (index_refs r (set_accepted_records ({[rec_id r]} ∪ accepted_records s0) s0)) Ec Hk)
    as [[s' Hs']|]; [left | by right].
  exists s'. unfold mbind, eff_bind, modify. exact Hs'.
Qed.
End applies.
