(* ===== verification/RecoveryFacts.v ===== *)
(** * What a failing commit leaves, and what reopening makes of it

    A commit that fails at any point has added a prefix of the pair's two
    frames to the file; opening the log again yields the log before the commit
    or the log with the complete pair. *)

From S2P Require Export ApplyFacts.

Lemma eff_bind_cases {S E A B} (m : eff S E A) (f : A → eff S E B) s s' res :
  (m ≫= f) s = (s', res) →
  (∃ e, m s = (s', inl e) ∧ res = inl e) ∨ (∃ s1 a, m s = (s1, inr a) ∧ f a s1 = (s', res)).
Proof.
  unfold mbind, eff_bind. destruct (m s) as [s1 [e|a]] eqn:E1.
  - intros [= <- <-]. left. by exists e.
  - intros Hf. right. by exists s1, a.
Qed.

Definition file_of (c : Machine) : bytes := records_log (mc_disk c).

Section crash.
Context `{Primitives, Serde, HashOrder, RecordParser} (rules : VerifierRules).

(** ** What a commit writes *)

Lemma writes_on_disk {A} f (m : io A) : writes records_log f m → writes file_of f (on_disk m).
Proof.
  intros Hm [w s d]. destruct (Hm d) as [[n Hn] Hok]. unfold on_disk, file_of. cbn [mc_disk].
  destruct (m d) as [d' res]. simpl in *. split; [by exists n|]. intros a Ha. by eapply Hok.
Qed.

Lemma writes_append_log r : writes file_of (default [] (record_frame r)) (append_log r).
Proof.
  unfold append_log. apply writes_bind_nil; [by apply writes_quiet|]. intros log _ _.
  apply writes_last; [apply writes_on_disk, writes_append|]. intros. by apply writes_quiet.
Qed.

Lemma writes_write_to_file i : writes records_log [] (write_to_file i).
Proof. unfold write_to_file, sync_parent_dir. writes_nil. Qed.

Lemma writes_clear_file : writes records_log [] clear_file.
Proof. unfold clear_file, sync_parent_dir. writes_nil. Qed.

Lemma writes_on_state m : writes file_of [] (on_state m).
Proof. apply writes_quiet. intros [w s d]. unfold on_state, file_of. simpl. by destruct (m s) as [? []]. Qed.

Lemma ensure_capacity_inv log l d d' :
  ensure_capacity_for log l d = (d', inr tt) → records_log d' = records_log d ∧
  ∃ b, frames l = Some b ∧ (N.of_nat (length (records_log d) + length b) <= fl_max_file_bytes log)%N.
Proof.
  intros Hrun. pose proof (writes_ensure_capacity log l d) as [_ Hw]. rewrite Hrun in Hw.
  specialize (Hw tt eq_refl). rewrite app_nil_r in Hw. split; [done|].
  unfold ensure_capacity_for in Hrun. apply eff_bind_ok in Hrun as (d1 & n & Hread & Hrun).
  assert (Hd1 : n = N.of_nat (length (records_log d))).
  { unfold io_read in Hread. apply eff_bind_ok in Hread as (d2 & [] & Hop & Hg).
    unfold gets in Hg. injection Hg as <- <-. f_equal. f_equal. unfold io_op in Hop.
    destruct (budget d) as [[|k]|]; by injection Hop as <-. }
  subst n. apply eff_bind_ok in Hrun as (d2 & m & Hproj & Hrun).
  unfold lift_res in Hproj. injection Hproj as <- Hproj.
  apply projected_size_inv in Hproj as (b & Hb & ->). exists b. split; [done|].
  destruct (N.ltb_spec (fl_max_file_bytes log) (N.of_nat (length (records_log d)) + N.of_nat (length b)));
    [done | lia].
Qed.

(** The file after an append, whatever its result. *)
Lemma append_file log r d d' res :
  append log r d = (d', res) →
  (records_log d' = records_log d ∧ ∃ e, res = inl e) ∨
  ∃ f n, record_frame r = Some f ∧
    (N.of_nat (length (records_log d) + length f) <= fl_max_file_bytes log)%N ∧
    records_log d' = records_log d ++ take n f ∧
    (∀ log', res = inr log' → log' = grow log r ∧ records_log d' = records_log d ++ f).
Proof.
  intros Hrun. pose proof Hrun as Hrun'. unfold append in Hrun.
  apply eff_bind_cases in Hrun as [(e & Hl & ->)|(d1 & [body len] & Hl & Hrun)];
    [left; unfold lift_res in Hl; injection Hl as <- _; eauto|].
  unfold lift_res in Hl. injection Hl as <- Hbody.
  apply eff_bind_cases in Hrun as [(e & Hl & ->)|(d1 & [] & Hl & Hrun)].
  { left. split; [|eauto]. destruct (writes_ensure_capacity log [r] d) as [[n Hn] _].
    rewrite Hl in Hn. by rewrite take_nil, app_nil_r in Hn. }
  right. apply ensure_capacity_inv in Hl as (_ & b & (f & k & Hf & [= <-] & ->)%frames_cons & Hsize).
  rewrite app_nil_r in Hsize. destruct (writes_append log r d) as [[n Hn] Hok].
  rewrite Hrun', Hf in *. simpl in Hn, Hok. exists f, n. split_and!; try done.
  intros log' ->. split; [by apply append_result in Hrun' as [-> _] | by apply (Hok log')].
Qed.

(** The file after a commit, whatever its result: untouched, or grown by a
    prefix of the two frames, which fit under the limit. *)
Lemma commit_file p signer c c' res :
  commit_inner p rules signer c = (c', res) →
  (file_of c' = file_of c ∧ ∃ e, res = inl e) ∨
  ∃ r v vd b n, exhausted (lw_time_source (mc_writer c)) = false ∧
    materialize p rules signer c = inr (r, v, vd) ∧ frames [r; v] = Some b ∧
    (N.of_nat (length (file_of c) + length b) <= fl_max_file_bytes (lw_log (mc_writer c)))%N ∧
    file_of c' = file_of c ++ take n b ∧
    (∀ a, res = inr a → a = (rec_id r, vd) ∧ file_of c' = file_of c ++ b).
Proof.
  intros Hrun. unfold commit_inner in Hrun.
  apply eff_bind_cases in Hrun as [(e & [=] & _)|(c0 & c1 & [= <- <-] & Hrun)].
  apply eff_bind_cases in Hrun as [(e & Hl & ->)|(c1 & u & Hl & Hrun)];
    [left; unfold lift_res in Hl; injection Hl as <- _; eauto|].
  unfold lift_res in Hl. injection Hl as <- _.
  destruct (exhausted _) eqn:He; [left; unfold fail in Hrun; injection Hrun as <- <-; eauto|].
  apply eff_bind_cases in Hrun as [(e & Hl & ->)|(c1 & [[r v] vd] & Hl & Hrun)];
    [left; unfold lift_res in Hl; injection Hl as <- _; eauto|].
  unfold lift_res in Hl. injection Hl as <- Hm.
  apply eff_bind_cases in Hrun as [(e & Hl & ->)|(c1 & [] & Hl & Hrun)].
  { left. split; [|eauto]. pose proof (writes_on_disk [] _ (writes_ensure_capacity (lw_log (mc_writer c)) [r; v]) c)
      as [[n Hn] _]. rewrite Hl in Hn. by rewrite take_nil, app_nil_r in Hn. }
  right. unfold on_disk in Hl. destruct (ensure_capacity_for _ _ _) as [d1 [|[]]] eqn:Ecap; [done|].
  injection Hl as <-. apply ensure_capacity_inv in Ecap as (Hd1 & b & Hb & Hsize).
  pose proof Hb as (fr & k & Hfr & (fv & k' & Hfv & Hk' & ->)%frames_cons & ->)%frames_cons.
  injection Hk' as <-. rewrite app_nil_r in *.
  match type of Hrun with ?m _ = _ => assert (Hw : writes file_of (fr ++ fv) m) end.
  { apply writes_bind_nil; [apply writes_on_disk, writes_write_to_file|intros].
    apply writes_bind_nil; [by apply writes_quiet|intros].
    apply writes_bind; [pose proof (writes_append_log r) as Hw; by rewrite Hfr in Hw|intros].
    apply writes_bind_nil; [apply writes_on_disk, writes_write_to_file|intros].
    apply writes_last; [pose proof (writes_append_log v) as Hw; by rewrite Hfv in Hw|intros].
    apply writes_bind_nil; [apply writes_on_disk, writes_clear_file|intros].
    apply writes_bind_nil; [by apply writes_quiet|intros].
    apply writes_bind_nil; [by apply writes_quiet|intros].
    apply writes_bind_nil; [apply writes_on_state|intros].
    apply writes_bind_nil; [by apply writes_quiet|intros].
    apply writes_bind_nil; [by apply writes_quiet|intros].
    apply writes_bind_nil; [by apply writes_quiet|intros]. by apply writes_quiet. }
  destruct (Hw (mk_Machine (mc_writer c) (mc_state c) d1)) as [[n Hn] Hok]. rewrite Hrun in Hn, Hok.
  assert (Hf : file_of (mk_Machine (mc_writer c) (mc_state c) d1) = file_of c) by (unfold file_of; simpl; by rewrite Hd1).
  rewrite Hf in Hn, Hok. simpl in Hn, Hok.
  exists r, v, vd, (fr ++ fv), n. split_and!; try done.
  intros a ->. split; [|by apply (Hok a)].
  repeat (apply eff_bind_ok in Hrun as (? & ? & _ & Hrun)).
  unfold mret, eff_ret in Hrun. by injection Hrun as _ <-.
Qed.
(** The records after a commit that returned: the pair was added. *)
Lemma writes_records_log r : writes records_of [r] (append_log r).
Proof.
  intros [w s d]. unfold append_log, mbind, eff_bind, gets, on_disk, modify_writer, modify, records_of.
  cbn [mc_writer mc_disk]. destruct (append (lw_log w) r d) as [d' [e|log]] eqn:E.
  - split; [by exists 0; rewrite app_nil_r | done].
  - apply append_result in E as [-> _]. split; [by exists 1 | done].
Qed.

Lemma commit_records p signer c c' a :
  commit_inner p rules signer c = (c', inr a) →
  ∃ r v vd, ensure_ready rules c = inr tt ∧ exhausted (lw_time_source (mc_writer c)) = false ∧
    materialize p rules signer c = inr (r, v, vd) ∧
    a = (rec_id r, vd) ∧ records_of c' = records_of c ++ [r; v].
Proof.
  intros Hrun. unfold commit_inner in Hrun.
  apply eff_bind_ok in Hrun as (c0 & c1 & [= <- <-] & Hrun).
  apply eff_bind_ok in Hrun as (c1 & [] & Hl & Hrun). unfold lift_res in Hl. injection Hl as <- He.
  destruct (exhausted _) eqn:Hx; [done|].
  apply eff_bind_ok in Hrun as (c1 & [[r v] vd] & Hl & Hrun). unfold lift_res in Hl.
  injection Hl as <- Hm. exists r, v, vd. split_and!; [done..| |].
  { repeat (apply eff_bind_ok in Hrun as (? & ? & _ & Hrun)).
    unfold mret, eff_ret in Hrun. by injection Hrun as _ <-. }
  match type of Hrun with ?m _ = _ => assert (Hw : writes records_of ([r] ++ [v]) m) end;
    [|by destruct (Hw c) as [_ Hok]; rewrite Hrun in Hok; apply (Hok a)].
  assert (Hq : ∀ A (m : io A), writes records_of [] (on_disk m)).
  { intros A m. apply writes_quiet. intros [w s d]. unfold on_disk, records_of. cbn [mc_disk].
    by destruct (m d). }
  assert (Hs : ∀ m, writes records_of [] (on_state m)).
  { intros m. apply writes_quiet. intros [w s d]. unfold on_state, records_of. cbn [mc_state].
    by destruct (m s) as [? []]. }
  repeat (first [apply writes_bind_nil; [by auto using writes_quiet|intros]
                |apply writes_bind; [apply writes_records_log|intros]
                |apply writes_last; [apply writes_records_log|intros]]).
  by apply writes_quiet.
Qed.

(** ** Opening a log *)

Lemma replays_last log s :
  Replays rules log s → log = [] ∨ ∃ l v, log = l ++ [v] ∧ rec_kind v = Kind.Verdict.
Proof.
  destruct 1 as [|log s r v s' Hlog Hk Hf Hid Ht Htv Hb Hv Hap]; [by left|]. right.
  exists (log ++ [r]), v. split; [by rewrite <- app_assoc | apply Hv].
Qed.

Lemma require_valid log s : Replays rules log s → require_valid_log log rules = inr tt.
Proof. intros Hlog. unfold require_valid_log. by rewrite (verify_log_complete rules log s Hlog). Qed.

(** The file holds a valid log, and possibly a torn frame. *)
Lemma open_locked_whole l b t max d s rh :
  budget d = None → records_log d = b ++ t → frames l = Some b → parses l → torn t →
  (N.of_nat (length (b ++ t)) <= max <= u64_max)%N →
  Replays rules l s → sha256_canonical rules = Some rh →
  ∃ d', open_locked rules max d =
      (d', inr (mk_LogWriter (mk_FileLog l (index_from 0 l ∅) max)
        (from_last_time (rec_time <$> last l)) rh false)) ∧
    records_log d' = b ∧ budget d' = None.
Proof.
  intros Hd Hfile Hb Hp Ht Hmax Hlog Hrh. unfold open_locked.
  run (FileLog_open_ok l b t max d Hd Hfile Hb Hp Ht Hmax). cbn [fl_records].
  set (d1 := set_records_log b d).
  assert (Hlen : match last l with
    | Some r => if rec_kind r =? Kind.Verdict then length l else length l - 1
    | None => length l
    end = length l).
  { destruct (replays_last l s Hlog) as [->|(k & v & -> & Hk)]; [done|].
    rewrite last_snoc. by rewrite bool_decide_true. }
  rewrite Hlen, take_ge by done. pose proof (require_valid l s Hlog) as Hok.
  erewrite (eff_bind_run _ _ d1 d1 tt) by (unfold lift_res; by rewrite Hok).
  unfold recover. cbn [fl_records].
  assert (Htail : match last l with
    | Some r => if rec_kind r =? Kind.Verdict then None else Some r
    | None => None
    end = None).
  { destruct (replays_last l s Hlog) as [->|(k & v & -> & Hk)]; [done|].
    rewrite last_snoc. by rewrite bool_decide_true. }
  rewrite Htail. destruct (clear_file_ok d1) as (d2 & Hcl & Hl2 & Hd2); [done|].
  erewrite (eff_bind_run _ _ d1 d2).
  2: { erewrite (eff_bind_run _ _ d1 d1) by done. cbv beta.
       erewrite (eff_bind_run _ _ d1 d2) by exact Hcl. done. }
  cbv beta. cbn [fl_records].
  erewrite (eff_bind_run _ _ d2 d2 tt) by (unfold lift_res; by rewrite Hok).
  erewrite (eff_bind_run _ _ d2 d2 rh) by (unfold lift_opt; by rewrite Hrh).
  exists d2. split_and!; [done | by rewrite Hl2 | done].
Qed.

(** The file holds complete pairs the rules do not accept. *)
Lemma open_rejects l b max d :
  budget d = None → lock_held d = false → records_log d = b → frames l = Some b → parses l →
  (N.of_nat (length b) <= max <= u64_max)%N →
  (∃ k v, l = k ++ [v] ∧ rec_kind v = Kind.Verdict) →
  accepted (verify_log l rules None) = false →
  ∃ d' reason, open_with_max_bytes rules max d = (d', inl (LogError.InvalidExistingLog reason)) ∧
    records_log d' = b.
Proof.
  intros Hd Hlock Hfile Hb Hp Hmax (k & v & El & Hk) Hrej. unfold open_with_max_bytes.
  erewrite (eff_bind_run _ _ d d tt) by (by rewrite io_op_ok). cbv beta.
  erewrite (eff_bind_run _ _ d d tt) by (by rewrite io_op_ok). cbv beta.
  erewrite (eff_bind_run _ _ d d tt) by (by rewrite io_op_ok). cbv beta.
  erewrite (eff_bind_run _ _ d d false) by (unfold gets; by rewrite Hlock). cbv beta iota.
  erewrite (eff_bind_run _ _ d (set_lock_held true d) tt) by done. cbv beta.
  assert (Hopen : FileLog_open max (set_lock_held true d) =
      (set_records_log b (set_lock_held true d), inr (mk_FileLog l (index_from 0 l ∅) max))).
  { apply (FileLog_open_ok l b []); rewrite ?app_nil_r; try done. apply torn_nil. }
  unfold release_on_error, open_locked. run Hopen. cbn [fl_records].
  rewrite El, last_snoc, bool_decide_true, <- El, take_ge by done.
  assert (Hreq : ∃ reason, require_valid_log l rules = inl (LogError.InvalidExistingLog reason)).
  { unfold require_valid_log, accepted in *. rewrite Hrej. by eexists. }
  destruct Hreq as [reason Hreq]. eexists _, reason.
  erewrite eff_bind_err by (unfold lift_res; rewrite Hreq; reflexivity). done.
Qed.

(** The file holds a valid log, a subject without its verdict, and possibly a
    torn frame: recovery appends the verdict. *)
Lemma open_locked_tail l r v b fr fv t max d s s' rh time :
  budget d = None → records_log d = (b ++ fr) ++ t → frames l = Some b →
  record_frame r = Some fr → record_frame v = Some fv → parses (l ++ [r]) → torn t →
  (N.of_nat (length (b ++ fr ++ fv)) <= max <= u64_max)%N →
  (N.of_nat (length ((b ++ fr) ++ t)) <= max)%N →
  Replays rules l s → rec_kind r ≠ Kind.Verdict → checked_add_u64 (rec_time r) 1 = Some time →
  materialize_verdict r time (verify_record r l rules s) = Some v →
  Replays rules (l ++ [r; v]) s' → sha256_canonical rules = Some rh →
  ∃ d', open_locked rules max d =
      (d', inr (mk_LogWriter (grow (mk_FileLog (l ++ [r]) (index_from 0 (l ++ [r]) ∅) max) v)
        (from_last_time (rec_time <$> last (l ++ [r; v]))) rh false)) ∧
    records_log d' = b ++ fr ++ fv ∧ budget d' = None.
Proof.
  intros Hd Hfile Hb Hfr Hfv Hp Ht Hmax Hmax' Hlog Hk Htime Hm Hlog' Hrh. unfold open_locked.
  assert (Hbr : frames (l ++ [r]) = Some (b ++ fr)) by (by apply frames_snoc).
  run (FileLog_open_ok (l ++ [r]) (b ++ fr) t max d Hd Hfile Hbr Hp Ht (conj Hmax' (proj2 Hmax))).
  cbn [fl_records]. set (d1 := set_records_log (b ++ fr) d).
  rewrite last_snoc, bool_decide_false, length_app by done. cbn [length].
  rewrite Nat.add_sub, take_app_length.
  pose proof (require_valid l s Hlog) as Hok. pose proof (require_valid (l ++ [r; v]) s' Hlog') as Hok'.
  erewrite (eff_bind_run _ _ d1 d1 tt) by (unfold lift_res; by rewrite Hok).
  set (log1 := mk_FileLog (l ++ [r]) _ max). unfold recover. cbn [fl_records log1].
  rewrite last_snoc, bool_decide_false, length_app by done. cbn [length].
  rewrite Nat.add_sub, take_app_length.
  assert (Hap : append log1 v d1 = (set_records_log ((b ++ fr) ++ fv) d1, inr (grow log1 v))).
  { apply (append_ok log1 v fv d1); [done | done |]. unfold d1, log1. simpl.
    rewrite !length_app in *. lia. }
  set (d2 := set_records_log ((b ++ fr) ++ fv) d1) in *.
  destruct (clear_file_ok d2) as (d3 & Hcl & Hl3 & Hd3); [done|].
  erewrite (eff_bind_run _ _ d1 d3 (grow log1 v)).
  2: { erewrite (eff_bind_run _ _ d1 d2 (grow log1 v)).
       - cbv beta. erewrite (eff_bind_run _ _ d2 d3) by exact Hcl. done.
       - erewrite (eff_bind_run _ _ d1 d1 s) by (unfold lift_opt; by rewrite (build_replays rules l s Hlog)).
         cbv beta zeta.
         erewrite (eff_bind_run _ _ d1 d1 time) by (unfold lift_opt; by rewrite Htime).
         cbv beta. erewrite (eff_bind_run _ _ d1 d1 v) by (unfold lift_opt; by rewrite Hm).
         exact Hap. }
  cbv beta. cbn [fl_records grow log1].
  replace ((l ++ [r]) ++ [v]) with (l ++ [r; v]) by (by rewrite <- app_assoc).
  erewrite (eff_bind_run _ _ d3 d3 tt) by (unfold lift_res; by rewrite Hok').
  erewrite (eff_bind_run _ _ d3 d3 rh) by (unfold lift_opt; by rewrite Hrh).
  exists d3. split_and!; [|rewrite Hl3; unfold d2; simpl; by rewrite <- app_assoc|done].
  unfold fl_last_time, grow. cbn [fl_records log1]. by rewrite <- app_assoc.
Qed.

(** Opening takes the lock, which a crash releases. *)
Lemma open_with_lock max d d' w :
  budget d = None → lock_held d = false →
  open_locked rules max (set_lock_held true d) = (d', inr w) →
  open_with_max_bytes rules max d = (d', inr w).
Proof.
  intros Hd Hl Ho. unfold open_with_max_bytes.
  erewrite (eff_bind_run _ _ d d tt) by (by rewrite io_op_ok). cbv beta.
  erewrite (eff_bind_run _ _ d d tt) by (by rewrite io_op_ok). cbv beta.
  erewrite (eff_bind_run _ _ d d tt) by (by rewrite io_op_ok). cbv beta.
  erewrite (eff_bind_run _ _ d d false) by (unfold gets; by rewrite Hl). cbv beta iota.
  erewrite (eff_bind_run _ _ d (set_lock_held true d) tt) by done. cbv beta.
  unfold release_on_error. by rewrite Ho.
Qed.
End crash.
