(* ===== verification/WriterExamples.v ===== *)
(** * A writer at work on a concrete disk

    An empty log is opened and a request committed, with the stand-ins of
    Examples.v and a record parser that recognises the records written. *)

From S2P Require Export RecoveryFacts.

Module Written.
#[export] Instance serde : Serde := Approved.serde.

Definition blank : Disk := mk_Disk [] None None false None.
Definition request : Proposal :=
  Eval vm_compute in mk_proposal space0 thread0 human Kind.Request (schema_id SCHEMA_REQUEST)
    (default [] (encode request0)) [].

(** The writer of the empty log. *)
Definition opened `{RecordParser} (d : Disk) : option Machine :=
  match open rules0 d with
  | (d, inr w) => Some (mk_Machine w empty_state d)
  | _ => None
  end.
Definition start : Machine := Eval vm_compute in
  default (mk_Machine (mk_LogWriter (mk_FileLog [] ∅ 0) (from_last_time None) zero_hash false)
    empty_state blank) (opened (H := λ _, None) blank).

(** The first pair of the log, and the pair of the same request in a foreign
    space. *)
Definition pair : list record := Eval vm_compute in
  default [] (take 2 <$> Some Approved.log).
Definition foreign : Proposal := Eval vm_compute in
  mk_proposal scope0 thread0 human Kind.Request (schema_id SCHEMA_REQUEST)
    (default [] (encode request0)) [].
Definition foreign_pair : list record := Eval vm_compute in
  match materialize foreign rules0 None start with inr (r, v, _) => [r; v] | _ => [] end.
#[export] Instance parser : RecordParser := parse_one_of (pair ++ foreign_pair).

Example opens : opened blank = Some start.
Proof. vm_compute. reflexivity. Qed.
Example commits : match commit request rules0 start with
  | (c, inr _) => bool_decide (records_of c = pair)
  | _ => false
  end = true.
Proof. by_vm. Qed.

Lemma start_ready : Ready rules0 start.
Proof.
  split; [constructor | vm_compute; reflexivity.. | by vm_compute |].
  intros r Hr. by apply elem_of_nil in Hr.
Qed.

(** The same writer on a disk that fails after [n] operations and bytes. *)
Definition failing (n : nat) : Machine :=
  mk_Machine (mc_writer start) (mc_state start) (set_budget (Some n) (mc_disk start)).

Lemma failing_ready n : Ready rules0 (failing n).
Proof. destruct start_ready. by split. Qed.

Lemma reads_verdicts : verdicts_roundtrip.
Proof.
  intros [[]|] b Hb; vm_compute in Hb; injection Hb as <-; vm_compute; reflexivity.
Qed.

Lemma reads_pairs : parses (pair ++ foreign_pair).
Proof.
  intros r b. unfold pair, foreign_pair. cbn [app]. rewrite !elem_of_cons, elem_of_nil.
  intros [->|[->|[->|[->|[]]]]] Hb; vm_compute in Hb; injection Hb as <-; vm_compute; reflexivity.
Qed.
Lemma reads_pair : parses pair.
Proof. apply (parses_app pair foreign_pair), reads_pairs. Qed.

Lemma reads_foreign_pair : parses foreign_pair.
Proof. apply (parses_app pair foreign_pair), reads_pairs. Qed.

Lemma request_blind c r v vd :
  c = start ∨ (∃ n, c = failing n) → materialize request rules0 None c = inr (r, v, vd) →
  self_blind rules0 (records_of c) (mc_state c) r ∧ parses [r; v].
Proof.
  intros [->|[n ->]] Hm; vm_compute in Hm; injection Hm as <- <- <-;
    (split; [vm_compute; reflexivity | exact reads_pair]).
Qed.
End Written.
