(* ===== verification/WriterTheorems.v ===== *)
(** * Properties of the writer and its storage

    A commit appends exactly the pair the verifier will accept, or changes
    nothing; a failure at any point is repaired on reopening; a retried batch is
    recognised; and the proposals no commit should have taken. *)

From S2P Require Export WriterExamples.

#[local] Existing Instance Written.serde.
#[local] Existing Instance Written.parser.

(** The disk after a crash, or as the next process finds it: the files, no
    lock, and no failure to come. *)
Definition restart (d : Disk) : Disk :=
  mk_Disk (records_log d) (intent_file d) (intent_tmp d) false None.

(** What a host may commit: a subject record of the writer's own space, with
    an author made of Rust strings. *)
Definition committable (rules : VerifierRules) (p : Proposal) : Prop :=
  prop_kind p ≠ Kind.Verdict ∧ prop_space p = rules_space rules ∧
  author_wf (prop_author p) = true.

Section support.
Context `{Primitives, Serde, HashOrder, RecordParser} (rules : VerifierRules).
Context (Hmap : kind_schema_map rules = frozen_kind_schema_map) (Hrt : verdicts_roundtrip).

(** The materialised pair is the next valid pair. *)
Lemma materialized_valid p signer c r v vd :
  Ready rules c → exhausted (lw_time_source (mc_writer c)) = false → committable rules p →
  materialize p rules signer c = inr (r, v, vd) →
  self_blind rules (records_of c) (mc_state c) r →
  (∃ s' t, apply_record r vd (mc_state c) = (s', inr tt) ∧
    Replays rules (records_of c ++ [r; v]) (set_applied_up_to (rec_time v) s') ∧
    rec_time v = (N.of_nat (length (records_of c)) + 2)%N ∧
    author_wf (rec_author r) = true ∧ author_wf (rec_author v) = true ∧
    vd = due_verdict rules (records_of c) (mc_state c) r ∧
    checked_add_u64 (rec_time r) 1 = Some t ∧
    materialize_verdict r t (verify_record r (records_of c) rules (mc_state c)) = Some v) ∨
  sha256_collision.
Proof.
  intros Hc He (Hk & Hs & Ha) Hm Hblind.
  destruct (materialize_ok rules p signer c r v vd Hm)
    as (t & Ht & Ek & Es & _ & Et & _ & _ & _ & _ & Hwf & Hid & -> & Hv).
  destruct (ready_clock rules c Hc He) as [Hpeek Hlt]. rewrite Hpeek in *.
  apply checked_add_u64_Some in Ht as Ht'. destruct Ht' as [-> Hle].
  destruct (verified_applies rules Hmap r (records_of c) (mc_state c) (mc_state c)) as [[s' Hap]|];
    [congruence| |by right].
  pose proof (materialize_verdict_on rules r _ _ v Hv) as Hon.
  destruct Hon as [Htv Hon]; [congruence|by eexists|done|].
  destruct (pair_extends rules (records_of c) (mc_state c) r v
    (N.of_nat (length (records_of c)) + 1 + 1)%N s') as [Hlog|]; try done; try congruence;
    [apply (rd_log rules c Hc) | apply (rd_authors rules c Hc) | by apply Hwf | lia | | by right].
  left. exists s', (N.of_nat (length (records_of c)) + 1 + 1)%N. rewrite Htv. split_and!; try done.
  - lia.
  - by apply Hwf.
  - unfold materialize_verdict in Hv. destruct (encode _); [|done]. simpl in Hv.
    by apply with_computed_id_ok in Hv as (id & -> & _).
  - by rewrite due_is_verified.
  - by rewrite Et.
Qed.
End support.

(** The two outcomes of a commit. *)
Lemma commit_exact `{Primitives, Serde, HashOrder, RecordParser} rules p signer c :
  Ready rules c → budget (mc_disk c) = None → committable rules p →
  kind_schema_map rules = frozen_kind_schema_map → verdicts_roundtrip →
  (∀ r v vd, materialize p rules signer c = inr (r, v, vd) →
     self_blind rules (records_of c) (mc_state c) r) →
  (∃ e, commit_inner p rules signer c = (c, inl e)) ∨
  (∃ c' r v vd, commit_inner p rules signer c = (c', inr (rec_id r, vd)) ∧
     materialize p rules signer c = inr (r, v, vd) ∧
     records_of c' = records_of c ++ [r; v] ∧
     vd = due_verdict rules (records_of c) (mc_state c) r ∧
     Ready rules c' ∧ budget (mc_disk c') = None) ∨
  sha256_collision.
Proof.
  intros Hc Hd Hp Hmap Hrt Hblind.
  destruct (exhausted (lw_time_source (mc_writer c))) eqn:He.
  { left. exists LogError.TimeExhausted. unfold commit_inner. run (get_run c).
    run (lift_res_run c (ready_ensured rules c Hc)). by rewrite He. }
  destruct (materialize p rules signer c) as [e|[[r v] vd]] eqn:Hm.
  { left. exists e. unfold commit_inner. run (get_run c).
    run (lift_res_run c (ready_ensured rules c Hc)). rewrite He. apply eff_bind_err.
    unfold lift_res. by rewrite Hm. }
  destruct (materialized_valid rules Hmap Hrt p signer c r v vd Hc He Hp Hm (Hblind r v vd eq_refl))
    as [(s' & t & Hap & Hlog & Htv & Hr & Hv & Hdue & _)|]; [|by right; right].
  assert (Hwf : authors_wf (records_of c ++ [r; v])).
  { intros x [Hx|[->|[->|Hx%elem_of_nil]%elem_of_cons]%elem_of_cons]%elem_of_app;
      [by apply (rd_authors rules c Hc) | done..]. }
  destruct (replays_ids_unique rules _ _ Hlog Hwf) as [Hnd|]; [|by right; right].
  destruct (commit_runs rules p signer c r v vd s' Hc Hd He Hm Hnd Hap)
    as [[e Hrun]|(c' & Hrun & Hcm)]; [left; by exists e|]. right. left.
  exists c', r, v, vd. split_and!; try done.
  - unfold records_of. rewrite (cm_log _ _ _ _ _ Hcm). unfold grow. simpl. by rewrite <- app_assoc.
  - by eapply committed_ready.
  - apply (cm_budget _ _ _ _ _ Hcm).
Qed.



(** ** Reopening after a failure *)

(** The next process opens the log of [d], consistent and ready to write, and
    finds these records. *)
Definition reopens `{Primitives, Serde, HashOrder, RecordParser} (rules : VerifierRules)
    (max : N) (d : Disk) (records : list record) : Prop :=
  ∃ d' w s, open_with_max_bytes rules max (restart d) = (d', inr w) ∧
    Ready rules (mk_Machine w s d') ∧ fl_records (lw_log w) = records.

Section reopen.
Context `{Primitives, Serde, HashOrder, RecordParser} (rules : VerifierRules).
Context (max : N) (rh : Hash256) (Hrh : sha256_canonical rules = Some rh) (Hmax : (max <= u64_max)%N).

(** The complete frames of a valid log, and a torn one. *)
Lemma reopen_whole l b t d s :
  records_log d = b ++ t → torn t → frames l = Some b → parses l → authors_wf l →
  (N.of_nat (length (b ++ t)) <= max)%N → Replays rules l s → reopens rules max d l.
Proof.
  intros Hfile Ht Hb Hp Hwf Hsize Hlog.
  destruct (open_locked_whole rules l b t max (set_lock_held true (restart d)) s rh)
    as (d' & Ho & Hfile' & Hd'); [done..|].
  eexists d', _, s. split; [by apply open_with_lock|]. split; [|done].
  split; try done; simpl; rewrite ?Hfile'; try done.
  rewrite length_app in Hsize. lia.
Qed.

(** A valid log and a lone subject: recovery completes the pair. *)
Lemma reopen_tail l r v b fr fv t d s s' time :
  records_log d = (b ++ fr) ++ t → torn t → frames l = Some b →
  record_frame r = Some fr → record_frame v = Some fv → parses (l ++ [r]) →
  authors_wf (l ++ [r; v]) →
  (N.of_nat (length (b ++ fr ++ fv)) <= max)%N → (N.of_nat (length ((b ++ fr) ++ t)) <= max)%N →
  Replays rules l s → rec_kind r ≠ Kind.Verdict → checked_add_u64 (rec_time r) 1 = Some time →
  materialize_verdict r time (verify_record r l rules s) = Some v →
  Replays rules (l ++ [r; v]) s' → reopens rules max d (l ++ [r; v]).
Proof.
  intros Hfile Ht Hb Hfr Hfv Hp Hwf Hsize Hsize' Hlog Hk Htime Hm Hlog'.
  destruct (open_locked_tail rules l r v b fr fv t max (set_lock_held true (restart d)) s s' rh time)
    as (d' & Ho & Hfile' & Hd'); [done..|].
  eexists d', _, s'. split; [by apply open_with_lock|].
  assert (Hrec : (l ++ [r]) ++ [v] = l ++ [r; v]) by (by rewrite <- app_assoc).
  split; [|exact Hrec]. unfold grow.
  split; cbn [mc_writer mc_state mc_disk lw_log fl_records fl_index fl_max_file_bytes
    lw_time_source lw_rules_hash lw_recovery_required records_of]; unfold records_of;
    cbn [mc_writer lw_log fl_records]; rewrite ?Hrec, ?Hfile'; try done.
  - apply frames_app. exists b, (fr ++ fv). split_and!; [done| |done].
    apply frames_cons. exists fr, fv. split_and!; [done| |done].
    apply frames_cons. exists fv, []. by rewrite app_nil_r.
  - by rewrite <- Hrec, (index_from_app 0 (l ++ [r])).
Qed.
End reopen.



(** ** Every subject can be decided *)

(** The verdict on a subject always has a canonical form. *)
Lemma verdict_materializes `{Primitives} r t reason :
  (t <= MAX_SAFE_INTEGER)%N → is_Some (materialize_verdict r t (verdict_of reason)).
Proof.
  intros Ht. unfold materialize_verdict.
  assert (Hd : is_Some (encode (verdict_of reason))).
  { apply write_jcs_total. destruct reason as [[]|]; vm_compute; exact I. }
  destruct Hd as [data Hd]. rewrite Hd. cbn [mbind option_bind]. unfold with_computed_id.
  assert (Hid : is_Some (compute_id (mk_record zero_hash (rec_space r) (rec_thread r) t
    (mk_author "verifier" AuthorType.Verifier None) Kind.Verdict (schema_id SCHEMA_VERDICT)
    data [mk_ref RefType.Cause (rec_id r)] Evidence.Deterministic))).
  { unfold compute_id, sha256_canonical, canonical_id_form, canonical_json.
    apply fmap_is_Some, write_jcs_total. unfold to_value at 1, ser_value, id, CanonicalIdForm.
    cbn [rec_space rec_thread rec_time rec_author rec_kind rec_schema rec_data rec_refs rec_evidence].
    writable_object; try apply writable_hash; try apply writable_bytes; try done.
    - by apply Is_true_true, N.leb_le.
    - apply writable_list. intros x. unfold to_value, ser_Ref.
      writable_object; try apply writable_hash; done. }
  destruct Hid as [id ->]. by eexists.
Qed.



(** ** Commits that no log survives *)


