(* ===== verification/BatchTheorems.v ===== *)
(** * Properties of batches

    A retried batch is recognised in the log and not committed twice, and the
    order in which a batch is handed over does not matter. *)

From S2P Require Export WriterExamples.

#[local] Existing Instance Written.serde.
#[local] Existing Instance Written.parser.

(** ** What a batch adds to the log *)

(** The records of committed pairs, and what their commits returned. *)
Definition pair_records (l : list (record * record * VerdictData)) : list record :=
  concat ((λ x, [x.1.1; x.1.2]) <$> l).
Definition pair_results (l : list (record * record * VerdictData)) : list (RecordId * VerdictData) :=
  (λ x, (rec_id x.1.1, x.2)) <$> l.

Section batch.
Context `{Primitives, Serde, HashOrder, RecordParser} (rules : VerifierRules).
Context (Hrt : verdicts_roundtrip).

(** [x] is a pair committed for [p]. *)
Definition lands (p : Proposal) (x : record * record * VerdictData) : Prop :=
  proposal_matches_record p x.1.1 = true ∧ decode (rec_data x.1.2) = Some x.2.

Lemma commit_lands p c c' a :
  commit p rules c = (c', inr a) →
  ∃ x, lands p x ∧ records_of c' = records_of c ++ [x.1.1; x.1.2] ∧ a = (rec_id x.1.1, x.2).
Proof.
  intros Hrun. destruct (commit_records rules p None c c' a Hrun)
    as (r & v & vd & _ & _ & Hm & -> & Hrec). exists (r, v, vd). split_and!; try done.
  destruct (materialize_ok rules p None c r v vd Hm)
    as (t & _ & Ek & Es & Et & _ & Esch & Ed & Er & Ea & _ & _ & Evd & Hv).
  specialize (Ea eq_refl). split.
  - unfold proposal_matches_record. simpl. rewrite Ek, Es, Et, Esch, Ed, Er, Ea.
    by rewrite !bool_decide_true.
  - simpl. unfold materialize_verdict in Hv. destruct (encode vd) as [b|] eqn:Eb; [|done].
    simpl in Hv. apply with_computed_id_ok in Hv as (id & -> & _). simpl. rewrite Evd in *. by apply Hrt.
Qed.

Lemma commit_all_lands ps res c c' res' :
  commit_all ps rules res c = (c', inr res') →
  ∃ l, Forall2 lands ps l ∧ records_of c' = records_of c ++ pair_records l ∧
    res' = res ++ pair_results l.
Proof.
  revert res c. induction ps as [|p ps IH]; intros res c; cbn [commit_all].
  - intros [= <- <-]. exists []. unfold pair_records, pair_results. simpl. rewrite !app_nil_r.
    split_and!; [constructor | done | done].
  - intros (c1 & a & Hp & Hps)%eff_bind_ok. apply commit_lands in Hp as (x & Hx & Hrec & ->).
    apply IH in Hps as (l & Hl & Hrec' & ->). exists (x :: l). split_and!; [by constructor | |].
    + rewrite Hrec', Hrec, <- app_assoc. done.
    + by rewrite <- app_assoc.
Qed.

(** ** Matching the landed proposals *)

(** Pairs at the end of the log are matched to the last of them. *)
Lemma match_new ps l records landed results :
  Forall2 lands ps l →
  match_landed ps (records ++ pair_records l) landed (length records) results =
  inr (landed + length ps, length (records ++ pair_records l), results ++ pair_results l, []).
Proof.
  intros Hl. revert records landed results.
  induction Hl as [|p [[r v] vd] ps l [Hr Hv] Hl IH]; intros records landed results; cbn [match_landed].
  - unfold pair_records, pair_results. simpl. by rewrite !app_nil_r, Nat.add_0_r.
  - simpl in Hr, Hv. change (pair_records ((r, v, vd) :: l)) with ([r; v] ++ pair_records l).
    rewrite app_assoc. rewrite (lookup_app_l (records ++ [r; v])) by (rewrite length_app; simpl; lia).
    rewrite (lookup_app_l (records ++ [r; v]) _ (length records + 1)) by (rewrite length_app; simpl; lia).
    rewrite !lookup_app_r by lia. replace (length records + 1 - length records) with 1 by lia.
    rewrite Nat.sub_diag. cbn [lookup list_lookup]. rewrite Hr. cbn [negb]. rewrite Hv.
    cbn [ok_or mbind result_bind]. specialize (IH (records ++ [r; v]) (S landed) (results ++ [(rec_id r, vd)])).
    rewrite length_app in IH. cbn [length] in IH. rewrite IH. cbn [length].
    rewrite <- app_assoc. unfold pair_results. rewrite fmap_cons. cbn [fst snd app].
    by rewrite Nat.add_succ_r, <- app_assoc.
Qed.

(** Matching in a grown log goes on where it stopped before. *)
Lemma match_landed_grows ps l records landed pos results landed' pos' results' rest :
  match_landed ps records landed pos results = inr (landed', pos', results', rest) →
  Forall2 lands rest l → rest = [] ∨ pos' = length records →
  match_landed ps (records ++ pair_records l) landed pos results =
  inr (landed + length ps, pos' + length (pair_records l), results' ++ pair_results l, []).
Proof.
  revert landed pos results. induction ps as [|p ps IH]; intros landed pos results; cbn [match_landed].
  - intros [= <- <- <- <-] Hl%Forall2_nil_inv_l _. subst l. unfold pair_records, pair_results. simpl.
    by rewrite !app_nil_r, !Nat.add_0_r.
  - destruct (records !! pos) as [subject|] eqn:Ep; cycle 1.
    { intros [= <- <- <- <-] Hl [?|Hpos]; [done|]. rewrite Hpos. 
      pose proof (match_new (p :: ps) l records landed results Hl) as Hn. cbn [match_landed] in Hn.
      rewrite Hn, length_app. done. }
    rewrite (lookup_app_l_Some _ _ _ _ Ep). destruct (proposal_matches_record p subject) eqn:Em; cycle 1.
    { cbn [negb]. intros [= <- <- <- <-] Hl [?|Hpos]; [done|].
      apply lookup_lt_Some in Ep. lia. }
    cbn [negb]. destruct (records !! (pos + 1)) as [verdict|] eqn:Ev; [|done].
    rewrite (lookup_app_l_Some _ _ _ _ Ev).
    destruct (decode (rec_data verdict)) as [vd|]; [|done]. cbn [ok_or mbind result_bind].
    intros Hm Hl Hend. rewrite (IH _ _ _ Hm Hl).
    + cbn [length]. by rewrite Nat.add_succ_r.
    + done.
Qed.
End batch.



(** ** The batch order *)

#[local] Instance Proposal_eq_dec : EqDecision Proposal.
Proof. solve_decision. Defined.

#[local] Instance norm_inj_Author : NormInj Author.
Proof.
  intros [i1 t1 s1] [i2 t2 s2] E. unfold to_value, ser_Author in E.
  cbn [author_id author_type author_signature] in E.
  member E "id" Ei. member E "type" Et. member E "signature" Es. apply norm_inj in Ei, Et. subst.
  f_equal. destruct s1, s2; try done. f_equal. by apply norm_inj.
Qed.

Lemma norm_proposal_inj (p q : Proposal) : jcs_norm (to_value p) = jcs_norm (to_value q) → p = q.
Proof.
  unfold to_value, ser_Proposal. intros E.
  member E "space" E1. member E "thread" E2. member E "author" E3. member E "kind" E4.
  member E "schema" E5. member E "data" E6. member E "refs" E7.
  apply norm_inj in E1, E2, E3, E4, E5, E6, E7. destruct p, q. simpl in *. by subst.
Qed.

Lemma plain_proposal (p : Proposal) : author_wf (prop_author p) → plain_value (to_value p).
Proof.
  intros Ha. unfold to_value, ser_Proposal. plain_object; try apply plain_bytes; try exact I.
  - destruct (prop_author p) as [i t s]. unfold author_wf in Ha. simpl in Ha.
    apply andb_True in Ha as [Hi Hs]. unfold to_value, ser_Author.
    cbn [author_id author_type author_signature]. plain_object; [exact Hi | by destruct t |].
    destruct s as [s|]; [|done]. unfold to_value, ser_option, ser_Signature.
    unfold to_value at 1, ser_Signature. plain_object; [exact Hs | apply plain_bytes].
  - by destruct (prop_kind p).
  - apply plain_list. intros [t x] _. unfold to_value, ser_Ref. plain_object.
    + by destruct t.
    + apply plain_bytes.
Qed.

Lemma writable_proposal (p : Proposal) : writable (to_value p).
Proof.
  unfold to_value, ser_Proposal. writable_object; try apply writable_hash; try done.
  - unfold to_value, ser_Author. writable_object; try done.
    apply writable_option. intros s. unfold to_value, ser_Signature.
    writable_object; try apply writable_bytes; done.
  - apply writable_bytes.
  - apply writable_list. intros x. unfold to_value, ser_Ref.
    writable_object; try apply writable_hash; done.
Qed.

Section order.
Context `{Primitives}.

(** The sort key identifies the proposal. *)
Lemma batch_key_binds p q :
  author_wf (prop_author p) → author_wf (prop_author q) → batch_key p = batch_key q →
  p = q ∨ sha256_collision.
Proof.
  intros Wp Wq. unfold batch_key.
  assert (Hkey : ∀ p : Proposal, is_Some (sha256_canonical p)).
  { intros x. unfold sha256_canonical, canonical_json. apply fmap_is_Some, write_jcs_total, writable_proposal. }
  destruct (Hkey p) as [a Ea], (Hkey q) as [b Eb]. rewrite Ea, Eb. simpl. intros ->.
  destruct (sha256_canonical_binds p q b) as [E|]; [by apply plain_proposal..|done|done| |by right].
  left. by apply norm_proposal_inj.
Qed.

Lemma keys_distinguish (ps : list Proposal) :
  (∀ p, p ∈ ps → author_wf (prop_author p)) →
  (∀ p q, p ∈ ps → q ∈ ps → batch_key p = batch_key q → p = q) ∨ sha256_collision.
Proof.
  intros Hwf. destruct (decide (Forall (λ p, Forall (λ q, batch_key p = batch_key q → p = q) ps) ps))
    as [Hall|Hnot].
  - left. intros p q Hp Hq. rewrite Forall_forall in Hall. specialize (Hall p Hp).
    rewrite Forall_forall in Hall. by apply Hall.
  - right. apply not_Forall_Exists, Exists_exists in Hnot as (p & Hp & Hnot); [|apply _].
    apply not_Forall_Exists, Exists_exists in Hnot as (q & Hq & Hnot); [|apply _].
    destruct (decide (batch_key p = batch_key q)) as [E|E]; [|by destruct Hnot].
    destruct (batch_key_binds p q) as [->|]; auto. by destruct Hnot.
Qed.

Lemma sort_batch_unique (ps qs : list Proposal) :
  ps ≡ₚ qs → (∀ p q, p ∈ ps → q ∈ ps → batch_key p = batch_key q → p = q) →
  sort_batch ps = sort_batch qs.
Proof.
  intros Hp Hinj. set (c := λ a b, cmp (batch_key a) (batch_key b)).
  assert (Hsorted : ∀ l, StronglySorted (le_by c) (sort_batch l)).
  { intros l. apply sort_by_sorted; unfold le_by, c.
    - intros x y E. apply cmp_gt_lt in E. congruence.
    - intros x y z. rewrite <- !leb_not_gt. apply leb_trans. }
  apply (StronglySorted_unique_strong (le_by c)); [|done..|].
  - unfold sort_batch, le_by, c. intros x y Hx%elem_of_sort_by Hy%elem_of_sort_by. rewrite <- Hp in Hy.
    rewrite <- !leb_not_gt. intros H1 H2. apply Hinj; [done..|]. by apply leb_antisym.
  - unfold sort_batch. by rewrite !sort_by_perm.
Qed.
End order.


