(* ===== verification/StorageTheorems.v ===== *)
(** * Properties of the file-backed log

    An append survives a failure at any point, and scans return exactly the
    records of a range of times. *)

From S2P Require Export WriterExamples.

#[local] Existing Instance Written.serde.
#[local] Existing Instance Written.parser.

(** The disk as the next process finds it. *)
Definition reboot (d : Disk) : Disk := set_lock_held false (set_budget None d).

(** C34: an append is atomic across crashes: whatever the moment at which the
    disk fails, opening the file again yields exactly the records there were,
    or those and the new one; a successful append is never lost; a torn frame
    is cut off; and every record of the reopened log is found by its id. *)
Theorem append_survives_crash `{Primitives, RecordParser} log r d d' res :
  frames (fl_records log) = Some (records_log d) → parses (fl_records log ++ [r]) →
  (N.of_nat (length (records_log d)) <= fl_max_file_bytes log <= u64_max)%N →
  append log r d = (d', res) →
  ∃ d'' log', FileLog_open (fl_max_file_bytes log) (reboot d') = (d'', inr log') ∧
    frames (fl_records log') = Some (records_log d'') ∧
    (fl_records log' = fl_records log ∧ (∃ e, res = inl e) ∨
     fl_records log' = fl_records log ++ [r]) ∧
    (NoDup (rec_id <$> fl_records log') →
     ∀ x, x ∈ fl_records log' → fl_get log' (rec_id x) = Some x).
Proof.
  intros Hb Hp Hmax Hrun.
  assert (Hopen : ∀ l b t, records_log d' = b ++ t → frames l = Some b → parses l → torn t →
    (N.of_nat (length (b ++ t)) <= fl_max_file_bytes log)%N →
    ∃ d'' log', FileLog_open (fl_max_file_bytes log) (reboot d') = (d'', inr log') ∧
      frames (fl_records log') = Some (records_log d'') ∧ fl_records log' = l ∧
      (NoDup (rec_id <$> fl_records log') →
       ∀ x, x ∈ fl_records log' → fl_get log' (rec_id x) = Some x)).
  { intros l b t Hf Hl Hpl Ht Hsz. eexists _, _. split; [apply (FileLog_open_ok l b t)|];
      [done | exact Hf | done | done | done | lia|]. cbn [fl_records]. split_and!; try done.
    intros Hnd x Hx. destruct (index_from_lookup l (rec_id x) x Hnd Hx eq_refl) as (i & Hi & Hxi).
    unfold fl_get. cbn [fl_index fl_records]. by rewrite Hi. }
  apply parses_app in Hp as Hpl. destruct Hpl as [Hpl _].
  destruct (append_file log r d d' res Hrun) as [[Hf [e ->]]|(f & n & Hfr & Hsz & Hf & Hok)].
  { destruct (Hopen (fl_records log) (records_log d) []) as (d'' & log' & ? & ? & ? & ?);
      rewrite ?app_nil_r; try done; [apply torn_nil | lia|]. exists d'', log'. eauto 10. }
  destruct (decide (length f ≤ n ∨ is_ok res = true)) as [Hn|Hn].
  - destruct (Hopen (fl_records log ++ [r]) (records_log d ++ f) [])
      as (d'' & log' & ? & ? & ? & ?); rewrite ?app_nil_r; try done.
    + destruct Hn as [Hn|Hn]; [|destruct res as [|log']; [done | by apply (Hok log')]].
      by rewrite Hf, take_ge.
    + by apply frames_snoc.
    + apply torn_nil.
    + rewrite length_app. lia.
    + exists d'', log'. eauto 10.
  - apply Decidable.not_or in Hn as [Hn Hres]. destruct res as [e|]; [|done].
    destruct (Hopen (fl_records log) (records_log d) (take n f)) as (d'' & log' & ? & ? & ? & ?);
      try done.
    + eapply torn_prefix; [done | lia].
    + rewrite length_app, length_take. lia.
    + exists d'', log'. eauto 10.
Qed.

(** The first frame of the log, torn. *)
Lemma append_survives_crash_witness :
  let log := mk_FileLog [] ∅ 100000 in
  let d := set_budget (Some 100) Written.blank in
  ∃ d', append log Approved.r1 d = (d', inl LogError.Io) ∧
  ∃ d'' log', FileLog_open 100000 (reboot d') = (d'', inr log') ∧
    frames (fl_records log') = Some (records_log d'').
Proof.
  intros log d. eexists. split; [vm_compute; reflexivity|].
  edestruct (append_survives_crash log Approved.r1 d) as (d'' & log' & Ho & Hf & _).
  - reflexivity.
  - apply (parses_app [Approved.r1] (tail Written.pair)), Written.reads_pair.
  - split; discriminate.
  - vm_compute. reflexivity.
  - exists d'', log'. split; [exact Ho | exact Hf].
Defined.

(** ** Scans *)

(** The times of a valid log rise by one from 1. *)
Lemma partition_times l p n :
  times_from 0 l → (∀ t, (1 <= t)%N → p t = true ↔ (t <= n)%N) →
  partition_point (λ r, p (rec_time r)) l = Nat.min (length l) (N.to_nat n).
Proof.
  intros Ht Hpn. unfold partition_point.
  destruct (list_find _ l) as [[i r]|] eqn:E.
  - apply list_find_Some in E as (Hi & Hr & Hmin). destruct (Ht i r Hi) as [T _].
    apply lookup_lt_Some in Hi as Hlt.
    assert (Hgt : (n < rec_time r)%N).
    { apply N.nle_gt. rewrite <- Hpn by lia. by rewrite Hr. }
    destruct i as [|i]; [lia|]. destruct (lookup_lt_is_Some_2 l i ltac:(lia)) as [y Hy].
    destruct (Ht i y Hy) as [Ty _]. specialize (Hmin i y Hy ltac:(lia)).
    apply not_false_iff_true, Hpn in Hmin; lia.
  - apply list_find_None in E. rewrite Forall_forall in E.
    destruct (last l) as [x|] eqn:El; [|apply last_None in El as ->; done].
    rewrite last_lookup in El. destruct (Ht _ _ El) as [T _].
    apply list_elem_of_lookup_2 in El as Hx. specialize (E x Hx).
    apply not_false_iff_true, Hpn in E; apply lookup_lt_Some in El; lia.
Qed.

(** The records of a time range are a slice. *)
Definition within (from to : Time) (r : record) : Prop := (from <= rec_time r <= to)%N.
#[local] Instance within_dec from to r : Decision (within from to r).
Proof. unfold within. apply _. Defined.

Lemma filter_times l n from to :
  times_from n l →
  filter (within from to) l =
  let s := Nat.min (length l) (N.to_nat (from - 1) - n) in
  let e := Nat.min (length l) (N.to_nat to - n) in
  take (e - s) (drop s l).
Proof.
  revert n. induction l as [|r l IH]; intros n Ht; [cbv zeta; by rewrite drop_nil, take_nil|].
  destruct (Ht 0 r eq_refl) as [T _]. rewrite Nat.add_0_r in T.
  assert (Ht' : times_from (S n) l).
  { intros i x Hx. specialize (Ht (S i) x Hx). by rewrite Nat.add_succ_r in Ht. }
  specialize (IH (S n) Ht'). cbv zeta in *. rewrite filter_cons, IH. clear IH. cbn [length].
  case_decide as Hr; unfold within in Hr; rewrite T in Hr.
  - replace (N.to_nat (from - 1) - n) with 0 by lia.
    replace (N.to_nat (from - 1) - S n) with 0 by lia. rewrite !Nat.min_0_r, !drop_0, !Nat.sub_0_r.
    replace (N.to_nat to - n) with (S (N.to_nat to - S n)) by lia. done.
  - destruct (decide (N.of_nat n + 1 < from)%N) as [Hlt|Hge].
    + replace (N.to_nat (from - 1) - n) with (S (N.to_nat (from - 1) - S n)) by lia.
      cbn [Nat.min drop]. destruct (N.to_nat to - n) as [|k] eqn:Ek.
      * replace (N.to_nat to - S n) with 0 by lia. by rewrite !Nat.min_0_r.
      * replace (N.to_nat to - S n) with k by lia. done.
    + replace (N.to_nat to - S n) with 0 by lia. replace (N.to_nat to - n) with 0 by lia.
      by rewrite !Nat.min_0_r.
Qed.

(** C35: on a valid log, a scan returns exactly the records whose time is in
    the inclusive range, in order -- except that a range reversed by more than
    one, whose end lies inside the log, has no result: the slice panics. *)
Theorem scan_is_exact `{Primitives, Serde, HashOrder} rules log from to :
  accepted (verify_log (fl_records log) rules None) = true →
  (∀ l, scan_records log from to = Some l → l = filter (within from to) (fl_records log)) ∧
  (scan_records log from to = None ↔
     (to + 1 < from)%N ∧ (to < N.of_nat (length (fl_records log)))%N).
Proof.
  intros (s & Hlog)%verify_log_sound. pose proof (replays_times rules _ s Hlog) as Ht.
  unfold scan_records.
  rewrite (partition_times _ (λ t, t <? from)%N (from - 1)), (partition_times _ (λ t, t <=? to)%N to);
    [| done | intros t _; apply N.leb_le | done | intros t Ht1; rewrite N.ltb_lt; lia ].
  rewrite (filter_times _ 0 from to Ht). cbv zeta. rewrite !Nat.sub_0_r.
  case_match eqn:E; [apply Nat.ltb_lt in E | apply Nat.ltb_ge in E]; (split; [by intros l [= <-]|]).
  - split; [intros _ | done]. lia.
  - split; [done | lia].
Qed.

Lemma scan_is_exact_witness :
  let log := mk_FileLog Approved.log ∅ 0 in
  (∀ l, scan_records log 3%N 6%N = Some l → l = filter (within 3%N 6%N) Approved.log) ∧
  (scan_records log 9%N 3%N = None ↔ (3 + 1 < 9)%N ∧ (3 < N.of_nat (length Approved.log))%N).
Proof.
  intros log. split.
  - apply (scan_is_exact rules0 log 3%N 6%N). by_vm.
  - apply (scan_is_exact rules0 log 9%N 3%N). by_vm.
Defined.
