(* ===== verification/Queries.v ===== *)
(** * Read-side queries

    Models src/src/queries.rs: the seven named queries over a verified log.
    The text of an error is not modelled. *)

From S2P Require Export Replay.

Module QueryError.
Inductive t :=
  | LogInvalid (reason : option ReasonCode.t)
  | NotFound (id : RecordId)
  | NotAccepted (id : RecordId)
  | KindMismatch (id : RecordId) (expected : string).
End QueryError.

(** ** Answers *)

Record Node := mk_Node {
  nd_id : string;
  nd_kind : string;
  nd_standing : string;
  nd_tainted : bool;
  nd_retracted : bool;
  nd_artifacts : list ArtifactRef;
  nd_requirements : list string;
}.

Record DescentStep := mk_DescentStep { ds_node : Node; ds_via : string }.
Record DescentReport := mk_DescentReport { dr_target : Node; dr_line : list DescentStep }.
Record DescendantsReport := mk_DescendantsReport {
  de_target : Node;
  de_descendants : list Node;
}.
Record SiblingsReport := mk_SiblingsReport { sb_target : Node; sb_siblings : list Node }.
Record FrontierEntry := mk_FrontierEntry { fe_node : Node; fe_reason : string }.
Record FrontierReport := mk_FrontierReport { fr_frontier : list FrontierEntry }.
Record StandingReport := mk_StandingReport { sr_node : Node; sr_restorations : list string }.
Record EvidenceEntry := mk_EvidenceEntry {
  ee_node : Node;
  ee_criterion : string;
  ee_outcome : string;
}.
Record SelectionEvidence := mk_SelectionEvidence {
  se_selection : Node;
  se_evidence : list EvidenceEntry;
}.
Record EvidenceReport := mk_EvidenceReport {
  er_target : Node;
  er_rests_on : list SelectionEvidence;
}.
Record SelectedEntry := mk_SelectedEntry {
  st_selection : Node;
  st_chosen : list Node;
  st_evidence : list EvidenceEntry;
}.
Record SelectedReport := mk_SelectedReport {
  sd_objective : string;
  sd_selections : list SelectedEntry;
}.

(** ** parse_hex *)

(** A digit of [u8::from_str_radix(_, 16)]. *)
Definition radix16 (b : byte) : option N :=
  let n := code b in
  if (48 <=? n)%N && (n <=? 57)%N then Some (n - 48)%N
  else if (97 <=? n)%N && (n <=? 102)%N then Some (n - 87)%N
  else if (65 <=? n)%N && (n <=? 70)%N then Some (n - 55)%N
  else None.

(** Two characters; a leading plus sign is allowed. *)
Definition byte_from_radix16 (a b : byte) : option byte :=
  lo ← radix16 b;
  hi ← (if code a =? 43 then Some 0 else radix16 a)%N;
  Byte.of_N (hi * 16 + lo)%N.

Fixpoint parse_hex_pairs (l : bytes) : bytes :=
  match l with
  | a :: b :: k => default x00 (byte_from_radix16 a b) :: parse_hex_pairs k
  | _ => []
  end.

(** [parse_hex]; the slice of a string shorter than 64 bytes would panic, of
    a longer one the rest is ignored. *)
Definition parse_hex (hex : string) : option RecordId :=
  let l := String.list_byte_of_string hex in
  if length l <? 64 then None else hash_of_bytes (parse_hex_pairs (take 64 l)).

(** ** The context of the queries *)

Record Queries := mk_Queries {
  q_records : list record;
  q_verdict : LogVerdict;
  q_state : State;
  q_by_id : gmap RecordId nat;
}.

(** The index: of two records with one id the later wins. *)
Fixpoint index_ids (pos : nat) (records : list record) (m : gmap RecordId nat)
    : gmap RecordId nat :=
  match records with
  | [] => m
  | r :: records => index_ids (S pos) records (<[rec_id r := pos]> m)
  end.

Section queries.
Context `{Primitives, Serde, HashOrder}.

(** [Queries::new]. *)
Definition new_queries (records : list record) (rules : VerifierRules) : QueryError.t + Queries :=
  let verdict := verify_log records rules None in
  if negb (lv_result verdict =? VerdictResult.Accept)
  then Err (QueryError.LogInvalid (lv_reason verdict)) else
  s ← ok_or (build_state_unchecked records) (QueryError.LogInvalid None);
  Ok (mk_Queries records verdict s (index_ids 0 records ∅)).

Section helpers.
Context (q : Queries).

(** [get]: an indexed position is within the records. *)
Definition q_get (id : RecordId) : QueryError.t + record :=
  idx ← ok_or (q_by_id q !! id) (QueryError.NotFound id);
  ok_or (q_records q !! idx) (QueryError.NotFound id).

Definition get_accepted (id : RecordId) : QueryError.t + record :=
  rec ← q_get id;
  if negb (id ∈? accepted_records (q_state q)) then Err (QueryError.NotAccepted id) else Ok rec.

Definition node_standing (rec : record) : string :=
  match rec_kind rec with
  | Kind.Candidate =>
      if rec_id rec ∈? compromised (lv_standing (q_verdict q)) then "compromised" else "sound"
  | Kind.Selection =>
      if rec_id rec ∈? unsound (lv_standing (q_verdict q)) then "unsound" else "sound"
  | _ => "n/a"
  end.

(** The artifacts and requirements a record binds. *)
Definition node_bindings (rec : record) : list ArtifactRef * list string :=
  match rec_kind rec with
  | Kind.Candidate =>
      (default [] ((decode (rec_data rec) : option CandidateData) ≫= cd_artifacts), [])
  | Kind.Result =>
      (default [] ((decode (rec_data rec) : option ResultData) ≫= rt_artifacts), [])
  | Kind.Evaluation =>
      match (decode (rec_data rec) : option EvaluationDataV2) with
      | Some e => (e2_evidence e, hex_encode <$> e2_requirements e)
      | None => ([], [])
      end
  | _ => ([], [])
  end.

Definition node (rec : record) : Node :=
  mk_Node (hex_encode (rec_id rec)) (Kind.name (rec_kind rec)) (node_standing rec)
    (rec_id rec ∈? lv_tainted_records (q_verdict q))
    (rec_id rec ∈? lv_retracted_records (q_verdict q))
    (node_bindings rec).1 (node_bindings rec).2.

Definition candidate_data (rec : record) : QueryError.t + CandidateData :=
  if negb (rec_kind rec =? Kind.Candidate)
  then Err (QueryError.KindMismatch (rec_id rec) "Candidate")
  else ok_or (decode (rec_data rec)) (QueryError.NotFound (rec_id rec)).

(** The targets of the [Cause] refs, ascending. *)
Definition sorted_causes (rec : record) : list RecordId :=
  sort_by cmp (ref_target <$> cause_refs rec).

Definition is_kind_candidate (id : RecordId) : bool :=
  match q_get id with Ok t => rec_kind t =? Kind.Candidate | Err _ => false end.

(** [back_edges]. *)
Definition back_edges (rec : record) (data : CandidateData) : list (RecordId * string) :=
  match cd_basis data with
  | CandidateBasis.Root => []
  | CandidateBasis.Continuation =>
      ((λ a, (a, "continuation-anchor")) <$> sorted_causes rec)
      ++ match cd_parent data with Some p => [(p, "parent")] | None => [] end
  | CandidateBasis.Derivation =>
      (λ c, (c, "derivation")) <$> filter (λ c, is_kind_candidate c = true) (sorted_causes rec)
  end.

(** [selection_evidence]. *)
Definition selection_evidence (rec : record) : list EvidenceEntry :=
  omap (λ rf,
    target ← ok (q_get (ref_target rf));
    if negb (rec_kind target =? Kind.Evaluation) then None else
    summary ← evaluation_summary (rec_schema target) (rec_data target);
    Some (mk_EvidenceEntry (node target) summary.1.2 summary.2))
    (filter (λ rf, is_type RefType.Use rf = true) (rec_refs rec)).

(** ** The named set *)

(** The breadth-first walk of q1; [fuel] bounds the ids taken from the
    queue. *)
Fixpoint descent_loop (fuel : nat) (queue : list (RecordId * string)) (seen : gset RecordId)
    (line : list DescentStep) : QueryError.t + list DescentStep :=
  match fuel with
  | O => Ok line
  | S fuel =>
      match queue with
      | [] => Ok line
      | (id, via) :: queue =>
          if id ∈? seen then descent_loop fuel queue seen line else
          let seen := {[id]} ∪ seen in
          anc ← q_get id;
          let line := line ++ [mk_DescentStep (node anc) via] in
          if rec_kind anc =? Kind.Candidate then
            ad ← candidate_data anc;
            descent_loop fuel (queue ++ back_edges anc ad) seen line
          else descent_loop fuel queue seen line
      end
  end.

(** Every record is expanded at most once, and has at most one more edge than
    refs. *)
Definition descent_fuel : nat := S (sum_list_with (λ r, S (length (rec_refs r))) (q_records q)).

(** q1, [descent]. *)
Definition descent (candidate : RecordId) : QueryError.t + DescentReport :=
  rec ← get_accepted candidate;
  data ← candidate_data rec;
  line ← descent_loop descent_fuel (back_edges rec data) {[candidate]} [];
  Ok (mk_DescentReport (node rec) line).

Definition is_accepted_kind (k : Kind.t) (rec : record) : bool :=
  (rec_kind rec =? k) && (rec_id rec ∈? accepted_records (q_state q)).

(** The loop of q2. *)
Fixpoint descendants_loop (id : RecordId) (records : list record) : QueryError.t + list Node :=
  match records with
  | [] => Ok []
  | rec :: records =>
      if negb (rec_kind rec =? Kind.Candidate) || (rec_id rec =? id)
         || negb (rec_id rec ∈? accepted_records (q_state q))
      then descendants_loop id records else
      d ← descent (rec_id rec);
      rest ← descendants_loop id records;
      Ok (if existsb (λ s, nd_id (ds_node s) =? hex_encode id) (dr_line d)
          then node rec :: rest else rest)
  end.

(** q2, [descendants]. *)
Definition descendants (id : RecordId) : QueryError.t + DescendantsReport :=
  target_rec ← get_accepted id;
  l ← descendants_loop id (q_records q);
  Ok (mk_DescendantsReport (node target_rec) l).

Definition cause_set (r : record) : gset RecordId := list_to_set (ref_target <$> cause_refs r).

(** [same_generation]. *)
Definition same_generation (own_causes : gset RecordId) (data od : CandidateData) (other : record)
    : bool :=
  match cd_basis data, cd_basis od with
  | CandidateBasis.Continuation, CandidateBasis.Continuation
  | CandidateBasis.Derivation, CandidateBasis.Derivation => cause_set other =? own_causes
  | _, _ => false
  end.

(** q3, [siblings]. *)
Definition siblings (candidate : RecordId) : QueryError.t + SiblingsReport :=
  rec ← get_accepted candidate;
  data ← candidate_data rec;
  let own_causes := cause_set rec in
  let l := filter (λ other,
    is_accepted_kind Kind.Candidate other && negb (rec_id other =? candidate)
    && match candidate_data other with
       | Ok od => same_generation own_causes data od other
       | Err _ => false
       end = true) (q_records q) in
  Ok (mk_SiblingsReport (node rec) (node <$> l)).

(** The three sets of q4. *)
Definition considered_ids : gset RecordId :=
  fold_left (λ acc rec, if is_accepted_kind Kind.Selection rec then
      match (decode (rec_data rec) : option SelectionData) with
      | Some sd => list_to_set (sl_considered sd) ∪ acc
      | None => acc
      end else acc) (q_records q) ∅.
Definition chosen_ids : gset RecordId :=
  fold_left (λ acc rec, if is_accepted_kind Kind.Selection rec then
      match (decode (rec_data rec) : option SelectionData) with
      | Some sd =>
          match sl_outcome sd with
          | SelectionOutcome.Selected candidates => list_to_set candidates ∪ acc
          | _ => acc
          end
      | None => acc
      end else acc) (q_records q) ∅.
Definition continued_ids : gset RecordId :=
  fold_left (λ acc rec, if is_accepted_kind Kind.Candidate rec then
      match (decode (rec_data rec) : option CandidateData) with
      | Some cd =>
          match cd_basis cd, cd_parent cd with
          | CandidateBasis.Continuation, Some p => {[p]} ∪ acc
          | _, _ => acc
          end
      | None => acc
      end else acc) (q_records q) ∅.

(** Why a candidate is on the frontier. *)
Definition frontier_reason (rec : record) : option string :=
  if negb (rec_id rec ∈? considered_ids) then Some "unconsidered"
  else if (rec_id rec ∈? chosen_ids) && negb (rec_id rec ∈? continued_ids)
  then Some "selected-no-continuation" else None.

(** q4, [frontier]. *)
Definition frontier : FrontierReport :=
  mk_FrontierReport (omap (λ rec,
    if is_accepted_kind Kind.Candidate rec then mk_FrontierEntry (node rec) <$> frontier_reason rec
    else None) (q_records q)).

(** q5, [standing]. *)
Definition query_standing (id : RecordId) : QueryError.t + StandingReport :=
  rec ← get_accepted id;
  Ok (mk_StandingReport (node rec)
    (match restorations (lv_standing (q_verdict q)) !! id with
     | Some set => hex_encode <$> btree_members set
     | None => []
     end)).

(** The loop of q6 over the line of descent. *)
Fixpoint evidence_line (line : list DescentStep) : QueryError.t + list SelectionEvidence :=
  match line with
  | [] => Ok []
  | step :: line =>
      if nd_kind (ds_node step) =? "Selection" then
        sel ← q_get (default zero_hash (parse_hex (nd_id (ds_node step))));
        rest ← evidence_line line;
        Ok (mk_SelectionEvidence (ds_node step) (selection_evidence sel) :: rest)
      else evidence_line line
  end.

(** q6, [evidence]. *)
Definition evidence (id : RecordId) : QueryError.t + EvidenceReport :=
  rec ← get_accepted id;
  l ← match rec_kind rec with
      | Kind.Selection => Ok [mk_SelectionEvidence (node rec) (selection_evidence rec)]
      | Kind.Candidate => d ← descent id; evidence_line (dr_line d)
      | _ => Err (QueryError.KindMismatch id "Candidate or Selection")
      end;
  Ok (mk_EvidenceReport (node rec) l).

(** q7, [selected]. *)
Definition selected (objective : string) : SelectedReport :=
  mk_SelectedReport objective (omap (λ rec,
    if negb (is_accepted_kind Kind.Selection rec) then None else
    sd ← (decode (rec_data rec) : option SelectionData);
    if negb (sl_objective sd =? objective) then None else
    match sl_outcome sd with
    | SelectionOutcome.Selected candidates =>
        Some (mk_SelectedEntry (node rec) (node <$> omap (λ c, ok (q_get c)) candidates)
                (selection_evidence rec))
    | _ => None
    end) (q_records q)).
End helpers.
End queries.
