(* ===== verification/QueryTheorems.v ===== *)
(** * Properties of the queries

    The line of descent is exactly the set of ancestors, and every query about
    it answers without error on a verified log. *)

From S2P Require Export Queries StorageTheorems.

Lemma index_ids_index pos l m : index_ids pos l m = index_from pos l m.
Proof.
  unfold index_from. revert pos m.
  assert (Hgen : ∀ pos m, index_ids pos l m =
    (fold_left (λ (acc : nat * gmap RecordId nat) r, (S acc.1, <[rec_id r:=acc.1]> acc.2)) l (pos, m)).2).
  { induction l as [|r l IH]; intros pos m; simpl; [done | apply IH]. }
  exact Hgen.
Qed.

Section descent.
Context `{Primitives, Serde, HashOrder} (rules : VerifierRules).
Context (records : list record) (s : State) (q : Queries).
Context (Hlog : Replays rules records s) (Hq : new_queries records rules = inr q)
  (Hnd : NoDup (rec_id <$> records)).

Lemma queries_of : q_records q = records ∧ q_state q = s ∧ q_by_id q = index_from 0 records ∅.
Proof.
  unfold new_queries in Hq. rewrite (verify_log_complete rules records s Hlog) in Hq.
  cbn [lv_result accept_verdict] in Hq. rewrite bool_decide_true in Hq by done. cbn [negb] in Hq.
  rewrite (build_replays rules records s Hlog) in Hq. cbn [ok_or mbind result_bind] in Hq.
  injection Hq as <-. cbn [q_records q_state q_by_id]. by rewrite index_ids_index.
Qed.

Lemma q_get_record r : r ∈ records → q_get q (rec_id r) = inr r.
Proof.
  intros Hr. destruct queries_of as (E1 & _ & E3). unfold q_get. rewrite E1, E3.
  destruct (index_from_lookup records (rec_id r) r Hnd Hr eq_refl) as (i & -> & Hi).
  cbn [ok_or mbind result_bind]. by rewrite Hi.
Qed.

(** The edges of the walk. *)
Definition edges_of (id : RecordId) : list (RecordId * string) :=
  match q_get q id with
  | inr rec => match candidate_data rec with inr data => back_edges q rec data | inl _ => [] end
  | inl _ => []
  end.
Definition back_edge (b a : RecordId) : Prop := a ∈ fst <$> edges_of b.

(** The accepted records and what the loop needs of them. *)
Lemma accepted_node id :
  id ∈ accepted_records s → ∃ r, q_get q id = inr r ∧ accepted_in records r ∧ rec_id r = id.
Proof.
  intros Hid. destruct (accepted_records_find rules records s id Hlog Hid) as (r & Hr & <- & _).
  exists r. split_and!; [|done..]. by apply q_get_record, Hr.
Qed.

Lemma accepted_candidate_data r :
  accepted_in records r → rec_kind r = Kind.Candidate →
  ∃ d l1 s1 k, candidate_data r = inr d ∧ decode (rec_data r) = Some d ∧
    records = l1 ++ r :: k ∧ accepted_after rules l1 s1 r ∧
    check_candidate r (prior_of (l1 ++ [r])) rules s1 = None.
Proof.
  intros Hr Hk.
  destruct (replays_accepted_split rules records s r Hlog Hr) as (l1 & s1 & v & k & E & Ha).
  pose proof (accepted_after_kind rules l1 s1 r Ha) as Hc. unfold check_kind_specific in Hc.
  rewrite Hk in Hc. destruct (decode (rec_data r) : option CandidateData) as [d|] eqn:Ed.
  - exists d, l1, s1, (v :: k). split_and!; try done. unfold candidate_data.
    rewrite bool_decide_true by done. cbn [negb]. by rewrite Ed.
  - unfold check_candidate in Hc. by rewrite Ed in Hc.
Qed.

Lemma back_edge_accepted b a :
  b ∈ accepted_records s → back_edge b a →
  a ∈ accepted_records s ∧ rank records a < rank records b.
Proof.
  unfold back_edge, edges_of. intros Hb Ha. destruct (accepted_node b Hb) as (r & Hget & Hr & <-).
  rewrite Hget in Ha. destruct (decide (rec_kind r = Kind.Candidate)) as [Hk|Hk].
  2: { unfold candidate_data in Ha. rewrite bool_decide_false in Ha by done. by apply elem_of_nil in Ha. }
  destruct (accepted_candidate_data r Hr Hk) as (d & l1 & s1 & k & Hd & Hdec & E & Haft & Hc).
  rewrite Hd in Ha. pose proof Haft as (Hl1 & _).
  assert (Hin : a ∈ accepted_records s1).
  { apply list_elem_of_fmap in Ha as ([a' via] & -> & Ha). cbn [fst]. unfold back_edges in Ha.
    destruct (cd_basis d) eqn:Eb; [by apply elem_of_nil in Ha|..].
    - apply elem_of_app in Ha as [Ha|Ha].
      + apply list_elem_of_fmap in Ha as (x & [= -> _] & Hx).
        apply elem_of_sort_by, list_elem_of_fmap in Hx as (y & -> & Hy).
        by eapply check_candidate_anchor.
      + destruct (cd_parent d) as [p|] eqn:Ep; [|by apply elem_of_nil in Ha].
        apply list_elem_of_singleton in Ha as [= -> _]. by eapply check_candidate_parent.
    - apply list_elem_of_fmap in Ha as (x & [= -> _] & Hx). apply list_elem_of_filter in Hx as [_ Hx].
      apply elem_of_sort_by, list_elem_of_fmap in Hx as (y & -> & Hy).
      by eapply check_candidate_causes. }
  split.
  - destruct (accepted_records_find rules l1 s1 a Hl1 Hin) as (t & Ht & <- & _).
    apply (accepted_in_iff rules records s); [done|].
    destruct Ht as (Htin & Htk & v & Hv & Hrest). rewrite E. split; [by apply elem_of_app; left|].
    split; [done|]. exists v. split; [by apply elem_of_app; left | done].
  - rewrite E. by eapply rank_accepted.
Qed.
(** ** The walk *)

(** The fuel the records not yet seen may still cost. *)
Definition weight (seen : gset RecordId) (l : list record) : nat :=
  sum_list_with (λ r, S (length (rec_refs r))) (filter (λ r, rec_id r ∉ seen) l).

Lemma weight_mono id seen l : weight ({[id]} ∪ seen) l ≤ weight seen l.
Proof.
  unfold weight. induction l as [|r l IH]; [done|]. rewrite !filter_cons.
  repeat case_decide; simpl; try lia. set_solver.
Qed.

Lemma weight_seen r seen l :
  r ∈ l → rec_id r ∉ seen →
  weight ({[rec_id r]} ∪ seen) l + S (length (rec_refs r)) ≤ weight seen l.
Proof.
  intros Hr Hs. induction l as [|x l IH]; [by apply elem_of_nil in Hr|].
  unfold weight in *. rewrite !filter_cons. apply elem_of_cons in Hr as [->|Hr].
  - rewrite decide_False by set_solver. rewrite decide_True by done. simpl.
    pose proof (weight_mono (rec_id x) seen l). unfold weight in *. lia.
  - specialize (IH Hr). repeat case_decide; simpl; try lia. set_solver.
Qed.

Lemma length_back_edges r d : length (back_edges q r d) ≤ S (length (rec_refs r)).
Proof.
  assert (Hs : length (sorted_causes r) ≤ length (rec_refs r)).
  { unfold sorted_causes. rewrite (Permutation_length (sort_by_perm _ _)), length_fmap.
    unfold cause_refs. apply length_filter. }
  unfold back_edges. destruct (cd_basis d); simpl; [lia| |].
  - rewrite length_app, length_fmap. destruct (cd_parent d); simpl; lia.
  - rewrite length_fmap. pose proof (length_filter (λ c, is_kind_candidate q c = true) (sorted_causes r)).
    lia.
Qed.

(** A step of the line: the record reached and the edge's name. *)
Definition step_of (x : record * string) : DescentStep := mk_DescentStep (node q x.1) x.2.
Definition step_ids (steps : list (record * string)) : list RecordId := (λ x, rec_id x.1) <$> steps.

Record walked (queue : list (RecordId * string)) (seen : gset RecordId)
    (steps : list (record * string)) : Prop := {
  wk_nodup : NoDup (step_ids steps);
  wk_new : ∀ x, x ∈ step_ids steps → x ∉ seen;
  wk_accepted : ∀ x, x ∈ steps → accepted_in records x.1;
  wk_queue : ∀ e, e ∈ queue → e.1 ∈ seen ∨ e.1 ∈ step_ids steps;
  wk_closed : ∀ x e, x ∈ step_ids steps → e ∈ edges_of x → e.1 ∈ seen ∨ e.1 ∈ step_ids steps;
  wk_reached : ∀ x, x ∈ step_ids steps → ∃ e, e ∈ queue ∧ rtc back_edge e.1 x;
  wk_via : ∀ x, x ∈ steps →
    (rec_id x.1, x.2) ∈ queue ∨ ∃ y, y ∈ step_ids steps ∧ (rec_id x.1, x.2) ∈ edges_of y;
}.

Lemma walked_nil seen : walked [] seen [].
Proof.
  split; [constructor|..]; try (intros x Hx; by apply elem_of_nil in Hx).
  intros x e Hx. by apply elem_of_nil in Hx.
Qed.

Lemma walked_skip e queue seen steps :
  e.1 ∈ seen → walked queue seen steps → walked (e :: queue) seen steps.
Proof.
  intros He [W1 W2 W3 W4 W5 W6 W7]. split; try done.
  - intros e' [->|Hin]%elem_of_cons; [by left | by apply W4].
  - intros x Hx. destruct (W6 x Hx) as (e' & Hin & Hr). exists e'. split; [by right | done].
  - intros x Hx. destruct (W7 x Hx) as [Hin|Hy]; [left; by right | by right].
Qed.

Lemma walked_expand r via queue seen steps :
  rec_id r ∉ seen → accepted_in records r →
  walked (queue ++ edges_of (rec_id r)) ({[rec_id r]} ∪ seen) steps →
  walked ((rec_id r, via) :: queue) seen ((r, via) :: steps).
Proof.
  intros Hns Hr [W1 W2 W3 W4 W5 W6 W7]. unfold step_ids in *. split; rewrite ?fmap_cons; cbn [fst].
  - constructor; [|done]. intros Hin. apply W2 in Hin. set_solver.
  - intros x [->|Hx]%elem_of_cons; [done|]. specialize (W2 x Hx). set_solver.
  - intros x [->|Hx]%elem_of_cons; [done | by apply W3].
  - intros e [->|He]%elem_of_cons; [right; by left|]. destruct (W4 e) as [Hs|Hs].
    + apply elem_of_app. by left.
    + apply elem_of_union in Hs as [Hs%elem_of_singleton|Hs]; [right; rewrite Hs; by left | by left].
    + right. by right.
  - intros x e [->|Hx]%elem_of_cons He.
    + destruct (W4 e) as [Hs|Hs]; [apply elem_of_app; by right| |right; by right].
      apply elem_of_union in Hs as [Hs%elem_of_singleton|Hs]; [right; rewrite Hs; by left | by left].
    + destruct (W5 x e Hx He) as [Hs|Hs]; [|right; by right].
      apply elem_of_union in Hs as [Hs%elem_of_singleton|Hs]; [right; rewrite Hs; by left | by left].
  - intros x [->|Hx]%elem_of_cons; [eexists; split; [by left | apply rtc_refl]|].
    destruct (W6 x Hx) as (e & [He|He]%elem_of_app & Hrtc).
    + exists e. split; [by right | done].
    + exists (rec_id r, via). split; [by left|]. eapply rtc_l; [|exact Hrtc].
      apply list_elem_of_fmap. by exists e.
  - intros x [->|Hx]%elem_of_cons; [left; by left|].
    destruct (W7 x Hx) as [[Hin|Hin]%elem_of_app|(y & Hy & Hin)].
    + left. by right.
    + right. exists (rec_id r). split; [by left | done].
    + right. exists y. split; [by right | done].
Qed.

Lemma descent_loop_spec fuel queue seen line :
  (∀ e, e ∈ queue → e.1 ∈ accepted_records s) →
  length queue + weight seen records < fuel →
  ∃ steps, descent_loop q fuel queue seen line = inr (line ++ (step_of <$> steps)) ∧
    walked queue seen steps.
Proof.
  revert queue seen line. induction fuel as [|fuel IH]; intros queue seen line Hacc Hfuel; [lia|].
  cbn [descent_loop]. destruct queue as [|[id via] queue].
  { exists []. rewrite app_nil_r. split; [done | apply walked_nil]. }
  assert (Hqueue : ∀ e, e ∈ queue → e.1 ∈ accepted_records s) by (intros; apply Hacc; by right).
  cbn [length] in Hfuel. destruct (decide (id ∈ seen)) as [Hseen|Hseen].
  { rewrite bool_decide_true by done. destruct (IH queue seen line Hqueue) as (steps & -> & Hw); [lia|].
    exists steps. split; [done | by apply walked_skip]. }
  rewrite bool_decide_false by done. cbv zeta.
  destruct (accepted_node id) as (r & Hget & Hr & <-); [apply (Hacc (id, via)); by left|].
  rewrite Hget. cbn [mbind result_bind]. pose proof Hr as (Hin & _).
  pose proof (weight_seen r seen records Hin Hseen) as Hwt.
  assert (Hedges : ∀ e, e ∈ queue ++ edges_of (rec_id r) → e.1 ∈ accepted_records s).
  { intros e [He|He]%elem_of_app; [by apply Hqueue|].
    apply (back_edge_accepted (rec_id r)); [apply (Hacc (rec_id r, via)); by left|].
    apply list_elem_of_fmap. by exists e. }
  assert (Hdone : ∀ edges, edges = edges_of (rec_id r) → length edges ≤ S (length (rec_refs r)) →
    ∃ steps, descent_loop q fuel (queue ++ edges) ({[rec_id r]} ∪ seen)
        (line ++ [mk_DescentStep (node q r) via]) = inr (line ++ (step_of <$> steps)) ∧
      walked ((rec_id r, via) :: queue) seen steps).
  { intros edges -> Hlen. destruct (IH (queue ++ edges_of (rec_id r)) ({[rec_id r]} ∪ seen)
      (line ++ [mk_DescentStep (node q r) via]) Hedges) as (steps & -> & Hw);
      [rewrite length_app; lia|].
    exists ((r, via) :: steps). split; [by rewrite <- app_assoc | by apply walked_expand]. }
  destruct (decide (rec_kind r = Kind.Candidate)) as [Hk|Hk].
  - rewrite bool_decide_true by done.
    destruct (accepted_candidate_data r Hr Hk) as (d & _ & _ & _ & Hd & _).
    rewrite Hd. cbn [mbind result_bind]. apply Hdone; [|apply length_back_edges].
    unfold edges_of. by rewrite Hget, Hd.
  - rewrite bool_decide_false by done.
    destruct (Hdone []) as (steps & Hs & Hw); [|simpl; lia|].
    + unfold edges_of. rewrite Hget. unfold candidate_data. by rewrite bool_decide_false.
    + exists steps. by rewrite app_nil_r in Hs.
Qed.

(** ** q1 and q2 *)

(** Lineage has no cycles. *)
Lemma back_edge_irrefl b : b ∈ accepted_records s → ¬ tc back_edge b b.
Proof.
  assert (Hrank : ∀ b a, tc back_edge b a → b ∈ accepted_records s → rank records a < rank records b).
  { induction 1 as [b1 a1 Ht|b1 x a1 Hbx Ht IH]; intros Hb1; [by apply back_edge_accepted|].
    destruct (back_edge_accepted b1 x Hb1 Hbx) as [Hx ?]. specialize (IH Hx). lia. }
  intros Hb Ht. specialize (Hrank b b Ht Hb). lia.
Qed.

(** What the line of descent holds. *)
Lemma descent_spec c :
  accepted_in records c → rec_kind c = Kind.Candidate →
  ∃ steps, descent q (rec_id c) = inr (mk_DescentReport (node q c) (step_of <$> steps)) ∧
    NoDup (step_ids steps) ∧ (∀ x, x ∈ steps → accepted_in records x.1) ∧
    (∀ a, a ∈ step_ids steps ↔ tc back_edge (rec_id c) a) ∧
    (∀ x, x ∈ steps → ∃ b, rtc back_edge (rec_id c) b ∧ (rec_id x.1, x.2) ∈ edges_of b).
Proof.
  intros Hc Hk. pose proof Hc as (Hin & _). destruct queries_of as (E1 & E2 & _).
  pose proof (proj1 (accepted_in_iff rules records s c Hlog) Hc) as (_ & _ & Hid).
  destruct (accepted_candidate_data c Hc Hk) as (d & _ & _ & _ & Hd & _).
  assert (Hedges : edges_of (rec_id c) = back_edges q c d).
  { unfold edges_of. by rewrite (q_get_record c Hin), Hd. }
  destruct (descent_loop_spec (descent_fuel q) (back_edges q c d) {[rec_id c]} []) as (steps & Hl & Hw).
  { intros e He. rewrite <- Hedges in He. apply (back_edge_accepted (rec_id c)); [done|].
    apply list_elem_of_fmap. by exists e. }
  { pose proof (length_back_edges c d). pose proof (weight_seen c ∅ records Hin (not_elem_of_empty _)).
    rewrite union_empty_r_L in *. unfold descent_fuel. rewrite E1.
    assert (Hall : ∀ l, weight ∅ l = sum_list_with (λ r, S (length (rec_refs r))) l).
    { unfold weight. induction l as [|x l IHl]; [done|]. rewrite filter_cons, decide_True by set_solver.
      simpl. by rewrite IHl. }
    rewrite Hall in *. lia. }
  exists steps. destruct Hw as [W1 W2 W3 W4 W5 W6 W7]. split_and!; try done.
  - unfold descent, get_accepted. rewrite (q_get_record c Hin), E2. cbn [mbind result_bind].
    rewrite bool_decide_true by done. cbn [negb mbind result_bind].
    rewrite Hd. cbn [mbind result_bind]. by rewrite Hl.
  - intros a. split.
    + intros Ha. destruct (W6 a Ha) as (e & He & Hr). apply (tc_rtc_r _ e.1); [|done].
      apply tc_once. unfold back_edge. rewrite Hedges. apply list_elem_of_fmap. by exists e.
    + intros Ht. assert (Hclosed : ∀ b z, rtc back_edge b z →
        b = rec_id c ∨ b ∈ step_ids steps → z = rec_id c ∨ z ∈ step_ids steps).
      { clear a Ht. induction 1 as [b|b x z Hbx Hr IH]; [done|]. intros Hb. apply IH.
        unfold back_edge in Hbx. apply list_elem_of_fmap in Hbx as (e & -> & He).
        destruct Hb as [->|Hb].
        - rewrite Hedges in He. destruct (W4 e He) as [E%elem_of_singleton|E]; [by left | by right].
        - destruct (W5 b e Hb He) as [E%elem_of_singleton|E]; [by left | by right]. }
      destruct (Hclosed (rec_id c) a (tc_rtc _ _ Ht) (or_introl eq_refl)) as [Ea|]; [|done].
      rewrite Ea in Ht. by destruct (back_edge_irrefl (rec_id c)).
  - intros x Hx. destruct (W7 x Hx) as [He|(y & Hy & He)].
    + exists (rec_id c). split; [apply rtc_refl | by rewrite Hedges].
    + exists y. split; [|done]. destruct (W6 y Hy) as (e & He' & Hr). eapply rtc_l; [|exact Hr].
      unfold back_edge. rewrite Hedges. apply list_elem_of_fmap. by exists e.
Qed.
Lemma hex_encode_inj h k : hex_encode h = hex_encode k → h = k.
Proof.
  intros E. pose proof (hex_decode_encode h) as Hh. rewrite E, hex_decode_encode in Hh.
  by injection Hh.
Qed.

Lemma existsb_line id steps :
  existsb (λ x, nd_id (ds_node x) =? hex_encode id) (step_of <$> steps) = true ↔ id ∈ step_ids steps.
Proof.
  rewrite existsb_exists. unfold step_ids. setoid_rewrite <- list_elem_of_In. rewrite list_elem_of_fmap. split.
  - intros (x & (y & -> & Hy)%list_elem_of_fmap & E%bool_decide_eq_true). exists y. split; [|done].
    by apply hex_encode_inj.
  - intros (y & -> & Hy). exists (step_of y). split; [apply list_elem_of_fmap; by exists y|].
    by apply bool_decide_eq_true.
Qed.

(** The records the loop of q2 keeps. *)
Definition descends (id : RecordId) (c : record) : Prop :=
  accepted_in records c ∧ rec_kind c = Kind.Candidate ∧ tc back_edge (rec_id c) id.

Lemma descendants_loop_spec id l :
  l ⊆ records →
  ∃ k, descendants_loop q id l = inr (node q <$> k) ∧ k `sublist_of` l ∧
    (∀ c, c ∈ k ↔ c ∈ l ∧ descends id c).
Proof.
  destruct queries_of as (_ & E2 & _).
  induction l as [|r l IH]; intros Hl; cbn [descendants_loop].
  { exists []. split_and!; try done. intros c. rewrite !elem_of_nil. tauto. }
  destruct IH as (k & Hk & Hsub & Hiff); [set_solver|]. rewrite E2.
  assert (Hin : r ∈ records) by (apply Hl; by left).
  assert (Hskip : ¬ descends id r → k `sublist_of` r :: l ∧
    (∀ c, c ∈ k ↔ c ∈ r :: l ∧ descends id c)).
  { intros Hno. split; [by constructor|]. intros c. rewrite Hiff, elem_of_cons. split; [naive_solver|].
    intros [[->|]]; [done | tauto]. }
  destruct (decide (rec_kind r = Kind.Candidate)) as [Hkr|Hkr]; cycle 1.
  { rewrite (bool_decide_false (rec_kind r = _)) by done. exists k. split; [done|]. apply Hskip. by intros (_ & ? & _). }
  destruct (decide (rec_id r ∈ accepted_records s)) as [Ha|Ha]; cycle 1.
  { rewrite (bool_decide_false (rec_id r ∈ _)), orb_true_r by done. exists k. split; [done|].
    apply Hskip. by intros ((_ & _ & ?)%(accepted_in_iff rules records s) & _). }
  rewrite (bool_decide_true (rec_kind r = _)), (bool_decide_true (rec_id r ∈ _)) by done. cbn [negb orb].
  rewrite orb_false_r. destruct (decide (rec_id r = id)) as [E|E].
  { rewrite bool_decide_true by done. exists k. split; [done|]. apply Hskip.
    intros (_ & _ & Ht). rewrite E in *. by apply (back_edge_irrefl id). }
  rewrite bool_decide_false by done.
  assert (Hacc : accepted_in records r).
  { apply (accepted_in_iff rules records s); [done|]. split_and!; [done | by rewrite Hkr | done]. }
  destruct (descent_spec r Hacc Hkr) as (steps & Hd & _ & _ & Hreach & _).
  rewrite Hd, Hk. cbn [mbind result_bind dr_line].
  destruct (existsb _ _) eqn:Ex.
  - apply existsb_line, Hreach in Ex. exists (r :: k). split_and!; [done | by constructor|].
    intros c. rewrite !elem_of_cons, Hiff. split; [|naive_solver].
    intros [->|]; [|naive_solver]. split; [by left | done].
  - exists k. split; [done|]. apply Hskip. intros (_ & _ & Ht). apply Hreach, existsb_line in Ht. congruence.
Qed.

(** Only accepted records are asked for. *)
Lemma descendants_spec id :
  id ∈ accepted_records s →
  ∃ t k, descendants q id = inr (mk_DescendantsReport (node q t) (node q <$> k)) ∧
    q_get q id = inr t ∧ k `sublist_of` records ∧ (∀ c, c ∈ k ↔ c ∈ records ∧ descends id c).
Proof.
  intros Hid. destruct (accepted_node id Hid) as (t & Hget & _ & Et).
  destruct (descendants_loop_spec id records) as (k & Hk & Hsub & Hiff); [done|].
  destruct queries_of as (E1 & E2 & _). exists t, k. split_and!; try done.
  unfold descendants, get_accepted. rewrite Hget, E2. cbn [mbind result_bind].
  rewrite bool_decide_true by done. cbn [negb mbind result_bind]. by rewrite E1, Hk.
Qed.
End descent.

Lemma new_queries_verified `{Primitives, Serde, HashOrder} records rules q :
  new_queries records rules = inr q → ∃ s, Replays rules records s ∧ q_state q = s.
Proof.
  intros Hq. pose proof Hq as Hq'. unfold new_queries in Hq'.
  destruct (lv_result (verify_log records rules None) =? VerdictResult.Accept) eqn:Ea; [|done].
  destruct (verify_log_sound rules records Ea) as (s & Hlog). exists s. split; [done|].
  by destruct (queries_of rules records s q Hlog Hq) as (_ & ? & _).
Qed.


#[local] Existing Instance Lineage.serde.

Definition lineage_queries : Queries :=
  match new_queries Lineage.log Lineage.rules with
  | inr q => q
  | inl _ => mk_Queries [] (verify_log [] Lineage.rules None) empty_state ∅
  end.

