(* ===== verification/Manifest.v ===== *)
(** * Canonical manifests

    Models src/src/manifest.rs: the content commitment over a source tree, and
    the walk of a worktree into manifest entries. *)

From S2P Require Export Payloads.

Module FileMode.
Inductive t := Regular | Executable | Symlink | Gitlink.
(** [FileMode::as_str]. *)
Definition as_str (m : t) : string :=
  match m with
  | Regular => "100644" | Executable => "100755" | Symlink => "120000" | Gitlink => "160000"
  end.
#[export] Instance eq_dec : EqDecision t.
Proof. solve_decision. Defined.
End FileMode.
Export (hints) FileMode.

Record ManifestEntry := mk_ManifestEntry {
  me_path : string;
  me_mode : FileMode.t;
  me_sha256 : Hash256;
}.

Record ManifestValue := mk_ManifestValue { mv_mode : string; mv_sha256 : string }.

#[export] Instance ser_ManifestValue : Serialize ManifestValue := λ v,
  VObject [("mode", to_value (mv_mode v)); ("sha256", to_value (mv_sha256 v))].

(** ** The worktree *)

(** What the file system shows at a path; [None] is a failing read. *)
Inductive FsNode :=
  | FsFile (mode : N) (content : option bytes)
  | FsLink (target : option bytes)
  | FsDir (readable : bool) (children : list (bytes * FsNode))
  | FsOther
  | FsGone.

Module WalkError.
Inductive t := Io | InvalidData.
#[export] Instance eq_dec : EqDecision t.
Proof. solve_decision. Defined.
End WalkError.
Export (hints) WalkError.

(** [is_executable]: the owner-execute bit. *)
Definition is_executable (mode : N) : bool := negb (N.land mode 64 =? 0)%N.

Section manifest.
Context `{Primitives}.

(** [ManifestEntry::file]. *)
Definition entry_file (path : string) (executable : bool) (content : bytes) : ManifestEntry :=
  mk_ManifestEntry path (if executable then FileMode.Executable else FileMode.Regular)
    (sha256 content).

(** [ManifestEntry::symlink]. *)
Definition entry_symlink (path target : string) : ManifestEntry :=
  mk_ManifestEntry path FileMode.Symlink (sha256_utf8 target).

(** [ManifestEntry::gitlink]: 40 or 64 lowercase hex characters. *)
Definition entry_gitlink (path commit_oid_hex : string) : option ManifestEntry :=
  let len := length (lit commit_oid_hex) in
  let len_ok := (len =? 40) || (len =? 64) in
  let hex_ok := forallb is_hex (lit commit_oid_hex) in
  if negb len_ok || negb hex_ok then None
  else Some (mk_ManifestEntry path FileMode.Gitlink (sha256_utf8 commit_oid_hex)).

Definition manifest_value (e : ManifestEntry) : ManifestValue :=
  mk_ManifestValue (FileMode.as_str (me_mode e)) (hex_encode (me_sha256 e)).

(** The loop of [manifest_hash]: a repeated path is ambiguous. *)
Fixpoint manifest_object (object : gmap string ManifestValue) (entries : list ManifestEntry)
    : option (gmap string ManifestValue) :=
  match entries with
  | [] => Some object
  | e :: entries =>
      match object !! me_path e with
      | Some _ => None
      | None => manifest_object (<[me_path e := manifest_value e]> object) entries
      end
  end.

(** A [BTreeMap] with string keys serializes as an object. *)
Definition ser_string_map `{Serialize A} (m : gmap string A) : Value :=
  VObject ((λ e, (e.1, to_value e.2)) <$> btree_entries m).

(** [manifest_hash]. *)
Definition manifest_hash (entries : list ManifestEntry) : option Hash256 :=
  object ← manifest_object ∅ entries;
  sha256_canonical (ser_string_map object).

(** ** The walk *)

(** [utf8_name]. *)
Definition utf8_name (os : bytes) : WalkError.t + string :=
  let s := String.string_of_list_byte os in
  if str_wf s then Ok s else Err WalkError.InvalidData.

(** What the walk carries: the entries, the paths walked, and the directories
    still to read. *)
Record Walk := mk_Walk {
  wk_out : list ManifestEntry;
  wk_walked : gset string;
  wk_stack : list (bool * list (bytes * FsNode) * string);
}.

Definition rel_path (prefix name : string) : string :=
  if prefix =? "" then name else (prefix +:+ "/" +:+ name).

(** One child of a directory. *)
Definition walk_child (gitlinks : gmap string string) (prefix : string) (child : bytes * FsNode)
    (w : Walk) : WalkError.t + Walk :=
  name ← utf8_name child.1;
  if name =? ".git" then Ok w else
  let rel := rel_path prefix name in
  if is_Some_b (gitlinks !! rel) then Ok w else
  match child.2 with
  | FsGone => Err WalkError.Io
  | FsLink target =>
      target ← ok_or target WalkError.Io;
      target ← utf8_name target;
      Ok (mk_Walk (wk_out w ++ [entry_symlink rel target]) ({[rel]} ∪ wk_walked w) (wk_stack w))
  | FsDir readable children =>
      Ok (mk_Walk (wk_out w) (wk_walked w) ((readable, children, rel) :: wk_stack w))
  | FsFile mode content =>
      content ← ok_or content WalkError.Io;
      Ok (mk_Walk (wk_out w ++ [entry_file rel (is_executable mode) content]) ({[rel]} ∪ wk_walked w)
            (wk_stack w))
  | FsOther => Ok w
  end.

Fixpoint walk_children (gitlinks : gmap string string) (prefix : string)
    (children : list (bytes * FsNode)) (w : Walk) : WalkError.t + Walk :=
  match children with
  | [] => Ok w
  | child :: children => w ← walk_child gitlinks prefix child w; walk_children gitlinks prefix children w
  end.

(** The work-stack loop; [fuel] bounds the directories read. *)
Fixpoint walk_dirs (fuel : nat) (gitlinks : gmap string string) (w : Walk) : WalkError.t + Walk :=
  match fuel with
  | O => Ok w
  | S fuel =>
      match wk_stack w with
      | [] => Ok w
      | (readable, children, prefix) :: stack =>
          if negb readable then Err WalkError.Io else
          let children := sort_by (λ a b, cmp a.1 b.1) children in
          w ← walk_children gitlinks prefix children (mk_Walk (wk_out w) (wk_walked w) stack);
          walk_dirs fuel gitlinks w
      end
  end.

(** The directories of a tree. *)
Fixpoint dir_count (n : FsNode) : nat :=
  match n with
  | FsDir _ children => S (sum_list_with (λ c, dir_count c.2) children)
  | _ => 0
  end.

(** The submodule entries, in key order. *)
Fixpoint gitlink_entries (walked_paths : gset string) (gitlinks : list (string * string))
    : WalkError.t + list ManifestEntry :=
  match gitlinks with
  | [] => Ok []
  | (path, oid) :: gitlinks =>
      if path ∈? walked_paths then Err WalkError.InvalidData else
      entry ← ok_or (entry_gitlink path oid) WalkError.InvalidData;
      rest ← gitlink_entries walked_paths gitlinks;
      Ok (entry :: rest)
  end.

(** [manifest_from_dir]. *)
Definition manifest_from_dir (root : bool * list (bytes * FsNode)) (gitlinks : gmap string string)
    : WalkError.t + list ManifestEntry :=
  w ← walk_dirs (S (dir_count (FsDir root.1 root.2))) gitlinks (mk_Walk [] ∅ [(root, "")]);
  links ← gitlink_entries (wk_walked w) (btree_entries gitlinks);
  Ok (wk_out w ++ links).
End manifest.
