(* ===== verification/ManifestTheorems.v ===== *)
(** * Properties of manifests

    The manifest hash exists when no path repeats, does not depend on order,
    and binds the entries. *)

From S2P Require Export Lists Manifest QueryTheorems.

#[local] Instance norm_inj_ManifestValue : NormInj ManifestValue.
Proof.
  intros [m1 s1] [m2 s2] E. unfold to_value, ser_ManifestValue in E. cbn [mv_mode mv_sha256] in E.
  member E "mode" Em. member E "sha256" Es. apply norm_inj in Em, Es. by subst.
Qed.

Section manifest_facts.
Context `{Primitives}.

(** An entry as a member of the hashed object. *)
Definition entry_pair (e : ManifestEntry) : string * ManifestValue := (me_path e, manifest_value e).

Lemma entry_pair_inj : Inj (=) (=) entry_pair.
Proof.
  intros [p1 m1 h1] [p2 m2 h2]. unfold entry_pair, manifest_value. simpl. intros [= -> Em Eh].
  apply hex_encode_inj in Eh as ->. by destruct m1, m2.
Qed.

Lemma manifest_object_pairs m es : manifest_object m es = visit_pairs m (entry_pair <$> es).
Proof.
  revert m. induction es as [|e es IH]; intros m; simpl; [done|].
  destruct (m !! me_path e); [done | apply IH].
Qed.

Lemma manifest_object_spec es m :
  manifest_object ∅ es = Some m ↔ NoDup (me_path <$> es) ∧ m = list_to_map (entry_pair <$> es).
Proof.
  rewrite manifest_object_pairs. change (visit_pairs ∅) with (strict_map_de (K := string) (V := ManifestValue)).
  by rewrite strict_map_de_spec, <- list_fmap_compose.
Qed.

Lemma writable_string_map `{Serialize A} (m : gmap string A) :
  (∀ a, writable (to_value a)) → writable (ser_string_map m).
Proof.
  intros Ha. unfold ser_string_map. cbn [writable]. apply andb_True. split.
  - apply forallb_True, Forall_forall. intros e (x & -> & _)%list_elem_of_fmap. apply Ha.
  - apply bool_decide_pack. rewrite <- list_fmap_compose.
    rewrite (fmap_Permutation _ _ _ (btree_entries_perm m)). apply NoDup_fst_map_to_list.
Qed.

Lemma manifest_hash_some es : is_Some (manifest_hash es) ↔ NoDup (me_path <$> es).
Proof.
  unfold manifest_hash. split.
  - destruct (manifest_object ∅ es) as [m|] eqn:E; [|by intros [? [=]]].
    intros _. by apply manifest_object_spec in E as [? _].
  - intros Hnd. rewrite (proj2 (manifest_object_spec es _) (conj Hnd eq_refl)). cbn [mbind option_bind].
    unfold sha256_canonical, canonical_json. apply fmap_is_Some, write_jcs_total.
    unfold to_value at 1, ser_value, id. apply writable_string_map. intros v.
    unfold to_value, ser_ManifestValue. writable_object; done.
Qed.

Lemma plain_string_map `{Serialize A} (m : gmap string A) :
  (∀ k a, m !! k = Some a → str_wf k ∧ plain_value (to_value a)) → plain_value (ser_string_map m).
Proof.
  intros Ha. unfold ser_string_map. apply plain_object.
  - apply Forall_fmap, Forall_forall. intros [k a] Hka. simpl.
    rewrite btree_entries_perm in Hka. apply elem_of_map_to_list in Hka.
    apply andb_True. by apply Ha.
  - rewrite <- list_fmap_compose.
    rewrite (fmap_Permutation _ _ _ (btree_entries_perm m)). apply NoDup_fst_map_to_list.
Qed.

Lemma manifest_hash_perm es es' : es ≡ₚ es' → manifest_hash es = manifest_hash es'.
Proof.
  intros Hp. destruct (decide (NoDup (me_path <$> es))) as [Hnd|Hnd].
  - unfold manifest_hash. rewrite (proj2 (manifest_object_spec es _) (conj Hnd eq_refl)).
    assert (Hnd' : NoDup (me_path <$> es')) by (by rewrite <- Hp).
    rewrite (proj2 (manifest_object_spec es' _) (conj Hnd' eq_refl)). cbn [mbind option_bind].
    rewrite (list_to_map_proper (entry_pair <$> es) (entry_pair <$> es')); [done| |by rewrite Hp].
    by rewrite <- list_fmap_compose.
  - destruct (manifest_hash es) as [h|] eqn:E1.
    { destruct Hnd. apply manifest_hash_some. by rewrite E1. }
    destruct (manifest_hash es') as [h'|] eqn:E2; [|done].
    destruct Hnd. rewrite Hp. apply manifest_hash_some. by rewrite E2.
Qed.

(** The entries, read back from the normalised object. *)
Lemma manifest_norm es m :
  manifest_object ∅ es = Some m →
  (norm_member <$> ((λ e : string * ManifestValue, (e.1, to_value e.2)) <$> btree_entries m)) ≡ₚ
  ((λ e, (me_path e, jcs_norm (to_value (manifest_value e)))) <$> es).
Proof.
  intros [Hnd ->]%manifest_object_spec. rewrite btree_entries_perm, map_to_list_to_map.
  - by rewrite <- !list_fmap_compose.
  - by rewrite <- list_fmap_compose.
Qed.

Lemma manifest_binds es es' h :
  (∀ e, e ∈ es ++ es' → str_wf (me_path e)) → manifest_hash es = Some h → manifest_hash es' = Some h →
  es ≡ₚ es' ∨ sha256_collision.
Proof.
  intros Hwf. unfold manifest_hash.
  destruct (manifest_object ∅ es) as [m|] eqn:E1; [|done].
  destruct (manifest_object ∅ es') as [m'|] eqn:E2; [|done]. cbn [mbind option_bind]. intros H1 H2.
  assert (Hplain : ∀ es m, (∀ e, e ∈ es → str_wf (me_path e)) → manifest_object ∅ es = Some m →
    plain_value (ser_string_map m)).
  { clear. intros es m Hwf [Hnd ->]%manifest_object_spec. apply plain_string_map. intros k a Hk.
    apply elem_of_list_to_map_2, list_elem_of_fmap in Hk as (e & [= -> ->] & He).
    split; [by apply Hwf|]. unfold to_value, ser_ManifestValue, manifest_value. cbn [mv_mode mv_sha256].
    plain_object; [by destruct (me_mode e) | apply hex_encode_wf]. }
  assert (P1 : plain_value (ser_string_map m))
    by (apply (Hplain es); [|done]; intros; apply Hwf, elem_of_app; by left).
  assert (P2 : plain_value (ser_string_map m'))
    by (apply (Hplain es'); [|done]; intros; apply Hwf, elem_of_app; by right).
  destruct (sha256_canonical_binds _ _ h P1 P2 H1 H2) as [E|]; [left | by right].
  unfold to_value at 1 2, ser_value, id, ser_string_map in E. apply object_norm_perm in E.
  rewrite (manifest_norm es m E1), (manifest_norm es' m' E2) in E.
  refine (fmap_Permutation_inj (λ e, (me_path e, jcs_norm (to_value (manifest_value e)))) _ _ E).
  intros e e' E0. pose proof (f_equal fst E0) as Ep. pose proof (f_equal snd E0) as Ev.
  cbn [fst snd] in Ep, Ev. apply entry_pair_inj. unfold entry_pair. f_equal; [done | by apply norm_inj].
Qed.
End manifest_facts.
