(* ===== verification/ManifestWalk.v ===== *)
(** * The worktree walk lists the tree

    The iterative walk of manifest.rs against a recursive listing, and the
    commitment to what it lists. *)

From S2P Require Export ManifestTheorems.

(** ** The recursive listing *)

Section listing.
Context `{Primitives} (gitlinks : gmap string string).

(** The entries of a tree at a path; [None] when something in it cannot be
    read. *)
Fixpoint tree_entries (rel : string) (n : FsNode) : option (list ManifestEntry) :=
  match n with
  | FsGone => None
  | FsOther => Some []
  | FsLink target =>
      target ← target; target ← ok (utf8_name target); Some [entry_symlink rel target]
  | FsFile mode content => content ← content; Some [entry_file rel (is_executable mode) content]
  | FsDir readable children =>
      if negb readable then None else
      (fix go children := match children with
       | [] => Some []
       | c :: children =>
           name ← ok (utf8_name c.1);
           here ← (if name =? ".git" then Some [] else
                   if is_Some_b (gitlinks !! rel_path rel name) then Some [] else
                   tree_entries (rel_path rel name) c.2);
           rest ← go children;
           Some (here ++ rest)
       end) children
  end.

(** The part of one child, and of all children of a directory. *)
Definition child_entries (rel : string) (c : bytes * FsNode) : option (list ManifestEntry) :=
  name ← ok (utf8_name c.1);
  if name =? ".git" then Some [] else
  if is_Some_b (gitlinks !! rel_path rel name) then Some [] else
  tree_entries (rel_path rel name) c.2.

Definition all_entries {A} (f : A → option (list ManifestEntry)) (l : list A)
    : option (list ManifestEntry) := @concat _ <$> mapM f l.

Lemma all_entries_cons {A} (f : A → option (list ManifestEntry)) x l :
  all_entries f (x :: l) = (here ← f x; rest ← all_entries f l; Some (here ++ rest)).
Proof. unfold all_entries. simpl. destruct (f x); simpl; [by destruct (mapM f l) | done]. Qed.

Lemma tree_entries_dir rel readable children :
  tree_entries rel (FsDir readable children) =
  if readable then all_entries (child_entries rel) children else None.
Proof.
  destruct readable; [|done]. cbn [tree_entries negb].
  induction children as [|c children IH]; [done|]. rewrite all_entries_cons, <- IH.
  unfold child_entries. destruct (ok (utf8_name c.1)); [|done]. done.
Qed.

(** ** Equality up to order *)

Definition same (x y : option (list ManifestEntry)) : Prop := option_Forall2 (≡ₚ) x y.

#[local] Instance same_equivalence : Equivalence same.
Proof.
  split.
  - by intros [l|]; constructor.
  - by intros ?? [l k Hlk|]; constructor.
  - intros ??? [l k Hlk|] Hk; inversion Hk; subst; constructor. by etrans.
Qed.

Lemma same_none x : same None x → x = None.
Proof. by inversion 1. Qed.

Lemma same_app x y x' y' :
  same x x' → same y y' →
  same (a ← x; b ← y; Some (a ++ b)) (a ← x'; b ← y'; Some (a ++ b)).
Proof.
  intros [a a' Ha|] [b b' Hb|]; simpl; try constructor. by rewrite Ha, Hb.
Qed.

Lemma same_comm (x y : option (list ManifestEntry)) :
  same (a ← x; b ← y; Some (a ++ b)) (b ← y; a ← x; Some (b ++ a)).
Proof. destruct x, y; simpl; constructor. apply Permutation_app_comm. Qed.

Lemma same_assoc (x y z : option (list ManifestEntry)) :
  same (a ← x; r ← (b ← y; c ← z; Some (b ++ c)); Some (a ++ r))
    (r ← (a ← x; b ← y; Some (a ++ b)); c ← z; Some (r ++ c)).
Proof. destruct x, y, z; simpl; constructor. by rewrite app_assoc. Qed.

Lemma all_entries_perm {A} (f : A → option (list ManifestEntry)) l k :
  l ≡ₚ k → same (all_entries f l) (all_entries f k).
Proof.
  induction 1 as [|x l k Hlk IH|x y l|l k m _ IH1 _ IH2]; [done| | |by etrans].
  - rewrite !all_entries_cons. by apply same_app.
  - rewrite !all_entries_cons. destruct (f x), (f y), (all_entries f l); simpl; constructor.
    rewrite !app_assoc. by rewrite (Permutation_app_comm l1).
Qed.

(** ** What a state of the walk still promises *)

Definition dir_entries (d : bool * list (bytes * FsNode) * string) : option (list ManifestEntry) :=
  tree_entries d.2 (FsDir d.1.1 d.1.2).
Definition promised (w : Walk) : option (list ManifestEntry) :=
  rest ← all_entries dir_entries (wk_stack w); Some (wk_out w ++ rest).

Definition invariant (w : Walk) : Prop := wk_walked w = list_to_set (me_path <$> wk_out w).

(** The directories still to be read. *)
Definition dirs_left (w : Walk) : nat := sum_list_with (λ d, dir_count (FsDir d.1.1 d.1.2)) (wk_stack w).

(** What a step leaves, against what it should have added. *)
Definition adds (found : option (list ManifestEntry)) (n : nat) (w : Walk) (r : WalkError.t + Walk) : Prop :=
  match r with
  | inr w' => same (promised w') (a ← found; b ← promised w; Some (a ++ b)) ∧ invariant w' ∧
      dirs_left w' ≤ n + dirs_left w
  | inl _ => found = None
  end.

Lemma promised_nothing w : same (promised w) (a ← Some []; b ← promised w; Some (a ++ b)).
Proof. simpl. by destruct (promised w). Qed.

Lemma promised_entry w e walked :
  same (promised (mk_Walk (wk_out w ++ [e]) walked (wk_stack w)))
    (a ← Some [e]; b ← promised w; Some (a ++ b)).
Proof.
  unfold promised. simpl. destruct (all_entries dir_entries (wk_stack w)); simpl; constructor.
  rewrite (Permutation_app_comm (wk_out w) [e]). done.
Qed.

Lemma invariant_entry w e :
  invariant w → invariant (mk_Walk (wk_out w ++ [e]) ({[me_path e]} ∪ wk_walked w) (wk_stack w)).
Proof. unfold invariant. simpl. intros ->. rewrite fmap_app, list_to_set_app_L. set_solver. Qed.

Lemma promised_dir w d walked :
  same (promised (mk_Walk (wk_out w) walked (d :: wk_stack w)))
    (a ← dir_entries d; b ← promised w; Some (a ++ b)).
Proof.
  unfold promised. cbn [wk_stack wk_out]. rewrite all_entries_cons.
  destruct (dir_entries d), (all_entries dir_entries (wk_stack w)); simpl; constructor.
  rewrite !app_assoc. by rewrite (Permutation_app_comm (wk_out w)).
Qed.

Lemma walk_child_adds prefix c w :
  invariant w → adds (child_entries prefix c) (dir_count c.2) w (walk_child gitlinks prefix c w).
Proof.
  intros Hinv. unfold walk_child, child_entries. destruct (utf8_name c.1) as [|name]; [done|].
  cbn [mbind result_bind ok option_bind].
  destruct (name =? ".git"); [split_and!; [apply promised_nothing | done | lia]|].
  destruct (is_Some_b _); [split_and!; [apply promised_nothing | done | lia]|].
  destruct c.2 as [mode [content|]|[target|]|readable children| |]; simpl; try done.
  - split_and!; [apply promised_entry | by apply invariant_entry | done].
  - destruct (utf8_name target) as [|t]; [done|]. simpl.
    split_and!; [apply promised_entry | by apply (invariant_entry _ (entry_symlink _ _)) | done].
  - split_and!; [apply promised_dir | done | done].
  - split_and!; [apply promised_nothing | done | lia].
Qed.

Lemma walk_children_adds prefix l w :
  invariant w →
  adds (all_entries (child_entries prefix) l) (sum_list_with (λ c, dir_count c.2) l) w
    (walk_children gitlinks prefix l w).
Proof.
  revert w. induction l as [|c l IH]; intros w Hinv;
    [split_and!; [apply promised_nothing | done | done]|].
  pose proof (walk_child_adds prefix c w Hinv) as Hc. rewrite all_entries_cons. simpl.
  destruct (walk_child gitlinks prefix c w) as [|w1]; simpl in *; [by rewrite Hc|].
  destruct Hc as (P1 & Hinv1 & Hd1). specialize (IH w1 Hinv1).
  destruct (walk_children gitlinks prefix l w1) as [|w2]; simpl in *.
  - rewrite IH. by destruct (child_entries prefix c).
  - destruct IH as (P2 & Hinv2 & Hd2). split_and!; [|done|lia].
    rewrite P2. etrans; [by apply same_app; [reflexivity | exact P1]|].
    destruct (child_entries prefix c), (all_entries _ l), (promised w); simpl; constructor.
    rewrite !app_assoc. by rewrite (Permutation_app_comm l1).
Qed.

Lemma walk_dirs_exact fuel w :
  invariant w → dirs_left w < fuel →
  match walk_dirs fuel gitlinks w with
  | inr w' => same (Some (wk_out w')) (promised w) ∧ invariant w'
  | inl _ => promised w = None
  end.
Proof.
  revert w. induction fuel as [|fuel IH]; intros [out walked stack] Hinv Hfuel; [lia|].
  cbn [walk_dirs wk_stack]. destruct stack as [|[[readable children] prefix] stack].
  { split; [|done]. unfold promised. simpl. by rewrite app_nil_r. }
  assert (P : same (promised (mk_Walk out walked ((readable, children, prefix) :: stack)))
    (a ← (if readable then all_entries (child_entries prefix) children else None);
     b ← promised (mk_Walk out walked stack); Some (a ++ b))).
  { rewrite <- tree_entries_dir. apply (promised_dir (mk_Walk out walked stack)). }
  destruct readable; simpl negb; cbn iota; [|by apply same_none; symmetry in P].
  pose proof (walk_children_adds prefix (sort_by (λ a b, cmp a.1 b.1) children)
    (mk_Walk out walked stack) Hinv) as Hc.
  pose proof (all_entries_perm (child_entries prefix) _ _ (sort_by_perm (λ a b, cmp a.1 b.1) children)) as Hs.
  cbn [wk_out wk_walked].
  destruct (walk_children _ _ _ _) as [|w1]; cbn [mbind result_bind] in *; simpl in Hc.
  - rewrite Hc in Hs. apply same_none in Hs. rewrite Hs in P. apply same_none. by symmetry.
  - destruct Hc as (P1 & Hinv1 & Hd1).
    assert (Hleft : dirs_left w1 < fuel).
    { rewrite (sort_by_perm (λ a b, cmp a.1 b.1) children) in Hd1.
      unfold dirs_left in Hd1, Hfuel |- *. cbn [wk_stack sum_list_with dir_count fst snd] in Hd1, Hfuel |- *.
      lia. }
    assert (P2 : same (promised w1) (promised (mk_Walk out walked ((true, children, prefix) :: stack)))).
    { rewrite P, P1. by apply same_app. }
    specialize (IH w1 Hinv1).
    destruct (walk_dirs fuel gitlinks w1).
    + assert (promised w1 = None) as E by (by apply IH). rewrite E in P2. by apply same_none.
    + destruct IH as [? ?]; [done|]. split; [by etrans | done].
Qed.

(** ** The submodules, and the whole worktree *)

(** Every submodule has a well-formed commit id and is not also a walked path. *)
Definition link_entries (walked : gset string) (links : list (string * string))
    : option (list ManifestEntry) :=
  entries ← mapM (λ l, entry_gitlink l.1 l.2) links;
  if forallb (λ l, negb (l.1 ∈? walked)) links then Some entries else None.

Lemma gitlink_entries_exact walked links : ok (gitlink_entries walked links) = link_entries walked links.
Proof.
  unfold link_entries. induction links as [|[p oid] links IH]; [done|]. simpl.
  destruct (p ∈? walked); simpl; [by destruct (entry_gitlink p oid), (mapM _ links)|].
  destruct (entry_gitlink p oid) as [e|]; simpl; [|done].
  destruct (gitlink_entries walked links), (mapM _ links); simpl in *; try done;
    destruct (forallb _ links); simpl in *; try done. by simplify_eq.
Qed.

(** What a worktree's manifest should list. *)
Definition worktree_entries (root : bool * list (bytes * FsNode)) : option (list ManifestEntry) :=
  tree ← tree_entries "" (FsDir root.1 root.2);
  links ← link_entries (list_to_set (me_path <$> tree)) (btree_entries gitlinks);
  Some (tree ++ links).

Lemma manifest_from_dir_exact root :
  same (ok (manifest_from_dir root gitlinks)) (worktree_entries root).
Proof.
  unfold manifest_from_dir, worktree_entries.
  set (w0 := mk_Walk [] ∅ [(root, "")]).
  pose proof (walk_dirs_exact (S (dir_count (FsDir root.1 root.2))) w0 eq_refl) as Hw.
  assert (P : promised w0 = tree_entries "" (FsDir root.1 root.2)).
  { unfold promised, w0. cbn [wk_stack wk_out]. rewrite all_entries_cons. unfold dir_entries. cbn [fst snd].
    destruct (tree_entries "" _); simpl; [by rewrite app_nil_r | done]. }
  destruct (walk_dirs _ _ _) as [|w]; cbn [mbind result_bind].
  - rewrite <- P, Hw; [done|]. unfold dirs_left, w0. simpl. lia.
  - destruct Hw as [Hs Hinv]; [unfold dirs_left, w0; simpl; lia|]. rewrite P in Hs.
    destruct (tree_entries "" _) as [tree|]; [|inversion Hs].
    inversion Hs as [? ? Hp|]; subst. cbn [mbind option_bind].
    assert (Ew : wk_walked w = list_to_set (me_path <$> tree)).
    { rewrite Hinv. by rewrite Hp. }
    rewrite <- Ew, <- gitlink_entries_exact.
    destruct (gitlink_entries _ _); cbn; constructor. by rewrite Hp.
Qed.
End listing.


(** A worktree with a source file, a tool script and a link below a directory,
    version control to skip and a pinned submodule; and the same worktree
    reported in another order. *)
Module Worktree.
Definition tools : FsNode := FsDir true
  [(lit "run.sh", FsFile 493 (Some (lit "make"))); (lit "current", FsLink (Some (lit "run.sh")))].
Definition root := (true, [(lit "main.rs", FsFile 420 (Some (lit "fn main() {}"))); (lit ".git", FsGone);
  (lit "tools", tools); (lit "vendor", FsDir true [])]).
Definition reordered := (true, rev root.2).
Definition gitlinks : gmap string string :=
  {["vendor" := "0123456789abcdef0123456789abcdef01234567"]}.
Definition entries r := default [] (ok (manifest_from_dir r gitlinks)).
End Worktree.

Lemma entries_ok r : is_ok (manifest_from_dir r Worktree.gitlinks) = true →
  manifest_from_dir r Worktree.gitlinks = Ok (Worktree.entries r).
Proof. unfold Worktree.entries. by destruct (manifest_from_dir _ _). Qed.

