(* ===== verification/Receipts.v ===== *)
(** * Receipts and reports

    Models the data of src/src/receipt.rs and src/src/profiles/mod.rs: the
    receipt a producer exports, the report a validator returns, the profile
    tables and their hashes. *)

From S2P Require Export Replay.

(** ** Profile data *)

Definition BELLBOOK_CORE_V1 : string := "bellbook-core-v1".
Definition DELIVERY_RECEIPT_V1 : string := "delivery-receipt-v1".
Definition BELLBOOK_CORE_SIGNED_V1 : string := "bellbook-core-signed-v1".

Definition known_profiles : list string :=
  [BELLBOOK_CORE_V1; DELIVERY_RECEIPT_V1; BELLBOOK_CORE_SIGNED_V1].

Module ProfileStatus.
Inductive t := Conformant | NonConformant | Unknown.
Definition name (k : t) : string :=
  match k with
  | Conformant => "Conformant" | NonConformant => "NonConformant" | Unknown => "Unknown"
  end.
#[export] Instance eq_dec : EqDecision t.
Proof. solve_decision. Defined.
End ProfileStatus.
Export (hints) ProfileStatus.

Record ProfileRef := mk_ProfileRef { pf_id : string; pf_version : N; pf_hash : Hash256 }.

Record ClauseResult := mk_ClauseResult { cr_id : string; cr_passed : bool; cr_detail : string }.

Record ProfileResult := mk_ProfileResult {
  pr_id : string;
  pr_hash : Hash256;
  pr_status : ProfileStatus.t;
  pr_clauses : list ClauseResult;
  pr_declared : bool;
  pr_declaration_matches : option bool;
}.

(** [ProfileResult::met]. *)
Definition met (p : ProfileResult) : bool :=
  (pr_status p =? ProfileStatus.Conformant) && negb (pr_declaration_matches p =? Some false).

Record Clause := mk_Clause { cl_id : string; cl_statement : string }.
Record ProfileTable := mk_ProfileTable { pt_id : string; pt_version : N; pt_clauses : list Clause }.

#[export] Instance ser_ProfileRef : Serialize ProfileRef := λ p,
  VObject [("id", to_value (pf_id p)); ("version", to_value (pf_version p));
           ("hash", to_value (pf_hash p))].
#[export] Instance ser_Clause : Serialize Clause := λ c,
  VObject [("id", to_value (cl_id c)); ("statement", to_value (cl_statement c))].
#[export] Instance ser_ProfileTable : Serialize ProfileTable := λ t,
  VObject [("id", to_value (pt_id t)); ("version", to_value (pt_version t));
           ("clauses", to_value (pt_clauses t))].

(** ** Receipts *)

Record Receipt := mk_Receipt {
  rcpt_spec_version : string;
  rcpt_profiles : list ProfileRef;
  rcpt_rules : VerifierRules;
  rcpt_records : list record;
}.

#[export] Instance ser_Receipt : Serialize Receipt := λ r,
  VObject ([("spec_version", to_value (rcpt_spec_version r))]
    ++ match rcpt_profiles r with [] => [] | l => [("profiles", to_value l)] end
    ++ [("rules", to_value (rcpt_rules r)); ("records", to_value (rcpt_records r))]).

Definition PROFILE_DECLARATIONS_SINCE : string := "0.4".

(** [Receipt::new]. *)
Definition new_receipt (records : list record) (rules : VerifierRules) : Receipt :=
  mk_Receipt SPEC_VERSION [] rules records.

(** [Receipt::to_bytes]. *)
Definition to_bytes `{Primitives} (r : Receipt) : option bytes := canonical_json r.

(** [serde_json::from_slice::<Receipt>]: a receipt, or serde's error text. *)
Class ReceiptParser := from_bytes : bytes → string + Receipt.

(** ** Reports *)

Module ValidationStatus.
Inductive t := Clean | Tainted | Invalid.
Definition name (k : t) : string :=
  match k with Clean => "Clean" | Tainted => "Tainted" | Invalid => "Invalid" end.
#[export] Instance eq_dec : EqDecision t.
Proof. solve_decision. Defined.
End ValidationStatus.
Export (hints) ValidationStatus.

(** The [problem] text: one constructor per message, with what it quotes. *)
Module Problem.
Inductive t :=
  | TooManyBytes (len limit : N)
  | Unparseable (e : string)
  | TooManyRecords (len limit : N)
  | PayloadTooLarge (idx : nat)
  | TooManyRefs (idx : nat)
  | UnsupportedVersion (version : string)
  | DeclarationsTooEarly (version : string)
  | EmptyProfileId (idx : nat)
  | RepeatedProfile (id : string)
  | RulesNotCanonical.
End Problem.

Record Report := mk_Report {
  rp_status : ValidationStatus.t;
  rp_reason : option ReasonCode.t;
  rp_problem : option Problem.t;
  rp_spec_version : string;
  rp_record_count : N;
  rp_checked_records : N;
  rp_last_time : Time;
  rp_head_hash : Hash256;
  rp_rules_hash : Hash256;
  rp_retracted_records : gset RecordId;
  rp_tainted_records : gset RecordId;
  rp_standing : StandingSection;
  rp_profiles : list ProfileResult;
}.

(** [Report::structural_failure]. *)
Definition structural_failure (problem : Problem.t) (spec_version : string) : Report :=
  mk_Report ValidationStatus.Invalid None (Some problem) spec_version 0 0 0%N zero_hash zero_hash
    ∅ ∅ empty_standing [].

Definition set_profiles (l : list ProfileResult) (r : Report) : Report :=
  mk_Report (rp_status r) (rp_reason r) (rp_problem r) (rp_spec_version r) (rp_record_count r)
    (rp_checked_records r) (rp_last_time r) (rp_head_hash r) (rp_rules_hash r)
    (rp_retracted_records r) (rp_tainted_records r) (rp_standing r) l.

Record ValidationLimits := mk_ValidationLimits {
  max_bytes : N;
  max_records : N;
  max_payload_bytes : N;
  max_refs_per_record : N;
}.

(** [ValidationLimits::default] and [unlimited]. *)
Definition default_limits : ValidationLimits :=
  mk_ValidationLimits (N.shiftl 64 20) 1000000 (N.shiftl 16 20) 4096.
Definition unlimited : ValidationLimits :=
  mk_ValidationLimits u64_max u64_max u64_max u64_max.

(** ** The clause tables *)

Definition core_v1_table : ProfileTable := mk_ProfileTable BELLBOOK_CORE_V1 1
  [mk_Clause "B1" "The receipt validates Clean or Tainted; an Invalid receipt never conforms.";
   mk_Clause "B2" "author_roles is non-empty, and every accepted record's author is registered in it.";
   mk_Clause "B3" "evidence_thresholds carries entries for Candidate, Evaluation, and Selection, each no weaker than the schema base class (Reported, Reported, Inferred).";
   mk_Clause "B4" "max_context_records is declared within 1..=100000.";
   mk_Clause "B5" "Retraction and reaffirmation authority are readable from the rules: admin_retraction_actors and reaffirmation_actors are reported.";
   mk_Clause "B6" "The source binding mode of every accepted Candidate (Manifest or Reported) is reported; neither is required."].

(** [signed_v1::table]. *)
Definition signed_v1_table : ProfileTable := mk_ProfileTable BELLBOOK_CORE_SIGNED_V1 1
  [mk_Clause "S0" "The receipt conforms to bellbook-core-v1, and if it declares that profile the declaration names the evaluated table.";
   mk_Clause "S1" "signature_required_kinds includes Candidate, Evaluation, Selection, Retraction, and Requirement.";
   mk_Clause "S2" "author_keys pins every actor that authored an accepted Candidate, Evaluation, Selection, Retraction, or Requirement.";
   mk_Clause "S3" "Every evaluation Used by an accepted Selection with outcome Selected carries the schema bellbook.evaluation.attested.v1."].

(** [delivery_v1::table]. *)
Definition delivery_v1_table : ProfileTable := mk_ProfileTable DELIVERY_RECEIPT_V1 1
  [mk_Clause "D0" "At least one delivery claim exists: an accepted Selection with outcome Selected whose Used evaluations bind to requirements of exactly one Request. For each request the latest sound claim is evaluated; earlier ones are reported superseded.";
   mk_Clause "D1" "Every accepted, unretracted Requirement with required true under the claim's request, as of the receipt head, has at least one evaluation among the claim's Used evaluations that references it with outcome passed.";
   mk_Clause "D2" "No evaluation among the claim's Used evaluations that references a required requirement has an outcome other than passed.";
   mk_Clause "D3" "The claim chooses exactly one candidate; every evaluation it uses judges that candidate, carries a non-empty evidence set, and every evidence reference appears in the candidate's artifacts or in the artifacts of an accepted Result in the same thread.";
   mk_Clause "D4" "The author of every evaluation the claim uses is a different actor from the author of the claimed candidate.";
   mk_Clause "D5" "Every evaluation the claim uses carries evaluator.id, evaluator.procedure_hash, evaluator.input_hash, and a declared basis; the weakest basis in the claim is reported.";
   mk_Clause "D6" "The receipt conforms to bellbook-core-v1 (or a stronger tier), and if it declares that profile the declaration names the evaluated table.";
   mk_Clause "D7" "The claim's Selection is sound, untainted, and unretracted at the receipt head."].

(** [profile_table]. *)
Definition profile_table (id : string) : option ProfileTable :=
  if id =? BELLBOOK_CORE_V1 then Some core_v1_table else
  if id =? DELIVERY_RECEIPT_V1 then Some delivery_v1_table else
  if id =? BELLBOOK_CORE_SIGNED_V1 then Some signed_v1_table else None.

Section declarations.
Context `{Primitives}.

(** [profile_hash]. *)
Definition profile_hash (table : ProfileTable) : Hash256 :=
  default zero_hash (sha256_canonical table).

(** [profile_ref]. *)
Definition profile_ref (id : string) : option ProfileRef :=
  t ← profile_table id; Some (mk_ProfileRef (pt_id t) (pt_version t) (profile_hash t)).

(** Why [with_declared_profiles] refuses an id. *)
Inductive DeclareError := DeclaredTwice (id : string) | UnknownProfile (id : string).

(** The loop of [Receipt::with_declared_profiles]. *)
Fixpoint with_declared_profiles (r : Receipt) (ids : list string) : DeclareError + Receipt :=
  match ids with
  | [] => Ok r
  | id :: ids =>
      if existsb (λ p, pf_id p =? id) (rcpt_profiles r) then Err (DeclaredTwice id) else
      decl ← ok_or (profile_ref id) (UnknownProfile id);
      with_declared_profiles
        (mk_Receipt (rcpt_spec_version r) (rcpt_profiles r ++ [decl]) (rcpt_rules r) (rcpt_records r)) ids
  end.

(** [evaluate_declared], over the evaluation of the profile. *)
Definition as_declared (decl : ProfileRef) (result : ProfileResult) : ProfileResult :=
  mk_ProfileResult (pr_id result) (pr_hash result) (pr_status result) (pr_clauses result) true
    (match profile_table (pf_id decl) with
     | Some table => Some ((pf_version decl =? pt_version table)%N && (pf_hash decl =? pr_hash result))
     | None => pr_declaration_matches result
     end).
End declarations.
