(* ===== verification/Profiles.v ===== *)
(** * Profiles

    Models src/src/profiles/mod.rs and src/src/profiles/signed_v1.rs: the
    predicates a validator evaluates over a receipt and its report. *)

From S2P Require Export Receipts.

(** Rust's [Debug] form of a [str], which consults the Unicode tables of the
    standard library. It only occurs in explanatory text. *)
Class TextFormat := debug_str : string → string.

Definition join (sep : string) (l : list string) : string := String.concat sep l.
Definition short (id : RecordId) : string := String.substring 0 12 (hex_encode id).
Definition all_passed (clauses : list ClauseResult) : bool := forallb cr_passed clauses.

(** The [finish] every profile ends with. *)
Definition finish `{Primitives} (table : ProfileTable) (clauses : list ClauseResult) : ProfileResult :=
  mk_ProfileResult (pt_id table) (profile_hash table)
    (if all_passed clauses then ProfileStatus.Conformant else ProfileStatus.NonConformant)
    clauses false None.

(** Every clause failed for one reason. *)
Definition all_failed `{Primitives} (table : ProfileTable) (reason : string) : ProfileResult :=
  finish table ((λ c, mk_ClauseResult (cl_id c) false reason) <$> pt_clauses table).

Section core.
Context `{Primitives, Serde, TextFormat} (receipt : Receipt) (report : Report).
Let rules := rcpt_rules receipt.

(** One line of B3: the threshold is present and at least as strict as the
    schema base class. *)
Definition threshold_note (k : Kind.t * Evidence.t) : bool * string :=
  match evidence_thresholds rules !! k.1 with
  | Some t =>
      if leb t k.2 then (true, Kind.name k.1 +:+ "=" +:+ Evidence.name t)
      else (false, Kind.name k.1 +:+ "=" +:+ Evidence.name t +:+ " (weaker than " +:+ Evidence.name k.2 +:+ ")")
  | None => (false, Kind.name k.1 +:+ "=missing")
  end.
Definition required_thresholds : list (Kind.t * Evidence.t) :=
  [(Kind.Candidate, Evidence.Reported); (Kind.Evaluation, Evidence.Reported);
   (Kind.Selection, Evidence.Inferred)].

(** The binding modes of the accepted candidates, for B6. *)
Definition accepted_bindings : list BindingMode.t :=
  if rp_status report =? ValidationStatus.Invalid then [] else
  let accepted := default ∅ (accepted_records <$> build_state_unchecked (rcpt_records receipt)) in
  omap (λ r,
    if negb (rec_kind r =? Kind.Candidate) || negb (rec_id r ∈? accepted) then None else
    cd ← (decode (rec_data r) : option CandidateData); Some (sb_binding (cd_source cd)))
    (rcpt_records receipt).
Definition count_binding (b : BindingMode.t) : nat :=
  length (filter (λ x, (x =? b) = true) accepted_bindings).

(** The six clauses of [evaluate_core_v1]. *)
Definition core_clauses : list ClauseResult :=
  [mk_ClauseResult "B1" (negb (rp_status report =? ValidationStatus.Invalid))
     ("status " +:+ ValidationStatus.name (rp_status report));
   mk_ClauseResult "B2" (negb (bool_decide (author_roles rules = ∅)))
     (pretty (size (author_roles rules)) +:+ " registered author role(s)");
   mk_ClauseResult "B3" (forallb fst (threshold_note <$> required_thresholds))
     (join ", " (snd <$> (threshold_note <$> required_thresholds)));
   mk_ClauseResult "B4"
     ((1 <=? max_context_records rules)%N && (max_context_records rules <=? 100000)%N)
     ("max_context_records " +:+ pretty (max_context_records rules));
   mk_ClauseResult "B5" true
     ("admin_retraction_actors [" +:+ join ", " (btree_members (admin_retraction_actors rules))
      +:+ "], reaffirmation_actors [" +:+ join ", " (btree_members (reaffirmation_actors rules)) +:+ "]");
   mk_ClauseResult "B6" true
     ("candidates: " +:+ pretty (count_binding BindingMode.Manifest) +:+ " manifest-bound, "
      +:+ pretty (count_binding BindingMode.Reported) +:+ " reported")].

(** [evaluate_core_v1]. *)
Definition evaluate_core_v1 : ProfileResult := finish core_v1_table core_clauses.

(** The baseline as the other profiles evaluate it: as declared, or as the
    fallback. *)
Definition core_result : ProfileResult :=
  match list_find (λ p, pf_id p = BELLBOOK_CORE_V1) (rcpt_profiles receipt) with
  | Some (_, decl) => as_declared decl evaluate_core_v1
  | None => evaluate_core_v1
  end.
Definition core_detail : string :=
  BELLBOOK_CORE_V1 +:+ ": " +:+ ProfileStatus.name (pr_status core_result)
  +:+ match pr_declared core_result, pr_declaration_matches core_result with
      | true, Some true => " (declared, declaration matches)"
      | true, Some false => " (declared, DECLARATION MISMATCH)"
      | true, None => " (declared)"
      | false, _ => " (not declared; evaluated as the fallback)"
      end.

(** ** Lookups every record-level clause shares *)

(** The [by_id] map; a later record takes the place of an earlier one. *)
Definition records_by_id : gmap RecordId record :=
  fold_left (λ m r, <[rec_id r := r]> m) (rcpt_records receipt) ∅.

Definition is_accepted (s : State) (id : RecordId) : bool :=
  (id ∈? accepted_records s) && is_Some_b (records_by_id !! id).
End core.

(** ** [bellbook-core-signed-v1] *)

Definition SIGNED_KINDS : list Kind.t :=
  [Kind.Candidate; Kind.Evaluation; Kind.Selection; Kind.Retraction; Kind.Requirement].

Section signed.
Context `{Primitives, Serde, TextFormat} (receipt : Receipt) (report : Report).
Let rules := rcpt_rules receipt.

(** S1: the kinds the rules do not demand a signature on. *)
Definition unsigned_kinds : list string :=
  Kind.name <$> filter (λ k, negb (k ∈? signature_required_kinds rules) = true) SIGNED_KINDS.

(** S2: the accepted evolution records, and their authors by pinning. *)
Definition evolution_records (s : State) : list record :=
  filter (λ r, bool_decide (rec_kind r ∈ SIGNED_KINDS) && is_accepted receipt s (rec_id r) = true)
    (rcpt_records receipt).
Definition is_pinned (r : record) : bool := is_Some_b (author_keys rules !! author_id (rec_author r)).
Definition pinned_authors (s : State) : gset string :=
  list_to_set ((λ r, author_id (rec_author r)) <$> filter (λ r, is_pinned r = true) (evolution_records s)).
Definition unpinned_authors (s : State) : gmap string (gset string) :=
  fold_left (λ m r,
    let author := author_id (rec_author r) in
    <[author := {[Kind.name (rec_kind r)]} ∪ default ∅ (m !! author)]> m)
    (filter (λ r, negb (is_pinned r) = true) (evolution_records s)) ∅.

(** S3: the accepted evaluations an accepted [Selected] selection uses. *)
Definition is_selected (rec : record) : bool :=
  match (decode (rec_data rec) : option SelectionData) with
  | Some sd => match sl_outcome sd with SelectionOutcome.Selected _ => true | _ => false end
  | None => false
  end.
Definition used_evaluations (s : State) (rec : record) : list record :=
  omap (λ f,
    target ← records_by_id receipt !! ref_target f;
    if negb (rec_kind target =? Kind.Evaluation) || negb (is_accepted receipt s (rec_id target))
    then None else Some target)
    (filter (λ f, is_type RefType.Use f = true) (rec_refs rec)).
Definition relied_evaluations (s : State) : list record :=
  concat (used_evaluations s <$>
    filter (λ rec, (rec_kind rec =? Kind.Selection) && is_accepted receipt s (rec_id rec)
                   && is_selected rec = true) (rcpt_records receipt)).
Definition not_attested (s : State) : list string :=
  dedup (sort_by cmp ((λ r, short (rec_id r)) <$>
    filter (λ r, negb (rec_schema r =? schema_id SCHEMA_EVALUATION_ATTESTED) = true)
      (relied_evaluations s))).

Definition signed_clauses (s : State) : list ClauseResult :=
  [mk_ClauseResult "S0" (met (core_result receipt report)) (core_detail receipt report);
   mk_ClauseResult "S1" (bool_decide (unsigned_kinds = []))
     (if bool_decide (unsigned_kinds = [])
      then "signatures required for Candidate, Evaluation, Selection, Retraction, Requirement"
      else "signature not required for " +:+ join ", " unsigned_kinds);
   mk_ClauseResult "S2" (bool_decide (unpinned_authors s = ∅))
     (if bool_decide (unpinned_authors s = ∅)
      then pretty (size (pinned_authors s)) +:+ " pinned author(s) of evolution records: ["
           +:+ join ", " (btree_members (pinned_authors s)) +:+ "]"
      else "unpinned: " +:+ join ", "
             ((λ e, debug_str e.1 +:+ " (" +:+ join ", " (btree_members e.2) +:+ ")")
              <$> btree_entries (unpinned_authors s)));
   mk_ClauseResult "S3" (bool_decide (not_attested s = []))
     (if bool_decide (not_attested s = [])
      then pretty (length (relied_evaluations s)) +:+ " evaluation(s) used by selections, all attested"
      else "not attested: " +:+ pretty (length (not_attested s)) +:+ " of "
           +:+ pretty (length (relied_evaluations s)) +:+ " used evaluation(s): ["
           +:+ join ", " (not_attested s) +:+ "]")].

(** [signed_v1::evaluate]. *)
Definition evaluate_signed_v1 : ProfileResult :=
  if rp_status report =? ValidationStatus.Invalid then all_failed signed_v1_table "receipt is Invalid" else
  match build_state_unchecked (rcpt_records receipt) with
  | None => all_failed signed_v1_table "state could not be rebuilt"
  | Some s => finish signed_v1_table (signed_clauses s)
  end.
End signed.
