(* ===== verification/Delivery.v ===== *)
(** * The delivery-receipt profile

    Models src/src/profiles/delivery_v1.rs: the delivery claims of a receipt
    and the eight clauses over them. *)

From S2P Require Export Profiles.

(** One delivery claim as the profile sees it. *)
Record Claim := mk_Claim {
  cm_selection : record;
  cm_request : RecordId;
  cm_chosen : list RecordId;
  cm_used : list record;
}.
Definition claim_time (c : Claim) : Time := rec_time (cm_selection c).
Definition claim_id (c : Claim) : RecordId := rec_id (cm_selection c).

(** [Iterator::rposition]. *)
Fixpoint rposition {A} (f : A → bool) (l : list A) : option nat :=
  match l with
  | [] => None
  | x :: l =>
      match rposition f l with
      | Some i => Some (S i)
      | None => if f x then Some 0 else None
      end
  end.

Section delivery.
Context `{Primitives, Serde, TextFormat} (receipt : Receipt) (report : Report) (s : State).
Let records := rcpt_records receipt.
Let retracted := rp_retracted_records report.

Definition is_kind (k : Kind.t) (rec : record) : bool :=
  (rec_kind rec =? k) && is_accepted receipt s (rec_id rec).

(** The request a requirement belongs to: the target of its first [Cause]. *)
Definition requirement_request (rid : RecordId) : option RecordId :=
  r ← records_by_id receipt !! rid;
  if negb (is_kind Kind.Requirement r) then None else ref_target <$> head (cause_refs r).

(** The requests the requirements of the used evaluations belong to. *)
Definition claim_requests (used : list record) : gset RecordId :=
  list_to_set (concat ((λ e,
    match (decode (rec_data e) : option EvaluationDataV2) with
    | Some ev => omap requirement_request (e2_requirements ev)
    | None => []
    end) <$> used)).

(** The body of the D0 loop for one record. *)
Definition claim_of (rec : record) : option Claim :=
  if negb (is_kind Kind.Selection rec) then None else
  sd ← (decode (rec_data rec) : option SelectionData);
  match sl_outcome sd with
  | SelectionOutcome.Selected chosen =>
      let used := used_evaluations receipt s rec in
      match elements (claim_requests used) with
      | [request] => Some (mk_Claim rec request chosen used)
      | _ => None
      end
  | _ => None
  end.
Definition candidate_claims : list Claim := omap claim_of records.

Definition claim_sound (sel : record) : bool :=
  negb (rec_id sel ∈? unsound (rp_standing report)) && negb (rec_id sel ∈? retracted)
  && negb (rec_id sel ∈? rp_tainted_records report).

(** [by_request]: the claims of each request in log order. *)
Definition by_request : gmap RecordId (list Claim) :=
  fold_left (λ m c, <[cm_request c := default [] (m !! cm_request c) ++ [c]]> m) candidate_claims ∅.

Definition by_time (a b : Claim) : comparison := cmp (claim_time a) (claim_time b).

(** The claim picked from one group, and the ids of the others. *)
Definition pick (group : list Claim) : nat :=
  default (length group - 1) (rposition (λ c, claim_sound (cm_selection c)) group).
Definition picked (group : list Claim) : list Claim :=
  let group := sort_by by_time group in
  match group !! pick group with Some c => [c] | None => [] end.
Definition passed_over (group : list Claim) : list RecordId :=
  let group := sort_by by_time group in
  claim_id <$> (take (pick group) group ++ drop (S (pick group)) group).

Definition claims : list Claim :=
  sort_by by_time (concat ((λ e, picked e.2) <$> btree_entries by_request)).
Definition superseded : list RecordId := concat ((λ e, passed_over e.2) <$> btree_entries by_request).

(** ** The facts of one claim *)

Section claim.
Context (claim : Claim).
Let tag := short (claim_id claim).

Definition used_v2 : list (record * EvaluationDataV2) :=
  omap (λ e, d ← (decode (rec_data e) : option EvaluationDataV2); Some (e, d)) (cm_used claim).

(** The required requirements under the request, at the head. *)
Definition required_requirements : list (RecordId * string) :=
  omap (λ rec,
    if negb (is_kind Kind.Requirement rec) || (rec_id rec ∈? retracted)
       || negb (requirement_request (rec_id rec) =? Some (cm_request claim)) then None else
    rd ← (decode (rec_data rec) : option RequirementData);
    if rm_required rd then Some (rec_id rec, rm_key rd) else None) records.
Definition required_ids : gset RecordId := list_to_set (fst <$> required_requirements).

Definition is_passed (o : EvaluationOutcomeV2.t ScoredValue) : bool :=
  match o with EvaluationOutcomeV2.Passed => true | _ => false end.
Definition covered (rid : RecordId) : bool :=
  existsb (λ e, negb (rec_id e.1 ∈? retracted) && is_passed (e2_outcome e.2)
                && bool_decide (rid ∈ e2_requirements e.2)) used_v2.
Definition uncovered : list string :=
  snd <$> filter (λ r, negb (covered r.1) = true) required_requirements.
Definition d1 : bool * string :=
  if bool_decide (uncovered = [])
  then (true, tag +:+ ": " +:+ pretty (length required_requirements) +:+ " required requirement(s) covered")
  else (false, tag +:+ ": uncovered " +:+ join ", " uncovered).

Definition non_passing : list string :=
  (λ e, short (rec_id e.1) +:+ " " +:+ label (e2_outcome e.2)) <$>
    filter (λ e, existsb (λ r, r ∈? required_ids) (e2_requirements e.2)
                 && negb (is_passed (e2_outcome e.2)) = true) used_v2.
Definition d2 : bool * string :=
  if bool_decide (non_passing = [])
  then (true, tag +:+ ": every used evaluation of a required requirement passed")
  else (false, tag +:+ ": non-passing " +:+ join ", " non_passing).

(** The one candidate the claim chooses, and its record. *)
Definition chosen_candidate : option RecordId :=
  match cm_chosen claim with [c] => Some c | _ => None end.
Definition candidate_rec : option record := chosen_candidate ≫= λ c, records_by_id receipt !! c.

Definition artifact_pair (a : ArtifactRef) : string * string := (ar_scheme a, ar_digest a).

(** The artifacts of the candidate and of the accepted results of the
    thread. *)
Definition on_record : gset (string * string) :=
  match candidate_rec with
  | None => ∅
  | Some c =>
      list_to_set (artifact_pair <$>
        default [] ((decode (rec_data c) : option CandidateData) ≫= cd_artifacts))
      ∪ list_to_set (concat ((λ rec,
          if is_kind Kind.Result rec && (rec_thread rec =? rec_thread (cm_selection claim))
          then artifact_pair <$> default [] ((decode (rec_data rec) : option ResultData) ≫= rt_artifacts)
          else []) <$> records))
  end.

Definition d3_note (e : record * EvaluationDataV2) : list string :=
  (if negb (Some (e2_candidate e.2) =? chosen_candidate)
   then [short (rec_id e.1) +:+ " judges another candidate"] else [])
  ++ match e2_evidence e.2 with
     | [] => [short (rec_id e.1) +:+ " has no evidence"]
     | _ => []
     end
  ++ omap (λ a,
       if artifact_pair a ∈? on_record then None
       else Some (short (rec_id e.1) +:+ " cites " +:+ ar_scheme a +:+ ":" +:+ ar_digest a
                  +:+ " which is not on the record")) (e2_evidence e.2).
Definition v1_count : nat := length (cm_used claim) - length used_v2.
Definition d3_notes : list string :=
  match chosen_candidate with
  | Some _ => []
  | None => ["chooses " +:+ pretty (length (cm_chosen claim)) +:+ " candidates"]
  end
  ++ (if negb (length used_v2 =? length (cm_used claim))%nat
      then [pretty v1_count +:+ " evaluation(s) without an evidence set (v1 shape)"] else [])
  ++ concat (d3_note <$> used_v2).
Definition d3 : bool * string :=
  if bool_decide (d3_notes = [])
  then (true, tag +:+ ": " +:+ pretty (length used_v2)
              +:+ " evaluation(s) bound to the chosen candidate, evidence on the record")
  else (false, tag +:+ ": " +:+ join "; " d3_notes).

Definition producer : option string := (λ c, author_id (rec_author c)) <$> candidate_rec.
Definition self_judged : list string :=
  (λ e, short (rec_id e)) <$> filter (λ e, (Some (author_id (rec_author e)) =? producer) = true) (cm_used claim).
Definition d4 : bool * string :=
  match producer with
  | Some p =>
      if bool_decide (self_judged = [])
      then (true, tag +:+ ": producer " +:+ debug_str p +:+ ", every evaluator distinct")
      else (false, tag +:+ ": producer " +:+ debug_str p +:+ " authored evaluation(s) "
                   +:+ join ", " self_judged)
  | None => (false, tag +:+ ": no single claimed candidate")
  end.

Definition unbound : list string :=
  (if negb (length used_v2 =? length (cm_used claim))%nat
   then [pretty v1_count +:+ " evaluation(s) carry no decider binding (v1 shape)"] else [])
  ++ omap (λ e,
       if is_Some_b (db_procedure_hash (e2_evaluator e.2)) && is_Some_b (db_input_hash (e2_evaluator e.2))
       then None else Some (short (rec_id e.1) +:+ " lacks procedure_hash or input_hash")) used_v2.
Definition is_declared (e : record * EvaluationDataV2) : bool := e2_basis e.2 =? Basis.Declared.
Definition basis_label : string :=
  match used_v2 with
  | [] => "none"
  | _ => if existsb is_declared used_v2 then "declared" else "recomputed"
  end.
Definition d5 : bool * string :=
  match unbound, used_v2 with
  | [], _ :: _ => (true, tag +:+ ": weakest basis " +:+ basis_label)
  | [], [] => (false, tag +:+ ": no evaluation used; weakest basis " +:+ basis_label)
  | l, _ => (false, tag +:+ ": " +:+ join "; " l +:+ "; weakest basis " +:+ basis_label)
  end.

Definition d7 : bool * string :=
  let id := claim_id claim in
  let unsound := id ∈? unsound (rp_standing report) in
  let tainted := id ∈? rp_tainted_records report in
  let was_retracted := id ∈? retracted in
  if negb unsound && negb tainted && negb was_retracted
  then (true, tag +:+ ": sound, untainted")
  else (false, tag +:+ ": " +:+ join ", " ((if unsound then ["unsound"] else [])
         ++ (if tainted then ["tainted"] else []) ++ (if was_retracted then ["retracted"] else []))).
End claim.

(** ** The clauses *)

Definition d0_detail : string :=
  join "; " ((λ c, "claim " +:+ short (claim_id c) +:+ " for request " +:+ short (cm_request c)) <$> claims)
  +:+ match superseded with
      | [] => ""
      | l => "; superseded: " +:+ join ", " (short <$> l)
      end.

(** A clause passes when it holds for every evaluated claim. *)
Definition per_claim (id : string) (fact : Claim → bool * string) : ClauseResult :=
  mk_ClauseResult id (forallb (λ c, (fact c).1) claims) (join "; " ((λ c, (fact c).2) <$> claims)).

Definition delivery_clauses : list ClauseResult :=
  match claims with
  | [] =>
      mk_ClauseResult "D0" false "no delivery claim: no accepted Selected selection whose used evaluations bind to requirements of exactly one request"
      :: ((λ id, mk_ClauseResult id false "no claim to evaluate") <$>
            ["D1"; "D2"; "D3"; "D4"; "D5"; "D6"; "D7"])
  | _ =>
      [mk_ClauseResult "D0" true d0_detail;
       per_claim "D1" d1; per_claim "D2" d2; per_claim "D3" d3; per_claim "D4" d4; per_claim "D5" d5;
       mk_ClauseResult "D6" (met (core_result receipt report)) (core_detail receipt report);
       per_claim "D7" d7]
  end.
End delivery.

(** [delivery_v1::evaluate]. *)
Definition evaluate_delivery_v1 `{Primitives, Serde, TextFormat} (receipt : Receipt) (report : Report)
    : ProfileResult :=
  if rp_status report =? ValidationStatus.Invalid then all_failed delivery_v1_table "receipt is Invalid" else
  match build_state_unchecked (rcpt_records receipt) with
  | None => all_failed delivery_v1_table "state could not be rebuilt"
  | Some s => finish delivery_v1_table (delivery_clauses receipt report s)
  end.
