(* ===== verification/Validate.v ===== *)
(** * Receipt validation

    Models the validators of src/src/receipt.rs and the profile dispatch of
    src/src/profiles/mod.rs. *)

From S2P Require Export Delivery.

Section validate.
Context `{Primitives, Serde, HashOrder, TextFormat, ReceiptParser}.

(** ** Profile dispatch *)

(** [evaluate_profile]. *)
Definition evaluate_profile (id : string) (receipt : Receipt) (report : Report) : ProfileResult :=
  if id =? BELLBOOK_CORE_V1 then evaluate_core_v1 receipt report else
  if id =? DELIVERY_RECEIPT_V1 then evaluate_delivery_v1 receipt report else
  if id =? BELLBOOK_CORE_SIGNED_V1 then evaluate_signed_v1 receipt report else
  mk_ProfileResult id zero_hash ProfileStatus.Unknown [] false None.

(** [evaluate_declared]. *)
Definition evaluate_declared (decl : ProfileRef) (receipt : Receipt) (report : Report) : ProfileResult :=
  as_declared decl (evaluate_profile (pf_id decl) receipt report).

(** The second loop of [evaluate_profiles]. *)
Fixpoint evaluate_required (receipt : Receipt) (report : Report) (required : list string)
    (out : list ProfileResult) : list ProfileResult :=
  match required with
  | [] => out
  | id :: required =>
      if existsb (λ p, pr_id p =? id) out then evaluate_required receipt report required out
      else evaluate_required receipt report required (out ++ [evaluate_profile id receipt report])
  end.

(** [evaluate_profiles]. *)
Definition evaluate_profiles (receipt : Receipt) (report : Report) (required : list string)
    : list ProfileResult :=
  evaluate_required receipt report required
    ((λ decl, evaluate_declared decl receipt report) <$> rcpt_profiles receipt).

(** ** Structural checks *)

(** [rules_for_epoch]. *)
Definition rules_for_epoch (rules : VerifierRules) (schemas : list string) : VerifierRules :=
  let known : gset Hash256 := list_to_set (schema_id <$> schemas) in
  mk_VerifierRules (rules_space rules) (filter (λ e, (e.1 ∈? known) = true) (kind_schema_map rules))
    (signature_required_kinds rules) (author_keys rules) (author_roles rules)
    (admin_retraction_actors rules) (allowed_summary_types rules) (evidence_thresholds rules)
    (max_context_records rules) (min_binding rules) (selection_requires_evaluation rules)
    (reaffirmation_actors rules) (max_considered rules) (selection_requires_approval rules)
    (reject_compromised_continuation rules).

(** The position of a version, [None] below every [Some]. *)
Definition version_position (v : string) : option nat :=
  fst <$> list_find (λ s, s = v) SUPPORTED_SPEC_VERSIONS.
Definition position_lt (a b : option nat) : bool :=
  match a, b with
  | None, Some _ => true
  | Some x, Some y => (x <? y)%nat
  | _, None => false
  end.

(** The loop over the declarations. *)
Fixpoint check_declared_ids (idx : nat) (seen : gset string) (l : list ProfileRef) : option Problem.t :=
  match l with
  | [] => None
  | decl :: l =>
      reject_if pf_id decl =? "" with Problem.EmptyProfileId idx;;
      reject_if pf_id decl ∈? seen with Problem.RepeatedProfile (pf_id decl);;
      check_declared_ids (S idx) ({[pf_id decl]} ∪ seen) l
  end.

(** [check_declarations]; [None] is success. *)
Definition check_declarations (receipt : Receipt) : option Problem.t :=
  match rcpt_profiles receipt with
  | [] => None
  | l =>
      reject_if position_lt (version_position (rcpt_spec_version receipt))
                  (version_position PROFILE_DECLARATIONS_SINCE)
        with Problem.DeclarationsTooEarly (rcpt_spec_version receipt);;
      check_declared_ids 0 ∅ l
  end.

(** The per-record limits. *)
Fixpoint check_record_limits (limits : ValidationLimits) (idx : nat) (l : list record)
    : option Problem.t :=
  match l with
  | [] => None
  | r :: l =>
      reject_if (max_payload_bytes limits <? N.of_nat (length (rec_data r)))%N
        with Problem.PayloadTooLarge idx;;
      reject_if (max_refs_per_record limits <? N.of_nat (length (rec_refs r)))%N
        with Problem.TooManyRefs idx;;
      check_record_limits limits (S idx) l
  end.

(** ** Validation *)

Definition status_of (verdict : LogVerdict) : ValidationStatus.t :=
  match lv_result verdict with
  | VerdictResult.Reject => ValidationStatus.Invalid
  | VerdictResult.Accept =>
      if bool_decide (lv_retracted_records verdict = ∅) && bool_decide (lv_tainted_records verdict = ∅)
      then ValidationStatus.Clean else ValidationStatus.Tainted
  end.

(** The report of a receipt that reached replay. *)
Definition replay_report (receipt : Receipt) (rules_hash : Hash256) (verdict : LogVerdict) : Report :=
  let report :=
    mk_Report (status_of verdict) (lv_reason verdict) None (rcpt_spec_version receipt)
      (N.of_nat (length (rcpt_records receipt))) (lv_checked_records verdict) (lv_last_time verdict)
      (sha256_concat_ids (rec_id <$> rcpt_records receipt)) rules_hash
      (lv_retracted_records verdict) (lv_tainted_records verdict) (lv_standing verdict) [] in
  set_profiles (evaluate_profiles receipt report []) report.

(** [validate_with_limits]. *)
Definition validate_with_limits (bytes : bytes) (limits : ValidationLimits) : Report :=
  let len := N.of_nat (length bytes) in
  if (max_bytes limits <? len)%N
  then structural_failure (Problem.TooManyBytes len (max_bytes limits)) "" else
  match from_bytes bytes with
  | Err e => structural_failure (Problem.Unparseable e) ""
  | Ok receipt =>
      let fail problem := structural_failure problem (rcpt_spec_version receipt) in
      let count := N.of_nat (length (rcpt_records receipt)) in
      if (max_records limits <? count)%N
      then fail (Problem.TooManyRecords count (max_records limits)) else
      match check_record_limits limits 0 (rcpt_records receipt) with
      | Some problem => fail problem
      | None =>
          match schemas_for_epoch (rcpt_spec_version receipt) with
          | None => fail (Problem.UnsupportedVersion (rcpt_spec_version receipt))
          | Some epoch_schemas =>
              match check_declarations receipt with
              | Some problem => fail problem
              | None =>
                  match sha256_canonical (rcpt_rules receipt) with
                  | None => fail Problem.RulesNotCanonical
                  | Some rules_hash =>
                      replay_report receipt rules_hash
                        (verify_log (rcpt_records receipt)
                           (rules_for_epoch (rcpt_rules receipt) epoch_schemas) None)
                  end
              end
          end
      end
  end.

(** [validate]. *)
Definition validate (bytes : bytes) : Report := validate_with_limits bytes default_limits.

(** [validate_with_profiles]. *)
Definition validate_with_profiles (bytes : bytes) (limits : ValidationLimits) (profiles : list string)
    : Report :=
  let report := validate_with_limits bytes limits in
  if bool_decide (profiles = []) || is_Some_b (rp_problem report) then report else
  match from_bytes bytes with
  | Err _ => report
  | Ok receipt => set_profiles (evaluate_profiles receipt report profiles) report
  end.
End validate.
