(* ===== verification/ReceiptFacts.v ===== *)
(** * Lemmas about receipts

    When a receipt reaches replay, and what its report then says. *)

From S2P Require Export Lists Validate QueryTheorems.

(** A list of declarations the structural check lets through. *)
Definition declarations_ok (l : list ProfileRef) : Prop :=
  NoDup (pf_id <$> l) ∧ "" ∉ (pf_id <$> l).

Lemma check_declared_ids_None idx seen l :
  check_declared_ids idx seen l = None ↔
  declarations_ok l ∧ ∀ id, id ∈ (pf_id <$> l) → id ∉ seen.
Proof.
  unfold declarations_ok.
  revert idx seen. induction l as [|d l IH]; intros idx seen; simpl.
  { split; [|done]. intros _. split_and!; [constructor | |]; set_solver. }
  rewrite NoDup_cons. case_bool_decide as Ee; [split; [done|]; rewrite Ee; set_solver|].
  case_bool_decide as Es; [split; [done|]; set_solver|]. rewrite IH. set_solver.
Qed.

Definition record_within (limits : ValidationLimits) (r : record) : Prop :=
  (N.of_nat (length (rec_data r)) <= max_payload_bytes limits)%N ∧
  (N.of_nat (length (rec_refs r)) <= max_refs_per_record limits)%N.

Lemma check_record_limits_None limits idx l :
  check_record_limits limits idx l = None ↔ Forall (record_within limits) l.
Proof.
  revert idx. induction l as [|r l IH]; intros idx; simpl; [split; auto|].
  rewrite Forall_cons, <- (IH (S idx)). unfold record_within.
  destruct (N.ltb_spec (max_payload_bytes limits) (N.of_nat (length (rec_data r)))); [split; [done|lia]|].
  destruct (N.ltb_spec (max_refs_per_record limits) (N.of_nat (length (rec_refs r)))); [split; [done|lia]|].
  naive_solver.
Qed.

Section receipt_facts.
Context `{Primitives, Serde, HashOrder, TextFormat, ReceiptParser}.

(** The receipt reaches replay, under the schemas of its epoch. *)
Definition admissible (limits : ValidationLimits) (bytes : bytes) (receipt : Receipt)
    (schemas : list string) : Prop :=
  (N.of_nat (length bytes) <= max_bytes limits)%N ∧
  from_bytes bytes = Ok receipt ∧
  (N.of_nat (length (rcpt_records receipt)) <= max_records limits)%N ∧
  Forall (record_within limits) (rcpt_records receipt) ∧
  schemas_for_epoch (rcpt_spec_version receipt) = Some schemas ∧
  (rcpt_spec_version receipt = "0.3" → rcpt_profiles receipt = []) ∧
  declarations_ok (rcpt_profiles receipt) ∧
  is_Some (sha256_canonical (rcpt_rules receipt)).

Lemma check_declarations_None receipt schemas :
  schemas_for_epoch (rcpt_spec_version receipt) = Some schemas →
  check_declarations receipt = None ↔
  (rcpt_spec_version receipt = "0.3" → rcpt_profiles receipt = []) ∧
  declarations_ok (rcpt_profiles receipt).
Proof.
  unfold schemas_for_epoch, check_declarations, declarations_ok.
  destruct (rcpt_profiles receipt) as [|p l] eqn:El.
  { intros _. split; [|done]. intros _. split_and!; [done | constructor | set_solver]. }
  rewrite <- El. case_bool_decide as E3; [rewrite E3; intros _; split; [done|];
    intros [Hp _]; by rewrite Hp in El by done|].
  case_bool_decide as E4; [|done]. intros _. rewrite E4. simpl.
  rewrite check_declared_ids_None. unfold declarations_ok. set_solver.
Qed.

Lemma set_profiles_problem l r : rp_problem (set_profiles l r) = rp_problem r.
Proof. done. Qed.

(** Either a structural failure, or the report of a replay. *)
Lemma validate_cases bytes limits :
  (∃ problem version, validate_with_limits bytes limits = structural_failure problem version ∧
     ∀ receipt schemas, ¬ admissible limits bytes receipt schemas) ∨
  (∃ receipt schemas rules_hash, admissible limits bytes receipt schemas ∧
     validate_with_limits bytes limits = replay_report receipt rules_hash
       (verify_log (rcpt_records receipt) (rules_for_epoch (rcpt_rules receipt) schemas) None)).
Proof.
  unfold validate_with_limits, admissible.
  destruct (N.ltb_spec (max_bytes limits) (N.of_nat (length bytes))).
  { left. eexists _, _. split; [done|]. intros ??. intuition lia. }
  destruct (from_bytes bytes) as [e|receipt];
    [left; eexists _, _; split; [done|]; intros ?? (_ & [=] & _)|].
  destruct (N.ltb_spec (max_records limits) (N.of_nat (length (rcpt_records receipt)))).
  { left. eexists _, _. split; [done|]. intros ?? (_ & [= <-] & ? & _). lia. }
  destruct (check_record_limits limits 0 (rcpt_records receipt)) as [p|] eqn:El.
  { left. eexists _, _. split; [done|]. intros ?? (_ & [= <-] & _ & Hl & _).
    apply (check_record_limits_None limits 0) in Hl. congruence. }
  apply check_record_limits_None in El.
  destruct (schemas_for_epoch (rcpt_spec_version receipt)) as [schemas|] eqn:Es;
    [|left; eexists _, _; split; [done|]; intros ?? (_ & [= <-] & _ & _ & Hs & _); congruence].
  pose proof (check_declarations_None receipt schemas Es) as Hd.
  destruct (check_declarations receipt) as [p|].
  { left. eexists _, _. split; [done|]. intros ?? (_ & [= <-] & _ & _ & _ & Hv & Hok & _).
    discriminate (proj2 Hd (conj Hv Hok)). }
  destruct (proj1 Hd eq_refl) as [Hv Hok].
  destruct (sha256_canonical (rcpt_rules receipt)) as [h|] eqn:Eh.
  - right. exists receipt, schemas, h. rewrite Eh. split_and!; done.
  - left. eexists _, _. split; [done|]. intros ?? (_ & [= <-] & Hx). rewrite Eh in Hx.
    by destruct Hx as (_ & _ & _ & _ & _ & ? & ?).
Qed.

Lemma admissible_unique limits bytes receipt schemas receipt' schemas' :
  admissible limits bytes receipt schemas → admissible limits bytes receipt' schemas' →
  receipt = receipt' ∧ schemas = schemas'.
Proof. intros (_ & E1 & _ & _ & S1 & _) (_ & E2 & _ & _ & S2 & _). split; congruence. Qed.

Lemma validate_admissible bytes limits receipt schemas :
  admissible limits bytes receipt schemas →
  ∃ rules_hash, validate_with_limits bytes limits = replay_report receipt rules_hash
    (verify_log (rcpt_records receipt) (rules_for_epoch (rcpt_rules receipt) schemas) None).
Proof.
  intros Ha. destruct (validate_cases bytes limits) as [(p & v & _ & Hn)|(r & sch & h & Hr & E)].
  - by destruct (Hn receipt schemas).
  - destruct (admissible_unique _ _ _ _ _ _ Ha Hr) as [-> ->]. eauto.
Qed.

(** The structural checks as one test. *)
Definition admissible_b (limits : ValidationLimits) (bytes : bytes) (receipt : Receipt)
    (schemas : list string) : bool :=
  (N.of_nat (length bytes) <=? max_bytes limits)%N
  && (N.of_nat (length (rcpt_records receipt)) <=? max_records limits)%N
  && negb (is_Some_b (check_record_limits limits 0 (rcpt_records receipt)))
  && (schemas_for_epoch (rcpt_spec_version receipt) =? Some schemas)
  && negb (is_Some_b (check_declarations receipt))
  && is_Some_b (sha256_canonical (rcpt_rules receipt)).

Lemma admissible_check limits bytes receipt schemas :
  from_bytes bytes = Ok receipt → admissible_b limits bytes receipt schemas = true →
  admissible limits bytes receipt schemas.
Proof.
  intros Hb. unfold admissible_b. rewrite !andb_true_iff, !N.leb_le, bool_decide_eq_true.
  intros (((((H1' & H2') & Hl) & Hs) & Hd) & Hr).
  destruct (check_record_limits limits 0 (rcpt_records receipt)) eqn:El; [done|].
  apply check_record_limits_None in El.
  destruct (check_declarations receipt) eqn:Ed; [done|].
  apply (check_declarations_None _ _ Hs) in Ed as [Hv Hok].
  split_and!; try done. by destruct (sha256_canonical _).
Qed.

(** A rejecting verdict reports nothing but the reason. *)
Lemma rejected_verdict log rules :
  accepted (verify_log log rules None) = false → lv_result (verify_log log rules None) = VerdictResult.Reject.
Proof. unfold accepted. by destruct (lv_result _). Qed.

Lemma tainted_needs_retracted rules log s :
  Replays rules log s → retracted_records s = ∅ → tainted_records s = ∅.
Proof.
  intros Hlog Hr. destruct (replays_summary rules log s Hlog) as (_ & _ & _ & Ht).
  apply elem_of_equiv_empty_L. intros x (t & Hx & _)%(taint_closed_iff s x Ht).
  rewrite Hr in Hx. set_solver.
Qed.

(** ** The status of a report that reached replay *)

Lemma status_rejected bytes limits receipt schemas :
  admissible limits bytes receipt schemas →
  rp_status (validate_with_limits bytes limits) = ValidationStatus.Invalid ↔
  accepted (verify_log (rcpt_records receipt) (rules_for_epoch (rcpt_rules receipt) schemas) None) = false.
Proof.
  intros Ha. destruct (validate_admissible _ _ _ _ Ha) as [h ->]. simpl. unfold status_of, accepted.
  destruct (lv_result _); [|done]. by destruct (_ && _).
Qed.

Lemma status_invalid bytes limits receipt schemas :
  admissible limits bytes receipt schemas →
  rp_status (validate_with_limits bytes limits) = ValidationStatus.Invalid ↔
  ¬ ∃ s, Replays (rules_for_epoch (rcpt_rules receipt) schemas) (rcpt_records receipt) s.
Proof.
  intros Ha. rewrite (status_rejected _ _ _ _ Ha). split.
  - intros Hv (s & Hs). by rewrite (verify_log_complete _ _ _ Hs) in Hv.
  - intros Hn. apply not_true_iff_false. intros Hv. by apply Hn, verify_log_sound.
Qed.

(** A valid history is Clean or Tainted by whether anything is retracted. *)
Lemma status_retracted bytes limits receipt schemas s :
  admissible limits bytes receipt schemas →
  Replays (rules_for_epoch (rcpt_rules receipt) schemas) (rcpt_records receipt) s →
  rp_status (validate_with_limits bytes limits) =
    if decide (retracted_records s = ∅) then ValidationStatus.Clean else ValidationStatus.Tainted.
Proof.
  intros Ha Hs. destruct (validate_admissible _ _ _ _ Ha) as [h ->].
  rewrite (verify_log_complete _ _ _ Hs). simpl. unfold status_of. simpl.
  case_decide as Er; [|by rewrite bool_decide_false].
  rewrite !bool_decide_true; [done| |done]. by eapply tainted_needs_retracted.
Qed.

Definition retracts (log : list record) : Prop :=
  ∃ r t, accepted_in log r ∧ retraction_target r = Some t.

Lemma retracts_iff rules log s : Replays rules log s → retracts log ↔ retracted_records s ≠ ∅.
Proof.
  intros Hs. destruct (replays_summary _ _ _ Hs) as (_ & _ & Hr & _). split.
  - intros (r & t & Hacc & Ht) E. assert (Hin : t ∈ retracted_records s) by (apply Hr; eauto).
    rewrite E in Hin. set_solver.
  - intros (t & (r & ? & ?)%Hr)%set_choose_L. by exists r, t.
Qed.

Lemma status_clean bytes limits receipt schemas s :
  admissible limits bytes receipt schemas →
  Replays (rules_for_epoch (rcpt_rules receipt) schemas) (rcpt_records receipt) s →
  rp_status (validate_with_limits bytes limits) = ValidationStatus.Clean ↔ ¬ retracts (rcpt_records receipt).
Proof.
  intros Ha Hs. rewrite (status_retracted _ _ _ _ _ Ha Hs), (retracts_iff _ _ _ Hs). case_decide; naive_solver.
Qed.

Lemma status_tainted bytes limits receipt schemas s :
  admissible limits bytes receipt schemas →
  Replays (rules_for_epoch (rcpt_rules receipt) schemas) (rcpt_records receipt) s →
  rp_status (validate_with_limits bytes limits) = ValidationStatus.Tainted ↔ retracts (rcpt_records receipt).
Proof.
  intros Ha Hs. rewrite (status_retracted _ _ _ _ _ Ha Hs), (retracts_iff _ _ _ Hs). case_decide; naive_solver.
Qed.

Lemma problem_invalid bytes limits :
  is_Some (rp_problem (validate_with_limits bytes limits)) →
  rp_status (validate_with_limits bytes limits) = ValidationStatus.Invalid.
Proof.
  by destruct (validate_cases bytes limits) as [(p & v & -> & _)|(r & sch & h & _ & ->)]; [|intros [? [=]]].
Qed.

Lemma no_problem bytes limits :
  rp_problem (validate_with_limits bytes limits) = None ↔
  ∃ receipt schemas, admissible limits bytes receipt schemas.
Proof.
  destruct (validate_cases bytes limits) as [(p & v & -> & Hn)|(r & sch & h & Hr & ->)];
    (split; [intros Hp | intros (r' & sch' & Hr')]); try done; [by destruct (Hn r' sch') | eauto].
Qed.

(** The epoch view of rules that know no later schema is the rules. *)
Lemma rules_for_epoch_id rules schemas :
  (∀ id, is_Some (kind_schema_map rules !! id) → id ∈ schema_id <$> schemas) →
  rules_for_epoch rules schemas = rules.
Proof.
  intros Hk. unfold rules_for_epoch. rewrite map_filter_id; [by destruct rules|].
  intros id k Hid. apply bool_decide_eq_true_2. set_solver.
Qed.
End receipt_facts.
