(* ===== verification/ReceiptTheorems.v ===== *)
(** * Properties of receipt validation

    What a report says about a receipt, from the replay relation. *)

From S2P Require Export ReceiptFacts.

(** C39: what a validation report says is exact, and it never rests on what
    the receipt claims. A report is of a structural problem, and then Invalid,
    exactly when the receipt is over a limit, does not parse, is of an
    unknown version, declares profiles it may not declare, or its rules have
    no canonical form. Otherwise it is Invalid exactly when the records are not
    a valid history, from genesis, under the rules its epoch had; and of a
    valid history it reports the retracted set, tainted set and standing that
    replay derives, with every record checked, and is Clean exactly when no
    accepted record retracts anything. Requiring profiles changes nothing but
    the list of profile results; and a log that verifies under rules without
    foreign schemas validates, once exported, with the same outcome. *)
Theorem validation_is_exact `{Primitives, Serde, HashOrder, TextFormat, ReceiptParser} bytes limits :
  let report := validate_with_limits bytes limits in
  (rp_problem report = None ↔ ∃ receipt schemas, admissible limits bytes receipt schemas) ∧
  (is_Some (rp_problem report) → rp_status report = ValidationStatus.Invalid) ∧
  (∀ receipt schemas, admissible limits bytes receipt schemas →
    let rules := rules_for_epoch (rcpt_rules receipt) schemas in
    let log := rcpt_records receipt in
    (rp_status report = ValidationStatus.Invalid ↔ ¬ ∃ s, Replays rules log s) ∧
    ∀ s, Replays rules log s →
      rp_checked_records report = N.of_nat (length log) ∧
      rp_retracted_records report = retracted_records s ∧
      rp_tainted_records report = tainted_records s ∧
      rp_standing report = derive_standing log s ∧
      (rp_status report = ValidationStatus.Clean ↔ ¬ retracts log)) ∧
  (∀ profiles, set_profiles [] (validate_with_profiles bytes limits profiles) = set_profiles [] report) ∧
  (∀ log rules, admissible limits bytes (new_receipt log rules) ALL_SCHEMAS →
    (∀ id, is_Some (kind_schema_map rules !! id) → id ∈ schema_id <$> ALL_SCHEMAS) →
    (rp_status report = ValidationStatus.Invalid ↔ accepted (verify_log log rules None) = false)).
Proof.
  intros report. split_and!.
  - apply no_problem.
  - apply problem_invalid.
  - intros receipt schemas Ha. simpl. split; [by apply status_invalid|]. intros s Hs.
    pose proof (status_clean _ _ _ _ _ Ha Hs) as Hclean. unfold report in *.
    destruct (validate_admissible _ _ _ _ Ha) as [h E]. rewrite E in Hclean |- *.
    rewrite (verify_log_complete _ _ _ Hs) in Hclean |- *. done.
  - intros profiles. unfold validate_with_profiles. fold report. case_match; [done|].
    by destruct (from_bytes bytes).
  - intros log rules Ha Hk. unfold report. rewrite (status_rejected _ _ _ _ Ha). simpl.
    by rewrite rules_for_epoch_id.
Qed.

(** The lineage log, exported; it contains an accepted retraction. *)
Module Exported.
#[export] Instance format : TextFormat := λ s, s.
Definition receipt : Receipt := new_receipt Lineage.log Lineage.rules.
Definition wire : bytes := default [] (to_bytes receipt).
#[export] Instance parser : ReceiptParser := λ b, if b =? wire then Ok receipt else Err "expected value".
End Exported.

#[local] Existing Instance Lineage.serde.
#[local] Existing Instance Exported.format.
#[local] Existing Instance Exported.parser.

Lemma schemas_known_check `{Primitives} rules (schemas : list string) :
  forallb (λ e, e.1 ∈? schema_id <$> schemas) (map_to_list (kind_schema_map rules)) = true →
  ∀ id, is_Some (kind_schema_map rules !! id) → id ∈ schema_id <$> schemas.
Proof.
  intros Hb id [k Hk]. rewrite forallb_forall in Hb. apply elem_of_map_to_list, list_elem_of_In, Hb in Hk.
  by apply bool_decide_eq_true_1 in Hk.
Qed.

Lemma exported_admissible :
  admissible default_limits Exported.wire Exported.receipt ALL_SCHEMAS.
Proof.
  apply admissible_check; [unfold from_bytes, Exported.parser; by rewrite bool_decide_true | by_vm].
Qed.

Lemma validation_is_exact_witness :
  rp_status (validate Exported.wire) = ValidationStatus.Tainted ∧
  rp_status (validate Exported.wire) ≠ ValidationStatus.Invalid.
Proof.
  split; [vm_compute; reflexivity|].
  destruct (validation_is_exact Exported.wire default_limits) as (_ & _ & _ & _ & Hexport).
  intros Hi. apply (Hexport Lineage.log Lineage.rules exported_admissible) in Hi.
  - assert (Hv : accepted (verify_log Lineage.log Lineage.rules None) = true) by by_vm.
    rewrite Hv in Hi. discriminate Hi.
  - apply schemas_known_check. by_vm.
Defined.
