(* ===== verification/ProfileFacts.v ===== *)
(** * Lemmas about profiles

    The lookups of the record-level clauses, and the baseline profile. *)

From S2P Require Export ReceiptTheorems.

(** The verdict rules of a receipt's epoch do not touch what the profiles
    read. *)
Section lookups.
Context `{Primitives, Serde, HashOrder, TextFormat}.

Lemma by_id_fold l m id :
  fold_left (λ m r, <[rec_id r := r]> m) l m !! id =
  match list_find (λ r, rec_id r = id) (rev l) with
  | Some (_, r) => Some r
  | None => (m : gmap RecordId record) !! id
  end.
Proof.
  revert m. induction l as [|r l IH]; intros m; [done|]. simpl. rewrite IH.
  destruct (list_find _ (rev l)) as [[i x]|] eqn:E.
  - by rewrite (list_find_app_l _ _ _ _ _ E).
  - rewrite list_find_app_r by done. simpl. case_decide as Er; simpl.
    + by rewrite Er, lookup_insert_eq.
    + by rewrite lookup_insert_ne.
Qed.

Lemma by_id_Some receipt id r :
  records_by_id receipt !! id = Some r → r ∈ rcpt_records receipt ∧ rec_id r = id.
Proof.
  unfold records_by_id. rewrite by_id_fold. destruct (list_find _ _) as [[i x]|] eqn:E; [|done].
  intros [= ->]. apply list_find_Some in E as (Hx & E & _). split; [|done].
  apply elem_of_reverse. unfold reverse. rewrite rev_append_rev, app_nil_r. by eapply list_elem_of_lookup_2.
Qed.

Lemma by_id_is_Some receipt r :
  r ∈ rcpt_records receipt → ∃ x, records_by_id receipt !! rec_id r = Some x ∧ rec_id x = rec_id r ∧ x ∈ rcpt_records receipt.
Proof.
  intros Hr. destruct (records_by_id receipt !! rec_id r) as [x|] eqn:E.
  - exists x. by apply by_id_Some in E as [? ?].
  - exfalso. unfold records_by_id in E. rewrite by_id_fold in E.
    destruct (list_find _ _) as [[]|] eqn:Ef; [done|]. apply list_find_None in Ef.
    rewrite Forall_forall in Ef. apply (Ef r); [|done].
    apply elem_of_reverse in Hr. unfold reverse in Hr. by rewrite rev_append_rev, app_nil_r in Hr.
Qed.

Lemma by_id_lookup receipt r :
  NoDup (rec_id <$> rcpt_records receipt) → r ∈ rcpt_records receipt → records_by_id receipt !! rec_id r = Some r.
Proof.
  intros Hnd Hr. destruct (by_id_is_Some receipt r Hr) as (x & Hx & E & Hin). rewrite Hx. f_equal.
  apply list_elem_of_lookup in Hr as [i Hi], Hin as [j Hj].
  assert (j = i) as ->; [|congruence].
  eapply NoDup_lookup; [exact Hnd | |]; rewrite list_lookup_fmap; [by rewrite Hj | by rewrite Hi, E].
Qed.
End lookups.

(** ** The baseline *)

Section baseline.
Context `{Primitives, Serde, HashOrder, TextFormat}.

(** What meeting the baseline takes, as a predicate on the rules, the status
    and the declaration. *)
Definition threshold_in_force (rules : VerifierRules) (k : Kind.t * Evidence.t) : Prop :=
  ∃ t, evidence_thresholds rules !! k.1 = Some t ∧ leb t k.2 = true.
Definition baseline (receipt : Receipt) (report : Report) : Prop :=
  rp_status report ≠ ValidationStatus.Invalid ∧
  author_roles (rcpt_rules receipt) ≠ ∅ ∧
  Forall (threshold_in_force (rcpt_rules receipt)) required_thresholds ∧
  (1 <= max_context_records (rcpt_rules receipt) <= 100000)%N ∧
  (∀ i decl, list_find (λ p, pf_id p = BELLBOOK_CORE_V1) (rcpt_profiles receipt) = Some (i, decl) →
    profile_ref BELLBOOK_CORE_V1 = Some decl).

Lemma finish_conformant table clauses :
  pr_status (finish table clauses) = ProfileStatus.Conformant ↔ Forall (λ c, cr_passed c = true) clauses.
Proof.
  unfold finish. simpl. unfold all_passed.
  destruct (forallb cr_passed clauses) eqn:E; (split; [intros Hc|intros Hf]); try done.
  - apply Forall_forall. intros c Hc'. rewrite forallb_forall in E. by apply E, list_elem_of_In.
  - assert (forallb cr_passed clauses = true) as E'; [|congruence].
    apply forallb_forall. intros c Hc%list_elem_of_In. rewrite Forall_forall in Hf. by apply Hf.
Qed.

Lemma all_failed_status table reason :
  pt_clauses table ≠ [] → pr_status (all_failed table reason) = ProfileStatus.NonConformant.
Proof. unfold all_failed, finish. simpl. by destruct (pt_clauses table). Qed.

Lemma threshold_note_passed receipt k :
  (threshold_note receipt k).1 = true ↔ threshold_in_force (rcpt_rules receipt) k.
Proof.
  unfold threshold_note, threshold_in_force.
  destruct (evidence_thresholds _ !! k.1) as [t|]; [|split; [done|by intros (? & [=] & _)]].
  destruct (leb t k.2) eqn:E; (split; [intros Hx | intros (? & [= <-] & ?)]); simpl in *; try done; try congruence.
  by exists t.
Qed.

Lemma core_conformant receipt report :
  pr_status (evaluate_core_v1 receipt report) = ProfileStatus.Conformant ↔
  rp_status report ≠ ValidationStatus.Invalid ∧ author_roles (rcpt_rules receipt) ≠ ∅ ∧
  Forall (threshold_in_force (rcpt_rules receipt)) required_thresholds ∧
  (1 <= max_context_records (rcpt_rules receipt) <= 100000)%N.
Proof.
  unfold evaluate_core_v1. rewrite finish_conformant. unfold core_clauses.
  rewrite !Forall_cons, Forall_nil. cbn [cr_passed].
  rewrite <- (forallb_Forall (λ k, (threshold_note receipt k).1)) by apply threshold_note_passed.
  change (forallb fst (threshold_note receipt <$> required_thresholds))
    with (forallb (λ k, (threshold_note receipt k).1) required_thresholds).
  rewrite andb_true_iff, !N.leb_le, !negb_true_iff, !bool_decide_eq_false. intuition.
Qed.

Lemma core_met receipt report : met (core_result receipt report) = true ↔ baseline receipt report.
Proof.
  unfold baseline, met, core_result. pose proof (core_conformant receipt report) as Hc.
  rewrite andb_true_iff, bool_decide_eq_true, negb_true_iff, bool_decide_eq_false.
  destruct (list_find _ (rcpt_profiles receipt)) as [[i decl]|] eqn:Ef.
  - apply list_find_Some in Ef as (_ & Eid & _). cbn [as_declared pr_status pr_declaration_matches].
    rewrite Hc, Eid. cbn [profile_table].
    change (profile_table BELLBOOK_CORE_V1) with (Some core_v1_table).
    change (profile_ref BELLBOOK_CORE_V1)
      with (Some (mk_ProfileRef BELLBOOK_CORE_V1 1 (profile_hash core_v1_table))).
    cbn [pr_hash evaluate_core_v1 finish pt_version core_v1_table].
    destruct decl as [did dv dh]. simpl in *. subst did.
    assert (Hd : Some ((dv =? 1)%N && (dh =? profile_hash core_v1_table)) ≠ Some false ↔
      dv = 1%N ∧ dh = profile_hash core_v1_table).
    { destruct ((dv =? 1)%N && _) eqn:E.
      - apply andb_true_iff in E as [?%N.eqb_eq ?%bool_decide_eq_true]. by split.
      - split; [done|]. intros [-> ->]. rewrite bool_decide_true in E by done. done. }
    rewrite Hd. split.
    + intros ((? & ? & ? & ?) & -> & ->). split_and!; try done; try lia. by intros ?? [= <- <-].
    + intros (? & ? & ? & ? & Hdecl). pose proof (Hdecl i _ eq_refl) as [= <- <-]. done.
  - rewrite Hc. simpl. naive_solver.
Qed.
End baseline.

(** ** Accepted records *)

Section accepted.
Context `{Primitives, Serde, HashOrder, TextFormat} (rules : VerifierRules) (receipt : Receipt) (s : State).
Context (Hlog : Replays rules (rcpt_records receipt) s).

Lemma is_accepted_in r :
  r ∈ rcpt_records receipt → rec_kind r ≠ Kind.Verdict →
  is_accepted receipt s (rec_id r) = true ↔ accepted_in (rcpt_records receipt) r.
Proof.
  intros Hr Hk. unfold is_accepted. destruct (by_id_is_Some receipt r Hr) as (x & -> & _).
  rewrite andb_true_r, bool_decide_eq_true, (accepted_in_iff rules _ s) by done. naive_solver.
Qed.

Lemma is_kind_in k r :
  k ≠ Kind.Verdict → r ∈ rcpt_records receipt →
  (rec_kind r =? k) && is_accepted receipt s (rec_id r) = true ↔
  accepted_in (rcpt_records receipt) r ∧ rec_kind r = k.
Proof.
  intros Hk Hr. rewrite andb_true_iff, bool_decide_eq_true. split.
  - intros [E Ha]. split; [|done]. apply is_accepted_in; congruence.
  - intros [Ha E]. split; [done|]. apply is_accepted_in; congruence.
Qed.

(** The evaluations a selection uses, off the log. *)
Definition uses_evaluation (sel e : record) : Prop :=
  mk_ref RefType.Use (rec_id e) ∈ rec_refs sel ∧
  accepted_in (rcpt_records receipt) e ∧ rec_kind e = Kind.Evaluation.

Lemma used_evaluations_in sel e :
  NoDup (rec_id <$> rcpt_records receipt) →
  e ∈ used_evaluations receipt s sel ↔ uses_evaluation sel e.
Proof.
  intros Hnd. unfold used_evaluations, uses_evaluation. rewrite list_elem_of_omap. split.
  - intros (f & [Hty Hf]%list_elem_of_filter & Hx).
    destruct (records_by_id receipt !! ref_target f) as [t|] eqn:Et; [|done]. simpl in Hx.
    destruct (negb _ || negb _) eqn:Eg; [done|]. injection Hx as <-.
    apply by_id_Some in Et as [Hin Eid].
    apply orb_false_iff in Eg as [Ek%negb_false_iff Ea%negb_false_iff].
    apply bool_decide_eq_true in Hty, Ek. rewrite Eid. split_and!; [destruct f as [ty id]; cbn in Hty |- *; by rewrite <- Hty | |done].
    apply is_accepted_in; congruence.
  - intros (Hf & Ha & Ek). exists (mk_ref RefType.Use (rec_id e)). rewrite list_elem_of_filter.
    split; [done|]. simpl. assert (Hin : e ∈ rcpt_records receipt) by apply Ha.
    rewrite by_id_lookup by done. simpl. rewrite Ek.
    rewrite (proj2 (is_accepted_in e Hin ltac:(congruence)) Ha). done.
Qed.
End accepted.

(** A validated receipt is Invalid, or its records replay. *)
Lemma report_cases `{Primitives, Serde, HashOrder, TextFormat, ReceiptParser} bytes limits receipt schemas :
  admissible limits bytes receipt schemas → authors_wf (rcpt_records receipt) →
  let report := validate_with_limits bytes limits in
  sha256_collision ∨ rp_status report = ValidationStatus.Invalid ∨
  (rp_status report ≠ ValidationStatus.Invalid ∧ NoDup (rec_id <$> rcpt_records receipt) ∧
   ∃ s, Replays (rules_for_epoch (rcpt_rules receipt) schemas) (rcpt_records receipt) s).
Proof.
  intros Ha Hwf report. destruct (validate_admissible _ _ _ _ Ha) as [h Er]. fold report in Er.
  set (epoch := rules_for_epoch (rcpt_rules receipt) schemas) in *.
  destruct (accepted (verify_log (rcpt_records receipt) epoch None)) eqn:Ev.
  - destruct (verify_log_sound _ _ Ev) as (s & Hs).
    destruct (replays_ids_unique _ _ _ Hs Hwf) as [Hnd|]; [right; right | by left].
    split_and!; [|done|eauto]. rewrite Er, (verify_log_complete _ _ _ Hs). simpl. unfold status_of. simpl.
    by destruct (_ && _).
  - right. left. rewrite Er. simpl. unfold status_of. by rewrite (rejected_verdict _ _ Ev).
Qed.

