(* ===== verification/Delivered.v ===== *)
(** * A signed delivery

    A concrete log for the profile theorems: a request, a requirement, a
    candidate, an attested evaluation and a selection, each signed under a
    pinned key, exported as a receipt that declares the baseline. *)

From S2P Require Export ProfileFacts.

(** A parser that also recognises version-2 evaluations. *)
Definition parse_v2 (raws : list EvaluationDataV2Raw) (b : bytes) : option EvaluationDataV2Raw :=
  snd <$> list_find (λ x, (d ← evaluation_v2_try_from x; canonical_json d) = Some b) raws.
Definition with_v2 (s : Serde) (raws : list EvaluationDataV2Raw) : Serde := {|
  from_slice_request := from_slice_request;
  from_slice_action := from_slice_action;
  from_slice_response := from_slice_response;
  from_slice_result := from_slice_result;
  from_slice_requirement := from_slice_requirement;
  from_slice_capability := from_slice_capability;
  from_slice_approval := from_slice_approval;
  from_slice_summary := from_slice_summary;
  from_slice_refusal := from_slice_refusal;
  from_slice_retraction := from_slice_retraction;
  from_slice_usage := from_slice_usage;
  from_slice_verdict := from_slice_verdict;
  from_slice_plan := from_slice_plan;
  from_slice_candidate := from_slice_candidate;
  from_slice_evaluation := from_slice_evaluation;
  from_slice_evaluation_v2 := parse_v2 raws;
  from_slice_selection := from_slice_selection;
|}.

Module Delivered.
Definition agent_key : Hash256 := hash_fill x0a.
Definition rules : VerifierRules :=
  with_baseline_thresholds
    (mk_VerifierRules (rules_space rules0) (kind_schema_map rules0) (list_to_set SIGNED_KINDS)
      {["human" := {[human_key]}; "agent" := {[agent_key]}]} (author_roles rules0)
      (admin_retraction_actors rules0) (allowed_summary_types rules0) ∅ (max_context_records rules0)
      (min_binding rules0) true ∅ (max_considered rules0) (selection_requires_approval rules0)
      (reject_compromised_continuation rules0)).

(** A subject signed by its author. *)
Definition signed (S : Serde) (key : Hash256) (log : list record) (author : Author) (kind : Kind.t)
    (schema : string) (data : option bytes) (refs : list Ref) : record :=
  let unsigned := subject_of rules log author kind schema data refs in
  subject_of rules log (mk_author (author_id author) (author_type author) (sign key unsigned))
    kind schema data refs.

Definition artifact := mk_ArtifactRef "git-tree-sha1" Lineage.oid (Some "build").
Definition candidate := mk_CandidateData Lineage.source CandidateBasis.Root None None (Some [artifact]).

Definition x0 := serde_for (Build_Payloads [] [] [] [] [] [] [] [candidate] []).
Definition r1 := Eval vm_compute in
  signed x0 human_key [] human Kind.Request SCHEMA_REQUEST (encode request0) [].
Definition log1 := Eval vm_compute in decide_record (H := x0) rules [] r1.
Definition q1 := Eval vm_compute in
  signed x0 human_key log1 human Kind.Requirement SCHEMA_REQUIREMENT (encode requirement0)
    [cause (rec_id r1)].
Definition log2 := Eval vm_compute in decide_record (H := x0) rules log1 q1.
Definition c1 := Eval vm_compute in
  signed x0 agent_key log2 agent Kind.Candidate SCHEMA_CANDIDATE (encode candidate)
    [cause (rec_id r1)].
Definition log3 := Eval vm_compute in decide_record (H := x0) rules log2 c1.

Definition decider := mk_DeciderBinding "ci" None (Some (hash_fill x0b)) (Some (hash_fill x0c)).
Definition raw : EvaluationDataV2Raw := mk_EvaluationDataV2 (rec_id c1) "tests pass" None
  EvaluationOutcomeV2.Passed decider Basis.Recomputed [artifact] [rec_id q1].
Definition evaluation : option EvaluationDataV2 := evaluation_v2_try_from raw.
Definition x1 := with_v2 x0 [raw].
Definition use (id : RecordId) := mk_ref RefType.Use id.
Definition e1 := Eval vm_compute in
  signed x1 human_key log3 human Kind.Evaluation SCHEMA_EVALUATION_ATTESTED
    (evaluation ≫= λ d, encode d) [use (rec_id c1); use (rec_id q1)].
Definition log4 := Eval vm_compute in decide_record (H := x1) rules log3 e1.

Definition choice := mk_SelectionData "pick" [rec_id c1] (SelectionOutcome.Selected [rec_id c1]) None.
#[export] Instance serde : Serde :=
  with_v2 (serde_for (Build_Payloads [] [] [] [] [] [] [] [candidate] [choice])) [raw].
Definition s1 := Eval vm_compute in
  signed serde human_key log4 human Kind.Selection SCHEMA_SELECTION (encode choice)
    [need (rec_id c1); use (rec_id e1)].
Definition log := Eval vm_compute in decide_record rules log4 s1.

Definition receipt : Receipt :=
  mk_Receipt SPEC_VERSION (option_list (profile_ref BELLBOOK_CORE_V1)) rules log.
Definition wire : bytes := default [] (to_bytes receipt).
#[export] Instance parser : ReceiptParser := λ b, if b =? wire then Ok receipt else Err "expected value".
End Delivered.

#[local] Existing Instance Delivered.serde.
#[local] Existing Instance Delivered.parser.
#[local] Existing Instance Exported.format.

Lemma delivered_admissible :
  admissible default_limits Delivered.wire Delivered.receipt ALL_SCHEMAS.
Proof.
  apply admissible_check; [unfold from_bytes, Delivered.parser; by rewrite bool_decide_true | by_vm].
Qed.

Lemma delivered_wf : authors_wf (rcpt_records Delivered.receipt).
Proof. apply authors_wf_check. by_vm. Qed.
