(* ===== verification/ProfileTheorems.v ===== *)
(** * Properties of the profiles

    The clauses of the signed tier, read off the accepted records. *)

From S2P Require Export Delivered.

Section signed_facts.
Context `{Primitives, Serde, HashOrder, TextFormat} (rules : VerifierRules) (receipt : Receipt) (s : State).
Context (Hlog : Replays rules (rcpt_records receipt) s).

Lemma unsigned_kinds_nil :
  unsigned_kinds receipt = [] ↔ ∀ k, k ∈ SIGNED_KINDS → k ∈ signature_required_kinds (rcpt_rules receipt).
Proof.
  unfold unsigned_kinds. rewrite map_nil_iff, filter_nil_iff.
  setoid_rewrite negb_false_iff. by setoid_rewrite bool_decide_eq_true.
Qed.

Lemma evolution_records_in r :
  r ∈ evolution_records receipt s ↔ accepted_in (rcpt_records receipt) r ∧ rec_kind r ∈ SIGNED_KINDS.
Proof.
  unfold evolution_records. rewrite list_elem_of_filter, andb_true_iff, bool_decide_eq_true. split.
  - intros [[Hk Ha] Hin]. split; [|done]. apply (is_accepted_in rules receipt s Hlog); try done.
    intros E. rewrite E in Hk. unfold SIGNED_KINDS in Hk. set_solver.
  - intros [Ha Hk]. pose proof Ha as (Hin & Hnv & _). split_and!; try done.
    by apply (is_accepted_in rules receipt s Hlog).
Qed.

Lemma unpinned_authors_empty :
  unpinned_authors receipt s = ∅ ↔ ∀ r, r ∈ evolution_records receipt s → is_pinned receipt r = true.
Proof.
  unfold unpinned_authors.
  assert (Hfold : ∀ l (m : gmap string (gset string)), fold_left (λ m r,
      let author := author_id (rec_author r) in
      <[author := {[Kind.name (rec_kind r)]} ∪ default ∅ (m !! author)]> m) l m = ∅ ↔
    l = [] ∧ m = ∅).
  { induction l as [|r l IH]; intros m; simpl; [naive_solver|]. rewrite IH.
    split; [|naive_solver]. intros [-> Hi]. by apply insert_non_empty in Hi. }
  rewrite Hfold, filter_nil_iff. setoid_rewrite negb_false_iff. naive_solver.
Qed.

Lemma is_selected_spec sel :
  is_selected sel = true ↔
  ∃ sd cs, (decode (rec_data sel) : option SelectionData) = Some sd ∧ sl_outcome sd = SelectionOutcome.Selected cs.
Proof.
  unfold is_selected. destruct (decode (rec_data sel)) as [sd|];
    [|split; [done | by intros (? & ? & [=] & _)]].
  destruct (sl_outcome sd) as [cs|] eqn:E.
  - split; [|done]. intros _. by exists sd, cs.
  - split; [done|]. intros (? & ? & [= <-] & Ho). congruence.
Qed.

(** Every evaluation a claim rests on is attested. *)
Definition claims_attested : Prop :=
  ∀ sel sd cs e,
    accepted_in (rcpt_records receipt) sel → rec_kind sel = Kind.Selection →
    (decode (rec_data sel) : option SelectionData) = Some sd → sl_outcome sd = SelectionOutcome.Selected cs →
    uses_evaluation receipt sel e → rec_schema e = schema_id SCHEMA_EVALUATION_ATTESTED.

Lemma not_attested_nil :
  NoDup (rec_id <$> rcpt_records receipt) → not_attested receipt s = [] ↔ claims_attested.
Proof.
  intros Hnd. unfold not_attested. rewrite dedup_nil_iff, sort_by_nil_iff, map_nil_iff, filter_nil_iff.
  setoid_rewrite negb_false_iff. setoid_rewrite bool_decide_eq_true.
  unfold relied_evaluations, claims_attested. setoid_rewrite list_elem_of_concat. split.
  - intros Hall sel sd cs e Hsel Hk Hd Ho Hu. apply Hall.
    exists (used_evaluations receipt s sel). split; [by apply (used_evaluations_in rules _ _ Hlog)|].
    apply list_elem_of_fmap. exists sel. split; [done|]. pose proof Hsel as (Hin & _).
    apply list_elem_of_filter. split; [|done]. apply andb_true_iff. split.
    + by apply (is_kind_in rules receipt s Hlog).
    + apply is_selected_spec. eauto.
  - intros Hall e (l & He & (sel & -> & [Hsel Hin]%list_elem_of_filter)%list_elem_of_fmap).
    apply andb_true_iff in Hsel as [Hk (sd & cs & Hd & Ho)%is_selected_spec].
    apply (is_kind_in rules receipt s Hlog) in Hk as [Hacc Hk]; [|done..].
    apply (used_evaluations_in rules _ _ Hlog) in He; [|done]. by eapply Hall.
Qed.
End signed_facts.


#[local] Existing Instance Delivered.serde.
#[local] Existing Instance Delivered.parser.
#[local] Existing Instance Exported.format.

