(* ===== verification/DeliveryFacts.v ===== *)
(** * Lemmas about delivery claims

    Which selections are claims, how they are grouped by request, and which
    claim of a group is evaluated. *)

From S2P Require Export ProfileTheorems.

(** ** Picking a position *)

Lemma rposition_Some {A} (f : A → bool) l i :
  rposition f l = Some i →
  ∃ x, l !! i = Some x ∧ f x = true ∧ ∀ j y, i < j → l !! j = Some y → f y = false.
Proof.
  revert i. induction l as [|x l IH]; intros i; simpl; [done|].
  assert (Hnone : rposition f l = None → ∀ j y, l !! j = Some y → f y = false).
  { clear. induction l as [|x l IH]; simpl; [done|]. destruct (rposition f l); [done|].
    destruct (f x) eqn:E; [done|]. intros _ [|j] y; [by intros [= <-] | by apply IH]. }
  destruct (rposition f l) as [k|].
  - intros [= <-]. destruct (IH k eq_refl) as (y & Hy & Hf & Hlast). exists y. split_and!; [done..|].
    intros [|j] z Hj; [lia|]. apply Hlast. lia.
  - destruct (f x) eqn:E; [|done]. intros [= <-]. exists x. split_and!; [done..|].
    intros [|j] z Hj; [lia|]. by apply Hnone.
Qed.

Lemma rposition_None {A} (f : A → bool) l : rposition f l = None ↔ ∀ x, x ∈ l → f x = false.
Proof.
  rewrite <- Forall_forall. induction l as [|x l IH]; simpl; [done|]. rewrite Forall_cons.
  destruct (rposition f l) as [k|].
  - split; [done|]. intros [_ Hl]. by apply IH in Hl.
  - destruct (f x); [split; [done|]; by intros [? _]|]. by rewrite <- IH.
Qed.

Lemma elements_single (X : gset RecordId) x : elements X = [x] ↔ X = {[x]}.
Proof.
  split; [|intros ->; apply elements_singleton]. intros E.
  apply set_eq. intros y. rewrite <- elem_of_elements, E. set_solver.
Qed.

(** ** The claim picked from a group *)

Lemma by_time_le a b : le_by by_time a b ↔ (claim_time a <= claim_time b)%N.
Proof. done. Qed.

Lemma by_time_sorted l : StronglySorted (le_by by_time) (sort_by by_time l).
Proof.
  apply sort_by_sorted.
  - intros x y E%N.compare_gt_iff. change (claim_time y <= claim_time x)%N. lia.
  - intros x y z. rewrite !by_time_le. lia.
Qed.

(** The latest sound claim of the group, or the latest when none is sound. *)
Lemma picked_spec report g :
  g ≠ [] →
  ∃ c, picked report g = [c] ∧ c ∈ g ∧
    ∀ c', c' ∈ g → claim_sound report (cm_selection c') = true →
      claim_sound report (cm_selection c) = true ∧ (claim_time c' <= claim_time c)%N.
Proof.
  intros Hg. unfold picked. set (g' := sort_by by_time g).
  assert (Hp : g' ≡ₚ g) by apply sort_by_perm.
  assert (Hlen : length g' ≠ 0).
  { intros E. apply nil_length_inv in E. rewrite E in Hp. by apply Permutation_nil in Hp. }
  unfold pick. set (f := λ c, claim_sound report (cm_selection c)).
  destruct (rposition f g') as [i|] eqn:Er; simpl.
  - destruct (rposition_Some f g' i Er) as (c & Hc & Hf & Hlast). rewrite Hc. exists c.
    split_and!; [done | rewrite <- Hp; by eapply list_elem_of_lookup_2 |].
    intros c' Hc' Hs. split; [done|]. rewrite <- Hp in Hc'. apply list_elem_of_lookup in Hc' as [j Hj].
    destruct (Nat.lt_trichotomy j i) as [Hji|[->|Hij]].
    + apply by_time_le. by apply (sorted_lookup (le_by by_time) g' j i); [apply by_time_sorted|..].
    + simplify_eq. lia.
    + pose proof (Hlast j c' Hij Hj) as E. unfold f in E. congruence.
  - destruct (lookup_lt_is_Some_2 g' (length g' - 1)) as [c Hc]; [lia|]. rewrite Hc. exists c.
    split_and!; [done | rewrite <- Hp; by eapply list_elem_of_lookup_2 |].
    intros c' Hc' Hs. rewrite <- Hp in Hc'. pose proof (proj1 (rposition_None f g') Er c' Hc') as E.
    unfold f in E. congruence.
Qed.

(** ** The claims of a valid log *)

Section claims.
Context `{Primitives, Serde, HashOrder, TextFormat} (rules : VerifierRules) (receipt : Receipt)
  (report : Report) (s : State).
Context (Hlog : Replays rules (rcpt_records receipt) s) (Hnd : NoDup (rec_id <$> rcpt_records receipt)).

(** A requirement accepted under a request. *)
Definition requirement_of (rq : record) (request : RecordId) : Prop :=
  accepted_in (rcpt_records receipt) rq ∧ rec_kind rq = Kind.Requirement ∧
  ref_target <$> head (cause_refs rq) = Some request.

(** An evaluation the selection uses judges a requirement of the request. *)
Definition judges_for (sel : record) (request : RecordId) : Prop :=
  ∃ e d rq, uses_evaluation receipt sel e ∧ (decode (rec_data e) : option EvaluationDataV2) = Some d ∧
    rec_id rq ∈ e2_requirements d ∧ requirement_of rq request.

(** An accepted selection that chooses [chosen], on evaluations of the
    requirements of exactly one request. *)
Definition delivery_claim (sel : record) (request : RecordId) (chosen : list RecordId) : Prop :=
  accepted_in (rcpt_records receipt) sel ∧ rec_kind sel = Kind.Selection ∧
  (∃ sd, (decode (rec_data sel) : option SelectionData) = Some sd ∧
     sl_outcome sd = SelectionOutcome.Selected chosen) ∧
  (∀ request', judges_for sel request' ↔ request' = request).

Lemma requirement_request_Some id request :
  requirement_request receipt s id = Some request ↔ ∃ rq, rec_id rq = id ∧ requirement_of rq request.
Proof.
  unfold requirement_request, requirement_of. split.
  - destruct (records_by_id receipt !! id) as [rq|] eqn:E; [|done]. simpl.
    apply by_id_Some in E as [Hin Hid].
    destruct (is_kind receipt s Kind.Requirement rq) eqn:Ek; [|done]. simpl. intros Hr.
    apply (is_kind_in rules receipt s Hlog) in Ek as [Ha Hk]; [|done..]. by exists rq.
  - intros (rq & <- & Ha & Hk & Hr). pose proof Ha as (Hin & _).
    rewrite by_id_lookup by done. simpl.
    assert (is_kind receipt s Kind.Requirement rq = true) as ->; [|done].
    by apply (is_kind_in rules receipt s Hlog).
Qed.

Lemma claim_requests_in sel request :
  request ∈ claim_requests receipt s (used_evaluations receipt s sel) ↔ judges_for sel request.
Proof.
  unfold claim_requests, judges_for. rewrite elem_of_list_to_set, list_elem_of_concat.
  setoid_rewrite list_elem_of_fmap. split.
  - intros (l & Hl & (e & -> & He)). apply (used_evaluations_in rules _ _ Hlog) in He; [|done].
    destruct (decode (rec_data e)) as [d|] eqn:Ed; [|by apply elem_of_nil in Hl].
    apply list_elem_of_omap in Hl as (id & Hid & (rq & <- & Hrq)%requirement_request_Some).
    by exists e, d, rq.
  - intros (e & d & rq & He & Hd & Hid & Hrq).
    exists (omap (requirement_request receipt s) (e2_requirements d)). split.
    + apply list_elem_of_omap. exists (rec_id rq). split; [done|]. apply requirement_request_Some. eauto.
    + exists e. rewrite Hd. split; [done|]. by apply (used_evaluations_in rules _ _ Hlog).
Qed.

Lemma claim_of_Some sel c :
  sel ∈ rcpt_records receipt →
  claim_of receipt s sel = Some c ↔
  cm_selection c = sel ∧ cm_used c = used_evaluations receipt s sel ∧
  delivery_claim sel (cm_request c) (cm_chosen c).
Proof.
  intros Hin. unfold claim_of, delivery_claim. setoid_rewrite <- claim_requests_in.
  pose proof (is_kind_in rules receipt s Hlog Kind.Selection sel ltac:(done) Hin) as Hk.
  fold (is_kind receipt s Kind.Selection sel) in Hk.
  destruct (is_kind receipt s Kind.Selection sel); cbn [negb];
    [|split; [done | intros (_ & _ & Ha & Hk' & _); discriminate (proj2 Hk (conj Ha Hk'))]].
  destruct (proj1 Hk eq_refl) as [Ha Hk'].
  destruct (decode (rec_data sel)) as [sd|]; [|split; [done | by intros (_ & _ & _ & _ & (? & [=] & _) & _)]].
  simpl. destruct (sl_outcome sd) as [chosen|] eqn:Eo;
    [|split; [done | intros (_ & _ & _ & _ & (? & [= <-] & Ho) & _); congruence]].
  set (X := claim_requests _ _ _). split.
  - destruct (elements X) as [|request [|]] eqn:Ex; [done| |done]. intros [= <-]. simpl.
    apply elements_single in Ex. split_and!; try done; [by exists sd|]. rewrite Ex. set_solver.
  - intros (<- & Hu & _ & _ & (? & [= <-] & Ho) & Hreq).
    assert (Ex : elements X = [cm_request c]).
    { apply elements_single, set_eq. intros y. by rewrite Hreq, elem_of_singleton. }
    rewrite Ex. rewrite Eo in Ho. injection Ho as ->. rewrite <- Hu. by destruct c.
Qed.

(** A claim as the profile lists it. *)
Definition listed (c : Claim) : Prop :=
  cm_used c = used_evaluations receipt s (cm_selection c) ∧
  delivery_claim (cm_selection c) (cm_request c) (cm_chosen c).

Lemma candidate_claims_in c : c ∈ candidate_claims receipt s ↔ listed c.
Proof.
  unfold candidate_claims, listed. rewrite list_elem_of_omap. split.
  - intros (sel & Hin & Hc). apply claim_of_Some in Hc as (-> & ? & ?); done.
  - intros [Hu Hd]. exists (cm_selection c). pose proof Hd as ((Hin & _) & _). split; [done|].
    by apply claim_of_Some.
Qed.

(** The claims of one request. *)
Definition group_of (request : RecordId) : list Claim :=
  filter (λ c, cm_request c = request) (candidate_claims receipt s).

Lemma by_request_lookup request :
  by_request receipt s !! request = match group_of request with [] => None | g => Some g end.
Proof.
  unfold by_request, group_of. generalize (candidate_claims receipt s). intros l.
  assert (Hfold : ∀ (m : gmap RecordId (list Claim)),
    fold_left (λ m c, <[cm_request c := default [] (m !! cm_request c) ++ [c]]> m) l m !! request =
    match filter (λ c, cm_request c = request) l with
    | [] => m !! request
    | g => Some (default [] (m !! request) ++ g)
    end).
  { induction l as [|c l IH]; intros m; [done|]. simpl fold_left. rewrite IH, filter_cons.
    case_decide as E.
    - subst request. rewrite lookup_insert_eq. simpl.
      destruct (filter _ l); simpl; [done | by rewrite <- app_assoc].
    - by rewrite lookup_insert_ne. }
  rewrite Hfold. by destruct (filter _ l).
Qed.

Lemma group_of_in request c : c ∈ group_of request ↔ listed c ∧ cm_request c = request.
Proof. unfold group_of. rewrite list_elem_of_filter, candidate_claims_in. naive_solver. Qed.

(** The evaluated claims: of each request with a claim, the picked one. *)
Lemma claims_in c :
  c ∈ claims receipt report s ↔
  group_of (cm_request c) ≠ [] ∧ picked report (group_of (cm_request c)) = [c].
Proof.
  unfold claims. rewrite elem_of_sort_by, list_elem_of_concat. setoid_rewrite list_elem_of_fmap. split.
  - intros (l & Hl & ([request g] & -> & Hg)). rewrite btree_entries_perm in Hg.
    apply elem_of_map_to_list in Hg. rewrite by_request_lookup in Hg. simpl in Hl.
    destruct (group_of request) as [|c0 g0] eqn:Eg; [done|]. injection Hg as <-.
    destruct (picked_spec report (c0 :: g0)) as (c1 & E & Hin & _); [done|]. rewrite E in Hl.
    apply list_elem_of_singleton in Hl as ->.
    rewrite <- Eg in Hin. apply group_of_in in Hin as [_ Hr]. rewrite Hr, Eg. done.
  - intros [Hg Hp]. exists [c]. split; [by left|]. exists (cm_request c, group_of (cm_request c)).
    split; [done|]. rewrite btree_entries_perm, elem_of_map_to_list, by_request_lookup.
    by destruct (group_of _).
Qed.
End claims.
