(* ===== verification/DeliveryTheorems.v ===== *)
(** * Properties of delivery receipts

    The clauses of the delivery profile, read off the accepted records. *)

From S2P Require Export DeliveryFacts.

Section clauses.
Context `{Primitives, Serde, HashOrder, TextFormat} (rules : VerifierRules) (receipt : Receipt)
  (report : Report) (s : State).
Context (Hlog : Replays rules (rcpt_records receipt) s) (Hnd : NoDup (rec_id <$> rcpt_records receipt)).

(** ** What a claim must show *)

(** A required requirement of the request, live at the head. *)
Definition live_required (request : RecordId) (rq : record) (rd : RequirementData) : Prop :=
  requirement_of receipt rq request ∧ rec_id rq ∉ rp_retracted_records report ∧
  (decode (rec_data rq) : option RequirementData) = Some rd ∧ rm_required rd = true.

(** An evaluation the selection uses, with its version-2 payload. *)
Definition uses_v2 (sel e : record) (d : EvaluationDataV2) : Prop :=
  uses_evaluation receipt sel e ∧ (decode (rec_data e) : option EvaluationDataV2) = Some d.

(** The artifact is one of the candidate's, or of an accepted result of the
    selection's thread. *)
Definition recorded (sel cr : record) (a : ArtifactRef) : Prop :=
  (∃ cd b, (decode (rec_data cr) : option CandidateData) = Some cd ∧
     b ∈ default [] (cd_artifacts cd) ∧ artifact_pair b = artifact_pair a) ∨
  (∃ r rd b, accepted_in (rcpt_records receipt) r ∧ rec_kind r = Kind.Result ∧
     rec_thread r = rec_thread sel ∧ (decode (rec_data r) : option ResultData) = Some rd ∧
     b ∈ default [] (rt_artifacts rd) ∧ artifact_pair b = artifact_pair a).

Definition requirements_met (sel : record) (request : RecordId) : Prop :=
  ∀ rq rd, live_required request rq rd →
    (∃ e d, uses_v2 sel e d ∧ rec_id e ∉ rp_retracted_records report ∧
       e2_outcome d = EvaluationOutcomeV2.Passed ∧ rec_id rq ∈ e2_requirements d) ∧
    (∀ e d, uses_v2 sel e d → rec_id rq ∈ e2_requirements d → e2_outcome d = EvaluationOutcomeV2.Passed).

Definition candidate_judged (sel : record) (chosen : list RecordId) : Prop :=
  ∃ cr, cr ∈ rcpt_records receipt ∧ chosen = [rec_id cr] ∧
    ∀ e, uses_evaluation receipt sel e →
      author_id (rec_author e) ≠ author_id (rec_author cr) ∧
      ∃ d, (decode (rec_data e) : option EvaluationDataV2) = Some d ∧
        e2_candidate d = rec_id cr ∧ e2_evidence d ≠ [] ∧
        (∀ a, a ∈ e2_evidence d → recorded sel cr a) ∧
        is_Some (db_procedure_hash (e2_evaluator d)) ∧ is_Some (db_input_hash (e2_evaluator d)).

(** ** The clauses of one listed claim *)

Section claim.
Context (c : Claim) (Hc : listed receipt s c).
Let sel := cm_selection c.

Lemma used_in e : e ∈ cm_used c ↔ uses_evaluation receipt sel e.
Proof. destruct Hc as [-> _]. by apply (used_evaluations_in rules _ _ Hlog). Qed.

Lemma used_v2_in e d : (e, d) ∈ used_v2 c ↔ uses_v2 sel e d.
Proof.
  unfold used_v2, uses_v2. rewrite list_elem_of_omap, <- used_in. split.
  - intros (x & Hx & E). destruct (decode (rec_data x)) eqn:Ed; [|done]. by injection E as -> ->.
  - intros [Hx E]. exists e. by rewrite E.
Qed.

Lemma required_in id key :
  (id, key) ∈ required_requirements receipt report s c ↔
  ∃ rq rd, live_required (cm_request c) rq rd ∧ id = rec_id rq ∧ key = rm_key rd.
Proof.
  unfold required_requirements, live_required. rewrite list_elem_of_omap. split.
  - intros (rq & Hin & E). destruct (is_kind receipt s Kind.Requirement rq) eqn:Ek; [|done].
    apply (is_kind_in rules receipt s Hlog) in Ek as [Ha Hk]; [|done..].
    case_bool_decide as Er; [done|]. simpl in E.
    case_bool_decide as Eq; [|done]. simpl in E.
    apply (requirement_request_Some rules _ _ Hlog Hnd) in Eq as (rq' & Eid & Hrq).
    destruct (decode (rec_data rq)) as [rd|] eqn:Ed; [|done]. simpl in E.
    destruct (rm_required rd) eqn:Em; [|done]. injection E as <- <-. exists rq, rd.
    assert (rq' = rq) as ->; [|done]. pose proof Hrq as ((Hin' & Hk' & _) & _).
    apply (subjects_unique rules _ s rq' rq Hlog Hin' Hin Hk'); [congruence | done].
  - intros (rq & rd & (Hrq & Hret & Hd & Hm) & -> & ->). pose proof Hrq as (Ha & Hk & _).
    exists rq. split; [apply Ha|].
    assert (is_kind receipt s Kind.Requirement rq = true) as ->
      by (apply (is_kind_in rules receipt s Hlog); [done | apply Ha | done]).
    rewrite bool_decide_false by done. cbn [negb orb].
    rewrite (proj2 (requirement_request_Some rules _ _ Hlog Hnd _ (cm_request c))) by eauto.
    rewrite bool_decide_true by done. cbn [negb]. rewrite Hd. simpl. by rewrite Hm.
Qed.

Lemma passed_true o : is_passed o = true ↔ o = EvaluationOutcomeV2.Passed.
Proof. by destruct o. Qed.

Lemma d1_true :
  (d1 receipt report s c).1 = true ↔
  ∀ rq rd, live_required (cm_request c) rq rd →
    ∃ e d, uses_v2 sel e d ∧ rec_id e ∉ rp_retracted_records report ∧
      e2_outcome d = EvaluationOutcomeV2.Passed ∧ rec_id rq ∈ e2_requirements d.
Proof.
  assert (Hcov : ∀ id, covered report c id = true ↔ ∃ e d, uses_v2 sel e d ∧
    rec_id e ∉ rp_retracted_records report ∧ e2_outcome d = EvaluationOutcomeV2.Passed ∧
    id ∈ e2_requirements d).
  { intros id. unfold covered. rewrite existsb_exists. setoid_rewrite <- list_elem_of_In.
    setoid_rewrite <- used_v2_in. split.
    - intros ([e d] & Hin & Hb). apply andb_true_iff in Hb as [[Hr Hp]%andb_true_iff Hi].
      apply negb_true_iff, bool_decide_eq_false in Hr. apply bool_decide_eq_true in Hi.
      apply passed_true in Hp. by exists e, d.
    - intros (e & d & Hin & Hr & Hp & Hi). exists (e, d). split; [done|].
      rewrite bool_decide_false, bool_decide_true by done. simpl. rewrite Hp. done. }
  unfold d1. transitivity (uncovered receipt report s c = []).
  { case_bool_decide; done. }
  unfold uncovered. rewrite map_nil_iff, filter_nil_iff. setoid_rewrite negb_false_iff. split.
  - intros Hall rq rd Hl. apply Hcov. apply (Hall (rec_id rq, rm_key rd)). apply required_in. eauto.
  - intros Hall [id key] (rq & rd & Hl & -> & ->)%required_in. apply Hcov. eauto.
Qed.

Lemma d2_true :
  (d2 receipt report s c).1 = true ↔
  ∀ rq rd, live_required (cm_request c) rq rd →
    ∀ e d, uses_v2 sel e d → rec_id rq ∈ e2_requirements d → e2_outcome d = EvaluationOutcomeV2.Passed.
Proof.
  unfold d2. transitivity (non_passing receipt report s c = []); [case_bool_decide; done|].
  unfold non_passing. rewrite map_nil_iff, filter_nil_iff.
  assert (Hreq : ∀ id, id ∈ required_ids receipt report s c ↔
    ∃ rq rd, live_required (cm_request c) rq rd ∧ rec_id rq = id).
  { intros id. unfold required_ids. rewrite elem_of_list_to_set, list_elem_of_fmap. split.
    - intros ([id' key] & -> & (rq & rd & Hl & -> & ->)%required_in). eauto.
    - intros (rq & rd & Hl & <-). exists (rec_id rq, rm_key rd). split; [done|]. apply required_in. eauto. }
  split.
  - intros Hall rq rd Hl e d He Hin. apply used_v2_in in He. specialize (Hall _ He).
    apply andb_false_iff in Hall as [Hno|Hp].
    + apply not_true_iff_false in Hno. destruct Hno. apply existsb_exists. exists (rec_id rq).
      rewrite <- list_elem_of_In. split; [done|]. apply bool_decide_eq_true_2, Hreq. eauto.
    + apply passed_true. by apply negb_false_iff.
  - intros Hall [e d] He%used_v2_in. apply andb_false_iff.
    destruct (existsb _ _) eqn:Ex; [|by left]. right. apply negb_false_iff, passed_true.
    apply existsb_exists in Ex as (id & Hin & Hid). rewrite <- list_elem_of_In in Hin.
    apply bool_decide_eq_true, Hreq in Hid as (rq & rd & Hl & <-). by eapply Hall.
Qed.

Lemma d7_true : (d7 report c).1 = claim_sound report sel.
Proof.
  unfold d7, claim_sound, claim_id, sel.
  destruct (_ ∈? unsound _), (_ ∈? rp_tainted_records _), (_ ∈? rp_retracted_records _); done.
Qed.
(** The candidate the claim chooses, when it chooses one. *)
Lemma candidate_rec_Some cr :
  candidate_rec receipt c = Some cr ↔ cr ∈ rcpt_records receipt ∧ cm_chosen c = [rec_id cr].
Proof.
  unfold candidate_rec, chosen_candidate. split.
  - destruct (cm_chosen c) as [|id [|]]; [done| |done]. simpl. by intros [? <-]%by_id_Some.
  - intros [Hin ->]. simpl. by apply by_id_lookup.
Qed.

Lemma on_record_in cr a :
  candidate_rec receipt c = Some cr →
  artifact_pair a ∈ on_record receipt s c ↔ recorded sel cr a.
Proof.
  intros Hcr. unfold on_record, recorded. rewrite Hcr, elem_of_union, !elem_of_list_to_set,
    list_elem_of_concat. setoid_rewrite list_elem_of_fmap. f_equiv.
  - destruct (decode (rec_data cr)) as [cd|]; simpl.
    + split; [intros (b & E & Hb); by exists cd, b | intros (? & b & [= <-] & Hb & E); by exists b].
    + split; [by intros (b & _ & Hb%elem_of_nil) | by intros (? & ? & [=] & _)].
  - split.
    + intros (l & Hl & (r & -> & Hin)). destruct (is_kind receipt s Kind.Result r) eqn:Ek;
        [|by apply elem_of_nil in Hl]. apply (is_kind_in rules receipt s Hlog) in Ek as [Ha Hk]; [|done..].
      simpl in Hl. case_bool_decide as Et; [|by apply elem_of_nil in Hl].
      apply list_elem_of_fmap in Hl as (b & E & Hb).
      destruct (decode (rec_data r)) as [rd|] eqn:Ed; [|by apply elem_of_nil in Hb].
      by exists r, rd, b.
    + intros (r & rd & b & Ha & Hk & Et & Hd & Hb & E). eexists. split; [|exists r; split; [done|apply Ha]].
      assert (is_kind receipt s Kind.Result r = true) as ->
        by (apply (is_kind_in rules receipt s Hlog); [done | apply Ha | done]).
      rewrite bool_decide_true by done. simpl. rewrite Hd. apply list_elem_of_fmap. by exists b.
Qed.

Lemma all_v2 :
  length (used_v2 c) = length (cm_used c) ↔
  ∀ e, e ∈ cm_used c → ∃ d, (decode (rec_data e) : option EvaluationDataV2) = Some d.
Proof.
  unfold used_v2. rewrite length_omap. split; intros Hall e He; specialize (Hall e He).
  - destruct (decode (rec_data e)) as [d|]; [by exists d | by destruct Hall].
  - destruct Hall as [d ->]. by eexists.
Qed.

Lemma d3_note_nil cr e d :
  candidate_rec receipt c = Some cr →
  d3_note receipt s c (e, d) = [] ↔
  e2_candidate d = rec_id cr ∧ e2_evidence d ≠ [] ∧ ∀ a, a ∈ e2_evidence d → recorded sel cr a.
Proof.
  intros Hcr. pose proof Hcr as [_ Hch]%candidate_rec_Some. unfold d3_note.
  assert (chosen_candidate c = Some (rec_id cr)) as -> by (unfold chosen_candidate; by rewrite Hch).
  cbn [fst snd]. rewrite !app_nil, omap_nil_iff. setoid_rewrite <- (on_record_in cr); [|done].
  f_equiv; [|f_equiv].
  - destruct (decide (e2_candidate d = rec_id cr)) as [E|E];
      [rewrite bool_decide_true by congruence | rewrite bool_decide_false by congruence]; done.
  - by destruct (e2_evidence d).
  - split; intros Hall a Ha; specialize (Hall a Ha); case_bool_decide; done.
Qed.

Lemma d3_true cr :
  candidate_rec receipt c = Some cr →
  (d3 receipt s c).1 = true ↔
  ∀ e, uses_evaluation receipt sel e → ∃ d, (decode (rec_data e) : option EvaluationDataV2) = Some d ∧
    e2_candidate d = rec_id cr ∧ e2_evidence d ≠ [] ∧ ∀ a, a ∈ e2_evidence d → recorded sel cr a.
Proof.
  intros Hcr. pose proof Hcr as [_ Hch]%candidate_rec_Some. unfold d3.
  transitivity (d3_notes receipt s c = []); [case_bool_decide; done|]. unfold d3_notes.
  assert (chosen_candidate c = Some (rec_id cr)) as -> by (unfold chosen_candidate; by rewrite Hch).
  rewrite app_nil_l, app_nil, concat_nil_iff. setoid_rewrite list_elem_of_fmap. setoid_rewrite <- used_in. split.
  - intros [Hl Hn] e He. destruct (length (used_v2 c) =? length (cm_used c))%nat eqn:El; [|done].
    apply Nat.eqb_eq in El. destruct (proj1 all_v2 El e He) as [d Hd]. exists d. split; [done|].
    apply (d3_note_nil cr e d Hcr), Hn. exists (e, d). split; [done|]. apply used_v2_in. split; [|done].
    by apply used_in.
  - intros Hall. split.
    + assert (length (used_v2 c) = length (cm_used c)) as ->; [|by rewrite Nat.eqb_refl].
      apply all_v2. intros e He. destruct (Hall e He) as (d & Hd & _). eauto.
    + intros l ([e d] & -> & [He Hd]%used_v2_in). apply (d3_note_nil cr e d Hcr).
      apply used_in in He. destruct (Hall e He) as (d' & Hd' & Hrest).
      by assert (d = d') as -> by congruence.
Qed.

Lemma d4_true :
  (d4 receipt c).1 = true ↔
  ∃ cr, candidate_rec receipt c = Some cr ∧
    ∀ e, uses_evaluation receipt sel e → author_id (rec_author e) ≠ author_id (rec_author cr).
Proof.
  unfold d4, producer, self_judged. destruct (candidate_rec receipt c) as [cr|] eqn:Ec; simpl;
    [|split; [done | by intros (? & [=] & _)]].
  transitivity (self_judged receipt c = []); [unfold self_judged, producer; rewrite Ec; simpl; by case_bool_decide|].
  unfold self_judged, producer. rewrite Ec, map_nil_iff, filter_nil_iff. simpl.
  setoid_rewrite bool_decide_eq_false. setoid_rewrite <- used_in. split.
  - intros Hall. exists cr. split; [done|]. intros e He E. apply (Hall e He). by rewrite E.
  - intros (? & [= <-] & Hall) e He [= E]. by apply (Hall e He).
Qed.

Lemma d5_true :
  (d5 c).1 = true ↔
  cm_used c ≠ [] ∧
  ∀ e, uses_evaluation receipt sel e → ∃ d, (decode (rec_data e) : option EvaluationDataV2) = Some d ∧
    is_Some (db_procedure_hash (e2_evaluator d)) ∧ is_Some (db_input_hash (e2_evaluator d)).
Proof.
  transitivity (unbound c = [] ∧ used_v2 c ≠ []).
  { unfold d5. destruct (unbound c), (used_v2 c); simpl; naive_solver. }
  unfold unbound. rewrite app_nil, omap_nil_iff. setoid_rewrite <- used_in. split.
  - intros [[Hl Hn] Hne]. destruct (length (used_v2 c) =? length (cm_used c))%nat eqn:El; [|done].
    apply Nat.eqb_eq in El. split; [intros E; rewrite E in El; by destruct (used_v2 c)|].
    intros e He. destruct (proj1 all_v2 El e He) as [d Hd]. exists d. split; [done|].
    assert (Hin : (e, d) ∈ used_v2 c) by (apply used_v2_in; split; [by apply used_in | done]).
    specialize (Hn _ Hin). simpl in Hn. destruct (_ && _) eqn:Eb; [|done].
    by apply andb_true_iff in Eb as [?%is_Some_b_true ?%is_Some_b_true].
  - intros [Hne Hall].
    assert (El : length (used_v2 c) = length (cm_used c)).
    { apply all_v2. intros e He. destruct (Hall e He) as (d & Hd & _). eauto. }
    split_and!.
    + by rewrite El, Nat.eqb_refl.
    + intros [e d] [He Hd]%used_v2_in. apply used_in in He. destruct (Hall e He) as (d' & Hd' & Hp & Hi).
      assert (d' = d) as -> by congruence. simpl.
      by rewrite (proj2 (is_Some_b_true _) Hp), (proj2 (is_Some_b_true _) Hi).
    + intros E. rewrite E in El. by destruct (cm_used c).
Qed.
(** All clauses of the claim at once. *)
Lemma claim_clauses :
  (d1 receipt report s c).1 = true ∧ (d2 receipt report s c).1 = true ∧ (d3 receipt s c).1 = true ∧
  (d4 receipt c).1 = true ∧ (d5 c).1 = true ∧ (d7 report c).1 = true ↔
  claim_sound report sel = true ∧ requirements_met sel (cm_request c) ∧ candidate_judged sel (cm_chosen c).
Proof.
  rewrite d1_true, d2_true, d4_true, d5_true, d7_true. unfold requirements_met, candidate_judged. split.
  - intros (H1' & H2' & H3' & (cr & Hcr & H4') & (_ & H5') & H7'). split; [done|].
    split; [intros rq rd Hl; split; eauto|]. pose proof Hcr as [Hin Hch]%candidate_rec_Some.
    exists cr. split_and!; [done..|]. intros e He. split; [by apply H4'|].
    destruct (proj1 (d3_true cr Hcr) H3' e He) as (d & Hd & ? & ? & ?).
    destruct (H5' e He) as (d' & Hd' & ? & ?). exists d. by assert (d' = d) as -> by congruence.
  - intros (Hs & Hr & (cr & Hin & Hch & He)).
    assert (Hcr : candidate_rec receipt c = Some cr) by by apply candidate_rec_Some.
    rewrite (d3_true cr Hcr). split_and!; [intros ?? Hl; by apply (Hr _ _ Hl) | intros ?? Hl; by apply (Hr _ _ Hl)|
      |exists cr; split; [done | intros e Hu; by apply He] | | | done].
    + intros e Hu. destruct (He e Hu) as (_ & d & ? & ? & ? & ? & _). by exists d.
    + destruct Hc as (_ & _ & _ & _ & Hreq).
      destruct (proj2 (Hreq (cm_request c)) eq_refl) as (e & d & rq & Hu & _).
      apply used_in in Hu. intros E. rewrite E in Hu. by apply elem_of_nil in Hu.
    + intros e Hu. destruct (He e Hu) as (_ & d & ? & _ & _ & _ & ? & ?). by exists d.
Qed.
End claim.

(** ** The whole receipt *)

Lemma log_times_inj r1 r2 :
  r1 ∈ rcpt_records receipt → r2 ∈ rcpt_records receipt → rec_time r1 = rec_time r2 → r1 = r2.
Proof.
  intros [i Hi]%list_elem_of_lookup [j Hj]%list_elem_of_lookup E.
  destruct (replays_times rules _ s Hlog i r1 Hi) as [E1 _].
  destruct (replays_times rules _ s Hlog j r2 Hj) as [E2 _].
  assert (i = j) as -> by lia. congruence.
Qed.

Definition claim_for (sel : record) (request : RecordId) (chosen : list RecordId) : Claim :=
  mk_Claim sel request chosen (used_evaluations receipt s sel).

Lemma claim_for_group sel request chosen :
  delivery_claim receipt sel request chosen →
  claim_for sel request chosen ∈ group_of receipt s request.
Proof. intros Hd. by apply (group_of_in rules _ _ Hlog Hnd). Qed.

Lemma claim_evaluated sel request chosen :
  delivery_claim receipt sel request chosen →
  ∃ c, c ∈ claims receipt report s ∧ listed receipt s c ∧ cm_request c = request ∧
    ∀ sel' chosen', delivery_claim receipt sel' request chosen' → claim_sound report sel' = true →
      claim_sound report (cm_selection c) = true ∧ (rec_time sel' <= rec_time (cm_selection c))%N.
Proof.
  intros Hin%claim_for_group.
  destruct (picked_spec report (group_of receipt s request)) as (c & Hp & Hc & Hlast);
    [intros E; rewrite E in Hin; by apply elem_of_nil in Hin|].
  pose proof Hc as [Hl Hr]%(group_of_in rules _ _ Hlog Hnd). exists c. split_and!; [|done..|].
  - apply (claims_in rules _ _ _ Hlog Hnd). rewrite Hr. split; [|done]. intros E. rewrite E in Hin.
    by apply elem_of_nil in Hin.
  - intros sel' chosen' Hd'%claim_for_group Hs'. by apply (Hlast _ Hd').
Qed.

Lemma delivery_claim_unique sel request chosen request' chosen' :
  delivery_claim receipt sel request chosen → delivery_claim receipt sel request' chosen' →
  request = request' ∧ chosen = chosen'.
Proof.
  intros (_ & _ & (sd & Hd & Ho) & Hr) (_ & _ & (sd' & Hd' & Ho') & Hr'). split.
  - by apply Hr', Hr.
  - congruence.
Qed.

(** The latest sound claim of a request. *)
Definition standing_claim (sel : record) (request : RecordId) (chosen : list RecordId) : Prop :=
  delivery_claim receipt sel request chosen ∧ claim_sound report sel = true ∧
  ∀ sel' chosen', delivery_claim receipt sel' request chosen' → claim_sound report sel' = true →
    (rec_time sel' <= rec_time sel)%N.

Lemma claims_listed c :
  c ∈ claims receipt report s →
  listed receipt s c ∧
  ∀ c', c' ∈ group_of receipt s (cm_request c) → claim_sound report (cm_selection c') = true →
    claim_sound report (cm_selection c) = true ∧ (claim_time c' <= claim_time c)%N.
Proof.
  intros [Hg Hp]%(claims_in rules _ _ _ Hlog Hnd).
  destruct (picked_spec report _ Hg) as (c' & Hp' & Hin & Hlast). rewrite Hp in Hp'. injection Hp' as <-.
  by apply (group_of_in rules _ _ Hlog Hnd) in Hin as [Hl _].
Qed.

Lemma claims_deliver :
  (∀ c, c ∈ claims receipt report s →
     claim_sound report (cm_selection c) = true ∧ requirements_met (cm_selection c) (cm_request c) ∧
     candidate_judged (cm_selection c) (cm_chosen c)) ↔
  (∀ request, (∃ sel chosen, delivery_claim receipt sel request chosen) →
     ∃ sel chosen, standing_claim sel request chosen ∧ requirements_met sel request ∧
       candidate_judged sel chosen).
Proof.
  split.
  - intros Hall request (sel & chosen & Hd).
    destruct (claim_evaluated sel request chosen Hd) as (c & Hc & [_ Hl] & <- & Hlast).
    destruct (Hall c Hc) as (Hs & Hr & Hj). exists (cm_selection c), (cm_chosen c). split_and!; [|done..].
    split_and!; [done..|]. intros sel' chosen' Hd' Hs'. by apply (Hlast sel' chosen').
  - intros Hall c [[_ Hl] Hlast]%claims_listed.
    destruct (Hall (cm_request c)) as (sel & chosen & (Hd & Hs & Hmax) & Hr & Hj); [eauto|].
    destruct (Hlast _ (claim_for_group _ _ _ Hd) Hs) as [Hcs Ht].
    assert (sel = cm_selection c) as ->.
    { apply log_times_inj; [apply Hd | apply Hl |]. apply N.le_antisymm; [exact Ht | by eapply Hmax]. }
    by destruct (delivery_claim_unique _ _ _ _ _ Hd Hl) as [_ ->].
Qed.

Lemma no_claims : claims receipt report s = [] ↔ ¬ ∃ sel request chosen, delivery_claim receipt sel request chosen.
Proof.
  split.
  - intros E (sel & request & chosen & Hd). destruct (claim_evaluated _ _ _ Hd) as (c & Hc & _).
    rewrite E in Hc. by apply elem_of_nil in Hc.
  - intros Hno. destruct (claims receipt report s) as [|c l] eqn:E; [done|]. destruct Hno.
    destruct (claims_listed c) as [[_ Hl] _]; [rewrite E; left | eauto].
Qed.

Lemma delivery_clauses_pass :
  Forall (λ c, cr_passed c = true) (delivery_clauses receipt report s) ↔
  baseline receipt report ∧ (∃ sel request chosen, delivery_claim receipt sel request chosen) ∧
  (∀ request, (∃ sel chosen, delivery_claim receipt sel request chosen) →
     ∃ sel chosen, standing_claim sel request chosen ∧ requirements_met sel request ∧
       candidate_judged sel chosen).
Proof.
  rewrite <- claims_deliver, <- core_met. unfold delivery_clauses.
  destruct (claims receipt report s) as [|c0 l0] eqn:E.
  { split; [by intros [[=] _]%Forall_cons|]. intros (_ & He & _). by apply no_claims in E. }
  assert (Hne : ∃ sel request chosen, delivery_claim receipt sel request chosen).
  { destruct (claims_listed c0) as [[_ Hl] _]; [rewrite E; left | eauto]. }
  rewrite <- E, !Forall_cons, Forall_nil. cbn [cr_passed per_claim].
  rewrite !forallb_forall. setoid_rewrite <- list_elem_of_In. split.
  - intros (_ & P1 & P2 & P3 & P4 & P5 & P6 & P7 & _). split_and!; [done..|]. intros c Hc.
    destruct (claims_listed c Hc) as [Hl _]. apply (claim_clauses c Hl). auto 10.
  - intros (P6 & _ & Hall).
    assert (Hd : ∀ c, c ∈ claims receipt report s → _) by
      (intros c Hc; exact (proj2 (claim_clauses c (proj1 (claims_listed c Hc))) (Hall c Hc))).
    split_and!; try done; intros c Hc; apply (Hd c Hc).
Qed.
End clauses.


#[local] Existing Instance Delivered.serde.
#[local] Existing Instance Delivered.parser.
#[local] Existing Instance Exported.format.

