(* ===== verification/Cli.v ===== *)
(** * The command line

    Models the commands of src/src/bin/bellbook.rs that need no log: [validate],
    [rules init] and [key public].  A command maps its arguments, and what the
    files it names hold, to an exit code and the value it prints or writes; the
    text of messages is not modelled. *)

From S2P Require Export Validate.

(** ** Arguments *)

Definition DEFAULT_MAX_SIZE : N := N.shiftl 64 20.

Definition starts_with_dash (v : string) : bool := String.prefix "-" v.

(** [str::parse] at an unsigned width: an optional [+], then decimal digits. *)
Fixpoint parse_digits (max : N) (acc : N) (l : bytes) : option N :=
  match l with
  | [] => Some acc
  | b :: l =>
      if is_digit b then
        let n := (acc * 10 + (code b - 48))%N in
        if (max <? n)%N then None else parse_digits max n l
      else None
  end.
Definition parse_uint (max : N) (v : string) : option N :=
  match lit v with
  | [] => None
  | b :: l =>
      let digits := if (code b =? 43)%N then l else b :: l in
      match digits with [] => None | _ => parse_digits max 0 digits end
  end.

(** [str::split_once] and [str::rsplit_once] at a colon. *)
Fixpoint split_colon (l : bytes) : option (bytes * bytes) :=
  match l with
  | [] => None
  | b :: l =>
      if (code b =? 58)%N then Some ([], l) else
      '(x, y) ← split_colon l; Some (b :: x, y)
  end.
Definition split_once (v : string) : option (string * string) :=
  '(x, y) ← split_colon (lit v);
  Some (String.string_of_list_byte x, String.string_of_list_byte y).
Definition rsplit_once (v : string) : option (string * string) :=
  '(x, y) ← split_colon (rev (lit v));
  Some (String.string_of_list_byte (rev y), String.string_of_list_byte (rev x)).

(** [to_ascii_lowercase]. *)
Definition ascii_lower (b : byte) : byte := if in_range 65 90 b then byte_of (code b + 32) else b.
Definition to_ascii_lowercase (s : string) : string :=
  String.string_of_list_byte (ascii_lower <$> lit s).

(** [parse_role]. *)
Definition parse_role (s : string) : option AuthorType.t :=
  let s := to_ascii_lowercase s in
  if s =? "user" then Some AuthorType.User else
  if s =? "provider" then Some AuthorType.Provider else
  if s =? "system" then Some AuthorType.System else
  if s =? "executor" then Some AuthorType.Executor else
  if s =? "verifier" then Some AuthorType.Verifier else None.

Definition EXIT_SUCCESS : N := 0.
Definition EXIT_USAGE : N := 64.
Definition EXIT_UNREADABLE : N := 66.

(** ** [rules init] *)

Record RulesArgs := mk_RulesArgs {
  ra_authors : list (string * AuthorType.t);
  ra_admins : list string;
  ra_reaffirmers : list string;
  ra_max_context : N;
  ra_out : option string;
  ra_signed : bool;
  ra_author_keys : list (string * Hash256);
}.
Definition no_rules_args : RulesArgs := mk_RulesArgs [] [] [] 200 None false [].

(** The values of the options, once found. *)
Definition add_author_key (v : string) (a : RulesArgs) : option RulesArgs :=
  '(id, hex) ← rsplit_once v;
  if id =? "" then None else
  key ← hex_decode hex;
  Some (mk_RulesArgs (ra_authors a) (ra_admins a) (ra_reaffirmers a) (ra_max_context a) (ra_out a)
          (ra_signed a) (ra_author_keys a ++ [(id, key)])).
Definition add_author (v : string) (a : RulesArgs) : option RulesArgs :=
  '(id, role) ← split_once v;
  if id =? "" then None else
  role ← parse_role role;
  Some (mk_RulesArgs (ra_authors a ++ [(id, role)]) (ra_admins a) (ra_reaffirmers a)
          (ra_max_context a) (ra_out a) (ra_signed a) (ra_author_keys a)).
Definition add_admin (v : string) (a : RulesArgs) : option RulesArgs :=
  if v =? "" then None else
  Some (mk_RulesArgs (ra_authors a) (ra_admins a ++ [v]) (ra_reaffirmers a) (ra_max_context a)
          (ra_out a) (ra_signed a) (ra_author_keys a)).
Definition add_reaffirmer (v : string) (a : RulesArgs) : option RulesArgs :=
  if v =? "" then None else
  Some (mk_RulesArgs (ra_authors a) (ra_admins a) (ra_reaffirmers a ++ [v]) (ra_max_context a)
          (ra_out a) (ra_signed a) (ra_author_keys a)).
Definition set_max_context (v : string) (a : RulesArgs) : option RulesArgs :=
  n ← parse_uint u32_max v;
  Some (mk_RulesArgs (ra_authors a) (ra_admins a) (ra_reaffirmers a) n (ra_out a) (ra_signed a)
          (ra_author_keys a)).
Definition set_out (v : string) (a : RulesArgs) : option RulesArgs :=
  Some (mk_RulesArgs (ra_authors a) (ra_admins a) (ra_reaffirmers a) (ra_max_context a) (Some v)
          (ra_signed a) (ra_author_keys a)).
Definition set_signed (a : RulesArgs) : RulesArgs :=
  mk_RulesArgs (ra_authors a) (ra_admins a) (ra_reaffirmers a) (ra_max_context a) (ra_out a) true
    (ra_author_keys a).

Definition rules_option (arg : string) : option (string → RulesArgs → option RulesArgs) :=
  if arg =? "--author-key" then Some add_author_key else
  if arg =? "--admin" then Some add_admin else
  if arg =? "--reaffirmer" then Some add_reaffirmer else
  if arg =? "--author" then Some add_author else
  if arg =? "--max-context" then Some set_max_context else
  if arg =? "--out" then Some set_out else None.

(** The argument loop; [None] is a usage error. *)
Fixpoint parse_rules_args (args : list string) (a : RulesArgs) : option RulesArgs :=
  match args with
  | [] => Some a
  | arg :: args =>
      if arg =? "--signed" then parse_rules_args args (set_signed a) else
      match rules_option arg, args with
      | Some set, v :: args => a ← set v a; parse_rules_args args a
      | _, _ => None
      end
  end.

(** No option names an actor without a role. *)
Definition has_role (a : RulesArgs) (id : string) : bool := existsb (λ x, x.1 =? id) (ra_authors a).
Definition rules_args_ok (a : RulesArgs) : bool :=
  match ra_authors a with [] => false | _ => true end
  && forallb (has_role a) (ra_admins a) && forallb (has_role a) (ra_reaffirmers a)
  && forallb (λ k, has_role a k.1) (ra_author_keys a).

Definition require_signature (k : Kind.t) (r : VerifierRules) : VerifierRules :=
  mk_VerifierRules (rules_space r) (kind_schema_map r) ({[k]} ∪ signature_required_kinds r)
    (author_keys r) (author_roles r) (admin_retraction_actors r) (allowed_summary_types r)
    (evidence_thresholds r) (max_context_records r) (min_binding r)
    (selection_requires_evaluation r) (reaffirmation_actors r) (max_considered r)
    (selection_requires_approval r) (reject_compromised_continuation r).
Definition pin_key (id : string) (key : Hash256) (r : VerifierRules) : VerifierRules :=
  mk_VerifierRules (rules_space r) (kind_schema_map r) (signature_required_kinds r)
    (<[id := {[key]} ∪ default ∅ (author_keys r !! id)]> (author_keys r)) (author_roles r)
    (admin_retraction_actors r) (allowed_summary_types r) (evidence_thresholds r)
    (max_context_records r) (min_binding r) (selection_requires_evaluation r)
    (reaffirmation_actors r) (max_considered r) (selection_requires_approval r)
    (reject_compromised_continuation r).

Section cli.
Context `{Primitives}.

(** The rules the options describe. *)
Definition generated_rules (a : RulesArgs) : VerifierRules :=
  let rules := with_baseline_thresholds (new_rules default_space (ra_max_context a)) in
  let rules := fold_left (λ r x, with_author_role x.1 x.2 r) (ra_authors a) rules in
  let rules := fold_left (λ r id, with_admin_retraction_actor id r) (ra_admins a) rules in
  let rules := fold_left (λ r id, with_reaffirmation_actor id r) (ra_reaffirmers a) rules in
  let rules :=
    if ra_signed a then fold_left (λ r k, require_signature k r) SIGNED_KINDS rules else rules in
  fold_left (λ r x, pin_key x.1 x.2 r) (ra_author_keys a) rules.

(** [cmd_rules]; [write_ok] says whether writing the named file succeeds. *)
Definition cmd_rules (write_ok : string → bool) (args : list string) : N * option VerifierRules :=
  match args with
  | [] => (EXIT_USAGE, None)
  | sub :: args =>
      if negb (sub =? "init") then (EXIT_USAGE, None) else
      match parse_rules_args args no_rules_args with
      | None => (EXIT_USAGE, None)
      | Some a =>
          if negb (rules_args_ok a) then (EXIT_USAGE, None) else
          match ra_out a with
          | Some path =>
              if write_ok path then (EXIT_SUCCESS, Some (generated_rules a)) else (EXIT_UNREADABLE, None)
          | None => (EXIT_SUCCESS, Some (generated_rules a))
          end
      end
  end.

(** ** [key public] *)

(** [char::is_whitespace]. *)
Definition is_whitespace (c : N) : bool :=
  ((9 <=? c) && (c <=? 13) || (c =? 32) || (c =? 133) || (c =? 160) || (c =? 5760)
   || (8192 <=? c) && (c <=? 8202) || (c =? 8232) || (c =? 8233) || (c =? 8239) || (c =? 8287)
   || (c =? 12288))%N.
Fixpoint drop_whitespace (l : list N) : list N :=
  match l with
  | [] => []
  | c :: k => if is_whitespace c then drop_whitespace k else l
  end.
(** [str::trim]. *)
Definition trim (s : string) : string :=
  let l := rev (drop_whitespace (rev (drop_whitespace (chars s)))) in
  String.string_of_list_byte (concat (encode_utf8 <$> l)).

(** [read_signer]: the secret key in a file. *)
Definition read_signer (file : option bytes) : option Hash256 :=
  b ← file;
  if (length b =? 32)%nat then hash_of_bytes b else
  let text := String.string_of_list_byte b in
  if str_wf text then hex_decode (trim text) else None.

(** The argument loop of [cmd_key]. *)
Fixpoint parse_key_args (args : list string) (secret : option string) : option (option string) :=
  match args with
  | [] => Some secret
  | arg :: args =>
      if arg =? "--secret" then
        match args with v :: args => parse_key_args args (Some v) | [] => None end
      else None
  end.

(** [cmd_key], over the readable files. *)
Definition cmd_key (read : string → option bytes) (args : list string) : N * option string :=
  match args with
  | [] => (EXIT_USAGE, None)
  | sub :: args =>
      if negb (sub =? "public") then (EXIT_USAGE, None) else
      match parse_key_args args None with
      | Some (Some path) =>
          match read_signer (read path) with
          | Some secret => (EXIT_SUCCESS, Some (public_key_hex secret))
          | None => (EXIT_UNREADABLE, None)
          end
      | _ => (EXIT_USAGE, None)
      end
  end.
End cli.

(** ** [validate] *)

Record ValidateArgs := mk_ValidateArgs {
  va_file : option string;
  va_json : bool;
  va_max_size : N;
  va_profiles : list string;
}.
Definition no_validate_args : ValidateArgs := mk_ValidateArgs None false DEFAULT_MAX_SIZE [].

(** The argument loop; [None] is a usage error. *)
Fixpoint parse_validate_args (args : list string) (a : ValidateArgs) : option ValidateArgs :=
  match args with
  | [] => Some a
  | arg :: args =>
      if arg =? "--json" then
        parse_validate_args args (mk_ValidateArgs (va_file a) true (va_max_size a) (va_profiles a)) else
      if arg =? "--require-profile" then
        match args with
        | [] => None
        | v :: args =>
            if (v =? "") || starts_with_dash v then None else
            parse_validate_args args
              (mk_ValidateArgs (va_file a) (va_json a) (va_max_size a) (va_profiles a ++ [v]))
        end else
      if arg =? "--max-size" then
        match args with
        | [] => None
        | v :: args =>
            n ← parse_uint u64_max v;
            parse_validate_args args
              (mk_ValidateArgs (va_file a) (va_json a) (if (n =? 0)%N then u64_max else n) (va_profiles a))
        end else
      if negb (is_Some_b (va_file a)) && negb (starts_with_dash arg) then
        parse_validate_args args (mk_ValidateArgs (Some arg) (va_json a) (va_max_size a) (va_profiles a))
      else None
  end.

Section validate_command.
Context `{Primitives, Serde, HashOrder, TextFormat, ReceiptParser}.

(** The limits of a run. *)
Definition validate_limits (a : ValidateArgs) : ValidationLimits :=
  mk_ValidationLimits (va_max_size a) (max_records default_limits) (max_payload_bytes default_limits)
    (max_refs_per_record default_limits).

(** The exit code of a report. *)
Definition report_exit (report : Report) : N :=
  let profile_missed := existsb (λ p, negb (met p)) (rp_profiles report) in
  match rp_status report with
  | ValidationStatus.Invalid => 1
  | _ => if profile_missed then 3 else
      match rp_status report with ValidationStatus.Clean => EXIT_SUCCESS | _ => 2 end
  end%N.

(** [cmd_validate]: the file is read up to one byte past the limit. *)
Definition cmd_validate (read : string → option bytes) (args : list string) : N * option Report :=
  match parse_validate_args args no_validate_args with
  | None => (EXIT_USAGE, None)
  | Some a =>
      match va_file a with
      | None => (EXIT_USAGE, None)
      | Some path =>
          match read path with
          | None => (EXIT_UNREADABLE, None)
          | Some content =>
              let buf := take (N.to_nat (N.min u64_max (va_max_size a + 1))) content in
              if (va_max_size a <? N.of_nat (length buf))%N then (EXIT_UNREADABLE, None) else
              let report := validate_with_profiles buf (validate_limits a) (va_profiles a) in
              (report_exit report, Some report)
          end
      end
  end.
End validate_command.
