(* ===== verification/CliTheorems.v ===== *)
(** * Properties of the command line

    What the exit code of [validate] says. *)

From S2P Require Export Cli DeliveryTheorems.

Section exit_code.
Context `{Primitives, Serde, HashOrder, TextFormat, ReceiptParser}.

(** Evaluating profiles does not read the results already reported. *)
Lemma evaluate_set_profiles id receipt report l :
  evaluate_profile id receipt (set_profiles l report) = evaluate_profile id receipt report.
Proof. done. Qed.

Lemma evaluate_profiles_set receipt report l required :
  evaluate_profiles receipt (set_profiles l report) required = evaluate_profiles receipt report required.
Proof.
  unfold evaluate_profiles. change ((λ decl, evaluate_declared decl receipt (set_profiles l report)) <$>
    rcpt_profiles receipt) with ((λ decl, evaluate_declared decl receipt report) <$> rcpt_profiles receipt).
  generalize ((λ decl, evaluate_declared decl receipt report) <$> rcpt_profiles receipt).
  induction required as [|id required IH]; intros out; [done|]. simpl.
  case_match; [apply IH|]. rewrite evaluate_set_profiles. apply IH.
Qed.

Lemma evaluate_profile_id id receipt report : pr_id (evaluate_profile id receipt report) = id.
Proof.
  unfold evaluate_profile. case_bool_decide as E; [by subst|]. case_bool_decide as E2.
  { subst. unfold evaluate_delivery_v1. case_match; [done|]. by case_match. }
  case_bool_decide as E3; [|done]. subst. unfold evaluate_signed_v1. case_match; [done|]. by case_match.
Qed.

(** Every profile the receipt declares, as declared, and every required one
    it does not declare. *)
Definition all_met (receipt : Receipt) (report : Report) (required : list string) : Prop :=
  (∀ decl, decl ∈ rcpt_profiles receipt → met (evaluate_declared decl receipt report) = true) ∧
  (∀ id, id ∈ required → id ∉ pf_id <$> rcpt_profiles receipt →
     met (evaluate_profile id receipt report) = true).

Lemma evaluate_required_in receipt report required out p :
  p ∈ evaluate_required receipt report required out ↔
  p ∈ out ∨ ∃ id, id ∈ required ∧ id ∉ pr_id <$> out ∧ p = evaluate_profile id receipt report.
Proof.
  revert out. induction required as [|id required IH]; intros out; simpl.
  { split; [by left | intros [?|(? & ?%elem_of_nil & _)]; done]. }
  destruct (existsb _ out) eqn:Ex.
  - rewrite IH. apply existsb_exists in Ex as (q & Hq%list_elem_of_In & Hid%bool_decide_eq_true).
    assert (Hin : id ∈ pr_id <$> out) by (apply list_elem_of_fmap; eauto). set_solver.
  - rewrite IH, elem_of_app, list_elem_of_singleton. setoid_rewrite fmap_app.
    setoid_rewrite elem_of_app. simpl. rewrite evaluate_profile_id.
    assert (Hno : id ∉ pr_id <$> out).
    { intros (q & E & Hq)%list_elem_of_fmap. apply not_true_iff_false in Ex. destruct Ex.
      apply existsb_exists. exists q. split; [by apply list_elem_of_In | by apply bool_decide_eq_true]. }
    split.
    + intros [[?| ->]|(id' & ? & ? & ->)]; [by left | right; exists id; set_solver | right; exists id'; set_solver].
    + intros [? |(id' & [->|Hid]%elem_of_cons & Hn & ->)]; [by left; left | by left; right |].
      destruct (decide (id' = id)) as [->|]; [by left; right|]. right. exists id'. set_solver.
Qed.

Lemma evaluate_profiles_in receipt report required p :
  p ∈ evaluate_profiles receipt report required ↔
  (∃ decl, decl ∈ rcpt_profiles receipt ∧ p = evaluate_declared decl receipt report) ∨
  (∃ id, id ∈ required ∧ id ∉ pf_id <$> rcpt_profiles receipt ∧ p = evaluate_profile id receipt report).
Proof.
  unfold evaluate_profiles. rewrite evaluate_required_in, list_elem_of_fmap.
  assert (pr_id <$> ((λ decl, evaluate_declared decl receipt report) <$> rcpt_profiles receipt) =
    pf_id <$> rcpt_profiles receipt) as ->.
  { rewrite <- list_fmap_compose. apply list_fmap_ext. intros i decl _. apply evaluate_profile_id. }
  naive_solver.
Qed.

Lemma evaluate_profiles_met receipt report required :
  existsb (λ p, negb (met p)) (evaluate_profiles receipt report required) = false ↔
  all_met receipt report required.
Proof.
  unfold all_met. rewrite <- not_true_iff_false, existsb_exists. setoid_rewrite <- list_elem_of_In.
  setoid_rewrite evaluate_profiles_in. split.
  - intros Hno. split.
    + intros decl Hd. apply negb_false_iff, not_true_iff_false. intros Hm. apply Hno. eauto 10.
    + intros id Hid Hn. apply negb_false_iff, not_true_iff_false. intros Hm. apply Hno. eauto 10.
  - intros [Hd Hr] (p & [(decl & Hin & ->)|(id & Hid & Hn & ->)] & Hp).
    + by rewrite Hd in Hp.
    + by rewrite Hr in Hp.
Qed.

Lemma report_exit_spec report :
  let missed := existsb (λ p, negb (met p)) (rp_profiles report) in
  (report_exit report = 1%N ↔ rp_status report = ValidationStatus.Invalid) ∧
  (report_exit report = 3%N ↔ rp_status report ≠ ValidationStatus.Invalid ∧ missed = true) ∧
  (report_exit report = 2%N ↔ rp_status report = ValidationStatus.Tainted ∧ missed = false) ∧
  (report_exit report = 0%N ↔ rp_status report = ValidationStatus.Clean ∧ missed = false).
Proof. unfold report_exit. destruct (rp_status report), (existsb _ _); simpl; naive_solver. Qed.

(** The results of a validation, whichever profiles were required. *)
Lemma validated_profiles bytes limits receipt schemas required :
  admissible limits bytes receipt schemas →
  rp_profiles (validate_with_profiles bytes limits required) =
    evaluate_profiles receipt (validate_with_limits bytes limits) required ∧
  rp_status (validate_with_profiles bytes limits required) = rp_status (validate_with_limits bytes limits).
Proof.
  intros Ha. pose proof Ha as (_ & Hb & _). destruct (validate_admissible _ _ _ _ Ha) as [h E].
  unfold validate_with_profiles. rewrite Hb, E. unfold replay_report. set (base := mk_Report _ _ _ _ _ _ _ _ _ _ _ _ _).
  case_bool_decide as Er; simpl orb; cbn iota.
  - subst required. rewrite evaluate_profiles_set. done.
  - change (is_Some_b (rp_problem (set_profiles _ base))) with false. done.
Qed.
End exit_code.

(** C25: the exit code of [bellbook validate] can be trusted. On a readable
    file within the size limit it is 1 exactly when the receipt is not a valid
    history; 3 exactly when it is one, but some profile -- declared, as
    declared, or required -- is not met; and otherwise 2 or 0 by whether an
    accepted record of it retracts anything. A larger file is refused with
    code 66, unvalidated. *)
Theorem validate_exit_is_exact `{Primitives, Serde, HashOrder, TextFormat, ReceiptParser}
    read args a path content :
  parse_validate_args args no_validate_args = Some a → va_file a = Some path →
  read path = Some content → (N.of_nat (length content) <= u64_max)%N →
  let exit := (cmd_validate read args).1 in
  let valid receipt schemas := admissible (validate_limits a) content receipt schemas ∧
    ∃ s, Replays (rules_for_epoch (rcpt_rules receipt) schemas) (rcpt_records receipt) s in
  let met_all receipt :=
    all_met receipt (validate_with_limits content (validate_limits a)) (va_profiles a) in
  if decide (N.of_nat (length content) <= va_max_size a)%N then
    (exit = 1%N ↔ ¬ ∃ receipt schemas, valid receipt schemas) ∧
    (∀ receipt schemas, valid receipt schemas →
      (exit = 3%N ↔ ¬ met_all receipt) ∧
      (exit = 2%N ↔ retracts (rcpt_records receipt) ∧ met_all receipt) ∧
      (exit = 0%N ↔ ¬ retracts (rcpt_records receipt) ∧ met_all receipt))
  else exit = 66%N.
Proof.
  intros Ha Hf Hr Hlen. unfold cmd_validate. rewrite Ha, Hf, Hr.
  set (buf := take _ content). set (limits := validate_limits a).
  case_decide as Hmax; cycle 1.
  { assert (Hb : length buf = N.to_nat (N.min u64_max (va_max_size a + 1))) by (apply length_take_le; lia).
    rewrite Hb. destruct (N.ltb_spec (va_max_size a) (N.of_nat (N.to_nat (N.min u64_max (va_max_size a + 1)))));
      [done | lia]. }
  assert (buf = content) as -> by (apply take_ge; lia).
  destruct (N.ltb_spec (va_max_size a) (N.of_nat (length content))); [lia|]. cbn [fst].
  destruct (rp_problem (validate_with_limits content limits)) eqn:Ep.
  - assert (Hno : ¬ ∃ receipt schemas, admissible limits content receipt schemas)
      by (intros Hx; apply no_problem in Hx; congruence).
    assert (Hi : rp_status (validate_with_limits content limits) = ValidationStatus.Invalid)
      by (apply problem_invalid; by rewrite Ep).
    assert (report_exit (validate_with_profiles content limits (va_profiles a)) = 1%N) as ->.
    { unfold validate_with_profiles. rewrite Ep. simpl. rewrite orb_true_r. unfold report_exit. by rewrite Hi. }
    split; [split; [|done]; intros _ (r & sch & Hadm & _); eauto|].
    intros r sch [Hadm _]. destruct Hno. eauto.
  - apply no_problem in Ep as (receipt & schemas & Hadm).
    destruct (validated_profiles _ _ _ _ (va_profiles a) Hadm) as [Epr Est].
    assert (Hu : ∀ r sch, admissible limits content r sch → r = receipt ∧ sch = schemas)
      by (intros r sch Hx; by destruct (admissible_unique _ _ _ _ _ _ Hx Hadm)).
    destruct (report_exit_spec (validate_with_profiles content limits (va_profiles a))) as (X1 & X3 & X2 & X0).
    rewrite Epr in X3, X2, X0. rewrite Est in X1, X3, X2, X0. rewrite X1. setoid_rewrite X3. setoid_rewrite X2. setoid_rewrite X0.
    clear X0 X1 X2 X3. pose proof (evaluate_profiles_met receipt (validate_with_limits content limits)
      (va_profiles a)) as Hmet. rewrite (status_invalid _ _ _ _ Hadm). split.
    + split; [intros Hno (r & sch & Hadm' & Hs) | intros Hno Hs; apply Hno; eauto].
      by destruct (Hu _ _ Hadm') as [-> ->].
    + intros r sch [Hadm' (s & Hs)]. destruct (Hu _ _ Hadm') as [-> ->].
      rewrite <- Hmet, (status_invalid _ _ _ _ Hadm), (status_clean _ _ _ _ _ Hadm Hs),
        (status_tainted _ _ _ _ _ Hadm Hs). destruct (existsb _ _); naive_solver.
Qed.

(** A delivery receipt of exactly the permitted size. *)
Module Invoked.
Definition args : list string :=
  ["receipt.json"; "--max-size"; "18011"; "--require-profile"; "delivery-receipt-v1"].
Definition parsed : ValidateArgs :=
  mk_ValidateArgs (Some "receipt.json") false 18011 ["delivery-receipt-v1"].
Definition read (path : string) : option bytes :=
  if path =? "receipt.json" then Some Delivered.wire else None.
End Invoked.

#[local] Existing Instance Delivered.serde.
#[local] Existing Instance Delivered.parser.
#[local] Existing Instance Exported.format.

Lemma invoked_valid :
  admissible (validate_limits Invoked.parsed) Delivered.wire Delivered.receipt ALL_SCHEMAS ∧
  ∃ s, Replays (rules_for_epoch (rcpt_rules Delivered.receipt) ALL_SCHEMAS)
    (rcpt_records Delivered.receipt) s.
Proof.
  split.
  - apply admissible_check; [unfold from_bytes, Delivered.parser; by rewrite bool_decide_true | by_vm].
  - assert (Hv : accepted (verify_log (rcpt_records Delivered.receipt)
      (rules_for_epoch (rcpt_rules Delivered.receipt) ALL_SCHEMAS) None) = true) by by_vm.
    by apply verify_log_sound in Hv.
Qed.

Lemma validate_exit_is_exact_witness :
  (cmd_validate Invoked.read Invoked.args).1 = 0%N ∧
  ¬ retracts (rcpt_records Delivered.receipt) ∧
  all_met Delivered.receipt (validate_with_limits Delivered.wire (validate_limits Invoked.parsed))
    ["delivery-receipt-v1"].
Proof.
  assert (Hexit : (cmd_validate Invoked.read Invoked.args).1 = 0%N) by (vm_compute; reflexivity).
  assert (Hfits : (N.of_nat (length Delivered.wire) <= 18011)%N) by (vm_compute; discriminate).
  split; [exact Hexit|].
  pose proof (validate_exit_is_exact Invoked.read Invoked.args Invoked.parsed "receipt.json" Delivered.wire) as Hx.
  specialize (Hx ltac:(vm_compute; reflexivity) eq_refl eq_refl ltac:(vm_compute; discriminate)).
  cbv zeta in Hx. rewrite decide_True in Hx by exact Hfits. destruct Hx as [_ Hx].
  apply (Hx _ _ invoked_valid) in Hexit. exact Hexit.
Defined.
