(* ===== verification/Commands.v ===== *)
(** * The log commands of the command line

    Models [cmd_evolution] and the module [persist_cmds] of
    src/src/bin/bellbook.rs: the commands that record, show and export a log.
    A command works on the directory that [--log] names; it holds the writer,
    and with it the lock, until it returns.  What a command prints is the value
    it prints; the text of messages is one constructor each. *)

From S2P Require Export Cli Writer Queries Manifest.

Module CmdError.
Inductive t :=
  | NoValue (flag : string)
  | FlagAsValue (flag value : string)
  | Repeated (flag : string)
  | UnknownFlag (flag : string)
  | MissingFlag (flag : string)
  | CannotReadRules (path : string)
  | CannotParseRules (path : string)
  | CannotOpen (e : LogError.t)
  | LogDoesNotVerify
  | AuthorNotRegistered (id : string)
  | InvalidId (hex : string)
  | InvalidHash (flag hex : string)
  | InvalidArtifact (spec : string)
  | CannotWalk (path : string)
  | DuplicatePaths
  | CannotEncode
  | InvalidPayload
  | CannotReadKey (path : string)
  | CommitFailed (e : LogError.t)
  | CannotDeclare
  | CannotSerialize
  | CannotWrite (path : string)
  | NeedsSubcommand
  | UnknownSubcommand (sub : string)
  | NotAnAcceptedRequest (id : RecordId)
  | EmptyRequirement
  | RoleCannotAuthor (id : string) (role : AuthorType.t)
  | InvalidProvenance (v : string)
  | ProvenanceNotOfRole (id : string) (role : AuthorType.t)
  | InvalidAlgo (v : string)
  | ExclusiveBasis
  | ParentWithoutContinues
  | UpgradeNotCandidate (hex : string)
  | UpgradeNotAccepted (hex : string)
  | UpgradeRetracted (hex : string)
  | UpgradeOtherTree (tree : string)
  | InvalidScore
  | InvalidScale
  | NotOneOutcome
  | ExtendedNeedsBinding
  | NotAnAcceptedRequirement (id : RecordId)
  | EmptyEvaluator
  | InvalidBasis (v : string)
  | AttestedNeedsKey
  | AttestedNeedsExtended
  | NeedsConsider
  | ChooseOrNone
  | ChooseNeedsEval
  | NeedsQueryName
  | NotOneInput
  | RulesWithReceipt
  | TooManyArguments (args : list string)
  | CannotReadReceipt (path : string)
  | ReceiptDoesNotValidate
  | CannotParseReceipt (path : string)
  | QueryFailed (e : QueryError.t)
  | QueryNeedsId (name : string)
  | FrontierTakesNone
  | SelectedNeedsObjective
  | UnknownQuery (name : string)
  | LineageNeedsId
  | RecordNotFound (hex : string).
End CmdError.

#[export] Instance Provenance_eq_dec : EqDecision Provenance.t.
Proof. solve_decision. Defined.

(** ** Flags *)

Record Parsed := mk_Parsed {
  singles : gmap string string;
  multis : gmap string (list string);
  bools : gset string;
  positionals : list string;
}.
Definition nothing_parsed : Parsed := mk_Parsed ∅ ∅ ∅ [].

(** [strip_prefix("--")]. *)
Definition dash : Ascii.ascii := Ascii.ascii_of_byte x2d.
Definition strip_dashes (tok : string) : option string :=
  match tok with
  | String a (String b name) => if (a =? dash) && (b =? dash) then Some name else None
  | _ => None
  end.

Section parse.
Context (single multi bool_ : list string).

Definition is_flag (tok : string) : bool :=
  match strip_dashes tok with
  | Some n => bool_decide (n ∈ single) || bool_decide (n ∈ multi) || bool_decide (n ∈ bool_)
  | None => false
  end.

(** [parse]: a flag of several values takes every token up to the next flag. *)
Fixpoint parse_from (rest : list string) (p : Parsed) : CmdError.t + Parsed :=
  match rest with
  | [] => Ok p
  | tok :: rest =>
      match strip_dashes tok with
      | Some name =>
          if bool_decide (name ∈ bool_) then
            parse_from rest (mk_Parsed (singles p) (multis p) ({[name]} ∪ bools p) (positionals p))
          else if bool_decide (name ∈ multi) then
            let extended vals :=
              mk_Parsed (singles p) (<[name := default [] (multis p !! name) ++ vals]> (multis p))
                (bools p) (positionals p) in
            (fix collect (rest : list string) (vals : list string) : CmdError.t + Parsed :=
               match rest with
               | [] => match vals with [] => Err (CmdError.NoValue name) | _ => Ok (extended vals) end
               | v :: tail =>
                   if is_Some_b (strip_dashes v) then
                     match vals with
                     | [] => Err (CmdError.NoValue name)
                     | _ => parse_from rest (extended vals)
                     end
                   else collect tail (vals ++ [v])
               end) rest []
          else if bool_decide (name ∈ single) || (name =? "sign-key") then
            match rest with
            | [] => Err (CmdError.NoValue name)
            | v :: rest =>
                if is_flag v then Err (CmdError.FlagAsValue name v) else
                if is_Some_b (singles p !! name) then Err (CmdError.Repeated name) else
                parse_from rest
                  (mk_Parsed (<[name := v]> (singles p)) (multis p) (bools p) (positionals p))
            end
          else Err (CmdError.UnknownFlag name)
      | None => parse_from rest (mk_Parsed (singles p) (multis p) (bools p) (positionals p ++ [tok]))
      end
  end.
Definition parse (rest : list string) : CmdError.t + Parsed := parse_from rest nothing_parsed.
End parse.

(** [require]. *)
Definition require (p : Parsed) (key : string) : CmdError.t + string :=
  ok_or (singles p !! key) (CmdError.MissingFlag key).
Definition has_bool (p : Parsed) (key : string) : bool := key ∈? bools p.
Definition has_single (p : Parsed) (key : string) : bool := is_Some_b (singles p !! key).
Definition has_multi (p : Parsed) (key : string) : bool := is_Some_b (multis p !! key).

(** ** Values *)

(** [str::parse] at a signed width of [bound] and [bound - 1]. *)
Definition parse_int (bound : N) (v : string) : option Z :=
  match lit v with
  | [] => None
  | b :: l =>
      if (code b =? 45)%N then
        match l with [] => None | _ => Z.opp ∘ Z.of_N <$> parse_digits bound 0 l end
      else
        let digits := if (code b =? 43)%N then l else b :: l in
        match digits with [] => None | _ => Z.of_N <$> parse_digits (bound - 1) 0 digits end
  end.
Definition i64_bound : N := 2 ^ 63.

Definition parse_id (hex : string) : CmdError.t + RecordId :=
  ok_or (hex_decode hex) (CmdError.InvalidId hex).
Definition parse_hash (flag hex : string) : CmdError.t + Hash256 :=
  ok_or (hex_decode hex) (CmdError.InvalidHash flag hex).

(** [splitn(3, ':')]: a scheme, a digest, and perhaps a name. *)
Definition split_artifact (spec : string) : CmdError.t + ArtifactRef :=
  '(scheme, rest) ← ok_or (split_once spec) (CmdError.InvalidArtifact spec);
  Ok match split_once rest with
     | Some (digest, name) => mk_ArtifactRef scheme digest (Some name)
     | None => mk_ArtifactRef scheme rest None
     end.
Definition parse_artifact (spec : string) : CmdError.t + ArtifactRef :=
  a ← split_artifact spec;
  if negb (artifact_ref_well_formed a) then Err (CmdError.InvalidArtifact spec) else Ok a.
(** [parse_artifacts]. *)
Definition parse_artifacts (p : Parsed) : CmdError.t + option (list ArtifactRef) :=
  match multis p !! "artifact" with
  | None => Ok None
  | Some specs =>
      refs ← mapM parse_artifact specs;
      Ok (Some (dedup (sort_by cmp refs)))
  end.

(** ** Files *)

(** What a command reads and writes outside the log: files, whether a file can
    be written, and source trees. *)
Record Host := mk_Host {
  host_read : string → option bytes;
  host_write : string → bool;
  host_tree : string → option (bool * list (bytes * FsNode));
}.

(** [serde_json::from_slice::<VerifierRules>]. *)
Class RulesParser := from_slice_rules : bytes → option VerifierRules.

(** What [commit_and_print] prints. *)
Record CommitOutput := mk_CommitOutput {
  co_id : string;
  co_result : string;
  co_reason : option ReasonCode.t;
}.

(** [LineageReport]. *)
Record LineageReport := mk_LineageReport {
  ln_id : string;
  ln_kind : string;
  ln_basis : option CandidateBasis.t;
  ln_parent : option string;
  ln_note : option string;
  ln_tainted : bool;
  ln_standing : string;
  ln_ancestors : list string;
  ln_children : list string;
  ln_siblings : list string;
  ln_considered_by : list string;
  ln_selected_by : list string;
}.

Module Answer.
Inductive t :=
  | Descent (r : DescentReport)
  | Descendants (r : DescendantsReport)
  | Siblings (r : SiblingsReport)
  | Frontier (r : FrontierReport)
  | Standing (r : StandingReport)
  | Evidence (r : EvidenceReport)
  | Selected (r : SelectedReport).
End Answer.

Module CmdOutput.
Inductive t :=
  | Committed (o : CommitOutput)
  | Exported (b : bytes)
  | Queried (a : Answer.t)
  | Lineage (r : LineageReport).
End CmdOutput.

Module MainOutput.
Inductive t :=
  | Usage
  | Validated (r : option Report)
  | Rules (r : option VerifierRules)
  | Key (hex : option string)
  | Evolved (out : CmdError.t + CmdOutput.t).
End MainOutput.

Abbreviation cmd A := (eff Disk CmdError.t A).

(** An error of the library, as the command reports it. *)
Definition on_log {A} (f : LogError.t → CmdError.t) (m : io A) : cmd A := λ d,
  match m d with
  | (d, inl e) => (d, inl (f e))
  | (d, inr a) => (d, inr a)
  end.
(** The writer goes out of scope, with an error or without. *)
Definition dropping {A} (m : cmd A) : cmd A := λ d, let (d, res) := m d in (drop_writer d, res).

Section commands.
Context `{Primitives, Serde, HashOrder, RecordParser, TextFormat, ReceiptParser, RulesParser}.
Context (host : Host).

Definition load_rules (p : Parsed) : CmdError.t + VerifierRules :=
  path ← require p "rules";
  bytes ← ok_or (host_read host path) (CmdError.CannotReadRules path);
  ok_or (from_slice_rules bytes) (CmdError.CannotParseRules path).

(** [open]: a log that does not verify drops the writer again. *)
Definition open_log (p : Parsed) (rules : VerifierRules) : cmd (LogWriter * State) :=
  _ ← lift_res (require p "log");
  w ← on_log CmdError.CannotOpen (open rules);
  match verify_and_build_state (fl_records (lw_log w)) rules with
  | Ok s => mret (w, s)
  | Err _ => _ ← modify drop_writer; fail CmdError.LogDoesNotVerify
  end.

(** [author]. *)
Definition author_of (rules : VerifierRules) (p : Parsed) : CmdError.t + Author :=
  id ← require p "author";
  type_ ← ok_or (author_roles rules !! id) (CmdError.AuthorNotRegistered id);
  Ok (mk_author id type_ None).

Definition find_candidate (records : list record) (id : RecordId) : option CandidateData :=
  '(_, r) ← list_find (λ r, rec_id r = id ∧ rec_kind r = Kind.Candidate) records;
  decode (rec_data r).

Definition manifest_binding (path : string) : CmdError.t + Hash256 :=
  root ← ok_or (host_tree host path) (CmdError.CannotWalk path);
  entries ← match manifest_from_dir root ∅ with
            | Ok entries => Ok entries
            | Err _ => Err (CmdError.CannotWalk path)
            end;
  ok_or (manifest_hash entries) CmdError.DuplicatePaths.

(** [checked_encode]: what is written also decodes. *)
Definition checked_encode {A} `{Serialize A, Decode A} (value : A) : CmdError.t + bytes :=
  bytes ← ok_or (encode value) CmdError.CannotEncode;
  _ ← ok_or (decode bytes : option A) CmdError.InvalidPayload;
  Ok bytes.

Definition signer_from (p : Parsed) : CmdError.t + option Hash256 :=
  match singles p !! "sign-key" with
  | None => Ok None
  | Some path =>
      secret ← ok_or (read_signer (host_read host path)) (CmdError.CannotReadKey path);
      Ok (Some secret)
  end.

(** Running a writing method on the command's own writer and state. *)
Definition on_writer {A} (w : LogWriter) (s : State) (m : mach A) : cmd A := λ d,
  match m (mk_Machine w s d) with
  | (c, inl e) => (mc_disk c, inl (CmdError.CommitFailed e))
  | (c, inr a) => (mc_disk c, inr a)
  end.

Definition exit_rejected : N := 65.

(** [commit_and_print]. *)
Definition commit_and_print (w : LogWriter) (rules : VerifierRules) (s : State)
    (proposal : Proposal) (p : Parsed) : cmd (N * CmdOutput.t) :=
  signer ← lift_res (signer_from p);
  '(id, verdict) ← on_writer w s
    match signer with
    | Some signer => commit_signed proposal rules signer
    | None => commit proposal rules
    end;
  let accepted := vd_result verdict =? VerdictResult.Accept in
  let out := mk_CommitOutput (hex_encode id) (if accepted then "accept" else "reject")
    (vd_reason verdict) in
  mret (if accepted then EXIT_SUCCESS else exit_rejected, CmdOutput.Committed out).

(** The subcommand [add]. *)
Definition add_args (rest : list string) : CmdError.t + list string :=
  match rest with
  | [] => Err CmdError.NeedsSubcommand
  | sub :: rest => if negb (sub =? "add") then Err (CmdError.UnknownSubcommand sub) else Ok rest
  end.

(** A recording command: the rules, the log, the author, the proposal its flags
    describe, and the commit. *)
Definition recording (p : Parsed)
    (propose : VerifierRules → Author → list record → State → CmdError.t + Proposal)
    : cmd (N * CmdOutput.t) :=
  rules ← lift_res (load_rules p);
  '(w, s) ← open_log p rules;
  dropping (
    author ← lift_res (author_of rules p);
    proposal ← lift_res (propose rules author (fl_records (lw_log w)) s);
    commit_and_print w rules s proposal p).

Definition propose_in (rules : VerifierRules) (author : Author) (kind : Kind.t) (schema : string)
    (data : bytes) (refs : list Ref) : Proposal :=
  mk_proposal (rules_space rules) (rules_space rules) author kind (schema_id schema) data refs.

(** ** [request add] *)

Definition request_data (p : Parsed) (rules : VerifierRules) : CmdError.t + RequestData :=
  objective ← require p "objective";
  Ok (mk_RequestData objective (rules_space rules) [] None).
Definition request_proposal (p : Parsed) (rules : VerifierRules) (author : Author)
    (records : list record) (s : State) : CmdError.t + Proposal :=
  d ← request_data p rules;
  data ← checked_encode d;
  Ok (propose_in rules author Kind.Request SCHEMA_REQUEST data []).

Definition request_args (rest : list string) : CmdError.t + Parsed :=
  rest ← add_args rest;
  parse ["log"; "rules"; "author"; "objective"] [] ["json"] rest.
Definition cmd_request (rest : list string) : cmd (N * CmdOutput.t) :=
  p ← lift_res (request_args rest);
  recording p (request_proposal p).

(** ** [requirement add] *)

Definition role_default (author : Author) : CmdError.t + Provenance.t :=
  match author_type author with
  | AuthorType.User => Ok Provenance.UserAuthored
  | AuthorType.Provider | AuthorType.System => Ok Provenance.Derived
  | other => Err (CmdError.RoleCannotAuthor (author_id author) other)
  end.

Definition stated_provenance (p : Parsed) (default : Provenance.t) : CmdError.t + Provenance.t :=
  match singles p !! "provenance" with
  | None => Ok default
  | Some v =>
      if v =? "user-authored" then Ok Provenance.UserAuthored else
      if v =? "derived" then Ok Provenance.Derived else Err (CmdError.InvalidProvenance v)
  end.

Definition is_record_of (k : Kind.t) (records : list record) (s : State) (id : RecordId) : bool :=
  (id ∈? accepted_records s) && existsb (λ r, (rec_id r =? id) && (rec_kind r =? k)) records.

(** The request, and the payload under it. *)
Definition requirement_data (p : Parsed) (author : Author) (records : list record) (s : State)
    : CmdError.t + (RecordId * RequirementData) :=
  request ← (hex ← require p "request"; parse_id hex);
  if negb (is_record_of Kind.Request records s request)
  then Err (CmdError.NotAnAcceptedRequest request) else
  key ← require p "key";
  description ← require p "description";
  if (key =? "") || (description =? "") then Err CmdError.EmptyRequirement else
  role_default ← role_default author;
  provenance ← stated_provenance p role_default;
  if negb (provenance =? role_default)
  then Err (CmdError.ProvenanceNotOfRole (author_id author) (author_type author)) else
  Ok (request, mk_RequirementData key description (negb (has_bool p "optional"))
    (singles p !! "expected-evidence") provenance).
Definition requirement_proposal (p : Parsed) (rules : VerifierRules) (author : Author)
    (records : list record) (s : State) : CmdError.t + Proposal :=
  '(request, d) ← requirement_data p author records s;
  data ← checked_encode d;
  Ok (propose_in rules author Kind.Requirement SCHEMA_REQUIREMENT data
    [mk_ref RefType.Cause request]).

Definition requirement_args (rest : list string) : CmdError.t + Parsed :=
  rest ← add_args rest;
  parse ["log"; "rules"; "author"; "request"; "key"; "description";
    "expected-evidence"; "provenance"] [] ["json"; "optional"] rest.
Definition cmd_requirement (rest : list string) : cmd (N * CmdOutput.t) :=
  p ← lift_res (requirement_args rest);
  recording p (requirement_proposal p).

(** ** [candidate add] *)

Definition parse_algo (p : Parsed) : CmdError.t + SourceAlgo.t :=
  match singles p !! "algo" with
  | None => Ok SourceAlgo.Sha1
  | Some v =>
      if v =? "sha1" then Ok SourceAlgo.Sha1 else
      if v =? "sha256" then Ok SourceAlgo.Sha256 else Err (CmdError.InvalidAlgo v)
  end.

(** Basis, parent and refs of an upgrade: a derivation of a live candidate with
    the same tree. *)
Definition upgrade_basis (tree target_hex : string) (records : list record) (s : State)
    : CmdError.t + (CandidateBasis.t * option RecordId * list Ref) :=
  target ← parse_id target_hex;
  data ← ok_or (find_candidate records target) (CmdError.UpgradeNotCandidate target_hex);
  if negb (target ∈? accepted_records s) then Err (CmdError.UpgradeNotAccepted target_hex) else
  if target ∈? retracted_records s then Err (CmdError.UpgradeRetracted target_hex) else
  if negb (gs_tree (sb_git (cd_source data)) =? tree) then Err (CmdError.UpgradeOtherTree tree) else
  Ok (CandidateBasis.Derivation, None, [mk_ref RefType.Cause target]).

Definition candidate_basis (p : Parsed) (tree : string) (records : list record) (s : State)
    : CmdError.t + (CandidateBasis.t * option RecordId * list Ref) :=
  let n_basis := length (filter Is_true
    [has_single p "continues"; has_multi p "derives-from"; has_single p "upgrades"]) in
  if 1 <? n_basis then Err CmdError.ExclusiveBasis else
  if negb (has_single p "continues") && has_single p "parent"
  then Err CmdError.ParentWithoutContinues else
  match singles p !! "continues", multis p !! "derives-from", singles p !! "upgrades" with
  | Some sel, _, _ =>
      parent ← (hex ← require p "parent"; parse_id hex);
      sel ← parse_id sel;
      Ok (CandidateBasis.Continuation, Some parent, [mk_ref RefType.Cause sel])
  | None, Some ids, _ =>
      targets ← mapM parse_id ids;
      Ok (CandidateBasis.Derivation, None, mk_ref RefType.Cause <$> targets)
  | None, None, Some target_hex => upgrade_basis tree target_hex records s
  | None, None, None => Ok (CandidateBasis.Root, None, [])
  end.

Definition candidate_data_of (p : Parsed) (records : list record) (s : State)
    : CmdError.t + (CandidateData * list Ref) :=
  algo ← parse_algo p;
  tree ← require p "git-tree";
  '(basis, parent, refs) ← candidate_basis p tree records s;
  '(manifest_hash, binding) ←
    match singles p !! "manifest" with
    | Some path => hash ← manifest_binding path; Ok (Some hash, BindingMode.Manifest)
    | None => Ok (None, BindingMode.Reported)
    end;
  artifacts ← parse_artifacts p;
  Ok (mk_CandidateData
    (mk_SourceBinding (mk_GitSource algo tree (singles p !! "git-commit")) manifest_hash binding)
    basis parent (singles p !! "note") artifacts, refs).
Definition candidate_proposal (p : Parsed) (rules : VerifierRules) (author : Author)
    (records : list record) (s : State) : CmdError.t + Proposal :=
  '(d, refs) ← candidate_data_of p records s;
  data ← checked_encode d;
  Ok (propose_in rules author Kind.Candidate SCHEMA_CANDIDATE data refs).

Definition candidate_args (rest : list string) : CmdError.t + Parsed :=
  rest ← add_args rest;
  parse ["log"; "rules"; "author"; "git-tree"; "git-commit"; "algo"; "note";
    "manifest"; "continues"; "parent"; "upgrades"] ["derives-from"; "artifact"] ["json"] rest.
Definition cmd_candidate (rest : list string) : cmd (N * CmdOutput.t) :=
  p ← lift_res (candidate_args rest);
  recording p (candidate_proposal p).

(** ** [eval add] *)

Definition fail_closed_flags : list string := ["blocked"; "insufficient"; "stale"; "not-run"].

Definition parse_scored (p : Parsed) : CmdError.t + option ScoredValue :=
  match singles p !! "score" with
  | None => Ok None
  | Some score =>
      value ← ok_or (parse_int i64_bound score) CmdError.InvalidScore;
      scale ← (v ← require p "scale"; ok_or (parse_uint u8_max v) CmdError.InvalidScale);
      Ok (Some (mk_ScoredValue value scale))
  end.

(** Exactly one outcome. *)
Definition parse_outcome (p : Parsed) : CmdError.t + EvaluationOutcomeV2.t ScoredValue :=
  let unit_outcomes := filter (λ f, has_bool p f) (["passed"; "failed"] ++ fail_closed_flags) in
  scored ← parse_scored p;
  match unit_outcomes, scored with
  | [], Some s => Ok (EvaluationOutcomeV2.Scored s)
  | [f], None =>
      if f =? "passed" then Ok EvaluationOutcomeV2.Passed else
      if f =? "failed" then Ok EvaluationOutcomeV2.Failed else
      if f =? "blocked" then Ok EvaluationOutcomeV2.Blocked else
      if f =? "insufficient" then Ok EvaluationOutcomeV2.Insufficient else
      if f =? "stale" then Ok EvaluationOutcomeV2.Stale else Ok EvaluationOutcomeV2.NotRun
  | _, _ => Err CmdError.NotOneOutcome
  end.

(** A flag of the extended shape is given. *)
Definition extended (p : Parsed) : bool :=
  existsb (has_single p) ["evaluator"; "evaluator-version"; "procedure-hash"; "input-hash"; "basis"]
  || existsb (has_multi p) ["requirement"; "artifact"]
  || existsb (has_bool p) fail_closed_flags.

Definition parse_requirements (p : Parsed) (records : list record) (s : State)
    : CmdError.t + list RecordId :=
  ids ← mapM parse_id (default [] (multis p !! "requirement"));
  let requirements := dedup (sort_by cmp ids) in
  match list_find (λ id, is_record_of Kind.Requirement records s id = false) requirements with
  | Some (_, id) => Err (CmdError.NotAnAcceptedRequirement id)
  | None => Ok requirements
  end.

Definition parse_basis (p : Parsed) : CmdError.t + Basis.t :=
  v ← require p "basis";
  if v =? "recomputed" then Ok Basis.Recomputed else
  if v =? "declared" then Ok Basis.Declared else Err (CmdError.InvalidBasis v).

Definition parse_hash_flag (p : Parsed) (flag : string) : CmdError.t + option Hash256 :=
  match singles p !! flag with
  | None => Ok None
  | Some hex => h ← parse_hash flag hex; Ok (Some h)
  end.

(** The payload of the extended shape, and its schema. *)
Definition extended_data (p : Parsed) (candidate : RecordId) (criterion : string)
    (outcome : EvaluationOutcomeV2.t ScoredValue) (requirements : list RecordId)
    : CmdError.t + EvaluationDataV2 :=
  evaluator_id ← require p "evaluator";
  if evaluator_id =? "" then Err CmdError.EmptyEvaluator else
  basis ← parse_basis p;
  procedure_hash ← parse_hash_flag p "procedure-hash";
  input_hash ← parse_hash_flag p "input-hash";
  evidence ← parse_artifacts p;
  Ok (mk_EvaluationDataV2 candidate criterion (singles p !! "procedure") outcome
    (mk_DeciderBinding evaluator_id (singles p !! "evaluator-version") procedure_hash input_hash)
    basis (default [] evidence) requirements).
Definition extended_payload (p : Parsed) (d : EvaluationDataV2) : CmdError.t + (string * bytes) :=
  data ← checked_encode d;
  if has_bool p "attested" then
    if negb (has_single p "sign-key") then Err CmdError.AttestedNeedsKey
    else Ok (SCHEMA_EVALUATION_ATTESTED, data)
  else Ok (SCHEMA_EVALUATION_V2, data).

(** The first shape, which knows three outcomes. *)
Definition plain_data (p : Parsed) (candidate : RecordId) (criterion : string)
    (outcome : EvaluationOutcomeV2.t ScoredValue) : CmdError.t + EvaluationData :=
  if has_bool p "attested" then Err CmdError.AttestedNeedsExtended else
  outcome ← match outcome with
            | EvaluationOutcomeV2.Passed => Ok EvaluationOutcome.Passed
            | EvaluationOutcomeV2.Failed => Ok EvaluationOutcome.Failed
            | EvaluationOutcomeV2.Scored s => Ok (EvaluationOutcome.Scored s)
            | _ => Err CmdError.NotOneOutcome (* unreachable *)
            end;
  Ok (mk_EvaluationData candidate criterion (singles p !! "procedure") outcome).

(** The payload under its schema, and the refs. *)
Definition evaluation_data (p : Parsed) (records : list record) (s : State)
    : CmdError.t + ((EvaluationData + EvaluationDataV2) * list Ref) :=
  candidate ← (hex ← require p "candidate"; parse_id hex);
  criterion ← require p "criterion";
  outcome ← parse_outcome p;
  if extended p && negb (has_single p "evaluator" && has_single p "basis")
  then Err CmdError.ExtendedNeedsBinding else
  requirements ← parse_requirements p records s;
  extra ← mapM parse_id (default [] (multis p !! "uses"));
  let refs := mk_ref RefType.Use <$> candidate :: requirements ++ extra in
  if extended p then
    d ← extended_data p candidate criterion outcome requirements;
    Ok (inr d, refs)
  else
    d ← plain_data p candidate criterion outcome;
    Ok (inl d, refs).
Definition evaluation_proposal (p : Parsed) (rules : VerifierRules) (author : Author)
    (records : list record) (s : State) : CmdError.t + Proposal :=
  '(d, refs) ← evaluation_data p records s;
  '(schema, data) ← match d with
                    | inr d => extended_payload p d
                    | inl d => data ← checked_encode d; Ok (SCHEMA_EVALUATION, data)
                    end;
  Ok (propose_in rules author Kind.Evaluation schema data refs).

Definition eval_args (rest : list string) : CmdError.t + Parsed :=
  rest ← add_args rest;
  parse ["log"; "rules"; "author"; "candidate"; "criterion"; "procedure"; "score";
    "scale"; "evaluator"; "evaluator-version"; "procedure-hash"; "input-hash"; "basis"]
    ["uses"; "requirement"; "artifact"]
    (["json"; "passed"; "failed"] ++ fail_closed_flags ++ ["attested"]) rest.
Definition cmd_eval (rest : list string) : cmd (N * CmdOutput.t) :=
  p ← lift_res (eval_args rest);
  recording p (evaluation_proposal p).

(** ** [retract] *)

Definition retraction_data (p : Parsed) : CmdError.t + RetractionData :=
  target ← (hex ← require p "target"; parse_id hex);
  reason ← require p "reason";
  Ok (mk_RetractionData target reason).
Definition retraction_proposal (p : Parsed) (rules : VerifierRules) (author : Author)
    (records : list record) (s : State) : CmdError.t + Proposal :=
  d ← retraction_data p;
  data ← checked_encode d;
  Ok (propose_in rules author Kind.Retraction SCHEMA_RETRACTION data
    [mk_ref RefType.Cause (rx_target_id d)]).

Definition retract_args (rest : list string) : CmdError.t + Parsed :=
  parse ["log"; "rules"; "author"; "target"; "reason"] [] ["json"] rest.
Definition cmd_retract (rest : list string) : cmd (N * CmdOutput.t) :=
  p ← lift_res (retract_args rest);
  recording p (retraction_proposal p).

(** ** [select] *)

(** Outcome and refs. *)
Definition selection_outcome (p : Parsed) : CmdError.t + (SelectionOutcome.t * list Ref) :=
  match multis p !! "choose" with
  | None => Ok (SelectionOutcome.None_, [])
  | Some ids =>
      winners ← mapM parse_id ids;
      evals ← ok_or (multis p !! "uses-eval") CmdError.ChooseNeedsEval;
      uses ← mapM parse_id evals;
      Ok (SelectionOutcome.Selected winners,
          (mk_ref RefType.Require_ <$> winners) ++ (mk_ref RefType.Use <$> uses))
  end.

Definition selection_data (p : Parsed) : CmdError.t + (SelectionData * list Ref) :=
  objective ← require p "objective";
  ids ← ok_or (multis p !! "consider") CmdError.NeedsConsider;
  considered ← mapM parse_id ids;
  if eqb (has_bool p "none") (has_multi p "choose") then Err CmdError.ChooseOrNone else
  '(outcome, refs) ← selection_outcome p;
  replaces ← match singles p !! "replaces" with
             | None => Ok []
             | Some sel => target ← parse_id sel; Ok [mk_ref RefType.Replace target]
             end;
  Ok (mk_SelectionData objective considered outcome (singles p !! "rationale"), refs ++ replaces).
Definition selection_proposal (p : Parsed) (rules : VerifierRules) (author : Author)
    (records : list record) (s : State) : CmdError.t + Proposal :=
  '(d, refs) ← selection_data p;
  data ← checked_encode d;
  Ok (propose_in rules author Kind.Selection SCHEMA_SELECTION data refs).

Definition select_args (rest : list string) : CmdError.t + Parsed :=
  parse ["log"; "rules"; "author"; "objective"; "rationale"; "replaces"]
    ["consider"; "choose"; "uses-eval"] ["json"; "none"] rest.
Definition cmd_select (rest : list string) : cmd (N * CmdOutput.t) :=
  p ← lift_res (select_args rest);
  recording p (selection_proposal p).

(** ** [export] *)

Definition cmd_export (rest : list string) : cmd (N * CmdOutput.t) :=
  p ← lift_res (parse ["log"; "rules"; "out"] ["profile"] [] rest);
  rules ← lift_res (load_rules p);
  '(w, _) ← open_log p rules;
  dropping (
    let declared := default [] (multis p !! "profile") in
    receipt ← lift_res
      match with_declared_profiles (new_receipt (fl_records (lw_log w)) rules) declared with
      | Ok receipt => Ok receipt
      | Err _ => Err CmdError.CannotDeclare
      end;
    bytes ← lift_opt CmdError.CannotSerialize (to_bytes receipt);
    match singles p !! "out" with
    | Some path =>
        if host_write host path then mret (EXIT_SUCCESS, CmdOutput.Exported bytes)
        else fail (CmdError.CannotWrite path)
    | None => mret (EXIT_SUCCESS, CmdOutput.Exported bytes)
    end).

(** ** [query] *)

(** The answer to one named query. *)
Definition answer (q : Queries) (name : string) (args : list string) : CmdError.t + Answer.t :=
  let arg_id := hex ← ok_or (head args) (CmdError.QueryNeedsId name); parse_id hex in
  let lift {A} (r : QueryError.t + A) : CmdError.t + A :=
    match r with Ok a => Ok a | Err e => Err (CmdError.QueryFailed e) end in
  if name =? "descent" then id ← arg_id; r ← lift (descent q id); Ok (Answer.Descent r) else
  if name =? "descendants" then id ← arg_id; r ← lift (descendants q id); Ok (Answer.Descendants r) else
  if name =? "siblings" then id ← arg_id; r ← lift (siblings q id); Ok (Answer.Siblings r) else
  if name =? "frontier" then
    match args with
    | [] => Ok (Answer.Frontier (frontier q))
    | _ => Err CmdError.FrontierTakesNone
    end else
  if name =? "standing" then id ← arg_id; r ← lift (query_standing q id); Ok (Answer.Standing r) else
  if name =? "evidence" then id ← arg_id; r ← lift (evidence q id); Ok (Answer.Evidence r) else
  if name =? "selected" then
    objective ← ok_or (head args) CmdError.SelectedNeedsObjective;
    Ok (Answer.Selected (selected q objective))
  else Err (CmdError.UnknownQuery name).

(** The records and rules of a log; the writer is dropped at once. *)
Definition query_log (p : Parsed) : cmd (list record * VerifierRules) :=
  rules ← lift_res (load_rules p);
  _ ← lift_res (require p "log");
  w ← on_log CmdError.CannotOpen (open rules);
  _ ← modify drop_writer;
  mret (fl_records (lw_log w), rules).

(** Those of a receipt, validated first. *)
Definition query_receipt (p : Parsed) : CmdError.t + (list record * VerifierRules) :=
  path ← require p "receipt";
  bytes ← ok_or (host_read host path) (CmdError.CannotReadReceipt path);
  match rp_status (validate bytes) with
  | ValidationStatus.Invalid => Err CmdError.ReceiptDoesNotValidate
  | _ =>
      match from_bytes bytes with
      | Ok receipt => Ok (rcpt_records receipt, rcpt_rules receipt)
      | Err _ => Err (CmdError.CannotParseReceipt path)
      end
  end.

Definition cmd_query (rest : list string) : cmd (N * CmdOutput.t) :=
  '(name, rest) ← lift_res
    match rest with [] => Err CmdError.NeedsQueryName | name :: rest => Ok (name, rest) end;
  p ← lift_res (parse ["log"; "rules"; "receipt"] [] ["json"] rest);
  let has_log := has_single p "log" in
  let has_receipt := has_single p "receipt" in
  if eqb has_log has_receipt then fail CmdError.NotOneInput else
  if has_receipt && has_single p "rules" then fail CmdError.RulesWithReceipt else
  if 1 <? length (positionals p) then fail (CmdError.TooManyArguments (positionals p)) else
  '(records, rules) ← (if has_log then query_log p else lift_res (query_receipt p));
  lift_res (
    q ← match new_queries records rules with
        | Ok q => Ok q
        | Err e => Err (CmdError.QueryFailed e)
        end;
    a ← answer q name (positionals p);
    Ok (EXIT_SUCCESS, CmdOutput.Queried a)).

(** ** [lineage] *)

(** The parents upward; [fuel] bounds the walk. *)
Fixpoint parent_chain (fuel : nat) (records : list record) (cur : option RecordId) : list string :=
  match fuel, cur with
  | S fuel, Some pid =>
      hex_encode pid :: parent_chain fuel records (find_candidate records pid ≫= cd_parent)
  | _, _ => []
  end.

Definition candidate_payload (r : record) : option CandidateData :=
  d ← decode (rec_data r);
  if rec_kind r =? Kind.Candidate then Some d else None.
Definition selection_payload (r : record) : option SelectionData :=
  if rec_kind r =? Kind.Selection then decode (rec_data r) else None.

Definition is_child (target : RecordId) (r : record) : bool :=
  match candidate_payload r with
  | Some cd =>
      ((cd_parent cd =? Some target)
       || existsb (λ x, is_type RefType.Cause x && (ref_target x =? target)) (rec_refs r))
      && negb (rec_id r =? target)
  | None => false
  end.
Definition is_sibling (target : RecordId) (target_parent : option RecordId) (r : record) : bool :=
  match candidate_payload r with
  | Some cd =>
      negb (rec_id r =? target) && is_Some_b target_parent && (cd_parent cd =? target_parent)
  | None => false
  end.
Definition considers (target : RecordId) (r : record) : bool :=
  match selection_payload r with
  | Some sd => bool_decide (target ∈ sl_considered sd)
  | None => false
  end.
Definition selects (target : RecordId) (r : record) : bool :=
  match sl_outcome <$> selection_payload r with
  | Some (SelectionOutcome.Selected candidates) => bool_decide (target ∈ candidates)
  | _ => false
  end.
Definition ids_where (f : record → bool) (records : list record) : list string :=
  (λ r, hex_encode (rec_id r)) <$> filter (λ r, f r) records.

Definition standing_label (verdict : LogVerdict) (rec : record) (target : RecordId) : string :=
  match rec_kind rec with
  | Kind.Candidate => if target ∈? compromised (lv_standing verdict) then "compromised" else "sound"
  | Kind.Selection => if target ∈? unsound (lv_standing verdict) then "unsound" else "sound"
  | _ => "n/a"
  end.

(** The report on a record of a verified log. *)
Definition lineage_report (records : list record) (verdict : LogVerdict) (rec : record)
    (target : RecordId) : LineageReport :=
  let cand := candidate_payload rec in
  let parent := cand ≫= cd_parent in
  mk_LineageReport (hex_encode target) (Kind.name (rec_kind rec)) (cd_basis <$> cand)
    (hex_encode <$> parent) (cand ≫= cd_note)
    (bool_decide (target ∈ lv_tainted_records verdict)) (standing_label verdict rec target)
    (parent_chain (length records) records parent)
    (ids_where (is_child target) records) (ids_where (is_sibling target parent) records)
    (ids_where (considers target) records) (ids_where (selects target) records).

Definition cmd_lineage (rest : list string) : cmd (N * CmdOutput.t) :=
  p ← lift_res (parse ["log"; "rules"] [] ["json"] rest);
  rules ← lift_res (load_rules p);
  _ ← lift_res (require p "log");
  target_hex ← lift_opt CmdError.LineageNeedsId (head (positionals p));
  target ← lift_res (parse_id target_hex);
  w ← on_log CmdError.CannotOpen (open rules);
  dropping (
    let records := fl_records (lw_log w) in
    let verdict := verify_log records rules None in
    if negb (accepted verdict) then fail CmdError.LogDoesNotVerify else
    '(_, rec) ← lift_opt (CmdError.RecordNotFound target_hex)
      (list_find (λ r, rec_id r = target) records);
    mret (EXIT_SUCCESS, CmdOutput.Lineage (lineage_report records verdict rec target))).

(** ** The program *)

(** The commands of [cmd_evolution]. *)
Definition evolution_command (command : string) (rest : list string)
    : option (cmd (N * CmdOutput.t)) :=
  if command =? "request" then Some (cmd_request rest) else
  if command =? "requirement" then Some (cmd_requirement rest) else
  if command =? "candidate" then Some (cmd_candidate rest) else
  if command =? "eval" then Some (cmd_eval rest) else
  if command =? "select" then Some (cmd_select rest) else
  if command =? "retract" then Some (cmd_retract rest) else
  if command =? "lineage" then Some (cmd_lineage rest) else
  if command =? "export" then Some (cmd_export rest) else
  if command =? "query" then Some (cmd_query rest) else None.

(** [cmd_evolution]: the exit code, and what was printed. *)
Definition cmd_evolution (run : cmd (N * CmdOutput.t)) (d : Disk)
    : Disk * (N * (CmdError.t + CmdOutput.t)) :=
  match run d with
  | (d, inl e) => (d, (exit_rejected, Err e))
  | (d, inr (code, out)) => (d, (code, Ok out))
  end.

(** [main]: the disk, the exit code, and what was printed. *)
Definition main (args : list string) (d : Disk) : Disk * (N * MainOutput.t) :=
  match args with
  | [] => (d, (EXIT_USAGE, MainOutput.Usage))
  | command :: rest =>
      if command =? "validate" then
        let (code, report) := cmd_validate (host_read host) rest in (d, (code, MainOutput.Validated report)) else
      if command =? "rules" then
        let (code, rules) := cmd_rules (host_write host) rest in (d, (code, MainOutput.Rules rules)) else
      if command =? "key" then
        let (code, key) := cmd_key (host_read host) rest in (d, (code, MainOutput.Key key)) else
      match evolution_command command rest with
      | Some run =>
          let '(d, (code, out)) := cmd_evolution run d in (d, (code, MainOutput.Evolved out))
      | None => (d, (EXIT_USAGE, MainOutput.Usage))
      end
  end.
End commands.
