(* ===== verification/LineageFacts.v ===== *)
(** * The ancestors of [lineage]

    The loop of [persist_cmds::lineage] that climbs from parent to parent ends
    for every accepted candidate, within the fuel of the model. *)

From S2P Require Export StandingFacts Commands.

Section ancestors.
Context `{Primitives, Serde, HashOrder} (rules : VerifierRules).

(** [ids] are what the loop visits, from [cur] until there is no parent. *)
Inductive climbs (log : list record) : option RecordId → list RecordId → Prop :=
  | climbs_end : climbs log None []
  | climbs_up pid ids :
      climbs log (find_candidate log pid ≫= cd_parent) ids → climbs log (Some pid) (pid :: ids).

Lemma parent_chain_climbs log cur ids fuel :
  climbs log cur ids → length ids <= fuel → parent_chain fuel log cur = hex_encode <$> ids.
Proof.
  intros Hc. revert fuel. induction Hc as [|pid ids _ IH]; intros fuel Hf; [by destruct fuel|].
  destruct fuel as [|fuel]; simpl in *; [lia|]. rewrite IH by lia. done.
Qed.

(** The first record with an id is the candidate with it, if it is one. *)
Lemma find_candidate_first log id t :
  find_first log id = Some t → rec_kind t = Kind.Candidate → find_candidate log id = decode (rec_data t).
Proof.
  unfold find_first, find_candidate. intros Hf Hk.
  destruct (list_find (λ r, rec_id r = id) log) as [[i x]|] eqn:E; [|done]. injection Hf as ->.
  apply list_find_Some in E as (Hi & Ht & Hmin).
  assert (list_find (λ r, rec_id r = id ∧ rec_kind r = Kind.Candidate) log = Some (i, t)) as ->; [|done].
  apply list_find_Some. split_and!; [done..|]. intros j y Hj Hlt [Hy _]. by apply (Hmin j y).
Qed.

(** The parent of an accepted candidate is an accepted candidate before it. *)
Lemma accepted_parent log s r d p :
  Replays rules log s → accepted_in log r → rec_kind r = Kind.Candidate →
  decode (rec_data r) = Some d → cd_parent d = Some p →
  ∃ t, accepted_in log t ∧ rec_kind t = Kind.Candidate ∧ rec_id t = p ∧
    find_candidate log p = decode (rec_data t) ∧ rank log (rec_id t) < rank log (rec_id r).
Proof.
  intros Hlog Hr Hk Hd Hp.
  destruct (replays_accepted_split rules log s r Hlog Hr) as (l & s1 & v & k & E & Ha).
  pose proof (accepted_after_kind rules l s1 r Ha) as Hc. unfold check_kind_specific in Hc.
  rewrite Hk in Hc. pose proof Ha as (Hl & _).
  assert (Hacc : p ∈ accepted_records s1) by (by eapply check_candidate_parent).
  destruct (accepted_records_find rules l s1 p Hl Hacc) as (t & Ht & Hid & Hf).
  assert (Hkt : rec_kind t = Kind.Candidate).
  { unfold check_candidate in Hc. rewrite Hd, Hp in Hc.
    destruct (negb (source_binding_well_formed _)); [done|].
    destruct (match cd_artifacts d with Some _ => _ | None => _ end); [done|].
    unfold resolve_candidate in Hc. rewrite prior_of_find, find_first_app, Hf in Hc.
    destruct (rec_kind t =? Kind.Candidate) eqn:Ek; [by bool_simpl|].
    by rewrite andb_false_r in Hc. }
  exists t. split_and!; try done.
  - destruct Ht as (Hin & Hkv & u & Hu & Hrest). rewrite E.
    split; [by apply elem_of_app; left|]. split; [done|].
    exists u. split; [by apply elem_of_app; left | done].
  - apply find_candidate_first; [|done]. by rewrite E, find_first_app, Hf.
  - rewrite Hid, E. by eapply rank_accepted.
Qed.

Lemma rank_bound log r : r ∈ log → rank log (rec_id r) < length log.
Proof. intros Hr. rewrite <- (app_nil_r log) at 1. by apply rank_earlier. Qed.

(** The loop ends on every accepted candidate, and the model gives it enough
    fuel. *)
Lemma ancestors_end log s r d :
  Replays rules log s → accepted_in log r → rec_kind r = Kind.Candidate → decode (rec_data r) = Some d →
  ∃ ids, climbs log (cd_parent d) ids ∧
    ∀ fuel, length log <= fuel → parent_chain fuel log (cd_parent d) = hex_encode <$> ids.
Proof.
  intros Hlog Hr Hk Hd.
  enough (∃ ids, climbs log (cd_parent d) ids ∧ length ids <= rank log (rec_id r)) as (ids & Hc & Hn).
  { exists ids. split; [done|]. intros fuel Hf. apply parent_chain_climbs; [done|].
    pose proof (rank_bound log r (proj1 Hr)). lia. }
  remember (rank log (rec_id r)) as n eqn:En. revert r d Hr Hk Hd En.
  induction n as [n IH] using lt_wf_ind. intros r d Hr Hk Hd ->.
  destruct (cd_parent d) as [p|] eqn:Hp; [|exists []; split; [constructor | simpl; lia]].
  destruct (accepted_parent log s r d p Hlog Hr Hk Hd Hp) as (t & Ht & Hkt & Hid & Hf & Hlt).
  destruct (decode (rec_data t) : option CandidateData) as [dt|] eqn:Hdt.
  - destruct (IH _ Hlt t dt Ht Hkt Hdt eq_refl) as (ids & Hc & Hn). exists (p :: ids).
    split; [constructor; by rewrite Hf | simpl; lia].
  - exists [p]. split; [constructor; rewrite Hf; constructor | simpl; lia].
Qed.
End ancestors.
