(* ===== verification/CommandFacts.v ===== *)
(** * The recording commands, step by step

    What each recording command is about to commit, and what it does once the
    log is open. *)

From S2P Require Export Commands WriterTheorems CliTheorems.

(** ** The recording commands *)

(** What a command proposes, given the rules, the author, and the log. *)
Definition builder : Type :=
  VerifierRules → Author → list record → State → CmdError.t + Proposal.

Section recorders.
Context `{Primitives, Serde, HashOrder, RecordParser, TextFormat, ReceiptParser, RulesParser}.
Context (host : Host).

(** The flags of a recording command, and the proposal they describe. *)
Definition recorder (command : string) (rest : list string)
    : option (CmdError.t + (Parsed * builder)) :=
  let by_flags (args : list string → CmdError.t + Parsed) (propose : Parsed → builder) :=
    Some (p ← args rest; Ok (p, propose p)) in
  if command =? "request" then by_flags request_args request_proposal else
  if command =? "requirement" then by_flags requirement_args requirement_proposal else
  if command =? "candidate" then by_flags candidate_args (candidate_proposal host) else
  if command =? "eval" then by_flags eval_args evaluation_proposal else
  if command =? "select" then by_flags select_args selection_proposal else
  if command =? "retract" then by_flags retract_args retraction_proposal else None.

Lemma recorder_runs command rest res :
  recorder command rest = Some res →
  ∃ run, evolution_command host command rest = Some run ∧
    ∀ d, run d = match res with
                 | Err e => (d, inl e)
                 | Ok (p, propose) => recording host p propose d
                 end.
Proof.
  unfold recorder, evolution_command. intros Hres.
  repeat (case_bool_decide; [injection Hres as <-; eexists; split; [done|]; intros d;
    unfold cmd_request, cmd_requirement, cmd_candidate, cmd_eval, cmd_select, cmd_retract,
      mbind, eff_bind, result_bind, lift_res; by case_match|]).
  done.
Qed.

(** The kind each of them records. *)
Definition command_kind (command : string) : Kind.t :=
  if command =? "request" then Kind.Request else
  if command =? "requirement" then Kind.Requirement else
  if command =? "candidate" then Kind.Candidate else
  if command =? "eval" then Kind.Evaluation else
  if command =? "select" then Kind.Selection else Kind.Retraction.

(** What a command is about to commit. *)
Definition intent (p : Parsed) (propose : builder) (rules : VerifierRules) (log : list record)
    (s : State) : CmdError.t + (Proposal * option Hash256) :=
  author ← author_of rules p;
  proposal ← propose rules author log s;
  signer ← signer_from host p;
  Ok (proposal, signer).
End recorders.

Lemma result_bind_ok {E A B} (m : E + A) (f : A → E + B) b :
  (m ≫= f) = inr b → ∃ a, m = inr a ∧ f a = inr b.
Proof. destruct m; [done|eauto]. Qed.

(** Split a successful run of the result monad into its steps. *)
Ltac ok_inv H :=
  repeat match type of H with
  | Err _ = Ok _ => discriminate H
  | Ok _ = Ok _ => injection H; clear H; intros; subst
  | (_ ≫= _) = Ok _ =>
      let a := fresh "a" in let H1 := fresh "Hstep" in
      apply result_bind_ok in H as (a & H1 & H)
  | (if ?b then _ else _) = Ok _ => let E := fresh "Eb" in destruct b eqn:E
  | (let '(_, _) := ?x in _) = Ok _ => destruct x
  | match ?x with _ => _ end = Ok _ => let E := fresh "Em" in destruct x eqn:E
  end.

Section proposals.
Context `{Primitives, Serde, HashOrder, RecordParser, TextFormat, ReceiptParser, RulesParser}.
Context (host : Host).

(** Every proposal is a record of the command's kind, in the rules' space, by
    the author asked for. *)
Lemma recorder_proposes command rest p propose rules author log s proposal :
  recorder host command rest = Some (inr (p, propose)) →
  propose rules author log s = inr proposal →
  prop_kind proposal = command_kind command ∧ prop_space proposal = rules_space rules ∧
  prop_author proposal = author.
Proof.
  unfold recorder, command_kind. intros Hr Hp.
  repeat (case_bool_decide;
    [injection Hr as Hr; apply result_bind_ok in Hr as (p' & _ & [= <- <-]);
     unfold request_proposal, requirement_proposal, candidate_proposal, evaluation_proposal,
       selection_proposal, retraction_proposal in Hp; ok_inv Hp; done|]).
  done.
Qed.
End proposals.

(** ** Opening the log and committing *)

(** The directory holds this valid log, on a disk that does not fail, and no
    other process has it open. *)
Record Holds `{Primitives, Serde, HashOrder, RecordParser} (rules : VerifierRules)
    (log : list record) (s : State) (d : Disk) : Prop := {
  hl_log : Replays rules log s;
  hl_file : frames log = Some (records_log d);
  hl_reads : parses log;
  hl_authors : authors_wf log;
  hl_size : (N.of_nat (length (records_log d)) <= DEFAULT_MAX_LOG_BYTES)%N;
  hl_unlocked : lock_held d = false;
  hl_works : budget d = None;
}.

(** The author names of the rules are Rust strings. *)
Definition names_wf (rules : VerifierRules) : Prop :=
  ∀ id role, author_roles rules !! id = Some role → str_wf id = true.

Section committing.
Context `{Primitives, Serde, HashOrder, RecordParser, TextFormat, ReceiptParser, RulesParser}.
Context (host : Host) (rules : VerifierRules).

Lemma open_log_holds p log s d rh :
  Holds rules log s d → sha256_canonical rules = Some rh → is_Some (singles p !! "log") →
  ∃ w d', open_log p rules d = (d', inr (w, s)) ∧ Ready rules (mk_Machine w s d') ∧
    fl_records (lw_log w) = log ∧ records_log d' = records_log d ∧ budget d' = None.
Proof.
  intros [Hlog Hfile Hreads Hauthors Hsize Hlock Hworks] Hrh [dir Hdir].
  destruct (open_locked_whole rules log (records_log d) [] DEFAULT_MAX_LOG_BYTES
    (set_lock_held true d) s rh) as (d' & Ho & Hf & Hb);
    rewrite ?app_nil_r; try done; [apply torn_nil|].
  apply open_with_lock in Ho; [|done|done].
  eexists _, d'. split.
  { unfold open_log, require. rewrite Hdir. unfold mbind, eff_bind, lift_res, ok_or, on_log, open.
    rewrite Ho. cbn [lw_log fl_records]. unfold verify_and_build_state.
    rewrite (verify_log_complete rules log s Hlog), (build_replays rules log s Hlog). done. }
  split; [|done]. split; try done; cbn; by rewrite ?Hf.
Qed.

(** The author of a signed or unsigned subject. *)
Lemma materialize_author proposal signer c r v vd :
  materialize proposal rules signer c = inr (r, v, vd) →
  author_signature (prop_author proposal) = None →
  author_id (rec_author r) = author_id (prop_author proposal) ∧
  author_type (rec_author r) = author_type (prop_author proposal) ∧
  (is_Some (author_signature (rec_author r)) ↔ is_Some signer).
Proof.
  intros Hm Hs. unfold materialize in Hm. apply result_bind_ok in Hm as (t & _ & Hm).
  apply result_bind_ok in Hm as (r1 & Hr1 & Hm). apply result_bind_ok in Hm as (r2 & Hr2 & Hm).
  apply result_bind_ok in Hm as (v' & _ & [= <- <- <-]).
  unfold ok_or in Hr2. destruct (with_computed_id r1) as [r3|] eqn:Hid; [|done]. injection Hr2 as ->.
  apply with_computed_id_ok in Hid as (id & -> & _).
  destruct signer as [secret|].
  - apply result_bind_ok in Hr1 as (sg & _ & [= <-]). simpl. split_and!; [done..|].
    split; intros _; by eexists.
  - injection Hr1 as <-. simpl. rewrite Hs. split_and!; [done..|]. split; by intros [? ?].
Qed.
End committing.

(** The exit code tells acceptance. *)
Lemma grown_accepts `{Primitives, Serde, HashOrder} rules log s r v s' :
  Replays rules log s → Replays rules (log ++ [r; v]) s' →
  vd_result (due_verdict rules log s r) = VerdictResult.Accept ↔ accepted_in (log ++ [r; v]) r.
Proof.
  intros Hlog Hgrown.
  inversion Hgrown as [Hnil|l s0 r' v' s1 Hl Hk Hf Hid Ht Htv Hb Hv Hap El];
    [by apply (f_equal length) in Hnil; rewrite length_app in Hnil; simpl in Hnil; lia|].
  apply (app_inj_2 _ _ _ _) in El as [-> [= -> ->]]; [|done].
  rewrite (replays_functional rules log s s0 Hlog Hl).
  rewrite due_accept, (accepted_in_snoc rules log s0 r v _ r Hl Hk Hf Hv).
  split; [intros E; right; by split | intros [[Hr _]|[_ E]]; [|done]].
  by destruct (proj1 (find_first_None log (rec_id r)) Hf r).
Qed.

Lemma names_check rules :
  forallb (λ e, str_wf e.1) (map_to_list (author_roles rules)) = true → names_wf rules.
Proof.
  intros Hall id role Hid. rewrite forallb_forall in Hall. apply (Hall (id, role)).
  by apply list_elem_of_In, elem_of_map_to_list.
Qed.

Section intents.
Context `{Primitives, Serde, HashOrder, RecordParser, TextFormat, ReceiptParser, RulesParser}.
Context (host : Host).

(** After opening, a recording command is its intent and the commit. *)
Lemma recording_intent p propose rules log s w d d1 :
  load_rules host p = inr rules → open_log p rules d = (d1, inr (w, s)) →
  fl_records (lw_log w) = log →
  recording host p propose d =
    match intent host p propose rules log s with
    | inl e => (drop_writer d1, inl e)
    | inr (proposal, signer) =>
        match commit_inner proposal rules signer (mk_Machine w s d1) with
        | (c, inl e) => (drop_writer (mc_disk c), inl (CmdError.CommitFailed e))
        | (c, inr (id, vd)) =>
            let accepted := vd_result vd =? VerdictResult.Accept in
            (drop_writer (mc_disk c),
             inr (if accepted then EXIT_SUCCESS else exit_rejected,
               CmdOutput.Committed (mk_CommitOutput (hex_encode id)
                 (if accepted then "accept" else "reject") (vd_reason vd))))
        end
    end.
Proof.
  intros Hload Hopen <-. unfold recording, intent, mbind, eff_bind, result_bind, lift_res.
  rewrite Hload, Hopen. unfold dropping.
  destruct (author_of rules p) as [e|author]; [done|].
  destruct (propose rules author _ s) as [e|proposal]; [done|].
  unfold commit_and_print, mbind, eff_bind, result_bind, lift_res, on_writer.
  destruct (signer_from host p) as [e|signer]; [done|].
  destruct signer; unfold commit, commit_signed; by destruct (commit_inner _ _ _ _) as [c [e|[id vd]]].
Qed.

Lemma intent_author command rest p propose rules log s proposal signer :
  recorder host command rest = Some (inr (p, propose)) →
  intent host p propose rules log s = inr (proposal, signer) →
  prop_kind proposal = command_kind command ∧ prop_space proposal = rules_space rules ∧
  singles p !! "author" = Some (author_id (prop_author proposal)) ∧
  author_roles rules !! author_id (prop_author proposal) = Some (author_type (prop_author proposal)) ∧
  author_signature (prop_author proposal) = None ∧
  (is_Some signer ↔ is_Some (singles p !! "sign-key")).
Proof.
  intros Hr Hi. unfold intent in Hi. apply result_bind_ok in Hi as (author & Ha & Hi).
  apply result_bind_ok in Hi as (prop' & Hp & Hi). apply result_bind_ok in Hi as (sg & Hs & [= <- <-]).
  destruct (recorder_proposes host command rest p propose rules author log s _ Hr Hp) as (Hk & Hsp & ->).
  unfold author_of, require in Ha. apply result_bind_ok in Ha as (id & Hid & Ha).
  apply result_bind_ok in Ha as (role & Hrole & [= <-]). simpl.
  destruct (singles p !! "author") as [a|]; [|done]. injection Hid as ->.
  destruct (author_roles rules !! id); [|done]. injection Hrole as ->.
  split_and!; try done. unfold signer_from in Hs. destruct (singles p !! "sign-key").
  - apply result_bind_ok in Hs as (secret & _ & [= <-]). split; by eexists.
  - injection Hs as <-. split; by intros [].
Qed.
End intents.
