(* ===== verification/CauseFacts.v ===== *)
(** * Why a record of the command line can be rejected

    A record a recording command builds has passed everything that does not
    depend on who signs it, on the evidence it rests on and on the records it
    names: the checks of its shape. *)

From S2P Require Export CommandFacts.

(** ** The payload of a command *)

Inductive Payload :=
  | PRequest (d : RequestData)
  | PRequirement (d : RequirementData)
  | PCandidate (d : CandidateData)
  | PEvaluation (d : EvaluationData)
  | PEvaluationV2 (d : EvaluationDataV2)
  | PSelection (d : SelectionData)
  | PRetraction (d : RetractionData).

Section payloads.
Context `{Primitives, Serde, HashOrder, RecordParser, TextFormat, ReceiptParser, RulesParser}.

(** What a command is about to encode, and the refs it names. *)
Definition payload_of (host : Host) (command : string) (p : Parsed) (rules : VerifierRules)
    (author : Author) (log : list record) (s : State) : CmdError.t + (Payload * list Ref) :=
  if command =? "request" then (λ d, (PRequest d, [])) <$> request_data p rules else
  if command =? "requirement" then
    (λ x, (PRequirement x.2, [mk_ref RefType.Cause x.1])) <$> requirement_data p author log s else
  if command =? "candidate" then
    (λ x, (PCandidate x.1, x.2)) <$> candidate_data_of host p log s else
  if command =? "eval" then
    (λ x, (match x.1 with inl d => PEvaluation d | inr d => PEvaluationV2 d end, x.2))
      <$> evaluation_data p log s else
  if command =? "select" then (λ x, (PSelection x.1, x.2)) <$> selection_data p else
  (λ d, (PRetraction d, [mk_ref RefType.Cause (rx_target_id d)])) <$> retraction_data p.

(** The parser reads nothing else in what the writer wrote. *)
Definition reads_back {A} `{Serialize A, Decode A} (x : A) : Prop :=
  ∀ b y, encode x = Some b → decode b = Some y → y = x.
Definition payload_reads (x : Payload) : Prop :=
  match x with
  | PRequest d => reads_back d
  | PRequirement d => reads_back d
  | PCandidate d => reads_back d
  | PEvaluation d => reads_back d
  | PEvaluationV2 d => reads_back d
  | PSelection d => reads_back d
  | PRetraction d => reads_back d
  end.

Lemma checked_encode_ok {A} `{Serialize A, Decode A} (x : A) b :
  checked_encode x = inr b → reads_back x →
  decode b = Some x ∧ decodes_canonically A b = true.
Proof.
  intros He Hx. unfold checked_encode in He. apply result_bind_ok in He as (b' & Hb & He).
  apply result_bind_ok in He as (y & Hy & [= ->]). unfold ok_or in *.
  destruct (encode x) as [b0|] eqn:Eb; [|done]. injection Hb as ->.
  destruct (decode b : option A) as [y0|] eqn:Ed; [|done]. injection Hy as ->.
  pose proof (Hx b y Eb Ed) as ->. split; [done|]. unfold decodes_canonically. rewrite Ed.
  unfold encode in Eb. rewrite Eb. by apply bool_decide_true.
Qed.
End payloads.

(** ** The frozen schemas *)

Section frozen.
Context `{Primitives}.

Lemma fold_insert_some {A} (l : list (string * A)) (m : gmap Hash256 A) n k :
  (n, k) ∈ l ∨ is_Some (m !! schema_id n) →
  is_Some (fold_left (λ m e, <[schema_id e.1 := e.2]> m) l m !! schema_id n).
Proof.
  revert m. induction l as [|[n' k'] l IH]; intros m Hn; cbn [fold_left fst snd].
  { by destruct Hn as [?%elem_of_nil|]. }
  apply IH. destruct Hn as [[[= -> ->]|Hn]%elem_of_cons|Hn]; [right | by left | right].
  - rewrite lookup_insert_eq. by eexists.
  - destruct (decide (schema_id n' = schema_id n)) as [->|Hne];
      [rewrite lookup_insert_eq; by eexists | by rewrite lookup_insert_ne].
Qed.

(** The schemas the commands record under. *)
Definition recorded_schemas : list (string * Kind.t) :=
  [(SCHEMA_REQUEST, Kind.Request); (SCHEMA_REQUIREMENT, Kind.Requirement);
   (SCHEMA_CANDIDATE, Kind.Candidate); (SCHEMA_EVALUATION, Kind.Evaluation);
   (SCHEMA_EVALUATION_V2, Kind.Evaluation); (SCHEMA_EVALUATION_ATTESTED, Kind.Evaluation);
   (SCHEMA_SELECTION, Kind.Selection); (SCHEMA_RETRACTION, Kind.Retraction)].

Lemma frozen_lookup n k :
  (n, k) ∈ recorded_schemas →
  frozen_kind_schema_map !! schema_id n = Some k ∨ sha256_collision.
Proof.
  intros Hn. unfold frozen_kind_schema_map.
  match goal with |- fold_left ?f ?l ?m !! _ = _ ∨ _ =>
    assert (Hin : (n, k) ∈ l); [|destruct (fold_insert_some l m n k (or_introl Hin)) as [k' Hk']]
  end.
  { unfold recorded_schemas in Hn. set_solver. }
  rewrite Hk'. apply fold_insert_lookup in Hk' as [(n' & Hn' & E)|?]; [|by rewrite lookup_empty in *].
  apply schema_id_inj in E as [->|]; [left; f_equal | by right].
  revert Hn Hn'. unfold recorded_schemas. rewrite !elem_of_cons, !elem_of_nil. clear.
  intros Hn Hn'. repeat destruct Hn as [[= -> ->]|Hn]; try done;
    repeat destruct Hn' as [[= ->]|Hn']; done.
Qed.
End frozen.

(** ** The record of a payload *)

(** [data] is what the writer writes for the payload, under its schema. *)
Definition carries `{Primitives, Serde} (x : Payload) (schema : SchemaId) (data : bytes) : Prop :=
  let as_ {A} `{Serialize A, Decode A} (d : A) :=
    decode data = Some d ∧ decodes_canonically A data = true in
  match x with
  | PRequest d => schema = schema_id SCHEMA_REQUEST ∧ as_ d
  | PRequirement d => schema = schema_id SCHEMA_REQUIREMENT ∧ as_ d
  | PCandidate d => schema = schema_id SCHEMA_CANDIDATE ∧ as_ d
  | PEvaluation d => schema = schema_id SCHEMA_EVALUATION ∧ as_ d
  | PEvaluationV2 d =>
      (schema = schema_id SCHEMA_EVALUATION_V2 ∨ schema = schema_id SCHEMA_EVALUATION_ATTESTED) ∧ as_ d
  | PSelection d => schema = schema_id SCHEMA_SELECTION ∧ as_ d
  | PRetraction d => schema = schema_id SCHEMA_RETRACTION ∧ as_ d
  end.

Definition payload_kind (x : Payload) : Kind.t :=
  match x with
  | PRequest _ => Kind.Request
  | PRequirement _ => Kind.Requirement
  | PCandidate _ => Kind.Candidate
  | PEvaluation _ | PEvaluationV2 _ => Kind.Evaluation
  | PSelection _ => Kind.Selection
  | PRetraction _ => Kind.Retraction
  end.

Section carried.
Context `{Primitives, Serde}.

Lemma carried_schema x schema data :
  carries x schema data →
  frozen_kind_schema_map !! schema = Some (payload_kind x) ∨ sha256_collision.
Proof.
  destruct x; intros [Hs _]; try destruct Hs as [Hs|Hs]; rewrite Hs; apply frozen_lookup;
    unfold recorded_schemas; set_solver.
Qed.

Lemma carried_decodes x r :
  carries x (rec_schema r) (rec_data r) → check_payload_decode r = None ∨ sha256_collision.
Proof.
  destruct x; intros [Hs [_ Hd]]; try destruct Hs as [Hs|Hs]; unfold check_payload_decode;
    rewrite Hs; rewrite ?Hd; repeat other_schema; left; cbn [orb];
    rewrite ?bool_decide_true by done; done.
Qed.
End carried.

Section proposed.
Context `{Primitives, Serde, HashOrder, RecordParser, TextFormat, ReceiptParser, RulesParser}.
Context (host : Host).

Lemma payload_of_kind command p rules author log s x refs :
  payload_of host command p rules author log s = inr (x, refs) → payload_kind x = command_kind command.
Proof.
  unfold payload_of, command_kind. intros Hx.
  unfold fmap, result_fmap in Hx.
  repeat (case_bool_decide; [case_match; [done|]; injection Hx as <- _; try done; by case_match|]).
  case_match; [done|]. by injection Hx as <- _.
Qed.

Lemma proposal_carries command rest p propose rules author log s proposal :
  recorder host command rest = Some (inr (p, propose)) →
  propose rules author log s = inr proposal →
  (∀ x refs, payload_of host command p rules author log s = inr (x, refs) → payload_reads x) →
  ∃ x, payload_of host command p rules author log s = inr (x, prop_refs proposal) ∧
    carries x (prop_schema proposal) (prop_data proposal).
Proof.
  unfold recorder, payload_of. intros Hr Hp Hx.
  repeat (case_bool_decide;
    [injection Hr as Hr; apply result_bind_ok in Hr as (p' & _ & [= <- <-]);
     unfold request_proposal, requirement_proposal, candidate_proposal, evaluation_proposal,
       selection_proposal, retraction_proposal in Hp|]); [..|done].
  - apply result_bind_ok in Hp as (d & Hd & Hp). apply result_bind_ok in Hp as (b & Hb & [= <-]).
    rewrite Hd in *. exists (PRequest d). split; [done|]. split; [done|].
    apply checked_encode_ok; [done|]. by eapply (Hx (PRequest d)).
  - apply result_bind_ok in Hp as ([req d] & Hd & Hp). apply result_bind_ok in Hp as (b & Hb & [= <-]).
    rewrite Hd in *. exists (PRequirement d). split; [done|]. split; [done|].
    apply checked_encode_ok; [done|]. by eapply (Hx (PRequirement d)).
  - apply result_bind_ok in Hp as ([d refs] & Hd & Hp). apply result_bind_ok in Hp as (b & Hb & [= <-]).
    rewrite Hd in *. exists (PCandidate d). split; [done|]. split; [done|].
    apply checked_encode_ok; [done|]. by eapply (Hx (PCandidate d)).
  - apply result_bind_ok in Hp as ([d refs] & Hd & Hp).
    apply result_bind_ok in Hp as ([schema b] & Hb & [= <-]). rewrite Hd in *. destruct d as [d|d].
    + apply result_bind_ok in Hb as (b' & Hb & [= <- <-]). exists (PEvaluation d).
      split; [done|]. split; [done|]. apply checked_encode_ok; [done|]. by eapply (Hx (PEvaluation d)).
    + apply result_bind_ok in Hb as (b' & Hb & Hs). exists (PEvaluationV2 d).
      assert (schema = SCHEMA_EVALUATION_V2 ∨ schema = SCHEMA_EVALUATION_ATTESTED) as Hsc
        by (repeat case_match; naive_solver).
      assert (b = b') as -> by (repeat case_match; naive_solver).
      split; [done|]. split; [destruct Hsc as [->| ->]; [by left | by right]|].
      apply checked_encode_ok; [done|]. by eapply (Hx (PEvaluationV2 d)).
  - apply result_bind_ok in Hp as ([d refs] & Hd & Hp). apply result_bind_ok in Hp as (b & Hb & [= <-]).
    rewrite Hd in *. exists (PSelection d). split; [done|]. split; [done|].
    apply checked_encode_ok; [done|]. by eapply (Hx (PSelection d)).
  - apply result_bind_ok in Hp as (d & Hd & Hp). apply result_bind_ok in Hp as (b & Hb & [= <-]).
    rewrite Hd in *. exists (PRetraction d). split; [done|]. split; [done|].
    apply checked_encode_ok; [done|]. by eapply (Hx (PRetraction d)).
Qed.
End proposed.

(** ** The checks of a record *)

Lemma first_some_Some {A B} (f : A → option B) l b :
  first_some f l = Some b → ∃ a, a ∈ l ∧ f a = Some b.
Proof.
  induction l as [|a l IH]; [done|]. cbn [first_some]. destruct (f a) as [b'|] eqn:E.
  - intros [= ->]. exists a. split; [left | done].
  - intros Hl. destruct (IH Hl) as (x & Hx & Hb). exists x. split; [by right | done].
Qed.

Lemma derive_evidence_ext `{Primitives} schema es fs :
  (∀ e, e ∈ es ↔ e ∈ fs) → derive_evidence schema es = derive_evidence schema fs.
Proof.
  intros Heq. apply leb_antisym.
  - destruct (derive_evidence_elem schema es) as [->|He]; apply derive_evidence_ge; [by left|].
    right. by apply Heq.
  - destruct (derive_evidence_elem schema fs) as [->|He]; apply derive_evidence_ge; [by left|].
    right. by apply Heq.
Qed.

Section causes.
Context `{Primitives, Serde, HashOrder} (rules : VerifierRules).

(** Every record of a valid log lives in the rules' space. *)
Lemma replays_space log s r :
  Replays rules log s → r ∈ log → rec_space r = rules_space rules.
Proof.
  induction 1 as [|log s x v s' Hlog IH Hk Hf Hid Ht Htv Hb Hv Hap]; [by intros ?%elem_of_nil|].
  destruct Hv as (_ & _ & _ & _ & _ & _ & _ & Hsp & Hrs & _).
  intros [Hr|[->|[->|Hr%elem_of_nil]%elem_of_cons]%elem_of_cons]%elem_of_app;
    [by apply IH | congruence.. | done].
Qed.

(** With its envelope in order, only these can reject a record. *)
Lemma check_record_causes log s r reason :
  Replays rules log s → rec_kind r ≠ Kind.Verdict → compute_id r = Some (rec_id r) →
  strictly_increasing (rec_refs r) = true → rec_space r = rules_space rules →
  kind_schema_map rules !! rec_schema r = Some (rec_kind r) →
  author_roles rules !! author_id (rec_author r) = Some (author_type (rec_author r)) →
  rec_evidence r = derive_evidence (rec_schema r) (ref_evidences r (prior_of log) s) →
  check_record r (prior_of log) rules s = Some reason →
  (reason = ReasonCode.AuthorRoleInvalid ∧
     author_type (rec_author r) ∉ allowed_author_types (rec_kind r)) ∨
  reason ∈ [ReasonCode.SignatureMissing; ReasonCode.SignatureInvalid;
    ReasonCode.EvidenceBelowThreshold] ∨
  (reason = ReasonCode.RefUnresolved ∧ ∃ x, x ∈ rec_refs r ∧
     (ref_type x = RefType.Require_ ∨ prior_find (prior_of log) (ref_target x) = None)) ∨
  check_replacement r (prior_of log) s = Some reason ∨
  check_payload_decode r = Some reason ∨
  (check_replacement r (prior_of log) s = None ∧
   check_kind_specific r (prior_of log) rules s = Some reason).
Proof.
  intros Hlog Hk Hid Hrefs Hsp Hmap Hrole Hev. unfold check_record.
  rewrite bool_decide_false by done. rewrite Hid, Hmap, Hrefs, !bool_decide_true by done. cbn [negb].
  unfold check_author. rewrite Hrole, (bool_decide_true (_ = author_type _)) by done. cbn [negb].
  case_bool_decide as Hty; cbn [negb]; [|intros [= <-]; by left].
  destruct (check_signature r rules) as [e|] eqn:Hsig.
  { intros [= <-]. right; left. unfold check_signature in Hsig. repeat case_match; simplify_eq; set_solver. }
  destruct (first_some _ _) as [e|] eqn:Hf.
  { intros [= <-]. right; right; left. apply first_some_Some in Hf as (x & Hx & Hf).
    unfold check_ref in Hf. destruct (prior_find _ _) as [t|] eqn:Et;
      [|injection Hf as <-; eauto]. rewrite prior_of_find in Et.
    apply find_first_Some in Et as [Hin _]. rewrite (replays_space log s t Hlog Hin), Hsp in Hf.
    rewrite bool_decide_true in Hf by done. cbn [negb] in Hf.
    destruct (is_type RefType.Require_ x) eqn:Ety; [|done]. unfold is_type in Ety. bool_simpl.
    case_match; [injection Hf as <-; eauto | done]. }
  destruct (check_replacement r (prior_of log) s) as [e|]; [intros [= <-]; tauto|].
  destruct (check_evidence r (prior_of log) rules s) as [e|] eqn:He.
  { intros [= <-]. right; left. unfold check_evidence in He. rewrite <- Hev, bool_decide_true in He by done.
    cbn [negb] in He. repeat case_match; simplify_eq; set_solver. }
  destruct (check_payload_decode r) as [e|]; [intros [= <-]; tauto|]. tauto.
Qed.
End causes.
