(* ===== verification/CommandCauses.v ===== *)
(** * The records of the command line are well formed

    What the verifier can still hold against a record that a recording command
    has built. *)

From S2P Require Export CauseFacts.

(** ** The record of a proposal *)

Section built.
Context `{Primitives, Serde, HashOrder, RecordParser} (rules : VerifierRules).

(** [r] is the record a commit builds of the payload after the valid log. *)
Record Built (log : list record) (s : State) (author : Author) (x : Payload) (refs : list Ref)
    (r : record) : Prop := {
  bt_log : Replays rules log s;
  bt_ids : NoDup (rec_id <$> log);
  bt_carries : carries x (rec_schema r) (rec_data r);
  bt_kind : rec_kind r = payload_kind x;
  bt_space : rec_space r = rules_space rules;
  bt_refs : rec_refs r = sort_and_dedup_refs refs;
  bt_id : compute_id r = Some (rec_id r);
  bt_author : author_id (rec_author r) = author_id author;
  bt_type : author_type (rec_author r) = author_type author;
  bt_role : author_roles rules !! author_id author = Some (author_type author);
  bt_evidence : rec_evidence r = derive_evidence (rec_schema r) (ref_evidences r (prior_of log) s);
}.

Lemma index_from_inv l id i : index_from 0 l ∅ !! id = Some i → ∃ r, l !! i = Some r ∧ rec_id r = id.
Proof.
  induction l as [|x l IH] using rev_ind; intros Hi; [done|].
  rewrite index_from_app in Hi. unfold index_from at 1 in Hi. simpl in Hi.
  destruct (decide (rec_id x = id)) as [<-|Hne].
  - rewrite lookup_insert_eq in Hi. injection Hi as <-. exists x. split; [|done].
    by rewrite lookup_app_r, Nat.sub_diag by done.
  - rewrite lookup_insert_ne in Hi by done. destruct (IH Hi) as (r & Hr & Hid). exists r.
    split; [by apply lookup_app_l_Some | done].
Qed.

(** The writer's index finds what a scan of the log finds. *)
Lemma ready_get c id :
  Ready rules c → NoDup (rec_id <$> records_of c) →
  fl_get (lw_log (mc_writer c)) id = find_first (records_of c) id.
Proof.
  intros Hc Hnd. unfold fl_get. rewrite (rd_index rules c Hc). fold (records_of c).
  destruct (find_first (records_of c) id) as [r|] eqn:Hf.
  - apply find_first_Some in Hf as [Hr Hid].
    destruct (index_from_lookup _ id r Hnd Hr Hid) as (i & -> & Hi). done.
  - destruct (index_from 0 (records_of c) ∅ !! id) as [i|] eqn:Hi; [|done].
    exfalso. apply index_from_inv in Hi as (r & Hr & Hid).
    apply list_elem_of_lookup_2 in Hr. rewrite find_first_None in Hf. by destruct (Hf r Hr).
Qed.

Lemma materialize_evidence proposal signer c r v vd :
  materialize proposal rules signer c = inr (r, v, vd) →
  rec_evidence r = derive_evidence (prop_schema proposal)
    (omap (λ x, fl_get (lw_log (mc_writer c)) (ref_target x) ≫= ref_evidence (mc_state c) x)
       (prop_refs proposal)).
Proof.
  intros Hm. unfold materialize in Hm. apply result_bind_ok in Hm as (t & _ & Hm).
  apply result_bind_ok in Hm as (r1 & Hr1 & Hm). apply result_bind_ok in Hm as (r2 & Hr2 & Hm).
  apply result_bind_ok in Hm as (v' & _ & [= <- <- <-]).
  unfold ok_or in Hr2. destruct (with_computed_id r1) as [r3|] eqn:Hid; [|done]. injection Hr2 as ->.
  apply with_computed_id_ok in Hid as (id & -> & _).
  destruct signer as [secret|]; [|by injection Hr1 as <-].
  by apply result_bind_ok in Hr1 as (sg & _ & [= <-]).
Qed.
End built.

Section materialized.
Context `{Primitives, Serde, HashOrder, RecordParser, TextFormat, ReceiptParser, RulesParser}.
Context (host : Host).

Lemma materialized_built command rest p propose rules log s proposal signer w d r v vd :
  recorder host command rest = Some (inr (p, propose)) →
  intent host p propose rules log s = inr (proposal, signer) →
  Ready rules (mk_Machine w s d) → fl_records (lw_log w) = log → NoDup (rec_id <$> log) →
  materialize proposal rules signer (mk_Machine w s d) = inr (r, v, vd) →
  (∀ author x refs, payload_of host command p rules author log s = inr (x, refs) → payload_reads x) →
  ∃ author x refs, payload_of host command p rules author log s = inr (x, refs) ∧
    Built rules log s author x refs r ∧ vd = verdict_of (check_record r (prior_of log) rules s).
Proof.
  intros Hr Hi Hc Hw Hnd Hm Hreads.
  destruct (intent_author host command rest p propose rules log s proposal signer Hr Hi)
    as (Hk & Hsp & Hid & Hrole & Hsig & _).
  unfold intent in Hi. apply result_bind_ok in Hi as (author & Ha & Hi).
  apply result_bind_ok in Hi as (prop' & Hp & Hi). apply result_bind_ok in Hi as (sg & _ & [= <- <-]).
  destruct (proposal_carries host command rest p propose rules author log s _ Hr Hp (Hreads author))
    as (x & Hx & Hcar).
  destruct (recorder_proposes host command rest p propose rules author log s _ Hr Hp) as (_ & _ & Hau).
  destruct (materialize_ok rules _ _ _ r v vd Hm)
    as (t & _ & Ek & Es & _ & _ & Esch & Ed & Er & _ & _ & Ecid & -> & _).
  destruct (materialize_author rules _ _ _ r v _ Hm Hsig) as (Ei & Et & _).
  exists author, x, (prop_refs prop'). split; [done|]. split; [|by unfold records_of; cbn; rewrite Hw].
  split; try congruence.
  - rewrite <- Hw. apply (rd_log rules _ Hc).
  - rewrite Ek, Hk. symmetry. apply (payload_of_kind host command p rules author log s x _ Hx).
  - rewrite (materialize_evidence rules _ _ _ r v _ Hm), Esch. apply derive_evidence_ext. intros e.
    unfold ref_evidences. rewrite Er, !list_elem_of_omap. setoid_rewrite elem_of_sort_and_dedup_refs.
    setoid_rewrite prior_of_find. cbn [mc_writer mc_state].
    pose proof (λ id, ready_get rules _ id Hc) as Hget. cbn [mc_writer] in Hget. unfold records_of in Hget.
    cbn [mc_writer] in Hget. rewrite Hw in Hget. setoid_rewrite Hget; done.
Qed.
End materialized.

(** ** What the flags guarantee *)

Lemma mapM_result_ok {E A B} (f : A → E + B) l k :
  mapM f l = inr k → Forall2 (λ a b, f a = inr b) l k.
Proof.
  revert k. induction l as [|a l IH]; intros k Hk; cbn [mapM] in Hk; [injection Hk as <-; constructor|].
  apply result_bind_ok in Hk as (b & Hb & Hk). apply result_bind_ok in Hk as (k' & Hk' & [= <-]).
  constructor; [done | by apply IH].
Qed.

(** [Vec::sort] and [Vec::dedup] make a strictly increasing list of the same
    members. *)
Lemma sort_dedup_strict `{CmpLaws A, EqDecision A} (l : list A) :
  strictly_increasing (dedup (sort_by cmp l)) = true ∧ ∀ x, x ∈ dedup (sort_by cmp l) ↔ x ∈ l.
Proof.
  split; [apply dedup_sorted, sort_cmp_sorted|]. intros x. by rewrite elem_of_dedup, elem_of_sort_by.
Qed.

Lemma parse_artifacts_wf p o :
  parse_artifacts p = inr o → artifact_refs_well_formed (default [] o) = true.
Proof.
  unfold parse_artifacts. destruct (multis p !! "artifact") as [specs|]; [|by intros [= <-]].
  intros (refs & Hrefs & [= <-])%result_bind_ok. apply mapM_result_ok in Hrefs.
  destruct (sort_dedup_strict refs) as [Hs Hin]. unfold artifact_refs_well_formed. cbn [default].
  unfold id. rewrite Hs, andb_true_r. apply forallb_forall. intros a Ha%list_elem_of_In%Hin.
  apply list_elem_of_lookup in Ha as [i Hi].
  destruct (Forall2_lookup_r _ _ _ i a Hrefs Hi) as (spec & _ & Hspec). unfold parse_artifact in Hspec.
  apply result_bind_ok in Hspec as (a' & _ & Hspec).
  destruct (artifact_ref_well_formed a') eqn:Hwf; [by injection Hspec as <- | done].
Qed.

Lemma parse_requirements_ok p log s ids :
  parse_requirements p log s = inr ids →
  strictly_increasing ids = true ∧ ∀ id, id ∈ ids → is_record_of Kind.Requirement log s id = true.
Proof.
  unfold parse_requirements. intros (l & _ & Hl)%result_bind_ok. cbv zeta in Hl.
  destruct (list_find _ _) as [[i x]|] eqn:Ef; [done|]. injection Hl as <-.
  split; [apply sort_dedup_strict|]. intros id Hid. apply list_find_None in Ef.
  rewrite Forall_forall in Ef. apply not_false_iff_true. by apply Ef.
Qed.

Section shapes.
Context `{Primitives, Serde, HashOrder, RecordParser, TextFormat, ReceiptParser, RulesParser}.

Lemma requirement_shape p author log s req d :
  requirement_data p author log s = inr (req, d) →
  is_record_of Kind.Request log s req = true ∧ rm_key d ≠ "" ∧ rm_description d ≠ "" ∧
  role_default author = inr (rm_provenance d).
Proof.
  unfold requirement_data. intros Hd. apply result_bind_ok in Hd as (req' & _ & Hd).
  destruct (is_record_of _ _ _ _) eqn:Ei; [|done]. cbn [negb] in Hd.
  apply result_bind_ok in Hd as (key & _ & Hd). apply result_bind_ok in Hd as (desc & _ & Hd).
  case_bool_decide as Ek; [done|]. case_bool_decide as Ed; [done|]. cbn [orb] in Hd.
  apply result_bind_ok in Hd as (role & Hrole & Hd). apply result_bind_ok in Hd as (prov & _ & Hd).
  case_bool_decide as Ep; [|done]. injection Hd as <- <-. subst. done.
Qed.

Lemma candidate_shape host p log s d refs :
  candidate_data_of host p log s = inr (d, refs) →
  artifact_refs_well_formed (default [] (cd_artifacts d)) = true.
Proof.
  unfold candidate_data_of. intros Hd. apply result_bind_ok in Hd as (algo & _ & Hd).
  apply result_bind_ok in Hd as (tree & _ & Hd). apply result_bind_ok in Hd as ([[? ?] ?] & _ & Hd).
  apply result_bind_ok in Hd as ([? ?] & _ & Hd). apply result_bind_ok in Hd as (arts & Hl & [= <- <-]).
  by apply parse_artifacts_wf in Hl.
Qed.

Lemma evaluation_shape p log s x refs :
  evaluation_data p log s = inr (x, refs) →
  match x with
  | inl d => mk_ref RefType.Use (ev_candidate d) ∈ refs
  | inr d => mk_ref RefType.Use (e2_candidate d) ∈ refs ∧ db_id (e2_evaluator d) ≠ "" ∧
      artifact_refs_well_formed (e2_evidence d) = true ∧ strictly_increasing (e2_requirements d) = true ∧
      ∀ id, id ∈ e2_requirements d →
        is_record_of Kind.Requirement log s id = true ∧ mk_ref RefType.Use id ∈ refs
  end.
Proof.
  unfold evaluation_data. intros Hd. apply result_bind_ok in Hd as (c & _ & Hd).
  apply result_bind_ok in Hd as (crit & _ & Hd). apply result_bind_ok in Hd as (out & _ & Hd).
  destruct (_ && negb _) in Hd; [done|]. apply result_bind_ok in Hd as (reqs & Hreqs & Hd).
  apply result_bind_ok in Hd as (extra & _ & Hd). cbv zeta in Hd.
  apply parse_requirements_ok in Hreqs as [Hsorted Hreqs].
  destruct (extended p); apply result_bind_ok in Hd as (d & Hd & [= <- <-]).
  - unfold extended_data in Hd. apply result_bind_ok in Hd as (ev & _ & Hd).
    case_bool_decide as Ee; [done|]. apply result_bind_ok in Hd as (basis & _ & Hd).
    apply result_bind_ok in Hd as (ph & _ & Hd). apply result_bind_ok in Hd as (ih & _ & Hd).
    apply result_bind_ok in Hd as (evidence & Hevidence & [= <-]).
    apply parse_artifacts_wf in Hevidence. cbn. split_and!; try done; [left|].
    intros id Hid. split; [by apply Hreqs|]. right. rewrite fmap_app. apply elem_of_app. left.
    by apply list_elem_of_fmap_2.
  - unfold plain_data in Hd. destruct (has_bool p "attested"); [done|].
    apply result_bind_ok in Hd as (o & _ & [= <-]). left.
Qed.

(** No outcome but the first three reaches the first shape. *)
Lemma plain_outcome p out :
  extended p = false → parse_outcome p = inr out →
  match out with
  | EvaluationOutcomeV2.Passed | EvaluationOutcomeV2.Failed | EvaluationOutcomeV2.Scored _ => True
  | _ => False
  end.
Proof.
  unfold extended, parse_outcome, fail_closed_flags. intros Hx (scored & _ & Ho)%result_bind_ok.
  apply orb_false_iff in Hx as [_ Hx]. cbn [existsb] in Hx. rewrite !orb_false_iff in Hx.
  destruct Hx as (Hb & Hi & Hs & Hn & _).
  assert (filter (λ f, has_bool p f) (["passed"; "failed"] ++ ["blocked"; "insufficient"; "stale"; "not-run"]) =
    filter (λ f, has_bool p f) ["passed"; "failed"]) as Hf.
  { cbn [app]. rewrite !filter_cons. rewrite Hb, Hi, Hs, Hn. done. }
  rewrite Hf in Ho. rewrite !filter_cons, filter_nil in Ho.
  destruct (has_bool p "passed"), (has_bool p "failed"), scored; simpl in Ho;
    first [discriminate Ho | by injection Ho as <-].
Qed.
End shapes.

(** ** What is left to reject a record for *)

Section left.
Context `{Primitives, Serde, HashOrder} (rules : VerifierRules).
Context (log : list record) (s : State) (author : Author) (r : record).

(** A record the command has looked up is the one the verifier resolves. *)
Lemma record_of_resolves k id :
  Replays rules log s → NoDup (rec_id <$> log) → is_record_of k log s id = true →
  ∃ t, prior_find (prior_of log) id = Some t ∧ accepted_in log t ∧ rec_id t = id ∧ rec_kind t = k ∧
    rec_space t = rules_space rules ∧ id ∈ accepted_records s.
Proof.
  intros Hlog Hnd Hr. unfold is_record_of in Hr. apply andb_true_iff in Hr as [Ha%bool_decide_eq_true Hr].
  apply existsb_exists in Hr as (x & Hx%list_elem_of_In & Hr).
  apply andb_true_iff in Hr as [Hid%bool_decide_eq_true Hk%bool_decide_eq_true].
  destruct (accepted_records_find rules log s id Hlog Ha) as (t & Ht & Htid & Hf).
  assert (x = t) as ->.
  { destruct Ht as [Ht _]. apply list_elem_of_lookup in Hx as [i Hi], Ht as [j Hj].
    assert (i = j) as ->; [|congruence].
    apply (NoDup_lookup (rec_id <$> log) i j id Hnd); rewrite list_lookup_fmap;
      [rewrite Hi | rewrite Hj]; simpl; congruence. }
  exists t. rewrite prior_of_find. split_and!; try done.
  apply (replays_space rules log s t Hlog). apply Ht.
Qed.

(** An accepted record passed its own checks. *)
Lemma accepted_passed t :
  Replays rules log s → accepted_in log t → ∃ l1 s1,
    Replays rules l1 s1 ∧ passed rules t (prior_of (l1 ++ [t])) s1.
Proof.
  intros Hlog Ht. destruct (replays_accepted_split rules log s t Hlog Ht)
    as (l1 & s1 & v & l2 & _ & Hl1 & Hk & _ & _ & _ & Hc).
  exists l1, s1. split; [done|]. by apply check_record_passed.
Qed.

Lemma accepted_selection_decodes t :
  Replays rules log s → accepted_in log t → rec_kind t = Kind.Selection →
  is_Some (decode (rec_data t) : option SelectionData).
Proof.
  intros Hlog Ht Hk. destruct (accepted_passed t Hlog Ht) as (l1 & s1 & _ & Hp).
  apply p_kind in Hp. unfold check_kind_specific in Hp. rewrite Hk in Hp. unfold check_selection in Hp.
  destruct (decode (rec_data t) : option SelectionData); [by eexists | done].
Qed.

Lemma accepted_candidate_decodes t :
  Replays rules log s → accepted_in log t → rec_kind t = Kind.Candidate →
  is_Some (decode (rec_data t) : option CandidateData).
Proof.
  intros Hlog Ht Hk. destruct (accepted_passed t Hlog Ht) as (l1 & s1 & _ & Hp).
  apply p_kind in Hp. unfold check_kind_specific in Hp. rewrite Hk in Hp. unfold check_candidate in Hp.
  destruct (decode (rec_data t) : option CandidateData); [by eexists | done].
Qed.

(** What an id resolves to, when it is an accepted one. *)
Lemma resolved_accepted id t :
  Replays rules log s → prior_find (prior_of log) id = Some t → id ∈ accepted_records s →
  accepted_in log t ∧ rec_id t = id.
Proof.
  intros Hlog Ht Hid. rewrite prior_of_find in Ht.
  destruct (accepted_records_find rules log s id Hlog Hid) as (t' & Ht' & E & Hf). naive_solver congruence.
Qed.

Lemma resolve_candidate_causes id reason :
  resolve_candidate id r (prior_of log) s = inl reason → reason = ReasonCode.PayloadRefUnresolved.
Proof. unfold resolve_candidate. repeat case_match; by intros [= <-]. Qed.

Lemma candidate_causes d refs reason :
  Built rules log s author (PCandidate d) refs r →
  artifact_refs_well_formed (default [] (cd_artifacts d)) = true →
  check_candidate r (prior_of log) rules s = Some reason →
  reason ∈ [ReasonCode.SourceBindingInvalid; ReasonCode.PayloadRefUnresolved;
    ReasonCode.RefUnresolved; ReasonCode.LineageInvalid].
Proof.
  intros Hb Hart. pose proof (bt_log _ _ _ _ _ _ _ Hb) as Hlog.
  destruct (bt_carries _ _ _ _ _ _ _ Hb) as (_ & Hd & _). unfold check_candidate. rewrite Hd.
  assert (match cd_artifacts d with Some artifacts => negb (artifact_refs_well_formed artifacts) | None => false end
    = false) as -> by (destruct (cd_artifacts d); [by apply negb_false_iff | done]).
  case_match; [intros [= <-]; set_solver|].
  destruct (match cd_parent d with Some _ => _ | None => None end) as [e|] eqn:Ep.
  { intros [= <-]. destruct (cd_parent d) as [parent|]; [|done].
    destruct (resolve_candidate _ _ _ _) eqn:Er; [|done]. injection Ep as <-.
    apply resolve_candidate_causes in Er as ->. set_solver. }
  destruct (mapM _ _) as [causes|] eqn:Ec; [|intros [= <-]; set_solver].
  destruct (cd_basis d).
  - repeat case_match; intros [= <-]; set_solver.
  - destruct causes as [|anchor [|]]; try (intros [= <-]; set_solver).
    destruct (_ || _) eqn:Ea; [intros [= <-]; set_solver|]. apply orb_false_iff in Ea as [Ek Ea].
    apply negb_false_iff, bool_decide_eq_true in Ek, Ea.
    destruct (_ && _); [intros [= <-]; set_solver|].
    destruct (cd_parent d); [|intros [= <-]; set_solver].
    assert (Hanchor : accepted_in log anchor).
    { apply mapM_Some in Ec. inversion Ec as [|x ? ? ? Et _]; subst. cbv beta in Et.
      pose proof Et as Hf. rewrite prior_of_find in Hf. apply find_first_Some in Hf as [_ Hid].
      apply (resolved_accepted (ref_target x) anchor Hlog Et). by rewrite <- Hid. }
    destruct (accepted_selection_decodes anchor Hlog Hanchor Ek) as [sd ->].
    repeat case_match; intros [= <-]; set_solver.
  - repeat case_match; intros [= <-]; set_solver.
Qed.

Lemma built_uses x refs id :
  Built rules log s author x refs r → mk_ref RefType.Use id ∈ refs → uses r id = true.
Proof.
  intros Hb Hin. unfold uses. apply existsb_exists. exists (mk_ref RefType.Use id). split.
  - apply list_elem_of_In. rewrite (bt_refs _ _ _ _ _ _ _ Hb). by apply elem_of_sort_and_dedup_refs.
  - unfold is_type. simpl. by rewrite !bool_decide_true.
Qed.

Lemma evaluation_causes d refs reason :
  Built rules log s author (PEvaluation d) refs r → mk_ref RefType.Use (ev_candidate d) ∈ refs →
  check_evaluation r (prior_of log) rules s = Some reason →
  reason = ReasonCode.PayloadRefUnresolved ∨ sha256_collision.
Proof.
  intros Hb Huse. destruct (bt_carries _ _ _ _ _ _ _ Hb) as (Hs & Hd & _). unfold check_evaluation.
  rewrite Hs. repeat other_schema. cbn [orb]. rewrite Hd.
  destruct (resolve_candidate _ _ _ _) eqn:Er.
  { intros [= <-]. apply resolve_candidate_causes in Er as ->. by left. }
  rewrite (built_uses _ _ _ Hb Huse). done.
Qed.

Lemma evaluation_v2_causes d refs reason :
  Built rules log s author (PEvaluationV2 d) refs r →
  mk_ref RefType.Use (e2_candidate d) ∈ refs → db_id (e2_evaluator d) ≠ "" →
  artifact_refs_well_formed (e2_evidence d) = true → strictly_increasing (e2_requirements d) = true →
  (∀ id, id ∈ e2_requirements d →
     is_record_of Kind.Requirement log s id = true ∧ mk_ref RefType.Use id ∈ refs) →
  check_evaluation r (prior_of log) rules s = Some reason →
  reason ∈ [ReasonCode.SignatureMissing; ReasonCode.SignatureInvalid; ReasonCode.PayloadRefUnresolved].
Proof.
  intros Hb Huse Hid Hart Hsorted Hreqs. destruct (bt_carries _ _ _ _ _ _ _ Hb) as (Hs & Hd & _).
  unfold check_evaluation.
  destruct (_ || _) eqn:Eo; [|by apply orb_false_iff in Eo as [E1%bool_decide_eq_false E2%bool_decide_eq_false];
    destruct Hs].
  unfold check_evaluation_v2. rewrite Hd.
  match goal with |- (match ?m with Some _ => _ | None => _ end) = _ → _ => destruct m as [e|] eqn:Esig end.
  { intros [= <-]. repeat case_match; simplify_eq; set_solver. }
  destruct (resolve_candidate _ _ _ _) eqn:Er.
  { intros [= <-]. apply resolve_candidate_causes in Er as ->. set_solver. }
  rewrite (built_uses _ _ _ Hb Huse), bool_decide_false, Hart, Hsorted by done. cbn [negb].
  intros (rid & Hrid & Hf)%first_some_Some. destruct (Hreqs rid Hrid) as [Hrec Hruse].
  destruct (record_of_resolves Kind.Requirement rid (bt_log _ _ _ _ _ _ _ Hb)
    (bt_ids _ _ _ _ _ _ _ Hb) Hrec) as (t & Ht & _ & Htid & Htk & Htsp & Hacc).
  rewrite Ht, Htk, Htsp, Htid, (bt_space _ _ _ _ _ _ _ Hb), !bool_decide_true in Hf by done.
  cbn [negb andb] in Hf. by rewrite (built_uses _ _ _ Hb Hruse) in Hf.
Qed.

Lemma requirement_causes d req reason :
  Built rules log s author (PRequirement d) [mk_ref RefType.Cause req] r →
  is_record_of Kind.Request log s req = true → rm_key d ≠ "" → rm_description d ≠ "" →
  role_default author = inr (rm_provenance d) →
  check_requirement r (prior_of log) s = Some reason → reason = ReasonCode.RequirementInvalid.
Proof.
  intros Hb Hrec Hkey Hdesc Hrole. destruct (bt_carries _ _ _ _ _ _ _ Hb) as (_ & Hd & _).
  unfold check_requirement. rewrite Hd, !bool_decide_false by done. cbn [orb].
  rewrite (bt_type _ _ _ _ _ _ _ Hb).
  assert (match rm_provenance d with
    | Provenance.UserAuthored => author_type author =? AuthorType.User
    | Provenance.Derived => (author_type author =? AuthorType.Provider) || (author_type author =? AuthorType.System)
    end = true) as ->.
  { unfold role_default in Hrole.
    destruct (author_type author); first [discriminate Hrole | injection Hrole as <-; done]. }
  cbn [negb]. unfold cause_refs. rewrite (bt_refs _ _ _ _ _ _ _ Hb). simpl.
  destruct (record_of_resolves Kind.Request req (bt_log _ _ _ _ _ _ _ Hb)
    (bt_ids _ _ _ _ _ _ _ Hb) Hrec) as (t & Ht & _). rewrite Ht.
  repeat case_match; by intros [= <-].
Qed.

Lemma request_causes d :
  Built rules log s author (PRequest d) [] r → rq_parent_request_id d = None →
  check_request r (prior_of log) s = None.
Proof.
  intros Hb Hp. destruct (bt_carries _ _ _ _ _ _ _ Hb) as (_ & Hd & _).
  unfold check_request, cause_refs. rewrite Hd, (bt_refs _ _ _ _ _ _ _ Hb), Hp. done.
Qed.

Lemma retraction_causes reason refs d :
  Built rules log s author (PRetraction d) refs r →
  check_retraction r (prior_of log) rules s = Some reason →
  reason ∈ [ReasonCode.InvalidPayload; ReasonCode.RefUnresolved; ReasonCode.AuthorRoleInvalid].
Proof. intros _. unfold check_retraction. repeat case_match; intros [= <-]; set_solver. Qed.

(** ** Selections *)

Lemma accepted_evaluation_summary t :
  kind_schema_map rules = frozen_kind_schema_map →
  Replays rules log s → accepted_in log t → rec_kind t = Kind.Evaluation →
  is_Some (evaluation_summary (rec_schema t) (rec_data t)) ∨ sha256_collision.
Proof.
  intros Hmap Hlog Ht Hk. destruct (accepted_passed t Hlog Ht) as (l1 & s1 & _ & Hp).
  pose proof (p_schema _ _ _ _ Hp) as Hsch. pose proof (p_payload _ _ _ _ Hp) as Hpay.
  rewrite Hk, Hmap in Hsch. apply fold_insert_lookup in Hsch as [(n & Hn & Es)|?]; [|by rewrite lookup_empty in *].
  assert (n ∈ [SCHEMA_EVALUATION; SCHEMA_EVALUATION_V2; SCHEMA_EVALUATION_ATTESTED]) as Hn'.
  { rewrite !elem_of_cons in Hn. repeat destruct Hn as [[=]|Hn]; subst; set_solver. }
  unfold evaluation_summary. revert Hpay. unfold check_payload_decode. rewrite <- Es.
  assert (∀ (A : Type) (D : Decode A) (S : Serialize A) data,
    (if decodes_canonically A data then None else Some ReasonCode.InvalidPayload) = None →
    is_Some (decode data : option A)) as Hdec.
  { intros A D S data. unfold decodes_canonically. destruct (decode data); [by eexists | done]. }
  repeat (apply elem_of_cons in Hn' as [->|Hn']; [|]); [| | |by apply elem_of_nil in Hn'];
    repeat other_schema; cbn [orb]; rewrite ?bool_decide_true by done; cbn [orb]; intros Hpay; left.
  - destruct (Hdec EvaluationData _ _ _ Hpay) as [d ->]. by eexists.
  - destruct (Hdec EvaluationDataV2 _ _ _ Hpay) as [d ->]. by eexists.
  - destruct (Hdec EvaluationDataV2 _ _ _ Hpay) as [d ->]. by eexists.
Qed.

Lemma replacement_causes x refs reason :
  Built rules log s author x refs r →
  (∀ a b, a ∈ refs → b ∈ refs → ref_type a = RefType.Replace → ref_type b = RefType.Replace → a = b) →
  rec_kind r = Kind.Selection ∨ (∀ a, a ∈ refs → ref_type a ≠ RefType.Replace) →
  check_replacement r (prior_of log) s = Some reason →
  reason = ReasonCode.ReplacementInvalid ∧ rec_kind r = Kind.Selection.
Proof.
  intros Hb Hone Hk. unfold check_replacement.
  destruct (filter _ _) as [|a [|b l]] eqn:Ef; [done|..].
  - assert (rec_kind r = Kind.Selection) as Hsel.
    { destruct Hk as [|Hno]; [done|]. assert (a ∈ filter (λ x, ref_type x = RefType.Replace) (rec_refs r)) as Ha
        by (rewrite Ef; left).
      apply list_elem_of_filter in Ha as [Hr Ha]. rewrite (bt_refs _ _ _ _ _ _ _ Hb) in Ha.
      rewrite elem_of_sort_and_dedup_refs in Ha. by destruct (Hno a Ha Hr). }
    rewrite Hsel. cbn [is_replaceable negb].
    destruct (prior_find _ _) as [t|]; [|by intros [= <-]].
    destruct (negb _); [by intros [= <-]|]. destruct (negb _); [by intros [= <-]|].
    unfold check_replacement_compatibility. by rewrite Hsel.
  - exfalso. assert (NoDup (filter (λ x, ref_type x = RefType.Replace) (rec_refs r))) as Hnd.
    { apply NoDup_filter, strictly_increasing_NoDup. rewrite (bt_refs _ _ _ _ _ _ _ Hb).
      apply sort_and_dedup_refs_strict. }
    assert (∀ c, c ∈ filter (λ x, ref_type x = RefType.Replace) (rec_refs r) →
      ref_type c = RefType.Replace ∧ c ∈ refs) as Hin.
    { intros c (Hr & Hc)%list_elem_of_filter. split; [done|]. rewrite (bt_refs _ _ _ _ _ _ _ Hb) in Hc.
      by rewrite elem_of_sort_and_dedup_refs in Hc. }
    rewrite Ef in Hnd, Hin. destruct (Hin a) as [Ha Ha']; [set_solver|].
    destruct (Hin b) as [Hb1 Hb2]; [set_solver|].
    pose proof (Hone a b Ha' Hb2 Ha Hb1) as ->. apply NoDup_cons in Hnd as [Hnd _]. set_solver.
Qed.

(** A replacement that passed replaces an accepted selection. *)
Lemma replaced_selection id t :
  Replays rules log s → rec_kind r = Kind.Selection → check_replacement r (prior_of log) s = None →
  find_ref RefType.Replace (rec_refs r) = Some id → prior_find (prior_of log) id = Some t →
  accepted_in log t ∧ rec_kind t = Kind.Selection.
Proof.
  intros Hlog Hk Hc Hf Ht. unfold find_ref in Hf.
  destruct (list_find _ _) as [[i x]|] eqn:Efind; [|done]. injection Hf as <-.
  apply list_find_Some in Efind as (Hi & Hx & _).
  assert (x ∈ filter (λ x, ref_type x = RefType.Replace) (rec_refs r)) as Hin.
  { apply list_elem_of_filter. split; [done|]. by eapply list_elem_of_lookup_2. }
  unfold check_replacement in Hc. destruct (filter _ _) as [|a [|b l]]; [by apply elem_of_nil in Hin| |done].
  apply list_elem_of_singleton in Hin as ->. destruct (negb _); [done|]. rewrite Ht in Hc.
  destruct (rec_id t ∈? accepted_records s) eqn:Ha; [|done]. apply bool_decide_eq_true in Ha.
  cbn [negb] in Hc. case_bool_decide as Htk; [|done]. split; [|congruence].
  rewrite prior_of_find in Ht. apply find_first_Some in Ht as Hid. destruct Hid as [_ Hid].
  rewrite <- prior_of_find in Ht. apply (resolved_accepted (ref_target a) t Hlog Ht). by rewrite <- Hid.
Qed.

Lemma considered_accepted d c :
  Replays rules log s →
  first_some (λ cid, try? _ := resolve_candidate cid r (prior_of log) s;; None) (sl_considered d) = None →
  c ∈ sl_considered d → ∃ t, prior_find (prior_of log) c = Some t ∧ accepted_in log t ∧ rec_kind t = Kind.Candidate.
Proof.
  intros Hlog Hall Hc. rewrite first_some_None, Forall_forall in Hall. specialize (Hall c Hc). cbv beta in Hall.
  destruct (resolve_candidate _ _ _ _) as [|t] eqn:Er; [done|]. unfold resolve_candidate in Er.
  destruct (prior_find (prior_of log) c) as [x|] eqn:Ex; [|done].
  destruct (_ && _) eqn:Eb; [|done]. injection Er as ->. bool_simpl. exists t. split; [done|].
  rewrite prior_of_find in Ex. apply find_first_Some in Ex as Hid. destruct Hid as [_ Hid].
  rewrite <- prior_of_find in Ex. split; [|done]. apply (resolved_accepted c t Hlog Ex). by rewrite <- Hid.
Qed.

Lemma winners_causes d n reason :
  Replays rules log s →
  first_some (λ cid, try? _ := resolve_candidate cid r (prior_of log) s;; None) (sl_considered d) = None →
  selection_winners d n (prior_of log) rules = inl reason → reason = ReasonCode.SelectionInvalid.
Proof.
  intros Hlog Hall. unfold selection_winners. destruct (sl_outcome d) as [candidates|]; [|done].
  destruct (_ || _) eqn:Ew; [by intros [= <-]|]. rewrite !orb_false_iff, negb_false_iff in Ew.
  destruct Ew as [_ Hsub%negb_false_iff%bool_decide_eq_true].
  match goal with |- (match ?m with Some _ => _ | None => _ end) = _ → _ => destruct m as [e|] eqn:Em end;
    [|destruct (_ && _); [by intros [= <-] | done]].
  intros [= <-]. destruct (min_binding rules =? BindingMode.Manifest); [|done].
  apply first_some_Some in Em as (c & Hc & Em). unfold btree_members in Hc.
  rewrite elem_of_sort_by, elem_of_elements in Hc. apply Hsub, elem_of_list_to_set in Hc.
  destruct (considered_accepted d c Hlog Hall Hc) as (t & Ht & Hacc & Hk). rewrite Ht in Em.
  destruct (accepted_candidate_decodes t Hlog Hacc Hk) as [cd Hcd]. rewrite Hcd in Em.
  destruct (negb _); [by injection Em | done].
Qed.

Lemma approval_causes d reason :
  Replays rules log s → resolve_selection_approval r d (prior_of log) rules s = inl reason →
  reason = ReasonCode.ApprovalMissing ∨ reason = ReasonCode.ApprovalExpired.
Proof.
  intros Hlog. unfold resolve_selection_approval. destruct (negb _); [done|].
  destruct (selection_subject_hash (author_id (rec_author r)) (find_ref RefType.Replace (rec_refs r)) d)
    as [h ->].
  destruct (valid_approvals s !! h) as [a|] eqn:Ea; [|intros [= <-]; by left].
  destruct (negb _); [intros [= <-]; by left|]. destruct (negb _); [intros [= <-]; by left|].
  destruct (prior_find _ a) as [t|] eqn:Et; [|intros [= <-]; by left].
  destruct (replays_authority rules log s Hlog) as (_ & B2 & _ & _).
  destruct (B2 h a Ea) as (ad & (x & Hx & Hid & _ & Hdec) & _).
  assert (x = t) as ->.
  { rewrite prior_of_find in Et. pose proof (accepted_find rules log s x Hlog Hx) as Hf.
    rewrite Hid in Hf. congruence. }
  rewrite Hdec. destruct (negb _); [intros [= <-]; by left|].
  destruct (expired _ _); [intros [= <-]; by right | done].
Qed.

Lemma selection_causes d refs reason :
  kind_schema_map rules = frozen_kind_schema_map →
  Built rules log s author (PSelection d) refs r →
  check_replacement r (prior_of log) s = None → check_selection r (prior_of log) rules s = Some reason →
  reason ∈ [ReasonCode.SelectionInvalid; ReasonCode.PayloadRefUnresolved; ReasonCode.ApprovalMissing;
    ReasonCode.ApprovalExpired; ReasonCode.ReaffirmationInvalid] ∨ sha256_collision.
Proof.
  intros Hmap Hb Hrep. pose proof (bt_log _ _ _ _ _ _ _ Hb) as Hlog.
  destruct (bt_carries _ _ _ _ _ _ _ Hb) as (_ & Hd & _). unfold check_selection. rewrite Hd.
  destruct (_ || _); [intros [= <-]; left; set_solver|]. cbv zeta.
  destruct (negb _); [intros [= <-]; left; set_solver|].
  destruct (first_some _ (sl_considered d)) as [e|] eqn:Hall.
  { intros [= <-]. apply first_some_Some in Hall as (c & _ & Hc).
    destruct (resolve_candidate _ _ _ _) eqn:Er; [|done]. injection Hc as <-.
    apply resolve_candidate_causes in Er as ->. left; set_solver. }
  destruct (first_some _ (omap _ _)) as [e|] eqn:Hev.
  { intros [= <-]. apply first_some_Some in Hev as (o & Ho & Hev).
    destruct o as [subject|]; [destruct (negb _); [injection Hev as <-; left; set_solver | done]|].
    apply list_elem_of_omap in Ho as (x & _ & Hx). unfold used_evaluation in Hx.
    destruct (is_type _ _); [|done]. destruct (prior_find _ _) as [t|] eqn:Et; [|done].
    destruct (_ && _) eqn:Eb; [|done]. bool_simpl.
    rewrite prior_of_find in Et. apply find_first_Some in Et as Hid. destruct Hid as [_ Hid].
    rewrite <- prior_of_find in Et.
    destruct (resolved_accepted (ref_target x) t Hlog Et) as [Hacc _]; [by rewrite <- Hid|].
    destruct (accepted_evaluation_summary t Hmap Hlog Hacc) as [[y Hy]|]; [done| |by right].
    by rewrite Hy in Hx. }
  destruct (selection_winners _ _ _ _) as [e|winners] eqn:Hw.
  { intros [= <-]. apply winners_causes in Hw as ->; [left; set_solver | done..]. }
  destruct (resolve_selection_approval _ _ _ _ _) as [e|approval] eqn:Ha.
  { intros [= <-]. apply approval_causes in Ha as [->| ->]; [left; set_solver.. | done]. }
  destruct (negb _); [intros [= <-]; left; set_solver|].
  destruct (find_ref RefType.Replace (rec_refs r)) as [id|] eqn:Ef; [|done].
  match goal with |- (match ?m with Some _ => _ | None => _ end) = _ → _ => destruct m as [e|] eqn:Em end.
  - intros [= <-]. destruct (prior_find _ id) as [t|] eqn:Et; [|done].
    destruct (replaced_selection id t Hlog (bt_kind _ _ _ _ _ _ _ Hb) Hrep Ef Et) as [Hacc Hk].
    destruct (accepted_selection_decodes t Hlog Hacc Hk) as [td Htd]. rewrite Htd in Em.
    destruct (negb _); [injection Em as <-; left; set_solver | done].
  - destruct (_ && _); [intros [= <-]; left; set_solver | done].
Qed.
End left.

Section shapes_of_refs.
Context `{Primitives, Serde, HashOrder, RecordParser, TextFormat, ReceiptParser, RulesParser}.

(** A selection replaces at most one other. *)
Lemma selection_shape p d refs :
  selection_data p = inr (d, refs) →
  ∀ a b, a ∈ refs → b ∈ refs → ref_type a = RefType.Replace → ref_type b = RefType.Replace → a = b.
Proof.
  unfold selection_data. intros Hd. apply result_bind_ok in Hd as (objective & _ & Hd).
  apply result_bind_ok in Hd as (ids & _ & Hd). apply result_bind_ok in Hd as (considered & _ & Hd).
  destruct (eqb _ _); [done|]. apply result_bind_ok in Hd as ([outcome l] & Hl & Hd).
  apply result_bind_ok in Hd as (replaces & Hreplaces & [= <- <-]).
  assert (∀ a, a ∈ l → ref_type a ≠ RefType.Replace) as Hno.
  { unfold selection_outcome in Hl. destruct (multis p !! "choose") as [ws|]; [|injection Hl as <- <-; set_solver].
    apply result_bind_ok in Hl as (winners & _ & Hl). apply result_bind_ok in Hl as (evals & _ & Hl).
    apply result_bind_ok in Hl as (us & _ & [= <- <-]).
    intros a [(y & -> & _)%list_elem_of_fmap|(y & -> & _)%list_elem_of_fmap]%elem_of_app; done. }
  assert (∃ o : option RecordId, replaces = mk_ref RefType.Replace <$> option_list o) as [o ->].
  { destruct (singles p !! "replaces"); [|exists None; by injection Hreplaces].
    apply result_bind_ok in Hreplaces as (t & _ & [= <-]). by exists (Some t). }
  intros a b [Ha|Ha]%elem_of_app [Hb|Hb]%elem_of_app Ta Tb; try (by destruct (Hno a)); try (by destruct (Hno b)).
  destruct o as [t|]; set_solver.
Qed.
End shapes_of_refs.

Section no_replace.
Context `{Primitives, Serde, HashOrder, RecordParser, TextFormat, ReceiptParser, RulesParser}.

Lemma no_replacement {rules log s author r} x refs e :
  Built rules log s author x refs r → check_replacement r (prior_of log) s = Some e →
  (∀ a, a ∈ refs → ref_type a ≠ RefType.Replace) → payload_kind x ≠ Kind.Selection → False.
Proof.
  intros Hb Hc Hno Hk.
  destruct (replacement_causes rules log s author r x refs e Hb) as [_ Hs]; [|by right|done|].
  - intros a b Ha _ Ta. by destruct (Hno a Ha).
  - apply Hk. by rewrite <- (bt_kind _ _ _ _ _ _ _ Hb).
Qed.

Lemma candidate_refs host p log s d refs :
  candidate_data_of host p log s = inr (d, refs) → ∀ a, a ∈ refs → ref_type a ≠ RefType.Replace.
Proof.
  unfold candidate_data_of. intros Hd. apply result_bind_ok in Hd as (algo & _ & Hd).
  apply result_bind_ok in Hd as (tree & _ & Hd). apply result_bind_ok in Hd as ([[basis par] l] & Hl & Hd).
  apply result_bind_ok in Hd as ([? ?] & _ & Hd). apply result_bind_ok in Hd as (arts & _ & [= _ <-]).
  apply Forall_forall. unfold candidate_basis, upgrade_basis in Hl.
  ok_inv Hl; try (by repeat constructor). apply Forall_fmap, Forall_true. done.
Qed.

Lemma evaluation_refs p log s x refs :
  evaluation_data p log s = inr (x, refs) → ∀ a, a ∈ refs → ref_type a ≠ RefType.Replace.
Proof.
  unfold evaluation_data. intros Hd. apply result_bind_ok in Hd as (c & _ & Hd).
  apply result_bind_ok in Hd as (crit & _ & Hd). apply result_bind_ok in Hd as (out & _ & Hd).
  destruct (_ && negb _) in Hd; [done|]. apply result_bind_ok in Hd as (reqs & _ & Hd).
  apply result_bind_ok in Hd as (extra & _ & Hd). cbv zeta in Hd.
  assert (∀ a, a ∈ mk_ref RefType.Use <$> c :: reqs ++ extra → ref_type a ≠ RefType.Replace) as Hall
    by (by intros a (y & -> & _)%list_elem_of_fmap).
  destruct (extended p); apply result_bind_ok in Hd as (d & _ & [= <- <-]); exact Hall.
Qed.
End no_replace.

(** ** The reasons left, by command *)

Definition causes (command : string) : list ReasonCode.t :=
  let signature := [ReasonCode.SignatureMissing; ReasonCode.SignatureInvalid;
    ReasonCode.EvidenceBelowThreshold] in
  let named := [ReasonCode.AuthorRoleInvalid; ReasonCode.RefUnresolved] in
  if command =? "request" then ReasonCode.AuthorRoleInvalid :: signature else
  if command =? "requirement" then ReasonCode.RequirementInvalid :: signature else
  if command =? "candidate" then
    signature ++ named ++ [ReasonCode.PayloadRefUnresolved; ReasonCode.SourceBindingInvalid;
      ReasonCode.LineageInvalid] else
  if command =? "eval" then signature ++ named ++ [ReasonCode.PayloadRefUnresolved] else
  if command =? "select" then
    signature ++ named ++ [ReasonCode.PayloadRefUnresolved; ReasonCode.SelectionInvalid;
      ReasonCode.ReplacementInvalid; ReasonCode.ReaffirmationInvalid; ReasonCode.ApprovalMissing;
      ReasonCode.ApprovalExpired]
  else signature ++ named ++ [ReasonCode.InvalidPayload].

(** A reason of a short list is one of a longer. *)
Ltac listed :=
  lazymatch goal with
  | Hc : ?reason ∈ _ |- ?reason ∈ _ => clear -Hc; set_solver
  | |- _ => clear; set_solver
  end.

Section causes_of.
Context `{Primitives, Serde, HashOrder, RecordParser, TextFormat, ReceiptParser, RulesParser}.
Context (host : Host) (rules : VerifierRules) (log : list record) (s : State) (author : Author).

(** What [check_record_causes] leaves of a record whose payload decodes. *)
Definition refused (r : record) (reason : ReasonCode.t) : Prop :=
  (reason = ReasonCode.AuthorRoleInvalid ∧
     author_type (rec_author r) ∉ allowed_author_types (rec_kind r)) ∨
  reason ∈ [ReasonCode.SignatureMissing; ReasonCode.SignatureInvalid;
    ReasonCode.EvidenceBelowThreshold] ∨
  (reason = ReasonCode.RefUnresolved ∧ ∃ x, x ∈ rec_refs r ∧
     (ref_type x = RefType.Require_ ∨ prior_find (prior_of log) (ref_target x) = None)) ∨
  check_replacement r (prior_of log) s = Some reason ∨
  (check_replacement r (prior_of log) s = None ∧
   check_kind_specific r (prior_of log) rules s = Some reason).

Lemma built_refused x refs r reason :
  kind_schema_map rules = frozen_kind_schema_map → Built rules log s author x refs r →
  check_record r (prior_of log) rules s = Some reason → refused r reason ∨ sha256_collision.
Proof.
  intros Hmap [Hlog _ Hcar Hk Hsp Hrefs Hid Ha Ht Hrole Hev] Hc.
  destruct (carried_schema x _ _ Hcar) as [Hsch|]; [|by right].
  destruct (carried_decodes x r Hcar) as [Hdec|]; [|by right].
  assert (Hverdict : rec_kind r ≠ Kind.Verdict) by (rewrite Hk; by destruct x).
  assert (Hsorted : strictly_increasing (rec_refs r) = true)
    by (rewrite Hrefs; apply sort_and_dedup_refs_strict).
  left. apply check_record_causes in Hc; try done; [|by rewrite Hmap, Hk|by rewrite Ha, Ht].
  rewrite Hdec in Hc. unfold refused. by destruct Hc as [?|[?|[?|[?|[?|?]]]]]; auto.
Qed.

(** The list of a named command. *)
Ltac expand_causes :=
  unfold causes;
  repeat first [rewrite (bool_decide_true (_ = _)) by done | rewrite (bool_decide_false (_ = _)) by done];
  cbn [app].
(** The check of the record's own kind. *)
Ltac own_check Hb Hc :=
  unfold check_kind_specific in Hc;
  rewrite (bt_kind _ _ _ _ _ _ _ Hb), ?(bt_type _ _ _ _ _ _ _ Hb) in Hc; cbn [payload_kind] in Hc.

Lemma request_refused p d r reason :
  request_data p rules = inr d → Built rules log s author (PRequest d) [] r → refused r reason →
  reason ∈ causes "request".
Proof.
  intros Hd Hb Hc. expand_causes.
  assert (rq_parent_request_id d = None) as Hp
    by (unfold request_data in Hd; by apply result_bind_ok in Hd as (o & _ & [= <-])).
  destruct Hc as [[-> _]|[Hc|[(-> & y & Hy & _)|[Hc|[_ Hc]]]]]; [listed | listed | | |].
  - rewrite (bt_refs _ _ _ _ _ _ _ Hb) in Hy. by apply elem_of_nil in Hy.
  - destruct (no_replacement _ _ _ Hb Hc); [set_solver | done].
  - own_check Hb Hc. by rewrite (request_causes rules log s author r d Hb Hp) in Hc.
Qed.

Lemma requirement_refused p req d r reason :
  requirement_data p author log s = inr (req, d) →
  Built rules log s author (PRequirement d) [mk_ref RefType.Cause req] r → refused r reason →
  reason ∈ causes "requirement".
Proof.
  intros (Hreq & Hkey & Hdesc & Hrd)%requirement_shape Hb Hc. pose proof Hb as [Hlog _ _ Hk _ Hrefs _ _ Ht _ _].
  destruct (record_of_resolves rules log s Kind.Request req Hlog (bt_ids _ _ _ _ _ _ _ Hb) Hreq)
    as (t & Hfind & _).
  expand_causes.
  destruct Hc as [[-> Hty]|[Hc|[(-> & y & Hy & Hno)|[Hc|[_ Hc]]]]]; [| listed | | |].
  - exfalso. apply Hty. rewrite Hk, Ht. unfold role_default in Hrd. clear -Hrd.
    destruct (author_type author); first [discriminate Hrd | simpl; set_solver].
  - exfalso. rewrite Hrefs, elem_of_sort_and_dedup_refs, list_elem_of_singleton in Hy. subst y.
    destruct Hno as [?|Hno]; [done|]. simpl in Hno. congruence.
  - destruct (no_replacement _ _ _ Hb Hc); [set_solver | done].
  - own_check Hb Hc. apply (requirement_causes rules log s author r d req reason Hb) in Hc as ->;
      [listed | done..].
Qed.

Lemma candidate_refused p d refs r reason :
  candidate_data_of host p log s = inr (d, refs) → Built rules log s author (PCandidate d) refs r →
  refused r reason → reason ∈ causes "candidate".
Proof.
  intros Hd Hb Hc. pose proof (candidate_shape _ _ _ _ _ _ Hd) as Hart. expand_causes.
  destruct Hc as [[-> _]|[Hc|[(-> & _)|[Hc|[_ Hc]]]]]; [listed | listed | listed | |].
  - destruct (no_replacement _ _ _ Hb Hc); [by eapply candidate_refs | done].
  - own_check Hb Hc. apply (candidate_causes rules log s author r d refs reason Hb Hart) in Hc. listed.
Qed.

Lemma evaluation_refused p d refs r reason :
  evaluation_data p log s = inr (d, refs) →
  Built rules log s author (match d with inl d => PEvaluation d | inr d => PEvaluationV2 d end) refs r →
  refused r reason → reason ∈ causes "eval" ∨ sha256_collision.
Proof.
  intros Hd Hb Hc. pose proof (evaluation_shape _ _ _ _ _ Hd) as Hshape.
  pose proof (evaluation_refs _ _ _ _ _ Hd) as Hnone. expand_causes.
  destruct Hc as [[-> _]|[Hc|[(-> & _)|[Hc|[_ Hc]]]]]; [left; listed | left; listed | left; listed | |].
  - destruct (no_replacement _ _ _ Hb Hc); [done | by destruct d].
  - destruct d as [d|d]; own_check Hb Hc.
    + apply (evaluation_causes rules log s author r d refs reason Hb Hshape) in Hc as [->|];
        [left; listed | by right].
    + destruct Hshape as (S1 & S2 & S3 & S4 & S5). left.
      apply (evaluation_v2_causes rules log s author r d refs reason Hb S1 S2 S3 S4 S5) in Hc. listed.
Qed.

Lemma selection_refused p d refs r reason :
  kind_schema_map rules = frozen_kind_schema_map →
  selection_data p = inr (d, refs) → Built rules log s author (PSelection d) refs r →
  refused r reason → reason ∈ causes "select" ∨ sha256_collision.
Proof.
  intros Hmap Hd Hb Hc. pose proof (selection_shape _ _ _ Hd) as Hone. expand_causes.
  destruct Hc as [[-> _]|[Hc|[(-> & _)|[Hc|[Hrep Hc]]]]]; [left; listed | left; listed | left; listed | left |].
  - apply (replacement_causes rules log s author r _ _ reason Hb Hone) in Hc as [-> _]; [listed | left; apply Hb].
  - own_check Hb Hc. apply (selection_causes rules log s author r d refs reason Hmap Hb Hrep) in Hc as [Hc|];
      [left; listed | by right].
Qed.

Lemma retraction_refused d refs r reason :
  (∀ a, a ∈ refs → ref_type a ≠ RefType.Replace) → Built rules log s author (PRetraction d) refs r →
  refused r reason → reason ∈ causes "retract".
Proof.
  intros Hnone Hb Hc. expand_causes.
  destruct Hc as [[-> _]|[Hc|[(-> & _)|[Hc|[_ Hc]]]]]; [listed | listed | listed | |].
  - destruct (no_replacement _ _ _ Hb Hc); done.
  - own_check Hb Hc. apply (retraction_causes rules log s author r reason _ d Hb) in Hc. listed.
Qed.

Lemma causes_other command :
  command ∉ ["request"; "requirement"; "candidate"; "eval"; "select"] → causes command = causes "retract".
Proof. intros Hc. unfold causes. rewrite !bool_decide_false by set_solver. done. Qed.

Lemma built_causes command p x refs r reason :
  kind_schema_map rules = frozen_kind_schema_map →
  payload_of host command p rules author log s = inr (x, refs) → Built rules log s author x refs r →
  check_record r (prior_of log) rules s = Some reason →
  reason ∈ causes command ∨ sha256_collision.
Proof.
  intros Hmap Hx Hb Hc. destruct (built_refused x refs r reason Hmap Hb Hc) as [Hr|]; [|by right].
  clear Hc. unfold payload_of in Hx.
  case_bool_decide as E1; [subst|case_bool_decide as E2; [subst|case_bool_decide as E3;
    [subst|case_bool_decide as E4; [subst|case_bool_decide as E5; [subst|]]]]].
  - destruct (request_data p rules) as [|d] eqn:Hd; [done|]. injection Hx as <- <-.
    left. by eapply request_refused.
  - destruct (requirement_data p author log s) as [|[req d]] eqn:Hd; [done|]. injection Hx as <- <-.
    left. by eapply requirement_refused.
  - destruct (candidate_data_of host p log s) as [|[d l]] eqn:Hd; [done|]. injection Hx as <- <-.
    left. by eapply candidate_refused.
  - destruct (evaluation_data p log s) as [|[d l]] eqn:Hd; [done|]. injection Hx as <- <-.
    by eapply evaluation_refused.
  - destruct (selection_data p) as [|[d l]] eqn:Hd; [done|]. injection Hx as <- <-.
    by eapply selection_refused.
  - destruct (retraction_data p) as [|d] eqn:Hd; [done|]. injection Hx as <- <-. left.
    rewrite causes_other by set_solver. eapply retraction_refused; [|done..]. set_solver.
Qed.
End causes_of.
