(* ===== verification/CommandTheorems.v ===== *)
(** * Properties of the log commands

    What a recording command leaves in the log and says of it, and what the
    verifier can hold against the record. *)

From S2P Require Export CommandCauses.


(** The request of a small log is retracted. *)
Module Retracting.
Definition request : record := default Approved.r1 (head Written.pair).
Definition args : list string :=
  ["--log"; "ledger"; "--rules"; "rules.json"; "--author"; "human"; "--target";
   hex_encode (rec_id request); "--reason"; "wrong"].
Definition host : Host := mk_Host (λ _, Some []) (λ _, true) (λ _, None).
#[export] Instance rules_parser : RulesParser := λ _, Some rules0.
#[export] Instance serde : Serde := serde_for
  (Build_Payloads [] [] [] [] [retraction0 (rec_id request)] [] [] [] []).
Definition disk : Disk := mk_Disk (default [] (frames Written.pair)) None None false None.
Definition parsed : Parsed := Eval vm_compute in
  match retract_args args with inr p => p | _ => nothing_parsed end.
Definition state : State := Eval vm_compute in default empty_state (build_state_unchecked Written.pair).
End Retracting.

#[local] Existing Instance Retracting.serde.
#[local] Existing Instance Retracting.rules_parser.
#[local] Existing Instance Exported.format.
#[local] Existing Instance Exported.parser.
#[local] Existing Instance Written.parser.

Lemma retracting_holds : Holds rules0 Written.pair Retracting.state Retracting.disk.
Proof.
  split.
  - assert (Hv : accepted (verify_log Written.pair rules0 None) = true) by by_vm.
    apply verify_log_sound in Hv as [s Hs]. pose proof (build_replays rules0 _ _ Hs) as Hb.
    assert (build_state_unchecked Written.pair = Some Retracting.state) as Hb' by (vm_compute; reflexivity).
    rewrite Hb' in Hb. injection Hb as ->. done.
  - vm_compute. reflexivity.
  - exact Written.reads_pair.
  - apply authors_wf_check. by_vm.
  - vm_compute. discriminate.
  - done.
  - done.
Qed.

Lemma retracting_blind proposal signer w d1 r v vd :
  intent Retracting.host Retracting.parsed (retraction_proposal Retracting.parsed) rules0 Written.pair
    Retracting.state = inr (proposal, signer) →
  Ready rules0 (mk_Machine w Retracting.state d1) → fl_records (lw_log w) = Written.pair →
  materialize proposal rules0 signer (mk_Machine w Retracting.state d1) = inr (r, v, vd) →
  self_blind rules0 Written.pair Retracting.state r.
Proof.
  intros Hi [_ _ Hindex Hclock _ _ _ _] Hw Hm. vm_compute in Hi. injection Hi as <- <-.
  destruct w as [[records index max] ts rh rr]. unfold records_of, fl_last_time in *.
  cbn [mc_writer lw_log fl_records fl_index lw_time_source] in *. subst.
  vm_compute in Hm. injection Hm as <- <- <-. vm_compute. reflexivity.
Qed.

Lemma evolution_retract `{Primitives, Serde, HashOrder, RecordParser, TextFormat, ReceiptParser, RulesParser}
    host rest :
  evolution_command host "retract" rest = Some (cmd_retract host rest).
Proof. reflexivity. Qed.

Lemma retracting_recorder :
  recorder Retracting.host "retract" Retracting.args =
    Some (inr (Retracting.parsed, retraction_proposal Retracting.parsed)).
Proof. vm_compute. reflexivity. Qed.
Lemma retracting_loads : load_rules Retracting.host Retracting.parsed = inr rules0.
Proof. reflexivity. Qed.
Lemma retracting_in_log : is_Some (singles Retracting.parsed !! "log").
Proof. exists "ledger". vm_compute. reflexivity. Qed.
Lemma retracting_rules : is_Some (sha256_canonical rules0).
Proof. vm_compute. by eexists. Qed.
Lemma retracting_names : names_wf rules0.
Proof. apply names_check. by_vm. Qed.
Lemma retracting_exits :
  (cmd_evolution (cmd_retract Retracting.host Retracting.args) Retracting.disk).2.1 = 0%N.
Proof. vm_compute. reflexivity. Qed.



(** A candidate whose tree is no object id. *)
Module Proposing.
Definition candidate : CandidateData :=
  mk_CandidateData (mk_SourceBinding (mk_GitSource SourceAlgo.Sha1 "main" None) None BindingMode.Reported)
    CandidateBasis.Root None None None.
Definition args : list string :=
  ["add"; "--log"; "ledger"; "--rules"; "rules.json"; "--author"; "agent"; "--git-tree"; "main"].
#[export] Instance serde : Serde := serde_for (Build_Payloads [] [] [] [] [] [] [] [candidate] []).
Definition parsed : Parsed := Eval vm_compute in
  match candidate_args args with inr p => p | _ => nothing_parsed end.
Definition proposal : Proposal := Eval vm_compute in
  match intent Retracting.host parsed (candidate_proposal Retracting.host parsed) rules0 [] empty_state with
  | inr (proposal, _) => proposal
  | _ => Written.request
  end.
End Proposing.

#[local] Existing Instance Proposing.serde.

Lemma proposing_ready : Ready rules0 (mk_Machine (mc_writer Written.start) empty_state (mc_disk Written.start)).
Proof.
  split; [constructor | vm_compute; reflexivity.. | by vm_compute |].
  apply authors_wf_check. by_vm.
Qed.

Lemma parse_one_alone `{Serialize A} (x : A) b y : parse_one_of [x] b = Some y → y = x.
Proof.
  unfold parse_one_of. rewrite fmap_Some. intros ([i z] & Hz & ->).
  apply list_find_Some in Hz as (Hz & _ & _). apply list_elem_of_lookup_2 in Hz.
  by apply list_elem_of_singleton in Hz.
Qed.

Lemma proposing_reads author x refs :
  payload_of Retracting.host "candidate" Proposing.parsed rules0 author [] empty_state = inr (x, refs) →
  payload_reads x.
Proof.
  intros Hx. vm_compute in Hx. injection Hx as <- _. intros b y _ Hy. exact (parse_one_alone _ _ _ Hy).
Qed.

Lemma proposing_recorder :
  recorder Retracting.host "candidate" Proposing.args =
    Some (inr (Proposing.parsed, candidate_proposal Retracting.host Proposing.parsed)).
Proof. vm_compute. reflexivity. Qed.
Lemma proposing_intent :
  intent Retracting.host Proposing.parsed (candidate_proposal Retracting.host Proposing.parsed) rules0 []
    empty_state = inr (Proposing.proposal, None).
Proof. vm_compute. reflexivity. Qed.
Lemma proposing_materializes : ∃ r v, materialize Proposing.proposal rules0 None
    (mk_Machine (mc_writer Written.start) empty_state (mc_disk Written.start)) =
  inr (r, v, mk_VerdictData VerdictResult.Reject (Some ReasonCode.SourceBindingInvalid)).
Proof. eexists _, _. vm_compute. reflexivity. Qed.


(** ** A flag taken for a value

    [parse] takes the next token of a single-value flag as its value unless that
    token is a declared flag.  [--sign-key] is accepted by every command and
    declared by none, so a flag before it takes it as its value; the key file
    that follows becomes a positional, which a recording command ignores. *)
Section swallowed.
Context (single multi bool_ : list string).

Lemma sign_key_is_swallowed name v rest p :
  "sign-key" ∉ single → "sign-key" ∉ multi → "sign-key" ∉ bool_ →
  name ∈ single → name ∉ multi → name ∉ bool_ → singles p !! name = None → strip_dashes v = None →
  parse_from single multi bool_ (("--" ++ name)%string :: "--sign-key" :: v :: rest) p =
  parse_from single multi bool_ rest
    (mk_Parsed (<[name := "--sign-key"]> (singles p)) (multis p) (bools p) (positionals p ++ [v])).
Proof.
  intros Hs Hm Hb Hname Hnm Hnb Hp Hv. cbn [parse_from]. change (strip_dashes ("--" ++ name)) with (Some name).
  cbn beta iota. rewrite (bool_decide_false (name ∈ bool_)), (bool_decide_false (name ∈ multi)),
    (bool_decide_true (name ∈ single)) by done. cbn [orb].
  assert (is_flag single multi bool_ "--sign-key" = false) as ->.
  { unfold is_flag. change (strip_dashes "--sign-key") with (Some "sign-key"). cbn iota.
    by rewrite !bool_decide_false by done. }
  rewrite Hp. cbn [is_Some_b]. by rewrite Hv.
Qed.
End swallowed.

(** Meant to be signed, the retraction is committed without a signature. *)
Module Unsigned.
Definition args : list string :=
  ["--log"; "ledger"; "--rules"; "rules.json"; "--author"; "human"; "--target";
   hex_encode (rec_id Retracting.request); "--reason"; "--sign-key"; "secret.hex"].
#[export] Instance serde : Serde := serde_for
  (Build_Payloads [] [] [] [] [mk_RetractionData (rec_id Retracting.request) "--sign-key"] [] [] [] []).
Definition run : Disk * (N * (CmdError.t + CmdOutput.t)) :=
  cmd_evolution (cmd_retract Retracting.host args) Retracting.disk.
End Unsigned.

Example unsigned_retraction :
  Unsigned.run.2.1 = 0%N ∧
  ∃ p, retract_args Unsigned.args = inr p ∧ signer_from Retracting.host p = inr None.
Proof. split; [vm_compute; reflexivity|]. eexists. split; vm_compute; reflexivity. Qed.
